(** * Corpus preparation for punctuation and capitalization data

    A shallow embedding of parts of
    [prepare_big_data_for_punctuation_capitalization_task_simple.py] and of
    the progress consumer of [punctuation_capitalization_dataset.py],
    with the properties of the design document checked against them.

    Conventions.
    - A Python [str] is a list of Unicode code points ([N]); a file opened
      in text mode is the list of the code points it decodes to, and its
      byte length is the length of its UTF-8 encoding.
    - Python [int] is [Z]; list indices and lengths are [nat].
    - A function that can raise returns a [result]. *)

From Stdlib Require Import ZArith NArith List Ascii String Lia Permutation Bool.
From Stdlib Require Import DecimalString.
From stdpp Require Import base option list gmap sorting.

Local Open Scope Z_scope.

(** ** Python values *)

Abbreviation str := (list N) (only parsing).

(** A string literal of the source, as code points. *)
Definition lit (s : string) : str := map N_of_ascii (list_ascii_of_string s).

Definition NL : N := 10%N.
Definition SPACE : N := 32%N.
Definition DQUOTE : N := 34%N.

(** Exceptions; a [ValueError] carries its message. *)
Inductive exn : Type :=
| ValueError (msg : str)
| AssertionError
| ZeroDivisionError
| IndexError
| KeyError.

(** The outcome of a call: a value, an exception, or [OutOfFuel] when a
    [while] loop of the model was cut short; the latter is shown not to
    happen wherever a property depends on it. *)
Inductive result (A : Type) : Type :=
| Ok (a : A)
| Raise (e : exn)
| OutOfFuel.
Arguments Ok {A} a.
Arguments Raise {A} e.
Arguments OutOfFuel {A}.

#[global] Instance result_bind : MBind result := fun A B k r =>
  match r with
  | Ok a => k a
  | Raise e => Raise e
  | OutOfFuel => OutOfFuel
  end.

#[global] Instance result_ret : MRet result := fun A a => Ok a.

(** [str(n)] for an [int]. *)
Definition str_of_int (z : Z) : str := lit (NilEmpty.string_of_int (Z.to_int z)).

(** A [for] loop whose body may raise. *)
Fixpoint for_each {S A : Type} (body : S -> A -> result S) (l : list A) (s : S) : result S :=
  match l with
  | [] => Ok s
  | x :: l' => s' ← body s x; for_each body l' s'
  end.

(** [l[i]] for a non-negative index. *)
Definition getitem {A} (l : list A) (i : nat) : result A :=
  match l !! i with
  | Some x => Ok x
  | None => Raise IndexError
  end.

Definition zlen {A} (l : list A) : Z := Z.of_nat (length l).

Definition sumZ (l : list Z) : Z := foldr Z.add 0 l.

(** ** String primitives of Python used by the scripts *)

Fixpoint drop_while {A} (p : A -> bool) (l : list A) : list A :=
  match l with
  | [] => []
  | x :: l' => if p x then drop_while p l' else l
  end.

Fixpoint take_while {A} (p : A -> bool) (l : list A) : list A :=
  match l with
  | [] => []
  | x :: l' => if p x then x :: take_while p l' else []
  end.

Definition mem_char (cs : str) (c : N) : bool := existsb (N.eqb c) cs.

Fixpoint startswith (pre s : str) : bool :=
  match pre, s with
  | [], _ => true
  | _ :: _, [] => false
  | a :: pre', b :: s' => N.eqb a b && startswith pre' s'
  end.

Definition endswith (suf s : str) : bool := startswith (rev suf) (rev s).

(** [s.rstrip(chars)] and [s.lstrip(chars)] for an explicit set of characters. *)
Definition rstrip_chars (cs s : str) : str := rev (drop_while (mem_char cs) (rev s)).
Definition lstrip_chars (cs s : str) : str := drop_while (mem_char cs) s.

(** [str.isspace] on one code point: the characters removed by [strip()],
    [lstrip()] and separating the fields of [split()]. *)
Definition is_space (c : N) : bool :=
  ((9 <=? c) && (c <=? 13) || (28 <=? c) && (c <=? 32) || (c =? 133) || (c =? 160)
   || (c =? 5760) || (8192 <=? c) && (c <=? 8202) || (c =? 8232) || (c =? 8233)
   || (c =? 8239) || (c =? 8287) || (c =? 12288))%N.

Definition lstrip (s : str) : str := drop_while is_space s.
Definition rstrip (s : str) : str := rev (drop_while is_space (rev s)).
Definition strip (s : str) : str := lstrip (rstrip s).

(** [sep.join(parts)] *)
Fixpoint join (sep : str) (parts : list str) : str :=
  match parts with
  | [] => []
  | [p] => p
  | p :: ps => p ++ sep ++ join sep ps
  end.

(** [s.find(sub) >= 0], i.e. [sub in s]. *)
Fixpoint contains (sub s : str) : bool :=
  startswith sub s ||
  match s with
  | [] => false
  | _ :: s' => contains sub s'
  end.

(** [s.index(sub)] when [sub in s]: offset of the first occurrence. *)
Fixpoint index_of (sub s : str) : nat :=
  if startswith sub s then 0%nat
  else match s with
       | [] => 0%nat
       | _ :: s' => S (index_of sub s')
       end.

(** [s.count(sep)]: occurrences of a non-empty [sep], left to right, without
    overlap. [skip] is the number of characters of a found occurrence still to
    be passed over. *)
Fixpoint count_from (sep : str) (skip : nat) (s : str) : nat :=
  match s with
  | [] => 0%nat
  | _ :: s' =>
      match skip with
      | S k => count_from sep k s'
      | O => if startswith sep s then S (count_from sep (length sep - 1) s')
             else count_from sep 0 s'
      end
  end.

Definition count (sep s : str) : nat := count_from sep 0 s.

(** [s.split(sep)] for a non-empty [sep]. [cur] is the piece being read, in
    reverse. *)
Fixpoint split_from (sep : str) (skip : nat) (cur : str) (s : str) : list str :=
  match s with
  | [] => [rev cur]
  | c :: s' =>
      match skip with
      | S k => split_from sep k cur s'
      | O => if startswith sep s then rev cur :: split_from sep (length sep - 1) [] s'
             else split_from sep 0 (c :: cur) s'
      end
  end.

Definition split (sep s : str) : list str := split_from sep 0 [] s.

(** [s.split()]: the maximal runs of non-space characters. *)
Fixpoint split_ws_from (cur : str) (s : str) : list str :=
  match s with
  | [] => match cur with [] => [] | _ => [rev cur] end
  | c :: s' =>
      if is_space c then
        match cur with
        | [] => split_ws_from [] s'
        | _ => rev cur :: split_ws_from [] s'
        end
      else split_ws_from (c :: cur) s'
  end.

Definition split_ws (s : str) : list str := split_ws_from [] s.

(** [s.replace(a, b)] for single characters. *)
Definition replace_char (a b : N) (s : str) : str :=
  map (fun c => if N.eqb c a then b else c) s.

(** ** Words

    [WC] is the content of the character class of word characters, imported
    from [prepare_small_data_for_punctuation_capitalization_task], which is
    not part of the sources at hand; it is a parameter here. *)

Section Words.

Variable WC : N -> bool.

Definition not_WC (c : N) : bool := negb (WC c).

(** Modelled from the spec: the regular expression
    [WORD_WITH_PRECEDING_AND_FOLLOWING_PUNCTUATION] of the missing module
    [prepare_small_data_for_punctuation_capitalization_task], "a single regex
    matching a token with its immediately preceding/following punctuation":
    [[^WC]*[WC]+[^WC]*], every quantifier greedy.  [match_word s] is the match
    that starts at the beginning of [s], with the rest of [s] behind it.  When
    there is none, [s] holds no word character and the expression matches at
    no later position either. *)
Definition match_word (s : str) : option (str * str) :=
  let pre := take_while not_WC s in
  let r1 := drop_while not_WC s in
  let w := take_while WC r1 in
  let r2 := drop_while WC r1 in
  let post := take_while not_WC r2 in
  let r3 := drop_while not_WC r2 in
  match w with
  | [] => None
  | _ :: _ => Some (pre ++ w ++ post, r3)
  end.

(** A match object: [span()] and [group(0)]. *)
Record re_match : Type := MkMatch {
  span_start : nat;
  span_end : nat;
  group0 : str
}.

(** [finditer]: the successive matches, each search starting where the
    previous match ended. *)
Fixpoint finditer_from (fuel : nat) (pos : nat) (s : str) : list re_match :=
  match fuel with
  | O => []
  | S fuel' =>
      match match_word s with
      | None => []
      | Some (m, rest) =>
          MkMatch pos (pos + length m) m :: finditer_from fuel' (pos + length m)%nat rest
      end
  end.

Definition finditer (text : str) : list re_match :=
  finditer_from (length text) 0 text.

Definition findall (text : str) : list str := map group0 (finditer text).

(** [count_words] *)
Definition count_words (text : str) : Z := zlen (findall text).

(** [cut_segment]: the loop over [enumerate(finditer(text))]. *)
Fixpoint cut_segment_loop (ms : list re_match) (word_i : Z) (shift num_words_in_segment : Z)
    (segment : str) : str :=
  match ms with
  | [] => segment
  | m :: ms' =>
      if word_i <? shift then
        cut_segment_loop ms' (word_i + 1) shift num_words_in_segment segment
      else if word_i >=? num_words_in_segment + shift then segment
      else cut_segment_loop ms' (word_i + 1) shift num_words_in_segment (segment ++ group0 m)
  end.

Definition cut_segment (text : str) (shift num_words_in_segment : Z) : str :=
  cut_segment_loop (finditer text) 0 shift num_words_in_segment [].

(** [FORBIDDEN_PUNCTUATION_IN_THE_START_OF_SEGMENT.sub('', segment)]: the
    expression [^[^WC]+] matches the longest run of characters outside the
    class at the start of the string, and nothing elsewhere. *)
Definition FORBIDDEN_PUNCTUATION_IN_THE_START_OF_SEGMENT_sub (segment : str) : str :=
  drop_while not_WC segment.

(** [strip_segment] *)
Definition strip_segment (segment : str) : str :=
  let segment := rstrip_chars (lit "-") segment in
  let segment :=
    if endswith [SPACE; DQUOTE] segment || endswith (lit "(") segment
    then rstrip_chars [DQUOTE; 40%N] segment
    else segment in
  let segment := rstrip_chars (lit " ") segment in
  FORBIDDEN_PUNCTUATION_IN_THE_START_OF_SEGMENT_sub segment.

(** A string is acceptable as the start of a line when it is empty or begins
    with a word character. *)
Definition word_start (s : str) : Prop :=
  s = [] \/ exists c rest, s = c :: rest /\ WC c = true.

(** The words of a string, as a relation: what [findall] computes. *)
Inductive words_of : str -> list str -> Prop :=
| words_none s : match_word s = None -> words_of s []
| words_more s m rest ms :
    match_word s = Some (m, rest) -> words_of rest ms -> words_of s (m :: ms).

End Words.

(** [stops p l]: a scan of [l] for characters satisfying [p] ends at once. *)
Definition stops {A} (p : A -> bool) (l : list A) : Prop :=
  match l with
  | [] => True
  | x :: _ => p x = false
  end.

(** A class of word characters for the examples: the letters and digits of
    ASCII. *)
Definition ascii_word_char (c : N) : bool :=
  ((48 <=? c) && (c <=? 57) || (65 <=? c) && (c <=? 90) || (97 <=? c) && (c <=? 122))%N.

(** ** ByteRangePartitioner *)

(** [len(c.encode('utf-8'))] for one code point. *)
Definition utf8_len (c : N) : Z :=
  if (c <? 128)%N then 1
  else if (c <? 2048)%N then 2
  else if (c <? 65536)%N then 3
  else 4.

Definition encode_len (s : str) : Z := sumZ (map utf8_len s).

Definition BUFFER_SIZE : Z := 2 ^ 24.

Definition CR : N := 13%N.

(** [open()] reads in text mode, with universal newlines: of the characters
    on disk, a carriage return followed by a line feed, and a carriage
    return alone, are read as one line feed. *)
Fixpoint universal_newlines (disk : str) : str :=
  match disk with
  | [] => []
  | c :: rest =>
      if (c =? CR)%N then
        NL :: match rest with
              | c' :: rest' =>
                  if (c' =? NL)%N then universal_newlines rest'
                  else universal_newlines rest
              | [] => []
              end
      else c :: universal_newlines rest
  end.

(** A file object opened for reading in text mode is the text not read yet:
    the functions that read a file take the text as it is read, which is
    [universal_newlines] of the characters on disk. *)
Fixpoint takeZ {A} (n : Z) (l : list A) : list A :=
  match l with
  | [] => []
  | x :: l' => if n <=? 0 then [] else x :: takeZ (n - 1) l'
  end.

Fixpoint dropZ {A} (n : Z) (l : list A) : list A :=
  match l with
  | [] => []
  | x :: l' => if n <=? 0 then l else dropZ (n - 1) l'
  end.

(** [fd.read(n)]: the characters read and the file after it. *)
Definition fd_read (fd : str) (n : Z) : str * str :=
  if n <? 0 then (fd, []) else (takeZ n fd, dropZ n fd).

(** [fd.readline()] *)
Fixpoint fd_readline (fd : str) : str * str :=
  match fd with
  | [] => ([], [])
  | c :: fd' =>
      if N.eqb c NL then ([c], fd')
      else let '(line, rest) := fd_readline fd' in (c :: line, rest)
  end.

(** [count_characters_in_file]: the sum of the lengths of the blocks that
    [count_in_blocks] reads, [size] characters at a time. *)
Fixpoint count_in_blocks (fuel : nat) (fd : str) (size : Z) : result (list Z) :=
  match fuel with
  | O => OutOfFuel
  | S fuel' =>
      let '(b, fd') := fd_read fd size in
      match b with
      | [] => Ok []
      | _ :: _ => rest ← count_in_blocks fuel' fd' size; Ok (zlen b :: rest)
      end
  end.

Definition count_characters_in_file (file : str) : result Z :=
  blocks ← count_in_blocks (S (length file)) file BUFFER_SIZE; Ok (sumZ blocks).

(** [move_by_n_characters_in_file]: the loop, with [buffer] the last block
    read; the result also holds the file object after the call. *)
Fixpoint move_loop (fuel : nat) (fd : str) (n buffer_size : Z)
    (characters_read bytes_read : Z) (buffer : str) : result (Z * Z * str) :=
  match fuel with
  | O => OutOfFuel
  | S fuel' =>
      if negb (bool_decide (buffer = [])) && (n >? characters_read) then
        let '(buffer', fd') := fd_read fd (Z.min buffer_size (n - characters_read)) in
        move_loop fuel' fd' n buffer_size
          (characters_read + zlen buffer') (bytes_read + encode_len buffer') buffer'
      else Ok (characters_read, bytes_read, fd)
  end.

Definition move_by_n_characters_in_file (fd : str) (n buffer_size : Z) : result (Z * Z * str) :=
  move_loop (S (S (length fd))) fd n buffer_size 0 0 (lit "filler").

Definition PAGE : str := lit "<page".

(** The state of the loop over the parts in [get_borders_with_documents_intact]. *)
Record borders_state : Type := MkBorders {
  bs_f : str;
  byte_borders : list (Z * Z);
  num_characters_in_part : list Z;
  last_byte_border : Z;
  total_characters_read : Z;
  remainder : str
}.

(** The [while line:] loop. [Some remainder] when a line with a page start was
    found ([success]), with the part of that line before the page start
    counted. *)
Fixpoint scan_lines (fuel : nat) (f : str) (line : str)
    (characters_in_part bytes_read total : Z)
  : result (option str * str * Z * Z * Z) :=
  match fuel with
  | O => OutOfFuel
  | S fuel' =>
      match line with
      | [] => Ok (None, f, characters_in_part, bytes_read, total)
      | _ :: _ =>
          if contains PAGE line then
            let new_page_start := index_of PAGE line in
            let remainder' := drop new_page_start line in
            let line' := take new_page_start line in
            Ok (Some remainder', f, characters_in_part + zlen line',
                bytes_read + encode_len line', total)
          else
            let '(next, f') := fd_readline f in
            scan_lines fuel' f' next (characters_in_part + zlen line)
              (bytes_read + encode_len line) (total + zlen next)
      end
  end.

(** The body of [for i in range(num_parts)]. *)
Definition borders_step (part_size : Z) (st : borders_state) (i : Z) : result borders_state :=
  let read_size := part_size * (i + 1) - total_characters_read st in
  '(characters_in_part, bytes_read, f) ←
     move_by_n_characters_in_file (bs_f st) read_size BUFFER_SIZE;
  let characters_in_part := characters_in_part + zlen (remainder st) in
  let bytes_read := bytes_read + encode_len (remainder st) in
  let total := total_characters_read st + characters_in_part in
  if characters_in_part <? read_size then
    Ok (MkBorders f
          (byte_borders st ++ [(last_byte_border st, last_byte_border st + bytes_read)])
          (num_characters_in_part st ++ [characters_in_part])
          (last_byte_border st) total (remainder st))
  else
    let '(line, f) := fd_readline f in
    let total := total + zlen line in
    '(found, f, characters_in_part, bytes_read, total) ←
       scan_lines (S (S (length f))) f line characters_in_part bytes_read total;
    match found with
    | Some remainder' =>
        let new_byte_border := last_byte_border st + bytes_read in
        Ok (MkBorders f
              (byte_borders st ++ [(last_byte_border st, new_byte_border)])
              (num_characters_in_part st ++ [characters_in_part])
              new_byte_border total remainder')
    | None =>
        Ok (MkBorders f
              (byte_borders st ++ [(last_byte_border st, last_byte_border st + bytes_read)])
              (num_characters_in_part st ++ [characters_in_part])
              (last_byte_border st) total (remainder st))
    end.

(** [get_borders_with_documents_intact(file_path, num_parts)], on the text of
    the file as it is read in text mode: the bytes that the function counts
    are those of the encoding of this text. *)
Definition get_borders_with_documents_intact (file : str) (num_parts : Z)
  : result (list (Z * Z) * list Z) :=
  length ← count_characters_in_file file;
  if num_parts =? 0 then Raise ZeroDivisionError
  else
    let part_size := length / num_parts in
    st ← for_each (borders_step part_size) (seqZ 0 num_parts)
           (MkBorders file [] [] 0 0 []);
    Ok (byte_borders st, num_characters_in_part st).

(** What the design document asks of the ranges: the first one starts at 0,
    each one starts where the previous one ends, and the last one ends at the
    byte length of the file. *)
Fixpoint chained (start : Z) (borders : list (Z * Z)) (stop : Z) : Prop :=
  match borders with
  | [] => start = stop
  | (a, b) :: rest => a = start /\ a <= b /\ chained b rest stop
  end.

Definition covers_whole_file (file : str) (borders : list (Z * Z)) : Prop :=
  chained 0 borders (encode_len file).

(** Two files of one-line pages. *)
Definition page_line (c : string) : str := lit "<page>" ++ lit c ++ [NL].

Definition two_pages : str := page_line "a" ++ page_line "b".

Definition nine_pages : str :=
  concat (map page_line ["1"; "2"; "3"; "4"; "5"; "6"; "7"; "8"; "9"]%string).

(** ** SegmentSampler: how many dev and test segments to cut from each shard *)

(** The line boundaries of [str.splitlines]. *)
Definition is_line_boundary (c : N) : bool :=
  ((10 <=? c) && (c <=? 13) || (28 <=? c) && (c <=? 30) || (c =? 133)
   || (c =? 8232) || (c =? 8233))%N.

(** [s.splitlines()]; [after_cr] holds right after a carriage return, whose
    following line feed belongs to the same boundary. *)
Fixpoint splitlines_from (after_cr : bool) (cur : str) (s : str) : list str :=
  match s with
  | [] => match cur with [] => [] | _ :: _ => [rev cur] end
  | c :: s' =>
      if is_line_boundary c then
        if after_cr && N.eqb c 10 then splitlines_from false cur s'
        else rev cur :: splitlines_from (N.eqb c 13) [] s'
      else splitlines_from false (c :: cur) s'
  end.

Definition splitlines (s : str) : list str := splitlines_from false [] s.

(** A shard file as this stage sees it: its size in bytes and the text of its
    documents joined by line feeds (the reader of shard files belongs to a
    module that is not part of the sources at hand). *)
Record shard_text : Type := MkShardText {
  sh_st_size : Z;
  sh_text : str
}.

Section SegmentsByFiles.

Variable WC : N -> bool.

(** [round((s / total_size) * size)], computed in floating point by the
    source; left abstract. *)
Variable round_share : Z -> Z -> Z -> Z.

(** The [while sent_i >= 0 and num_words < max_segment_length] loop, over the
    sentences from the last one backwards. *)
Fixpoint max_allowed_loop (rev_sentences : list str) (sent_i num_words max_segment_length : Z)
  : Z * Z :=
  match rev_sentences with
  | [] => (sent_i, num_words)
  | s :: rest =>
      if num_words <? max_segment_length
      then max_allowed_loop rest (sent_i - 1) (num_words + count_words WC s) max_segment_length
      else (sent_i, num_words)
  end.

Definition get_max_allowed_segments_for_text (text : str) (max_segment_length : Z) : Z :=
  let sentences := splitlines text in
  let '(sent_i, num_words) :=
    max_allowed_loop (rev sentences) (zlen sentences - 1) 0 max_segment_length in
  if num_words <? max_segment_length then 0 else sent_i + 1.

(** [for i, s in enumerate(sizes): if s > max...[i]: sizes[i] = max...[i]] *)
Fixpoint cap_sizes (sizes max_possible : list Z) : result (list Z) :=
  match sizes with
  | [] => Ok []
  | s :: sizes' =>
      match max_possible with
      | [] => Raise IndexError
      | m :: max' =>
          rest ← cap_sizes sizes' max';
          Ok ((if s >? m then m else s) :: rest)
      end
  end.

(** [while sum_ > size and i < len(permutation)] *)
Fixpoint decrease_loop (permutation : list nat) (sizes : list Z) (sum_ size : Z)
  : result (list Z * Z) :=
  match permutation with
  | [] => Ok (sizes, sum_)
  | j :: permutation' =>
      if sum_ >? size then
        s ← getitem sizes j;
        if s >? 0
        then decrease_loop permutation' (<[j := s - 1]> sizes) (sum_ - 1) size
        else decrease_loop permutation' sizes sum_ size
      else Ok (sizes, sum_)
  end.

(** [for j in permutation] of the increasing branch; the [bool] of the result
    is [was_increase]. *)
Fixpoint increase_pass (permutation : list nat) (max_possible sizes : list Z)
    (sum_ size : Z) (was_increase : bool) : result (list Z * Z * bool) :=
  match permutation with
  | [] => Ok (sizes, sum_, was_increase)
  | j :: permutation' =>
      s ← getitem sizes j;
      m ← getitem max_possible j;
      if s <? m then
        let sizes' := <[j := s + 1]> sizes in
        let sum' := sum_ + 1 in
        if sum' >=? size then
          if sum' =? size then Ok (sizes', sum', true) else Raise AssertionError
        else increase_pass permutation' max_possible sizes' sum' size true
      else increase_pass permutation' max_possible sizes sum_ size was_increase
  end.

(** [while sum_ < size and was_increase] *)
Fixpoint increase_loop (fuel : nat) (permutation : list nat) (max_possible sizes : list Z)
    (sum_ size : Z) (was_increase : bool) : result (list Z * Z) :=
  match fuel with
  | O => OutOfFuel
  | S fuel' =>
      if (sum_ <? size) && was_increase then
        '(sizes', sum', was') ← increase_pass permutation max_possible sizes sum_ size false;
        increase_loop fuel' permutation max_possible sizes' sum' size was'
      else Ok (sizes, sum_)
  end.

Definition not_enough_files_message (size sum_ : Z) : str :=
  lit "Cannot cut required number of segments " ++ str_of_int size
  ++ lit " from the dataset because there is no enough large enough files. Maximum allowed number of segments to cut is "
  ++ str_of_int sum_
  ++ lit ". You may reduce number of segments required or cut them manually.".

Definition py_assert (b : bool) : result unit :=
  if b then Ok tt else Raise AssertionError.

(** The values of [max_possible_segments_per_file]: [pool.map] keeps the
    order of [files]. *)
Definition max_possible_segments (files : list shard_text) (max_segment_length : Z) : list Z :=
  map (fun f => get_max_allowed_segments_for_text (sh_text f) max_segment_length) files.

(** The [if sum_ > size: ... elif sum_ < size: ...] statement. *)
Definition adjust_sizes (permutation : list nat) (max_possible_segments_per_file sizes : list Z)
    (size : Z) : result (list Z) :=
  let sum_ := sumZ sizes in
  if sum_ >? size then
    '(sizes, _) ← decrease_loop permutation sizes sum_ size; Ok sizes
  else if sum_ <? size then
    '(sizes, sum_) ←
       increase_loop (S (Z.to_nat (size - sum_))) permutation
         max_possible_segments_per_file sizes sum_ size true;
    if sum_ <? size then Raise (ValueError (not_enough_files_message size sum_))
    else Ok sizes
  else Ok sizes.

(** The three [assert] statements before [return sizes]. *)
Definition checked_sizes (num_files : nat) (sizes : list Z) (size : Z) : result (list Z) :=
  _ ← py_assert (bool_decide (length sizes = num_files));
  _ ← py_assert (forallb (fun s => s >=? 0) sizes);
  _ ← py_assert (sumZ sizes =? size);
  Ok sizes.

(** [mp.Pool(num_jobs)], which refuses a number of processes below 1. *)
Definition mp_Pool (num_jobs : Z) : result unit :=
  if num_jobs <? 1 then Raise (ValueError (lit "Number of processes must be at least 1"))
  else Ok tt.

(** [get_how_many_segments_to_cut_by_files].  [permutation] is the value of
    [random.sample(list(range(len(sizes))), len(sizes))]; [pool.map] keeps
    the order of the files, whatever the number of jobs. *)
Definition get_how_many_segments_to_cut_by_files (files : list shard_text) (size : Z)
    (max_segment_length : Z) (num_jobs : Z) (permutation : list nat) : result (list Z) :=
  let stats := map sh_st_size files in
  let total_size := sumZ stats in
  _ ← (if bool_decide (stats = []) then Ok tt
       else if total_size =? 0 then Raise ZeroDivisionError else Ok tt);
  let sizes := map (fun s => round_share s total_size size) stats in
  _ ← mp_Pool num_jobs;
  let max_possible_segments_per_file := max_possible_segments files max_segment_length in
  sizes ← cap_sizes sizes max_possible_segments_per_file;
  sizes ← adjust_sizes permutation max_possible_segments_per_file sizes size;
  checked_sizes (length files) sizes size.

End SegmentsByFiles.

(** [round((s / total_size) * size)] computed without error: the integer
    nearest to the quotient, and of two nearest integers the even one, as
    [round] chooses.  The floating point computation of the source gives
    this value as long as its error does not carry the product over a half. *)
Definition round_half_even (s total_size size : Z) : Z :=
  let q := (2 * s * size + total_size) / (2 * total_size) in
  if ((2 * s * size + total_size) mod (2 * total_size) =? 0) && Z.odd q then q - 1 else q.

(** 1 for a size that the decreasing loop can take one from, 0 otherwise. *)
Definition is_positive (s : Z) : Z := if s >? 0 then 1 else 0.

(** The rounded share of a file of [s] bytes is less than 1 away from
    [s * size / total_size]. *)
Definition share_close (round_share : Z -> Z -> Z -> Z) (total_size size s : Z) : Prop :=
  Z.abs (round_share s total_size size * total_size - s * size) < total_size.

(** Three shards of equal size whose texts allow 3, 3 and 2 segments of at
    most three words: 8 in all. *)
Definition sentence_lines (n : nat) : str := concat (replicate n (lit "a b c" ++ [NL])).

Definition small_corpus : list shard_text :=
  [MkShardText 100 (sentence_lines 4); MkShardText 100 (sentence_lines 4);
   MkShardText 100 (sentence_lines 3)].

(** A corpus of one shard file of no byte. *)
Definition empty_corpus : list shard_text := [MkShardText 0 []].

(** ** DocumentStore: merging small shard files *)

(** A shard file [<stem>.xml] of the document directory: the integer its name
    encodes, its size in bytes and the ids of the documents written in it, in
    file order. *)
Record shard_file : Type := MkShard {
  stem : Z;
  st_size : Z;
  doc_ids : list Z
}.

(** [reverse_doc_id_to_file_i].  A [dict] is a finite map; the order in which
    Python iterates over it only decides the order inside the lists. *)
Definition reverse_doc_id_to_file_i (doc_id_to_file_i : gmap Z Z) : gmap Z (list Z) :=
  map_fold
    (fun k v rev =>
       match rev !! v with
       | Some l => <[v := l ++ [k]]> rev
       | None => <[v := [k]]> rev
       end)
    ∅ doc_id_to_file_i.

(** [rev_rev_doc_id_to_file_i] *)
Definition rev_rev_doc_id_to_file_i (rev : gmap Z (list Z)) : gmap Z Z :=
  map_fold (fun k v rev_rev => foldl (fun acc vv => <[vv := k]> acc) rev_rev v) ∅ rev.

(** [rev[k]] *)
Definition dict_getitem {V} (d : gmap Z V) (k : Z) : result V :=
  match d !! k with
  | Some v => Ok v
  | None => Raise KeyError
  end.

(** [max(stats)] *)
Definition py_max (l : list Z) : result Z :=
  match l with
  | [] => Raise (ValueError (lit "max() arg is an empty sequence"))
  | x :: l' => Ok (foldl Z.max x l')
  end.

(** The state of the loop of [merge_small_files]: the map [rev], the file
    being extended ([curr_updated_file], whose [st_size] field is [curr_size]
    and whose [stem] is [curr_file_i]) and the files closed before it, as they
    are left in the directory. *)
Record merge_state : Type := MkMerge {
  ms_rev : gmap Z (list Z);
  ms_closed : list shard_file;
  ms_curr : shard_file
}.

(** The body of [for i in range(1, len(files))], on [files[i]]. *)
Definition merge_step (max_size : Z) (st : merge_state) (f : shard_file) : result merge_state :=
  let curr := ms_curr st in
  if st_size curr >=? max_size then
    Ok (MkMerge (ms_rev st) (ms_closed st ++ [curr]) f)
  else
    let file_i := stem f in
    into ← dict_getitem (ms_rev st) (stem curr);
    from ← dict_getitem (ms_rev st) file_i;
    let rev := delete file_i (<[stem curr := into ++ from]> (ms_rev st)) in
    Ok (MkMerge rev (ms_closed st)
          (MkShard (stem curr) (st_size curr + st_size f) (doc_ids curr ++ doc_ids f))).

Definition stem_le (a b : shard_file) : Prop := stem a <= stem b.

#[global] Instance stem_le_dec : RelDecision stem_le.
Proof. intros a b. unfold stem_le. apply _. Defined.

(** [merge_small_files(document_dir, doc_id_to_file_i)]: [document_dir] lists
    the shard files of the directory; the result is the returned map and the
    shard files left in the directory. *)
Definition merge_small_files (document_dir : list shard_file) (doc_id_to_file_i : gmap Z Z)
  : result (gmap Z Z * list shard_file) :=
  let rev := reverse_doc_id_to_file_i doc_id_to_file_i in
  let files := merge_sort stem_le document_dir in
  let stats := map st_size files in
  max_size ← py_max stats;
  curr_updated_file ← getitem files 0;
  st ← for_each (merge_step max_size) (drop 1 files) (MkMerge rev [] curr_updated_file);
  Ok (rev_rev_doc_id_to_file_i (ms_rev st), ms_closed st ++ [ms_curr st]).

(** Document [d] is in the shard file numbered [s] of the directory. *)
Definition located (dir : list shard_file) (d s : Z) : Prop :=
  exists f, f ∈ dir /\ stem f = s /\ d ∈ doc_ids f.

(** The shard files and the map agree: the files have distinct numbers, and
    the map sends a document to the number of the file that holds it. *)
Definition consistent (dir : list shard_file) (doc_id_to_file_i : gmap Z Z) : Prop :=
  NoDup (map stem dir)
  /\ forall d s, doc_id_to_file_i !! d = Some s <-> located dir d s.

(** A shard file that holds no document: the map has no entry for it. *)
Definition holds_no_document (f : shard_file) : Prop := doc_ids f = [].

(** In [rev], no document is listed under two files. *)
Definition one_file_each (rev : gmap Z (list Z)) : Prop :=
  forall d s1 s2 l1 l2,
    rev !! s1 = Some l1 -> d ∈ l1 -> rev !! s2 = Some l2 -> d ∈ l2 -> s1 = s2.

(** What holds of the state of the loop of [merge_small_files] when the files
    [rest] are still to be seen; [dir] is the directory and [m] the map given
    to the function, and [max_size] the largest size found. *)
Definition merge_inv (dir : list shard_file) (m : gmap Z Z) (max_size : Z)
    (st : merge_state) (rest : list shard_file) : Prop :=
  let disk := ms_closed st ++ ms_curr st :: rest in
  NoDup (map stem disk)
  /\ Forall (fun f => holds_no_document f -> Exists holds_no_document dir) disk
  /\ (forall d s, (exists l, ms_rev st !! s = Some l /\ d ∈ l) <-> located disk d s)
  /\ (forall d s1 s2, located disk d s1 -> located disk d s2 -> s1 = s2)
  /\ (forall d, is_Some (m !! d) <-> exists s, located disk d s)
  /\ Forall (fun f => st_size f <= max_size \/ st_size f < 2 * max_size) (ms_closed st)
  /\ (st_size (ms_curr st) <= max_size \/ st_size (ms_curr st) < 2 * max_size)
  /\ Forall (fun f => st_size f <= max_size) rest.

(** The size that the merge allows a shard to reach, for the largest size
    [max_size] seen before it. *)
Definition size_within (max_size : Z) (f : shard_file) : Prop :=
  st_size f <= max_size \/ st_size f < 2 * max_size.

(** A directory of two shards and its map. *)
Definition two_shards : list shard_file := [MkShard 0 3 [10]; MkShard 1 5 [11]].
Definition two_shards_map : gmap Z Z := {[10 := 0; 11 := 1]}.

(** A directory whose first shard, of one byte, holds no document. *)
Definition shards_with_empty : list shard_file := [MkShard 0 1 []; MkShard 1 5 [11]].
Definition shards_with_empty_map : gmap Z Z := {[11 := 1]}.

(** ** CorpusExtractors *)

(** A document of a shard: the values stored under ["text"], ["title"],
    ["source"], ["start_line"] and ["end_line"] (absent until it is set). *)
Record document : Type := MkDoc {
  text : str;
  title : str;
  source : str;
  start_line : Z;
  end_line : option Z
}.

(** A call [big.write_docs_to_file(docs, path)] of the shard writer, which
    belongs to a module that is not part of the sources at hand: the dict of
    documents in insertion order, and the path. *)
Record write_call : Type := MkWrite {
  w_docs : list (Z * document);
  w_path : str
}.

(** [document_dir / (str(file_id) + '.xml')] *)
Definition shard_path (document_dir : str) (file_id : Z) : str :=
  document_dir ++ lit "/" ++ str_of_int file_id ++ lit ".xml".

(** [for line in f]: the lines of a file, each with its line feed. *)
Fixpoint file_lines_from (cur : str) (s : str) : list str :=
  match s with
  | [] => match cur with [] => [] | _ :: _ => [rev cur] end
  | c :: s' =>
      if N.eqb c NL then rev (c :: cur) :: file_lines_from [] s'
      else file_lines_from (c :: cur) s'
  end.

Definition file_lines (f : str) : list str := file_lines_from [] f.

(** [preprocess_tatoeba]: the call of the shard writer and the returned map. *)
Definition preprocess_tatoeba (file : str) (file_path document_dir : str) (doc_id file_id : Z)
  : write_call * list (Z * Z) :=
  let lines := map (fun line => join (lit " ") (drop 2 (split_ws line))) (file_lines file) in
  let text := join [NL] lines in
  let prepared_docs :=
    [(doc_id, MkDoc text (lit "tatoeba") file_path 0 (Some (zlen lines)))] in
  (MkWrite prepared_docs (shard_path document_dir file_id), [(doc_id, file_id)]).

(** *** The regular expressions of the UN extractor

    A matcher tells whether the expression matches at the start of a string
    and returns what follows the match.  The expressions below have no
    ambiguity that would need more backtracking than [m_opt] does. *)
Definition matcher : Type := str -> option str.

Definition m_lit (l : str) : matcher :=
  fun s => if startswith l s then Some (drop (length l) s) else None.

Definition m_plus (p : N -> bool) : matcher :=
  fun s => match take_while p s with
           | [] => None
           | _ :: _ => Some (drop_while p s)
           end.

Definition m_star (p : N -> bool) : matcher := fun s => Some (drop_while p s).

Definition m_seq (a b : matcher) : matcher :=
  fun s => match a s with
           | Some r => b r
           | None => None
           end.

(** [(?:g)?k] *)
Definition m_opt (g k : matcher) : matcher :=
  fun s => match m_seq g k s with
           | Some r => Some r
           | None => k s
           end.

Definition m_alt (a b : matcher) : matcher :=
  fun s => match a s with
           | Some r => Some r
           | None => b s
           end.

Definition is_digit (c : N) : bool := ((48 <=? c) && (c <=? 57))%N.
Definition is_digit_1_9 (c : N) : bool := ((49 <=? c) && (c <=? 57))%N.
Definition is_lower (c : N) : bool := ((97 <=? c) && (c <=? 122))%N.
Definition is_upper (c : N) : bool := ((65 <=? c) && (c <=? 90))%N.
Definition is_letter (c : N) : bool := is_lower c || is_upper c.
Definition is_digit_or_colon (c : N) : bool := is_digit c || N.eqb c 58.
Definition is_blank (c : N) : bool := N.eqb c SPACE.

Definition m_one (p : N -> bool) : matcher :=
  fun s => match s with
           | c :: s' => if p c then Some s' else None
           | [] => None
           end.

(** [UN_PARAGRAPH_START]: [<p(?: id="[1-9][0-9]*")?>] *)
Definition UN_PARAGRAPH_START : matcher :=
  m_seq (m_lit (lit "<p"))
    (m_opt
       (m_seq (m_lit (lit " id=" ++ [DQUOTE]))
          (m_seq (m_one is_digit_1_9) (m_seq (m_star is_digit) (m_lit [DQUOTE]))))
       (m_lit (lit ">"))).

(** [UN_SENTENCE_START]: [<s(?: id="[0-9:]+")?(?: lang="[a-zA-Z]+")?>] *)
Definition UN_SENTENCE_START : matcher :=
  m_seq (m_lit (lit "<s"))
    (m_opt
       (m_seq (m_lit (lit " id=" ++ [DQUOTE])) (m_seq (m_plus is_digit_or_colon) (m_lit [DQUOTE])))
       (m_opt
          (m_seq (m_lit (lit " lang=" ++ [DQUOTE])) (m_seq (m_plus is_letter) (m_lit [DQUOTE])))
          (m_lit (lit ">")))).

(** [pattern.split(s)] for an expression without groups that matches no empty
    string. *)
Fixpoint re_split_from (m : matcher) (skip : nat) (cur : str) (s : str) : list str :=
  match s with
  | [] => [rev cur]
  | c :: s' =>
      match skip with
      | S k => re_split_from m k cur s'
      | O =>
          match m s with
          | Some rest => rev cur :: re_split_from m (length s - length rest - 1) [] s'
          | None => re_split_from m 0 (c :: cur) s'
          end
      end
  end.

Definition re_split (m : matcher) (s : str) : list str := re_split_from m 0 [] s.

(** [ENUMERATION_START]: [^[0-9]+\. *|^[0-9]], compiled with [re.MULTILINE];
    at the start of a string. *)
Definition ENUMERATION_START : matcher :=
  m_alt (m_seq (m_plus is_digit) (m_seq (m_lit (lit ".")) (m_star is_blank)))
        (m_one is_digit).

Definition ENUMERATION_START_match (s : str) : bool :=
  bool_decide (is_Some (ENUMERATION_START s)).

(** [ENUMERATION_START.sub('', s)] for a string [s] without line feed, where
    the expression can only match at the start. *)
Definition ENUMERATION_START_sub (s : str) : str :=
  match ENUMERATION_START s with
  | Some rest => rest
  | None => s
  end.

(** The third alternative of [UN_FORBIDDEN_ENUMERATION_START],
    [[A-Za-z]+. *], matches somewhere in [s] exactly when a letter is followed
    by a character other than a line feed. *)
Fixpoint letter_then_char (s : str) : bool :=
  match s with
  | a :: ((b :: _) as s') => (is_letter a && negb (N.eqb b NL)) || letter_then_char s'
  | _ => false
  end.

(** [UN_FORBIDDEN_ENUMERATION_START.search(s) is not None].  The expression
    is the three patterns [^\([a-z]+\) *], [^- *] and [[A-Za-z]+. *] joined by
    a bar and compiled without flags, so that [^] is the start of the string. *)
Definition UN_FORBIDDEN_ENUMERATION_START_search (s : str) : bool :=
  bool_decide (is_Some (m_seq (m_lit (lit "(")) (m_seq (m_plus is_lower) (m_lit (lit ")"))) s))
  || bool_decide (is_Some (m_lit (lit "-") s))
  || letter_then_char s.

(** [l[0]] of the result of a split, which is never empty. *)
Definition first_piece (l : list str) : str :=
  match l with
  | [] => []
  | p :: _ => p
  end.

(** *** Collaborators of the cleaning code

    The cleaning functions come from the two modules that are not part of the
    sources at hand and from [html]; they are parameters.  [Cache] is the pair
    [(tok_chars, untok_chars)] and [no_cache] the pair [(None, None)]. *)
Section Cleaning.

Variable Cache : Type.
Variable no_cache : Cache.
Variable html_unescape : str -> str.
(** [small.remove_untokenizable_characters_from_text(text, tokenizer,
    tok_chars, untok_chars, remove_entire_lines=True)]: the text, the caches
    and the number of removed lines. *)
Variable remove_untokenizable_characters_from_text : str -> Cache -> str * Cache * Z.
(** [big.remove_suspicious_lines_and_rearrange_quotes_and_spaces(text,
    normalize_and_check_quotes_and_parentheses, check_suspicious_endings,
    check_suspicious_parentheses)] *)
Variable remove_suspicious_lines_and_rearrange_quotes_and_spaces :
  str -> bool -> bool -> bool -> str * Z.
Variable SPACE_DUP_sub : str -> str.
Variable NEW_LINE_DUP_sub : str -> str.
Variable BROKEN_PARENTHESES_WITH_CONTENT_sub : str -> str.
Variable normalize_punctuation : str -> str -> str.

Definition wrong_body_message (n : Z) (tag : str) (file : str) : str :=
  lit "Wrong number " ++ str_of_int n ++ lit " of " ++ tag
  ++ lit " tags were found in file " ++ file.

(** The part of [PreprocessUNWorker.__call__] that finds the body. *)
Definition un_body (text : str) (file : str) : result str :=
  let body_split_1 := split (lit "<body>") text in
  if negb (length body_split_1 =? 2)%nat then
    Raise (ValueError (wrong_body_message (zlen body_split_1 - 1) (lit "<body>") file))
  else
    after ← getitem body_split_1 1;
    let body_split_2 := split (lit "</body>") after in
    if negb (length body_split_2 =? 2)%nat then
      Raise (ValueError (wrong_body_message (zlen body_split_2 - 1) (lit "</body>") file))
    else getitem body_split_2 0.

(** The body of [for p in paragraphs]; the state is [text] and the caches. *)
Definition un_paragraph (st : str * Cache) (p : str) : str * Cache :=
  let '(text, cache) := st in
  let sentences :=
    map (fun s => first_piece (split (lit "</s>") s)) (drop 1 (re_split UN_SENTENCE_START p)) in
  match sentences with
  | [] => st
  | _ :: _ =>
      let sentences := join [NL] sentences in
      let sentences := html_unescape sentences in
      if UN_FORBIDDEN_ENUMERATION_START_search sentences then st
      else
        let sentences := split [NL] sentences in
        if existsb ENUMERATION_START_match (drop 1 sentences) then st
        else
          let sentences :=
            match sentences with
            | [] => []
            | s0 :: rest => ENUMERATION_START_sub s0 :: rest
            end in
          let sentences := join [NL] sentences in
          let '(sentences, cache, _) :=
            remove_untokenizable_characters_from_text sentences cache in
          let '(sentences, num_removed_lines) :=
            remove_suspicious_lines_and_rearrange_quotes_and_spaces sentences true true true in
          if num_removed_lines >? 0 then (text, cache)
          else
            let sentences := SPACE_DUP_sub sentences in
            if bool_decide (strip sentences = []) then (text, cache)
            else
              let sentences := normalize_punctuation sentences (lit "en") in
              let sentences := replace_char NL SPACE sentences in
              (text ++ sentences ++ [NL], cache)
  end.

(** [PreprocessUNWorker.__call__(file, file_id, doc_id, idx)], on the text
    read from [file] and the caches of the worker process: the call of the
    shard writer and the caches afterwards. *)
Definition PreprocessUNWorker_call (document_dir : str) (contents : str) (cache : Cache)
    (file : str) (file_id doc_id idx : Z) : result (write_call * Cache) :=
  last ← match last contents with
         | Some c => Ok c
         | None => Raise IndexError
         end;
  let n_orig_lines :=
    Z.of_nat (count [NL] contents) + (if N.eqb last NL then 0 else 1) in
  body ← un_body contents file;
  let paragraphs :=
    map (fun p => lstrip_chars [NL] (rstrip_chars [NL] (first_piece (split (lit "</p>") p))))
        (drop 1 (re_split UN_PARAGRAPH_START body)) in
  let '(text, cache) := foldl un_paragraph ([], cache) paragraphs in
  let prepared_docs :=
    [(doc_id, MkDoc (lstrip text) (lit "gnd-" ++ str_of_int idx) file 0 (Some n_orig_lines))] in
  Ok (MkWrite prepared_docs (shard_path document_dir file_id), cache).

End Cleaning.

(** The text that follows the first [<body>] tag: [body_split_1[1]]. *)
Definition after_body (contents : str) : str :=
  default [] (split (lit "<body>") contents !! 1%nat).

(** Collaborators that change nothing, for the examples. *)
Definition keep_all_characters (s : str) (cache : unit) : str * unit * Z := (s, cache, 0).
Definition keep_all_lines (s : str) (_ _ _ : bool) : str * Z := (s, 0).
Definition keep_text (s : str) : str := s.
Definition keep_punctuation (s : str) (lang : str) : str := s.

(** The UN extractor with these collaborators. *)
Definition un_worker_example (contents : str) : result (write_call * unit) :=
  PreprocessUNWorker_call unit keep_text keep_all_characters keep_all_lines keep_text
    keep_punctuation (lit "documents") contents tt (lit "un.xml") 0 0 0.

(** *** Europarl *)

(** [small.WORD_WITH_PRECEDING_AND_FOLLOWING_PUNCTUATION.search(s) is not None].
    A search that fails at the start of [s] fails everywhere. *)
Definition WORD_search (WC : N -> bool) (s : str) : bool :=
  bool_decide (is_Some (match_word WC s)).

(** A [dict] with [int] keys whose order of insertion matters: the items in
    that order, each key once. *)
Fixpoint dict_update {V} (k : Z) (f : V -> V) (d : list (Z * V)) : result (list (Z * V)) :=
  match d with
  | [] => Raise KeyError
  | (k', v) :: d' =>
      if Z.eqb k k' then Ok ((k', f v) :: d')
      else d'' ← dict_update k f d'; Ok ((k', v) :: d'')
  end.

Definition dict_has {V} (k : Z) (d : list (Z * V)) : bool :=
  existsb (fun kv => Z.eqb k (fst kv)) d.

Definition set_end_line (e : Z) (d : document) : document :=
  MkDoc (text d) (title d) (source d) (start_line d) (Some e).

Definition set_text (t : str) (d : document) : document :=
  MkDoc t (title d) (source d) (start_line d) (end_line d).

Section Europarl.

Variable WC : N -> bool.
Variable Cache : Type.
Variable no_cache : Cache.
Variable remove_untokenizable_characters_from_text : str -> Cache -> str * Cache * Z.
Variable remove_suspicious_lines_and_rearrange_quotes_and_spaces :
  str -> bool -> bool -> bool -> str * Z.
Variable SPACE_DUP_sub : str -> str.
Variable NEW_LINE_DUP_sub : str -> str.
Variable BROKEN_PARENTHESES_WITH_CONTENT_sub : str -> str.
Variable normalize_punctuation : str -> str -> str.
(** [small.SPACING_CHARACTERS_TO_REPLACE.sub(' ', text)] *)
Variable SPACING_CHARACTERS_TO_REPLACE_sub : str -> str.
(** [small.EUROPARL_LINE.match(line)]: [group(1)] and [group(2)]. *)
Variable EUROPARL_LINE_match : str -> option (str * str).
Variable too_many_digits : str -> bool.
(** [small.EUROPARL_LSTRIP.sub('', text)] *)
Variable EUROPARL_LSTRIP_sub : str -> str.
Variable py_repr : str -> str.




Definition europarl_title (session : str) : str :=
  replace_char DQUOTE 39 (lit "europarl_" ++ strip session).

(** The state of the loop over the lines: [docs], [doc_id], [last_title]. *)
Definition europarl_state : Type := list (Z * document) * Z * option str.

(** The body of [for i, line in enumerate(text_lines)]. *)
Definition europarl_step (file_path : str) (st : europarl_state) (il : Z * str)
  : result europarl_state :=
  let '(docs, doc_id, last_title) := st in
  let '(i, line) := il in
  match EUROPARL_LINE_match line with
  | None =>
      Raise (ValueError (lit "Could not match " ++ str_of_int i ++ lit " EUROPARL line "
                         ++ py_repr line))
  | Some (group1, group2) =>
      let t := strip group1 in
      if negb (bool_decide (t = [])) && negb (too_many_digits t) && WORD_search WC t then
        let t := EUROPARL_LSTRIP_sub t in
        let title := europarl_title group2 in
        '(docs, doc_id) ←
          match last_title with
          | Some last =>
              if bool_decide (last = title) then Ok (docs, doc_id)
              else docs ← dict_update doc_id (set_end_line i) docs; Ok (docs, doc_id + 1)
          | None => Ok (docs, doc_id)
          end;
        docs ←
          (if dict_has doc_id docs
           then dict_update doc_id (fun d => set_text (text d ++ strip t ++ [NL]) d) docs
           else Ok (docs ++ [(doc_id, MkDoc (strip t ++ [NL]) title file_path i None)]));
        Ok (docs, doc_id, Some title)
      else Ok st
  end.

(** [enumerate(l)] *)
Definition enumerate {A} (l : list A) : list (Z * A) :=
  imap (fun i x => (Z.of_nat i, x)) l.


(** A line that the loop keeps: the expression matches it and its text passes
    the three tests. *)
Definition kept_line (line t session : str) : Prop :=
  EUROPARL_LINE_match line = Some (t, session)
  /\ strip t <> [] /\ too_many_digits (strip t) = false
  /\ WORD_search WC (strip t) = true.



End Europarl.








(** ** Cutting training segments *)

Definition REPORT_PROGRESS_PERIOD : Z := 5000.

(** [text[a:b]] for offsets inside the text. *)
Definition slice (s : str) (a b : nat) : str := take (b - a) (drop a s).

(** [random.randint(a, b)]: a number from [a] to [b], here [drawn]; with
    [b < a] there is none and the call raises [ValueError] (the message of
    [randrange] goes on with the bounds, which are left out). *)
Definition random_randint (a b drawn : Z) : result Z :=
  if b <? a then Raise (ValueError (lit "empty range for randrange()"))
  else Ok drawn.

Section CutAndSave.

Variable WC : N -> bool.

(** The values of the successive calls of [random.sample(num_words_in_segments,
    len(num_words_in_segments))]. *)
Variable samples : nat -> list Z.

(** The state of the loop of [cut_and_save_one_pass]; [cs_written] is what
    was written to [out_f], [cs_puts] what was put on the progress queue, and
    [cs_sample_calls] the number of calls of [random.sample] so far. *)
Record cut_state : Type := MkCut {
  cs_permutation : list Z;
  cs_sample_calls : nat;
  cs_shift : Z;
  cs_p_i : nat;
  cs_start_match : option re_match;
  cs_num_in_segment : Z;
  cs_progress_report : Z;
  cs_num_cut_segments : Z;
  cs_written : list str;
  cs_puts : list Z
}.

Definition cut_line (text0 : str) (start_match m : re_match) : str :=
  strip_segment WC (slice text0 (span_start start_match) (span_end m)) ++ [NL].

(** The body of [for m in ...finditer(text)]. *)
Definition cut_step (text0 : str) (st : cut_state) (m : re_match) : result cut_state :=
  if cs_shift st >? 0 then
    Ok (MkCut (cs_permutation st) (cs_sample_calls st) (cs_shift st - 1) (cs_p_i st)
          (cs_start_match st) (cs_num_in_segment st) (cs_progress_report st)
          (cs_num_cut_segments st) (cs_written st) (cs_puts st))
  else
    let start_match := match cs_start_match st with Some sm => sm | None => m end in
    let num_in_segment := cs_num_in_segment st + 1 in
    len ← getitem (cs_permutation st) (cs_p_i st);
    if num_in_segment =? len then
      let written := cs_written st ++ [cut_line text0 start_match m] in
      let p_i := ((cs_p_i st + 1) mod length (cs_permutation st))%nat in
      let '(permutation, calls) :=
        if (p_i =? 0)%nat
        then (samples (cs_sample_calls st), S (cs_sample_calls st))
        else (cs_permutation st, cs_sample_calls st) in
      let progress_report := cs_progress_report st + 1 in
      let '(progress_report, puts) :=
        if progress_report >=? REPORT_PROGRESS_PERIOD
        then (0, cs_puts st ++ [progress_report])
        else (progress_report, cs_puts st) in
      Ok (MkCut permutation calls (cs_shift st) p_i None 0 progress_report
            (cs_num_cut_segments st + 1) written puts)
    else
      Ok (MkCut (cs_permutation st) (cs_sample_calls st) (cs_shift st) (cs_p_i st)
            (Some start_match) num_in_segment (cs_progress_report st)
            (cs_num_cut_segments st) (cs_written st) (cs_puts st)).

(** [cut_and_save_one_pass(text, out_f, progress_queue, num_words_in_segments)]:
    what is written to [out_f], what is put on the queue and the returned
    count.  [randint] is the value that [random.randint(0, max(...) // 2)]
    draws when its range is not empty. *)
Definition cut_and_save_one_pass (text0 : str) (num_words_in_segments : list Z) (randint : Z)
  : result (list str * list Z * Z) :=
  let permutation := samples 0 in
  largest ← py_max num_words_in_segments;
  shift ← random_randint 0 (largest / 2) randint;
  let ms := finditer WC text0 in
  st ← for_each (cut_step text0) ms
         (MkCut permutation 1 shift 0 None 0 0 0 [] []);
  match cs_start_match st with
  | Some start_match =>
      m ← match last ms with Some m => Ok m | None => Raise IndexError end;
      Ok (cs_written st ++ [cut_line text0 start_match m], cs_puts st,
          cs_num_cut_segments st + 1)
  | None => Ok (cs_written st, cs_puts st, cs_num_cut_segments st)
  end.

(** The start of match [a] is not after the start of match [b]. *)
Definition starts_before (a b : re_match) : Prop := (span_start a <= span_start b)%nat.

(** The text between the offsets of a match holds a word character. *)
Definition spans_a_word (text0 : str) (m : re_match) : Prop :=
  (span_start m <= span_end m)%nat
  /\ exists c, c ∈ slice text0 (span_start m) (span_end m) /\ WC c = true.

(** A line that begins with a word character. *)
Definition word_first (line : str) : Prop :=
  exists c rest, line = c :: rest /\ WC c = true.

(** The lines that [cut_and_save_one_pass] writes when it returns. *)
Definition written_lines (text0 : str) (num_words_in_segments : list Z) (randint : Z)
  : list str :=
  match cut_and_save_one_pass text0 num_words_in_segments randint with
  | Ok (written, _, _) => written
  | _ => []
  end.

End CutAndSave.

(** ** The progress consumer *)

(** What a call [qq.get()] of the consumer does: it returns a value put by a
    producer or raises [Empty].  A queue is the sequence of these outcomes
    for the successive calls; a call after the end of the sequence never
    returns. *)
Inductive get_event : Type :=
| Got (v : Z)
| EmptyRaised.

(** A progress bar: its counter [n] and whether [close()] was called. *)
Record bar : Type := MkBar {
  bar_n : Z;
  bar_closed : bool
}.

Record prog_state : Type := MkProg {
  prog : list bar;
  finished : list bool;
  queues : list (list get_event);
  warnings : list (Z * Z)
}.

(** How the [try] block ends: the sentinel was read, [Empty] was raised with
    the given [to_add], or a [get()] never returns. *)
Inductive drained : Type :=
| Sentinel
| Interrupted (to_add : Z)
| Stuck.

Fixpoint drain (evs : list get_event) (to_add : Z) : drained * list get_event :=
  match evs with
  | [] => (Stuck, [])
  | EmptyRaised :: rest => (Interrupted to_add, rest)
  | Got v :: rest => if v =? -1 then (Sentinel, rest) else drain rest (to_add + v)
  end.

(** The part of the body of [for i, qq in enumerate(q)] after the [try]
    statement, for a given [to_add]. *)
Definition account (total_num_lines : list Z) (st : prog_state) (i : nat) (to_add : Z)
  : result prog_state :=
  total ← getitem total_num_lines i;
  b ← getitem (prog st) i;
  let '(warnings, finished, b) :=
    if to_add <? 0 then
      ((if bar_n b <? total then warnings st ++ [(bar_n b, total)] else warnings st),
       <[i := true]> (finished st), MkBar (bar_n b) true)
    else (warnings st, finished st, b) in
  let b := MkBar (bar_n b + to_add) (bar_closed b) in
  let '(finished, b) :=
    if bar_n b >=? total then (<[i := true]> finished, MkBar (bar_n b) true)
    else (finished, b) in
  Ok (MkProg (<[i := b]> (prog st)) finished (queues st) warnings).

(** How the consumer ends: it returns, or it waits for ever in a [get()]. *)
Inductive consumer_outcome : Type :=
| Returned (st : prog_state)
| Waiting (st : prog_state).

(** The body of [for i, qq in enumerate(q)]. *)
Definition poll (total_num_lines : list Z) (st : prog_state) (i : nat)
  : result consumer_outcome :=
  evs ← getitem (queues st) i;
  let '(d, rest) := drain evs 0 in
  let st := MkProg (prog st) (finished st) (<[i := rest]> (queues st)) (warnings st) in
  match d with
  | Stuck => Ok (Waiting st)
  | Sentinel => st ← account total_num_lines st i (-1); Ok (Returned st)
  | Interrupted to_add =>
      if to_add =? 0 then Ok (Returned st)
      else st ← account total_num_lines st i to_add; Ok (Returned st)
  end.

(** One pass of the [for] loop; [Returned] here means that the pass ended. *)
Fixpoint poll_all (total_num_lines : list Z) (indices : list nat) (st : prog_state)
  : result consumer_outcome :=
  match indices with
  | [] => Ok (Returned st)
  | i :: indices' =>
      o ← poll total_num_lines st i;
      match o with
      | Returned st' => poll_all total_num_lines indices' st'
      | Waiting st' => Ok (Waiting st')
      end
  end.

(** [while True]; the [sleep] between two passes has no part in the result. *)
Fixpoint show_prog_loop (fuel : nat) (total_num_lines : list Z) (st : prog_state)
  : result consumer_outcome :=
  match fuel with
  | O => OutOfFuel
  | S fuel' =>
      o ← poll_all total_num_lines (seq 0 (length (queues st))) st;
      match o with
      | Waiting st' => Ok (Waiting st')
      | Returned st' =>
          if forallb (fun b => b) (finished st') then Ok (Returned st')
          else show_prog_loop fuel' total_num_lines st'
      end
  end.

Definition zip3 {A B C} (a : list A) (b : list B) (c : list C) : list (A * B * C) :=
  zip (zip a b) c.

(** [show_prog(q, total_num_lines, descriptions, units)] *)
Definition show_prog (q : list (list get_event)) (total_num_lines : list Z)
    (descriptions units : list str) : result consumer_outcome :=
  let prog := map (fun _ => MkBar 0 false) (zip3 total_num_lines descriptions units) in
  let finished := replicate (length q) false in
  show_prog_loop (S (length (concat q))) total_num_lines (MkProg prog finished q []).

(** [Progress.__init__]: the three parameters, already made lists, after the
    loop that repeats the lists of length one. *)
Definition broadcast {A} (num_processes : nat) (param : list A) : result (list A) :=
  if negb ((length param =? num_processes)%nat || (length param =? 1)%nat) then
    Raise (ValueError (lit "If parameter of `Progress.__init__` method is a list, then it has to be the same length as other parameters which are lists"))
  else if (length param =? 1)%nat then Ok (concat (replicate num_processes param))
  else Ok param.

Definition Progress_init (total : list Z) (desc unit : list str)
  : result (nat * list Z * list str * list str) :=
  let num_processes := Nat.max (Nat.max (length total) (length desc)) (length unit) in
  total ← broadcast num_processes total;
  desc ← broadcast num_processes desc;
  unit ← broadcast num_processes unit;
  Ok (num_processes, total, desc, unit).

(** [Progress.finish]: the sentinel is put on every queue, after whatever the
    producers have put. *)
Definition Progress_finish (puts : list (list Z)) : list (list get_event) :=
  map (fun vs => map Got vs ++ [Got (-1)]) puts.

(** The lists of the state of the consumer have one entry per queue. *)
Definition prog_wf (n : nat) (st : prog_state) : Prop :=
  length (prog st) = n /\ length (finished st) = n /\ length (queues st) = n.

(** The number of calls of [get()] that can still return or raise. *)
Definition pending (st : prog_state) : nat := length (concat (queues st)).

(** Two bars fed by their producers and then finished. *)
Definition two_queues : list (list get_event) := Progress_finish [[3]; [2; 5]].

(** * Further functions of the two modules *)

(** ** Slices, ranges and integer division *)

(** The position that a bound [i] of a slice stands for in a sequence of
    [len] items: a negative bound counts from the end, and a bound outside
    the sequence is moved to its nearest end. *)
Definition slice_bound (len i : Z) : nat :=
  Z.to_nat (Z.min len (if i <? 0 then Z.max 0 (i + len) else i)).

(** [l[a:b]] *)
Definition py_slice {A} (l : list A) (a b : Z) : list A :=
  let a' := slice_bound (zlen l) a in
  let b' := slice_bound (zlen l) b in
  take (b' - a') (drop a' l).

(** [l[a:]] *)
Definition py_slice_from {A} (l : list A) (a : Z) : list A :=
  drop (slice_bound (zlen l) a) l.

(** [range(a, b)] *)
Definition py_range (a b : Z) : list Z := seqZ a (b - a).

(** [a // b] and [a % b] on [int]: [Z.div] and [Z.modulo] round as Python
    does. *)
Definition floordiv (a b : Z) : result Z :=
  if b =? 0 then Raise ZeroDivisionError else Ok (a / b).

Definition pymod (a b : Z) : result Z :=
  if b =? 0 then Raise ZeroDivisionError else Ok (a mod b).

(** [[l[size * i: size * (i + 1)] for i in range(n - 1)] + [l[size * (n - 1):]]],
    the expression by which both modules deal the items of a list to [n]
    jobs. *)
Definition chunks {A} (l : list A) (size n : Z) : list (list A) :=
  map (fun i => py_slice l (size * i) (size * (i + 1))) (py_range 0 (n - 1))
  ++ [py_slice_from l (size * (n - 1))].

(** [distributed_files], as [remove_parentheses_parallel] and
    [estimate_number_of_segments_parallel] compute it from [files] and
    [num_jobs]. *)
Definition distributed_files {A} (files : list A) (num_jobs : Z) : result (list (list A)) :=
  let num_jobs := Z.min num_jobs (zlen files) in
  num_files_per_job ← floordiv (zlen files) num_jobs;
  Ok (chunks files num_files_per_job num_jobs).

(** ** Lengths of the dev and test segments *)

(** The body of [for _ in range(ns)] in [get_segment_lengths_by_files]. *)
Definition segment_length_step (all_lengths : list Z) (st : list Z * Z) (_ : Z)
  : result (list Z * Z) :=
  let '(segment_lengths_for_file, curr_length_idx) := st in
  x ← getitem all_lengths (Z.to_nat curr_length_idx);
  curr_length_idx ← pymod (curr_length_idx + 1) (zlen all_lengths);
  Ok (segment_lengths_for_file ++ [x], curr_length_idx).

(** The body of [for i, ns in enumerate(num_segments_by_files)]. *)
Definition segment_lengths_step (all_lengths : list Z) (st : list (list Z) * Z) (ns : Z)
  : result (list (list Z) * Z) :=
  let '(segment_lengths_by_files, curr_length_idx) := st in
  '(segment_lengths_for_file, curr_length_idx) ←
    for_each (segment_length_step all_lengths) (py_range 0 ns) ([], curr_length_idx);
  Ok (segment_lengths_by_files ++ [segment_lengths_for_file], curr_length_idx).

(** [get_segment_lengths_by_files] *)
Definition get_segment_lengths_by_files (num_segments_by_files : list Z)
    (sequence_length_range : Z * Z) : result (list (list Z)) :=
  let all_lengths := py_range sequence_length_range.1 sequence_length_range.2 in
  '(segment_lengths_by_files, _) ←
    for_each (segment_lengths_step all_lengths) num_segments_by_files ([], 0);
  Ok segment_lengths_by_files.

(** [n] lengths taken in turn from [range(lo, lo + len)], starting at
    position [start]. *)
Definition cycle (lo len start n : Z) : list Z :=
  map (fun j => lo + (start + j) mod len) (seqZ 0 n).

(** ** Where the dev and test segments start *)

Section SegmentLocation.

Variable WC : N -> bool.

Definition negative_segments_message (num_segments : Z) : str :=
  lit "Number of cut segments cannot be negative whereas num_segments="
  ++ str_of_int num_segments.

Definition not_enough_words_message (num_words : Z) (file : str) (max_length : Z) : str :=
  lit "Not enough words (" ++ str_of_int num_words ++ lit ") in file " ++ file
  ++ lit " to cut a segment of length " ++ str_of_int max_length.

Definition not_enough_sentences_message (file : str) (num_segments max_length num_words
    remaining : Z) : str :=
  lit "Not enough words in file " ++ file ++ lit " to cut " ++ str_of_int num_segments
  ++ lit " segments with maximum number of words in segment " ++ str_of_int max_length
  ++ lit ". If " ++ str_of_int num_words
  ++ lit " words are taken in the end of document, the number of remaining sentences "
  ++ str_of_int remaining ++ lit " is less than number of segments to cut.".

(** [random.sample(population, k)]: it raises when [k] is negative or
    exceeds the population, and otherwise returns [k] items from distinct
    positions; [drawn] is the list it returns. *)
Definition random_sample {A} (population : list A) (k : Z) (drawn : list A) : result (list A) :=
  if (k <? 0) || (zlen population <? k)
  then Raise (ValueError (lit "Sample larger than population or is negative"))
  else Ok drawn.

(** [generate_segment_location]; its [while] loop is the one of
    [get_max_allowed_segments_for_text]. *)
Definition generate_segment_location (sentences : list str) (max_length num_segments : Z)
    (file : str) (drawn : list Z) : result (list Z) :=
  if num_segments <? 0 then Raise (ValueError (negative_segments_message num_segments))
  else if num_segments =? 0 then Ok []
  else
    let '(sent_i, num_words) :=
      max_allowed_loop WC (rev sentences) (zlen sentences - 1) 0 max_length in
    if num_words <? max_length then
      Raise (ValueError (not_enough_words_message num_words file max_length))
    else if num_segments >? sent_i + 1 then
      Raise (ValueError (not_enough_sentences_message file num_segments max_length num_words
                           (sent_i + 1)))
    else
      sample ← random_sample (py_range 0 (sent_i + 1)) num_segments drawn;
      let start_sentences := merge_sort Z.le sample in
      _ ← py_assert (zlen start_sentences =? num_segments);
      Ok start_sentences.

(** What [random.sample] guarantees of a draw of [k] items from
    [range(n)]. *)
Definition drawn_from_range (n k : Z) (drawn : list Z) : Prop :=
  zlen drawn = k /\ NoDup drawn /\ Forall (fun x => 0 <= x < n) drawn.

(** The words of the sentences that follow sentence [s]. *)
Definition words_after (sentences : list str) (s : Z) : Z :=
  sumZ (map (count_words WC) (drop (S (Z.to_nat s)) sentences)).

End SegmentLocation.

(** ** Cutting the training segments of a shard *)

(** What the loop of [cut_and_save_one_pass] keeps true: the index into the
    permutation is valid, the count is the number of lines written, and the
    queue has received one value, the reporting period, for each full period
    of lines. *)
Definition one_pass_inv (st : cut_state) : Prop :=
  (cs_p_i st < length (cs_permutation st))%nat
  /\ cs_num_cut_segments st = zlen (cs_written st)
  /\ Forall (fun v => v = REPORT_PROGRESS_PERIOD) (cs_puts st)
  /\ sumZ (cs_puts st) + cs_progress_report st = cs_num_cut_segments st
  /\ 0 <= cs_progress_report st < REPORT_PROGRESS_PERIOD.

Section CutAndSaveFile.

Variable WC : N -> bool.

(** [small.SPACE_DUP.sub(' ', text)], of the module that is not part of the
    sources at hand. *)
Variable SPACE_DUP_sub : str -> str.

(** The random values of pass [p]: the successive results of [random.sample]
    and the result of [random.randint]. *)
Variable samples : nat -> nat -> list Z.
Variable randint : nat -> Z.

(** The text that [cut_and_save] cuts, from the texts of the documents of the
    shard in the order [random.shuffle] left them in. *)
Definition text_to_cut (shuffled : list str) : str :=
  SPACE_DUP_sub (replace_char NL SPACE (join [NL] shuffled)).

(** [cut_and_save]: [None] when no output file is opened, and otherwise the
    lines written to it and the values put on the progress queue. *)
Definition cut_and_save (shuffled : list str) (num_passes_through_dataset : Z)
    (sequence_range : Z * Z) : result (option (list str * list Z)) :=
  let text := text_to_cut shuffled in
  let num_words := count_words WC text in
  if num_words <? sequence_range.1 * 2 then Ok None
  else
    let num_words_in_segments :=
      py_range sequence_range.1 (Z.min sequence_range.2 (num_words / 2)) in
    out ← for_each
             (fun (out : list str * list Z) (p : nat) =>
                '(written, puts, _) ←
                  cut_and_save_one_pass WC (samples p) text num_words_in_segments (randint p);
                Ok (out.1 ++ written, out.2 ++ puts))
             (seq 0 (Z.to_nat num_passes_through_dataset)) ([], []);
    Ok (Some out).

End CutAndSaveFile.

(** ** Counting in a file *)

(** [count_in_blocks(files, size, specific_to_count, num_characters)] with
    all its parameters: the values that the generator yields.  The source
    never updates [total_num_characters]. *)
Fixpoint count_in_blocks_of (fuel : nat) (fd : str) (size : Z)
    (specific_to_count : option str) (num_characters : option Z) : result (list Z) :=
  match fuel with
  | O => OutOfFuel
  | S fuel' =>
      let total_num_characters := 0 in
      let '(b, fd') := fd_read fd size in
      match b with
      | [] => Ok []
      | _ :: _ =>
          let '(b, finished) :=
            match num_characters with
            | Some n =>
                if total_num_characters + zlen b >=? n
                then (py_slice b 0 (n - total_num_characters), true)
                else (b, false)
            | None => (b, false)
            end in
          let y :=
            match specific_to_count with
            | None => zlen b
            | Some pattern => Z.of_nat (count pattern b)
            end in
          if finished then Ok [y]
          else rest ← count_in_blocks_of fuel' fd' size specific_to_count num_characters;
               Ok (y :: rest)
      end
  end.

(** [count_lines_in_file(file_path, start, num_characters)]; [file] is the
    text of the file from the position that [f.seek(start)] moves to. *)
Definition count_lines_in_file (file : str) (num_characters : option Z) : result Z :=
  blocks ← count_in_blocks_of (S (length file)) file BUFFER_SIZE (Some [NL]) num_characters;
  Ok (sumZ blocks).

(** [list(accumulate(l))], and with [initial=...]. *)
Fixpoint accumulate_from (acc : Z) (l : list Z) : list Z :=
  match l with
  | [] => []
  | x :: l' => (acc + x) :: accumulate_from (acc + x) l'
  end.

Definition accumulate (l : list Z) : list Z := accumulate_from 0 l.

Definition accumulate_initial (l : list Z) (initial : Z) : list Z :=
  initial :: accumulate_from initial l.

(** The loop of [count_in_file_parts]. *)
Fixpoint count_in_file_parts_loop (fuel : nat) (f : str) (num_parts : nat)
    (num_preceding_characters_for_segment : list Z) (pattern : str) (result_ : list Z)
    (current_segment_i : nat) (characters_read : Z) (buffer : str) : result (list Z) :=
  match fuel with
  | O => OutOfFuel
  | S fuel' =>
      match buffer with
      | [] => Ok result_
      | _ :: _ =>
          bound ← getitem num_preceding_characters_for_segment current_segment_i;
          if bound >? characters_read then
            let '(buffer, f) := fd_read f (Z.min BUFFER_SIZE (bound - characters_read)) in
            let characters_read := characters_read + zlen buffer in
            r ← getitem result_ current_segment_i;
            let result_ := <[current_segment_i := r + Z.of_nat (count pattern buffer)]> result_ in
            if characters_read >=? bound then
              let current_segment_i := S current_segment_i in
              if (num_parts <=? current_segment_i)%nat then Ok result_
              else count_in_file_parts_loop fuel' f num_parts
                     num_preceding_characters_for_segment pattern result_ current_segment_i
                     characters_read buffer
            else count_in_file_parts_loop fuel' f num_parts
                   num_preceding_characters_for_segment pattern result_ current_segment_i
                   characters_read buffer
          else Ok result_
      end
  end.

(** [count_in_file_parts(file_path, part_num_characters, pattern)] *)
Definition count_in_file_parts (file : str) (part_num_characters : list Z) (pattern : str)
  : result (list Z) :=
  count_in_file_parts_loop (length file + 2) file (length part_num_characters)
    (accumulate part_num_characters) pattern
    (replicate (length part_num_characters) 0) 0 0 (lit "filler").

(** The parts of a text, of the given numbers of characters. *)
Fixpoint pieces (s : str) (sizes : list Z) : list str :=
  match sizes with
  | [] => []
  | n :: sizes' => take (Z.to_nat n) s :: pieces (drop (Z.to_nat n) s) sizes'
  end.

(** A part of [rem] characters is counted right when it is read in one
    block, or when the pattern is one character. *)
Definition splits_ok (pattern : str) (rem : Z) : Prop :=
  rem <= BUFFER_SIZE \/ exists c, pattern = [c].

(** The occurrences of the pattern in a text, as an [int]. *)
Definition cnt (pattern : str) (s : str) : Z := Z.of_nat (count pattern s).

(** * The dataset module *)

(** ** Tokenization in splits *)

Definition MAX_NUM_QUERIES_IN_SPLIT : Z := 10 ^ 4.

(** The splits of [tokenize_create_masks_clip_parallel]: [split_queries],
    and in the same way [split_punct_labels_lines] and
    [split_capit_labels_lines]; [njobs] is the number of jobs after the
    default was filled in. *)
Definition split_queries {A} (queries : list A) (njobs : Z) : result (list (list A)) :=
  let ss := Z.min (zlen queries / Z.max njobs 1) MAX_NUM_QUERIES_IN_SPLIT in
  n_split ← floordiv (zlen queries) ss;
  Ok (chunks queries ss n_split).

(** [TokenizeCreateMasksClipWorker.maybe_clip] *)
Definition maybe_clip {A} (max_seq_length : Z) (values : list A) (prepend_value : A) : list A :=
  if zlen values >? max_seq_length
  then prepend_value :: py_slice_from values (- max_seq_length + 1)
  else values.

(** ** Masks *)

(** Arrays of two dimensions are lists of rows; the operations of [numpy]
    used here work item by item on arrays of the same shape. *)
Definition array_map {A B} (f : A -> B) (a : list (list A)) : list (list B) :=
  map (map f) a.

Definition array_zip {A B C} (f : A -> B -> C) (a : list (list A)) (b : list (list B))
  : list (list C) :=
  zip_with (zip_with f) a b.

Definition same_shape {A B} (a : list (list A)) (b : list (list B)) : Prop :=
  Forall2 (fun x y => length x = length y) a b.

(** [get_masks_and_segment_ids] *)
Definition get_masks_and_segment_ids (input_ids : list (list Z))
    (subtokens_mask : list (list bool)) (pad_id cls_id sep_id : Z)
    (ignore_start_end ignore_extra_tokens : bool)
  : list (list Z) * list (list bool) * list (list bool) :=
  let segment_ids := array_map (fun _ => 0) input_ids in
  let input_mask := array_map (fun x => negb (x =? pad_id)) input_ids in
  let special_mask :=
    array_zip andb (array_map (fun x => x =? cls_id) input_ids)
      (array_map (fun x => x =? sep_id) input_ids) in
  let loss_mask :=
    if ignore_start_end then
      if ignore_extra_tokens then subtokens_mask
      else array_zip andb input_mask (array_map negb special_mask)
    else
      if ignore_extra_tokens then array_zip orb subtokens_mask special_mask
      else input_mask in
  (segment_ids, input_mask, loss_mask).

(** ** The progress consumer, continued *)

(** The warnings of a consumer all of whose bars are at 0 when their queues
    deliver the sentinel: one for each bar of positive total. *)
Definition unfinished_warnings (total_num_lines : list Z) : list (Z * Z) :=
  concat (map (fun t => if 0 <? t then [(0, t)] else []) total_num_lines).

(** ** Marking up batches *)

Definition BATCH_MARK_UP_PROGRESS_REPORT_PERIOD : Z := 10 ^ 4.

(** [ceil(n / 8) * 8] for a length [n]. *)
Definition ceil8 (n : Z) : Z := (n + 7) / 8 * 8.

(** [max([len(inp) for inp in input_ids[a:b]])] *)
Definition max_len_between (input_ids : list (list Z)) (a b : Z) : result Z :=
  py_max (map zlen (py_slice input_ids a b)).

(** The state of the loop of [mark_up_batches]; [mu_puts] is what was put on
    [batch_mark_up_progress_queue]. *)
Record mark_state : Type := MkMark {
  mu_start : Z;
  mu_current_max_length : Z;
  mu_batch_beginnings : list Z;
  mu_batch_sizes : list Z;
  mu_batch_seq_lengths : list Z;
  mu_progress_made : Z;
  mu_puts : list Z
}.

Section MarkUpBatches.

Variable tokens_in_batch : Z.

(** Whether [batch_mark_up_progress_queue] is a queue, not [None]. *)
Variable with_queue : bool.

Variable input_ids : list (list Z).

(** The end of the body of the loop: the report of progress. *)
Definition mark_progress (st : mark_state) : mark_state :=
  if with_queue then
    let progress_made := mu_progress_made st + 1 in
    if progress_made >=? BATCH_MARK_UP_PROGRESS_REPORT_PERIOD then
      MkMark (mu_start st) (mu_current_max_length st) (mu_batch_beginnings st)
        (mu_batch_sizes st) (mu_batch_seq_lengths st) 0 (mu_puts st ++ [progress_made])
    else
      MkMark (mu_start st) (mu_current_max_length st) (mu_batch_beginnings st)
        (mu_batch_sizes st) (mu_batch_seq_lengths st) progress_made (mu_puts st)
  else st.

(** A batch of [batch_size] sequences is closed at sequence [i]. *)
Definition close_batch (st : mark_state) (i batch_size : Z) : result mark_state :=
  let start := mu_start st in
  m ← max_len_between input_ids start (start + batch_size);
  let seq_length := ceil8 m in
  let start := start + batch_size in
  m ← max_len_between input_ids start (i + 1);
  Ok (mark_progress
        (MkMark start (ceil8 m) (mu_batch_beginnings st ++ [mu_start st])
           (mu_batch_sizes st ++ [batch_size]) (mu_batch_seq_lengths st ++ [seq_length])
           (mu_progress_made st) (mu_puts st))).

(** The body of [for i, inp in inp_iterator]. *)
Definition mark_up_step (st : mark_state) (i : Z) (inp : list Z) : result mark_state :=
  let start := mu_start st in
  let current_max_length := Z.max (mu_current_max_length st) (ceil8 (zlen inp)) in
  if current_max_length * (i + 1 - start) >? tokens_in_batch then
    let batch_size := (i - start) / 8 * 8 in
    if batch_size =? 0 then
      if i >? start then
        close_batch
          (MkMark start current_max_length (mu_batch_beginnings st) (mu_batch_sizes st)
             (mu_batch_seq_lengths st) (mu_progress_made st) (mu_puts st))
          i (i - start)
      else
        Ok (MkMark i (ceil8 (zlen inp)) (mu_batch_beginnings st) (mu_batch_sizes st)
              (mu_batch_seq_lengths st) (mu_progress_made st) (mu_puts st))
    else
      close_batch
        (MkMark start current_max_length (mu_batch_beginnings st) (mu_batch_sizes st)
           (mu_batch_seq_lengths st) (mu_progress_made st) (mu_puts st))
        i batch_size
  else
    Ok (mark_progress
          (MkMark start current_max_length (mu_batch_beginnings st) (mu_batch_sizes st)
             (mu_batch_seq_lengths st) (mu_progress_made st) (mu_puts st))).

(** [for i, inp in enumerate(input_ids)], from sequence [i] on. *)
Fixpoint mark_up_loop (i : Z) (rest : list (list Z)) (st : mark_state) : result mark_state :=
  match rest with
  | [] => Ok st
  | inp :: rest' => st' ← mark_up_step st i inp; mark_up_loop (i + 1) rest' st'
  end.

(** The assertions on batch [i], for [i] in [range(len(batch_beginnings) - 1)]. *)
Definition check_batch (batch_beginnings batch_sizes batch_seq_lengths : list Z) (_ : unit)
    (i : Z) : result unit :=
  b ← getitem batch_beginnings (Z.to_nat i);
  s ← getitem batch_sizes (Z.to_nat i);
  b' ← getitem batch_beginnings (Z.to_nat (i + 1));
  _ ← py_assert (b + s =? b');
  l ← getitem batch_seq_lengths (Z.to_nat i);
  m ← max_len_between input_ids b (b + s);
  py_assert (l >=? m).

(** [mark_up_batches(input_ids)]: the three lists it returns and what it
    puts on the progress queue. *)
Definition mark_up_batches : result (list Z * list Z * list Z * list Z) :=
  st ← mark_up_loop 0 input_ids (MkMark 0 0 [] [] [] 0 []);
  st ← (if mu_start st <? zlen input_ids then
          m ← py_max (map zlen (py_slice_from input_ids (mu_start st)));
          Ok (MkMark (mu_start st) (mu_current_max_length st)
                (mu_batch_beginnings st ++ [mu_start st])
                (mu_batch_sizes st ++ [zlen input_ids - mu_start st])
                (mu_batch_seq_lengths st ++ [ceil8 m])
                (mu_progress_made st)
                (if with_queue then mu_puts st ++ [mu_progress_made st] else mu_puts st))
        else Ok st);
  _ ← py_assert (sumZ (mu_batch_sizes st) =? zlen input_ids);
  _ ← for_each (check_batch (mu_batch_beginnings st) (mu_batch_sizes st)
                  (mu_batch_seq_lengths st))
        (py_range 0 (zlen (mu_batch_beginnings st) - 1)) tt;
  Ok (mu_batch_beginnings st, mu_batch_sizes st, mu_batch_seq_lengths st, mu_puts st).

(** The batches marked up so far hold the sequences before [start], each
    sequence in one batch, in order; no batch is empty, and the length of a
    batch is the greatest length of its sequences rounded up to a multiple
    of 8. *)
Inductive batched : list Z -> list Z -> list Z -> Z -> Prop :=
| batched_nil : batched [] [] [] 0
| batched_snoc bs szs sls start sz m :
    batched bs szs sls start ->
    1 <= sz -> start + sz <= zlen input_ids ->
    max_len_between input_ids start (start + sz) = Ok m ->
    batched (bs ++ [start]) (szs ++ [sz]) (sls ++ [ceil8 m]) (start + sz).

(** The loop keeps the batches marked up so far in order, and the start of
    the next batch at or before the sequence to come. *)
Definition mark_inv (i : Z) (st : mark_state) : Prop :=
  batched (mu_batch_beginnings st) (mu_batch_sizes st) (mu_batch_seq_lengths st)
    (mu_start st)
  /\ 0 <= mu_start st <= i.

End MarkUpBatches.

(** ** Features for inference *)

(** [range(a, b, step)] *)
Definition py_range_step (a b step : Z) : result (list Z) :=
  if step =? 0 then Raise (ValueError (lit "range() arg 3 must not be zero"))
  else if 0 <? step
  then Ok (map (fun k => a + k * step) (seqZ 0 ((b - a + step - 1) / step)))
  else Ok (map (fun k => a + k * step) (seqZ 0 ((a - b - step - 1) / - step))).

Definition max_seq_length_message (max_seq_length : Z) : str :=
  lit "Parameter `max_seq_length=" ++ str_of_int max_seq_length
  ++ lit "` cannot be less than 3 because `max_seq_length` is a length of a segment with [CLS] and [SEP] tokens.".

Definition margin_message (margin max_seq_length : Z) : str :=
  lit "Parameter `margin` has to be not negative and less than `(max_seq_length - 2) // 2`. Don't forget about CLS and EOS tokens in the beginning and the end of segment. margin="
  ++ str_of_int margin ++ lit ", max_seq_length=" ++ str_of_int max_seq_length.

Definition step_message (step : Z) : str :=
  lit "Parameter `step` has to be positive whereas step=" ++ str_of_int step.

(** [_check_max_seq_length_and_margin_and_step]; the warning it may log is
    left out. *)
Definition _check_max_seq_length_and_margin_and_step (max_seq_length margin step : Z)
  : result unit :=
  if max_seq_length <? 3 then Raise (ValueError (max_seq_length_message max_seq_length))
  else if (margin >=? (max_seq_length - 2) / 2) && (margin >? 0) || (margin <? 0)
  then Raise (ValueError (margin_message margin max_seq_length))
  else if step <=? 0 then Raise (ValueError (step_message step))
  else Ok tt.

(** The parameters that [_check_max_seq_length_and_margin_and_step]
    accepts. *)
Definition accepted (max_seq_length margin step : Z) : Prop :=
  3 <= max_seq_length /\ 0 <= margin /\ (margin = 0 \/ margin < (max_seq_length - 2) / 2)
  /\ 0 < step.

(** The columns that [get_features_infer] returns. *)
Record infer_features : Type := MkInfer {
  all_input_ids : list (list Z);
  all_segment_ids : list (list Z);
  all_input_mask : list (list Z);
  all_subtokens_mask : list (list Z);
  all_quantities_of_preceding_words : list Z;
  all_query_ids : list Z;
  all_is_first : list bool;
  all_is_last : list bool
}.

Section Inference.

(** The tokenizer: its tokens, [text_to_tokens], [tokens_to_ids] and the
    tokens [cls_token] and [sep_token]. *)
Variable token : Type.
Variable text_to_tokens : str -> list token.
Variable tokens_to_ids : list token -> list Z.
Variable cls_token sep_token : token.

(** [_get_subtokens_and_subtokens_mask] *)
Definition _get_subtokens_and_subtokens_mask (query : str) : list token * list Z :=
  let words := split_ws (strip query) in
  foldl (fun '(subtokens, subtokens_mask) word =>
           let word_tokens := text_to_tokens word in
           (subtokens ++ word_tokens,
            (subtokens_mask ++ [1]) ++ replicate (Z.to_nat (zlen word_tokens - 1)) 0))
    ([], []) words.

(** The segments of one query: the body of [for q_i, query_st in
    enumerate(st)], which appends one list to each column. *)
Definition query_segments (length step : Z) (acc : list infer_features) (q : Z * (list token * list Z))
  : result (list infer_features) :=
  let '(q_i, (query_st, query_stm)) := q in
  starts ← py_range_step 0 (Z.max (zlen query_st) length - length + step) step;
  let subtokens i := [cls_token] ++ py_slice query_st i (i + length) ++ [sep_token] in
  let q_inp_ids := map (fun i => tokens_to_ids (subtokens i)) starts in
  let n := zlen q_inp_ids in
  Ok (acc ++
      [MkInfer q_inp_ids
         (map (fun i => replicate (List.length (subtokens i)) 0) starts)
         (map (fun i => replicate (List.length (subtokens i)) 1) starts)
         (map (fun i => [0] ++ py_slice query_stm i (i + length) ++ [0]) starts)
         (map (fun i => zlen (filter (fun x => x <> 0) (py_slice query_stm 0 i))) starts)
         (replicate (Z.to_nat n) q_i)
         ([true] ++ replicate (Z.to_nat (n - 1)) false)
         (replicate (Z.to_nat (n - 1)) false ++ [true])]).

(** [get_features_infer] *)
Definition get_features_infer (queries : list str) (max_seq_length step margin : Z)
  : result infer_features :=
  let tokenized := map _get_subtokens_and_subtokens_mask queries in
  let sent_lengths := map (fun t => zlen t.1) tokenized in
  _ ← _check_max_seq_length_and_margin_and_step max_seq_length margin step;
  longest ← py_max sent_lengths;
  let max_seq_length := Z.min max_seq_length (longest + 2) in
  let length := max_seq_length - 2 in
  let step := Z.min (length - margin * 2) step in
  per_query ← for_each (query_segments length step) (enumerate tokenized) [];
  Ok (MkInfer (concat (map all_input_ids per_query))
        (concat (map all_segment_ids per_query))
        (concat (map all_input_mask per_query))
        (concat (map all_subtokens_mask per_query))
        (concat (map all_quantities_of_preceding_words per_query))
        (concat (map all_query_ids per_query))
        (concat (map all_is_first per_query))
        (concat (map all_is_last per_query))).

(** The columns of one query, for the starts of its segments. *)
Definition segments_row (length : Z) (q : Z * (list token * list Z)) (starts : list Z)
  : infer_features :=
  let window i := [cls_token] ++ py_slice q.2.1 i (i + length) ++ [sep_token] in
  let q_inp_ids := map (fun i => tokens_to_ids (window i)) starts in
  MkInfer q_inp_ids
    (map (fun i => replicate (List.length (window i)) 0) starts)
    (map (fun i => replicate (List.length (window i)) 1) starts)
    (map (fun i => [0] ++ py_slice q.2.2 i (i + length) ++ [0]) starts)
    (map (fun i => zlen (filter (fun x => x <> 0) (py_slice q.2.2 0 i))) starts)
    (replicate (Z.to_nat (zlen q_inp_ids)) q.1)
    ([true] ++ replicate (Z.to_nat (zlen q_inp_ids - 1)) false)
    (replicate (Z.to_nat (zlen q_inp_ids - 1)) false ++ [true]).

(** The subtokens of a query. *)
Definition subtokens_of (query : str) : list token :=
  (_get_subtokens_and_subtokens_mask query).1.

(** The ids of the segment of a query that starts at subtoken [i]. *)
Definition segment_ids_at (query : str) (length i : Z) : list Z :=
  tokens_to_ids ([cls_token] ++ py_slice (subtokens_of query) i (i + length) ++ [sep_token]).

End Inference.

(** A tokenizer for the examples: a word is split into its characters. *)
Definition characters (word : str) : list N := word.

(** ** Tokenization of the training queries *)

Definition TOKENIZATION_PROGRESS_REPORT_PERIOD : Z := 10 ^ 3.

(** [d[k]] for a dictionary keyed by strings. *)
Definition label_id (d : gmap (list N) Z) (k : str) : result Z :=
  match d !! k with
  | Some v => Ok v
  | None => Raise KeyError
  end.

(** [[d[lab] for lab in labels]] *)
Fixpoint label_ids_of (d : gmap (list N) Z) (labels : list str) : result (list Z) :=
  match labels with
  | [] => Ok []
  | lab :: labels' => v ← label_id d lab; vs ← label_ids_of d labels'; Ok (v :: vs)
  end.

(** A value that an array of [np.int32] holds as it is. *)
Definition fits_int32 (v : Z) : Prop := - 2 ^ 31 <= v < 2 ^ 31.

(** What the worker returns, and what it puts on the progress queue.  The
    arrays of ids and of labels are of [np.int32] in the source: the lists
    of the model are these arrays for values that fit, [fits_int32]. *)
Record tokenized : Type := MkTokenized {
  tk_all_input_ids : list (list Z);
  tk_all_subtokens_mask : list (list Z);
  tk_sent_lengths : list Z;
  tk_punct_all_labels : list (list Z);
  tk_capit_all_labels : list (list Z);
  tk_progress_made : Z;
  tk_puts : list Z
}.

(** The four arrays of each query have the same length, at most
    [max_seq_length]. *)
Definition aligned (max_seq_length : Z) (t : tokenized) : Prop :=
  Forall2 (fun ids mask => zlen mask = zlen ids) (tk_all_input_ids t) (tk_all_subtokens_mask t)
  /\ Forall2 (fun ids labels => zlen labels = zlen ids) (tk_all_input_ids t)
       (tk_punct_all_labels t)
  /\ Forall2 (fun ids labels => zlen labels = zlen ids) (tk_all_input_ids t)
       (tk_capit_all_labels t)
  /\ Forall2 (fun ids n => zlen ids = Z.min n max_seq_length) (tk_all_input_ids t)
       (tk_sent_lengths t).

Section Tokenize.

(** The tokenizer. *)
Variable text_to_ids : str -> list Z.
Variable cls_id sep_id : Z.

Variable max_seq_length : Z.
Variable punct_label_ids capit_label_ids : gmap (list N) Z.
Variable pad_label : str.
Variable with_label : bool.

(** The messages of [check_number_of_labels], which format the query and
    the labels. *)
Variable punctuation_labels_message capitalization_labels_message :
  list str -> str -> Z -> Z -> list str -> list str -> str.

(** [check_number_of_labels] *)
Definition check_number_of_labels (words : list str) (query : str) (qi split_i : Z)
    (punctuation_labels capitalization_labels : list str) : result unit :=
  if negb (zlen words =? zlen punctuation_labels) then
    Raise (ValueError (punctuation_labels_message words query qi split_i punctuation_labels
                         capitalization_labels))
  else if negb (zlen words =? zlen capitalization_labels) then
    Raise (ValueError (capitalization_labels_message words query qi split_i
                         punctuation_labels capitalization_labels))
  else Ok tt.

(** The body of [for j, word in enumerate(words)]; the labels of the word
    are [None] without labels. *)
Definition tokenize_word (st : list Z * list Z * list Z * list Z)
    (jw : Z * str) (query_labels : option (list Z * list Z))
  : result (list Z * list Z * list Z * list Z) :=
  let '(input_ids, subtokens_mask, punct_labels, capit_labels) := st in
  let '(j, word) := jw in
  let word_ids := text_to_ids word in
  let input_ids := input_ids ++ word_ids in
  let subtokens_mask :=
    (subtokens_mask ++ [1]) ++ replicate (Z.to_nat (zlen word_ids - 1)) 0 in
  match query_labels with
  | Some (punct_query_labels, capit_query_labels) =>
      p ← getitem punct_query_labels (Z.to_nat j);
      c ← getitem capit_query_labels (Z.to_nat j);
      Ok (input_ids, subtokens_mask,
          punct_labels ++ replicate (length word_ids) p,
          capit_labels ++ replicate (length word_ids) c)
  | None => Ok (input_ids, subtokens_mask, punct_labels, capit_labels)
  end.

(** The body of [for i, query in enumerate(queries)]. *)
Definition tokenize_query (split_i : Z) (punct_labels_lines capit_labels_lines : list (list str))
    (st : tokenized) (iq : Z * str) : result tokenized :=
  let '(i, query) := iq in
  let words := split_ws (strip query) in
  '(pad_id, query_labels) ←
    (if with_label then
       punct_line ← getitem punct_labels_lines (Z.to_nat i);
       capit_line ← getitem capit_labels_lines (Z.to_nat i);
       _ ← check_number_of_labels words query i split_i punct_line capit_line;
       pad_id ← label_id punct_label_ids pad_label;
       punct_query_labels ← label_ids_of punct_label_ids punct_line;
       capit_query_labels ← label_ids_of capit_label_ids capit_line;
       Ok (pad_id, Some (punct_query_labels, capit_query_labels))
     else Ok (0, None));
  '(input_ids, subtokens_mask, punct_labels, capit_labels) ←
    for_each (fun st jw => tokenize_word st jw query_labels) (enumerate words)
      ([cls_id], [0], [pad_id], [pad_id]);
  let input_ids := input_ids ++ [sep_id] in
  let subtokens_mask := subtokens_mask ++ [0] in
  let progress_made := tk_progress_made st + 1 in
  let '(progress_made, puts) :=
    if progress_made >=? TOKENIZATION_PROGRESS_REPORT_PERIOD
    then (0, tk_puts st ++ [progress_made]) else (progress_made, tk_puts st) in
  Ok (MkTokenized
        (tk_all_input_ids st ++ [maybe_clip max_seq_length input_ids cls_id])
        (tk_all_subtokens_mask st ++ [maybe_clip max_seq_length subtokens_mask 0])
        (tk_sent_lengths st ++ [zlen input_ids])
        (if with_label
         then tk_punct_all_labels st ++ [maybe_clip max_seq_length (punct_labels ++ [pad_id]) pad_id]
         else tk_punct_all_labels st)
        (if with_label
         then tk_capit_all_labels st ++ [maybe_clip max_seq_length (capit_labels ++ [pad_id]) pad_id]
         else tk_capit_all_labels st)
        progress_made puts).

(** [TokenizeCreateMasksClipWorker.__call__] *)
Definition TokenizeCreateMasksClipWorker_call (queries : list str)
    (punct_labels_lines capit_labels_lines : list (list str)) (split_i : Z) : result tokenized :=
  for_each (tokenize_query split_i punct_labels_lines capit_labels_lines) (enumerate queries)
    (MkTokenized [] [] [] [] [] 0 []).

End Tokenize.
(** * More of the preparation script *)

(** ** Cutting the dev and test segments of a shard *)

Section DevSegments.

Variable WC : N -> bool.

(** [randint j a b]: what [random.randint(a, b)] returns in the call made
    for segment [j]. *)
Variable randint : nat -> Z -> Z -> Z.

(** The body of [get_max_allowed_segments_for_text] after its first line:
    the number of sentences a segment may start from. *)
Definition max_allowed_segments (sentences : list str) (max_segment_length : Z) : Z :=
  let '(sent_i, num_words) :=
    max_allowed_loop WC (rev sentences) (zlen sentences - 1) 0 max_segment_length in
  if num_words <? max_segment_length then 0 else sent_i + 1.

(** The documents of a shard are the items of the dictionary returned by
    [big.read_docs_from_file], in its order: the id and the text of each
    (the reader belongs to a module that is not part of the sources at
    hand).  The set [doc['to_exclude']] of the document [doc_id] is
    [to_exclude !! doc_id]. *)
Definition dev_lines_step (st : list str * list Z * list Z * gmap Z (gset Z)) (doc : Z * str)
  : list str * list Z * list Z * gmap Z (gset Z) :=
  let '(sentences, doc_ids, sent_indices, to_exclude) := st in
  let lines := splitlines doc.2 in
  (sentences ++ lines,
   doc_ids ++ replicate (length lines) doc.1,
   sent_indices ++ py_range 0 (zlen lines),
   <[doc.1 := ∅]> to_exclude).

(** The loop [while num_words_raw < shift + segment_lengths[curr_segment_i]],
    over the sentences from [sentence_i] on; [needed] is the right hand side
    of the test. *)
Fixpoint sentences_for_segment (following : list str) (needed num_words_raw : Z)
    (num_sentences_for_segment : Z) : result Z :=
  if num_words_raw <? needed then
    match following with
    | [] => Raise IndexError
    | sentence :: following' =>
        sentences_for_segment following' needed (num_words_raw + count_words WC sentence)
          (num_sentences_for_segment + 1)
    end
  else Ok num_sentences_for_segment.

(** The body of [for i in range(num_sentences_for_segment)]. *)
Definition exclude_sentence (doc_ids sent_indices : list Z) (sentence_i : Z)
    (to_exclude : gmap Z (gset Z)) (i : Z) : result (gmap Z (gset Z)) :=
  doc_id ← getitem doc_ids (Z.to_nat (sentence_i + i));
  sent_index ← getitem sent_indices (Z.to_nat (sentence_i + i));
  match to_exclude !! doc_id with
  | Some lines => Ok (<[doc_id := {[sent_index]} ∪ lines]> to_exclude)
  | None => Raise KeyError
  end.

Record dev_state : Type := MkDev {
  dv_curr_segment_i : nat;
  dv_segments : list str;
  dv_to_exclude : gmap Z (gset Z);
  dv_excluded : gset Z;
  dv_progress : Z;
  dv_puts : list Z
}.

(** The body of [while sentence_i < len(sentences)].  Nothing but the
    [sentence_i += 1] that ends the body changes [sentence_i], so that the
    loop goes through [range(len(sentences))]. *)
Definition dev_step (sentences : list str) (doc_ids sent_indices start_sentences
    segment_lengths : list Z) (st : dev_state) (sentence_i : Z) : result dev_state :=
  let curr_segment_i := dv_curr_segment_i st in
  match start_sentences !! curr_segment_i with
  | None => Ok st
  | Some start =>
      if sentence_i =? start then
        sentence ← getitem sentences (Z.to_nat start);
        let num_words := count_words WC sentence in
        let shift := randint curr_segment_i 0 (num_words / 2) in
        segment_length ← getitem segment_lengths curr_segment_i;
        num_sentences_for_segment ←
          sentences_for_segment (py_slice_from sentences sentence_i) (shift + segment_length)
            0 0;
        let segment :=
          cut_segment WC
            (join [SPACE]
               (py_slice sentences sentence_i (sentence_i + num_sentences_for_segment)))
            shift segment_length in
        to_exclude ←
          for_each (exclude_sentence doc_ids sent_indices sentence_i)
            (py_range 0 num_sentences_for_segment) (dv_to_exclude st);
        let excluded :=
          dv_excluded st
          ∪ list_to_set (map (fun i => sentence_i + i) (py_range 0 num_sentences_for_segment)) in
        let progress := dv_progress st + 1 in
        Ok (MkDev (S curr_segment_i) (dv_segments st ++ [segment]) to_exclude excluded
              (if progress >=? 1 then 0 else progress)
              (if progress >=? 1 then dv_puts st ++ [progress] else dv_puts st))
      else Ok st
  end.

(** The lines of a document that are kept, and the document made of them,
    if any is left. *)
Definition kept_lines (excluded : gset Z) (lines : list str) : list str :=
  map snd (filter (fun il => il.1 ∉ excluded) (enumerate lines)).

Definition filtered_doc (to_exclude : gmap Z (gset Z)) (doc : Z * str) : option (Z * str) :=
  match kept_lines (default ∅ (to_exclude !! doc.1)) (splitlines doc.2) with
  | [] => None
  | lines => Some (doc.1, join [NL] lines ++ [NL])
  end.

(** [extract_dev_text_segments_worker]: the segments returned, the values put
    on the progress queue, and the documents given to
    [big.write_docs_to_file], if it is called. *)
Definition extract_dev_text_segments_worker (file : str) (segment_lengths : list Z)
    (docs : list (Z * str)) (drawn : list Z)
  : result (list str * list Z * option (list (Z * str))) :=
  let num_segments := zlen segment_lengths in
  if num_segments =? 0 then Ok ([], [], None)
  else
    let '(sentences, doc_ids, sent_indices, to_exclude) :=
      foldl dev_lines_step ([], [], [], ∅) docs in
    max_length ← py_max segment_lengths;
    start_sentences ←
      generate_segment_location WC sentences max_length num_segments file drawn;
    st ←
      for_each (dev_step sentences doc_ids sent_indices start_sentences segment_lengths)
        (py_range 0 (zlen sentences)) (MkDev 0 [] to_exclude ∅ 0 []);
    let filtered_docs := omap (filtered_doc (dv_to_exclude st)) docs in
    let written := match filtered_docs with [] => None | _ => Some filtered_docs end in
    _ ← py_assert (zlen (dv_segments st) =? num_segments);
    Ok (dv_segments st, dv_puts st ++ [dv_progress st], written).

(** The sentences of the documents, each with the lines of its text. *)
Definition sentences_of (docs : list (Z * str)) : list str :=
  concat (map (fun doc => splitlines doc.2) docs).

(** The number of maximal runs of word characters of a string; [in_word]
    tells whether the character before the string is a word character. *)
Fixpoint word_runs (in_word : bool) (s : str) : nat :=
  match s with
  | [] => 0
  | c :: s' =>
      if WC c then ((if in_word then 0 else 1) + word_runs true s')%nat
      else word_runs false s'
  end.

(** The documents left when the sentences numbered in [covered] are taken
    out; [offset] is the number of the first sentence of [docs]. *)
Definition lines_outside (covered : gset Z) (offset : Z) (lines : list str) : list str :=
  map snd (filter (fun il => offset + il.1 ∉ covered) (enumerate lines)).

Fixpoint documents_without (covered : gset Z) (offset : Z) (docs : list (Z * str))
  : list (Z * str) :=
  match docs with
  | [] => []
  | doc :: docs' =>
      let lines := splitlines doc.2 in
      match lines_outside covered offset lines with
      | [] => documents_without covered (offset + zlen lines) docs'
      | kept =>
          (doc.1, join [NL] kept ++ [NL])
          :: documents_without covered (offset + zlen lines) docs'
      end
  end.

(** The numbers of the sentences of the spans: a span is the number of its
    first sentence and its number of sentences. *)
Definition covered_by (spans : list (Z * Z)) : gset Z :=
  list_to_set (concat (map (fun span => py_range span.1 (span.1 + span.2)) spans)).

(** The lists [doc_ids] and [sent_indices] that the worker builds. *)
Definition doc_ids_of (docs : list (Z * str)) : list Z :=
  concat (map (fun doc => replicate (length (splitlines doc.2)) doc.1) docs).

Definition sent_indices_of (docs : list (Z * str)) : list Z :=
  concat (map (fun doc => py_range 0 (zlen (splitlines doc.2))) docs).

(** The sets of the documents hold the lines whose sentences are numbered in
    [excluded]. *)
Definition excludes_agree (doc_ids sent_indices : list Z) (to_exclude : gmap Z (gset Z))
    (excluded : gset Z) : Prop :=
  (forall d, d ∈ doc_ids -> is_Some (to_exclude !! d))
  /\ forall d lines, to_exclude !! d = Some lines ->
       forall i, i ∈ lines
                 <-> exists k : nat, Z.of_nat k ∈ excluded /\ doc_ids !! k = Some d
                                     /\ sent_indices !! k = Some i.

(** A segment is cut from the sentences of a span, joined by spaces. *)
Definition cut_from (sentences : list str) (segment : str) (span : Z * Z) : Prop :=
  0 <= span.1 /\ 0 <= span.2 /\ span.1 + span.2 <= zlen sentences
  /\ exists shift k,
       0 <= shift
       /\ segment
          = cut_segment WC (join [SPACE] (py_slice sentences span.1 (span.1 + span.2)))
              shift k.

(** What the loop of the worker keeps true before it looks at sentence
    [sentence_i]; [spans] are the spans of the segments cut so far. *)
Definition dev_inv (sentences : list str) (doc_ids sent_indices start_sentences
    segment_lengths : list Z) (sentence_i : Z) (spans : list (Z * Z)) (st : dev_state) : Prop :=
  let c := dv_curr_segment_i st in
  length spans = c
  /\ map fst spans = take c start_sentences
  /\ Forall (fun s => sentence_i <= s) (drop c start_sentences)
  /\ Forall2 (fun segment k => count_words WC segment = k) (dv_segments st)
       (take c segment_lengths)
  /\ Forall2 (cut_from sentences) (dv_segments st) spans
  /\ dv_excluded st = covered_by spans
  /\ excludes_agree doc_ids sent_indices (dv_to_exclude st) (dv_excluded st)
  /\ dv_progress st = 0 /\ dv_puts st = replicate c 1.

End DevSegments.

(** A shard of two documents, for the examples. *)
Definition two_documents : list (Z * str) :=
  [(7, lit "a b c" ++ [NL] ++ lit "d e" ++ [NL]); (9, lit "f g h" ++ [NL] ++ lit "i j k")].

(** ** The budget of the planner and the budget of the worker *)

(** Whether a line feed put after [text] starts an empty line: it does after
    an empty text and after a line boundary, except after a carriage return,
    with which it makes one boundary. *)
Definition ends_line (text : str) : bool :=
  match last text with
  | None => true
  | Some c => is_line_boundary c && negb (c =? 13)%N
  end.

(** The lines of texts joined by line feeds, text by text. *)
Fixpoint joined_lines (texts : list str) : list str :=
  match texts with
  | [] => []
  | [text] => splitlines text
  | text :: texts' =>
      splitlines text ++ (if ends_line text then [[]] else []) ++ joined_lines texts'
  end.

(** [padded l l']: [l'] is [l] with empty strings put in. *)
Inductive padded : list str -> list str -> Prop :=
| padded_nil : padded [] []
| padded_same s l l' : padded l l' -> padded (s :: l) (s :: l')
| padded_more l l' : padded l l' -> padded l ([] :: l').

(** Two documents whose texts end with a line feed, for the examples. *)
Definition two_ended_documents : list (Z * str) :=
  [(1, lit "x" ++ [NL]); (2, lit "a b c" ++ [NL])].

(** * More of the dataset module *)

(** ** Label ids *)

(** The order of Python on [str]: code point by code point, a prefix
    first. *)
Fixpoint str_leb (a b : str) : bool :=
  match a, b with
  | [], _ => true
  | _ :: _, [] => false
  | x :: a', y :: b' => (x <? y)%N || (x =? y)%N && str_leb a' b'
  end.

Definition str_le (a b : str) : Prop := str_leb a b = true.

#[global] Instance str_le_dec : RelDecision str_le.
Proof. intros a b. unfold str_le. apply _. Defined.

(** [create_label_ids]; [unique_labels] is a set.  (The call also removes
    [pad_label] from the set it is given.) *)
Definition create_label_ids (unique_labels : gset (list N)) (pad_label : str)
  : gmap (list N) Z :=
  let label_ids : gmap (list N) Z := {[pad_label := 0]} in
  let unique_labels :=
    if decide (pad_label ∈ unique_labels) then unique_labels ∖ {[pad_label]}
    else unique_labels in
  foldl (fun label_ids label => <[label := Z.of_nat (size label_ids)]> label_ids) label_ids
    (merge_sort str_le (elements unique_labels)).

(** ** Tokenization with the label ids of the data set *)

(** Query [iq.1] has as many punctuation labels and as many capitalization
    labels as it has words. *)
Definition labels_match (punct_labels_lines capit_labels_lines : list (list str))
    (iq : Z * str) : Prop :=
  let words := split_ws (strip iq.2) in
  exists punct_line capit_line,
    punct_labels_lines !! Z.to_nat iq.1 = Some punct_line
    /\ capit_labels_lines !! Z.to_nat iq.1 = Some capit_line
    /\ length punct_line = length words /\ length capit_line = length words.

(** ** Packing into batches *)

Definition BATCH_BUILDING_PROGRESS_REPORT_PERIOD : Z := 10 ^ 4.

(** An item of [zip(input_ids, subtokens_mask, punct_labels, capit_labels)]:
    the four arrays of a query. *)
Record features_row : Type := MkRow {
  r_input_ids : list Z;
  r_subtokens_mask : list bool;
  r_punct_labels : list Z;
  r_capit_labels : list Z
}.

(** [zip] of four lists stops with the shortest. *)
Definition zip4 (input_ids : list (list Z)) (subtokens_mask : list (list bool))
    (punct_labels capit_labels : list (list Z)) : list features_row :=
  zip_with (fun '(i, m) '(p, c) => MkRow i m p c) (zip input_ids subtokens_mask)
    (zip punct_labels capit_labels).

(** [sorted(l, key=key)]: the sort of Python keeps the order of the items
    of equal keys; each item is put behind the items that do not sort after
    it. *)
Fixpoint insert_sorted {A} (key : A -> Z) (x : A) (l : list A) : list A :=
  match l with
  | [] => [x]
  | y :: l' => if key y <=? key x then y :: insert_sorted key x l' else x :: l
  end.

Definition py_sorted_by {A} (key : A -> Z) (l : list A) : list A :=
  foldl (fun sorted x => insert_sorted key x sorted) [] l.

(** [pad]: [np.full] refuses a negative size and [np.stack] an empty list;
    the rows that [np.stack] is given all have [length] items. *)
Definition pad {A} (vectors : list (list A)) (length : Z) (value : A)
  : result (list (list A)) :=
  result ←
    for_each
      (fun result v =>
         if length - zlen v <? 0
         then Raise (ValueError (lit "negative dimensions are not allowed"))
         else Ok (result ++ [v ++ replicate (Z.to_nat (length - zlen v)) value]))
      vectors [];
  match result with
  | [] => Raise (ValueError (lit "need at least one array to stack"))
  | _ => Ok result
  end.

(** A batch; [b_masks] holds [segment_ids], [input_mask] and [loss_mask]
    when they are added. *)
Record batch : Type := MkBatch {
  b_input_ids : list (list Z);
  b_subtokens_mask : list (list bool);
  b_punct_labels : list (list Z);
  b_capit_labels : list (list Z);
  b_masks : option (list (list Z) * list (list bool) * list (list bool))
}.

Section PackIntoBatches.

Variable tokens_in_batch : Z.

(** Whether [batch_mark_up_progress_queue] and
    [batch_building_progress_queue] are queues, not [None]. *)
Variable with_mark_up_queue with_building_queue : bool.

Variable pad_id cls_id sep_id : Z.
Variable punct_label_ids capit_label_ids : gmap (list N) Z.
Variable pad_label : str.
Variable add_masks_and_segment_ids_to_batch ignore_start_end ignore_extra_tokens : bool.

(** What [random.shuffle] makes of the batches. *)
Variable shuffle : list batch -> list batch.

(** The body of [for start, size, length in inp_iterator]. *)
Definition pack_step (input_ids : list (list Z)) (subtokens_mask : list (list bool))
    (punct_labels capit_labels : list (list Z)) (st : list batch * Z * list Z)
    (ssl : Z * Z * Z) : result (list batch * Z * list Z) :=
  let '(batches, progress_made, puts) := st in
  let '(start, size, length) := ssl in
  batch_input_ids ← pad (py_slice input_ids start (start + size)) length pad_id;
  batch_subtokens_mask ← pad (py_slice subtokens_mask start (start + size)) length false;
  punct_pad ← label_id punct_label_ids pad_label;
  batch_punct_labels ← pad (py_slice punct_labels start (start + size)) length punct_pad;
  capit_pad ← label_id capit_label_ids pad_label;
  batch_capit_labels ← pad (py_slice capit_labels start (start + size)) length capit_pad;
  let masks :=
    if add_masks_and_segment_ids_to_batch
    then Some (get_masks_and_segment_ids batch_input_ids batch_subtokens_mask pad_id cls_id
                 sep_id ignore_start_end ignore_extra_tokens)
    else None in
  let batches :=
    batches ++ [MkBatch batch_input_ids batch_subtokens_mask batch_punct_labels
                  batch_capit_labels masks] in
  if with_building_queue then
    let progress_made := progress_made + size in
    if progress_made >=? BATCH_BUILDING_PROGRESS_REPORT_PERIOD
    then Ok (batches, 0, puts ++ [progress_made])
    else Ok (batches, progress_made, puts)
  else Ok (batches, progress_made, puts).

(** [pack_into_batches]: the batches, and what is put on the two progress
    queues.  Unpacking the transposed [zipped] into four names fails when
    there is no query. *)
Definition pack_into_batches (input_ids : list (list Z)) (subtokens_mask : list (list bool))
    (punct_labels capit_labels : list (list Z))
  : result (list batch * list Z * list Z) :=
  let zipped :=
    py_sorted_by (fun x => zlen (r_input_ids x))
      (zip4 input_ids subtokens_mask punct_labels capit_labels) in
  match zipped with
  | [] => Raise (ValueError (lit "not enough values to unpack (expected 4, got 0)"))
  | _ =>
      let input_ids := map r_input_ids zipped in
      let subtokens_mask := map r_subtokens_mask zipped in
      let punct_labels := map r_punct_labels zipped in
      let capit_labels := map r_capit_labels zipped in
      '(batch_beginnings, batch_sizes, batch_seq_lengths, mark_up_puts) ←
        mark_up_batches tokens_in_batch with_mark_up_queue input_ids;
      '(batches, progress_made, puts) ←
        for_each (pack_step input_ids subtokens_mask punct_labels capit_labels)
          (zip (zip batch_beginnings batch_sizes) batch_seq_lengths) ([], 0, []);
      let puts := if with_building_queue then puts ++ [progress_made] else puts in
      Ok (shuffle batches, mark_up_puts, puts)
  end.

(** The batch made of the rows of [group], each filled up to [length]. *)
Definition padded_to {A} (length : Z) (value : A) (row : list A) : list A :=
  row ++ replicate (Z.to_nat (length - zlen row)) value.

Definition batch_of (punct_pad capit_pad : Z) (length : Z) (group : list features_row)
  : batch :=
  let batch_input_ids := map (fun r => padded_to length pad_id (r_input_ids r)) group in
  let batch_subtokens_mask :=
    map (fun r => padded_to length false (r_subtokens_mask r)) group in
  MkBatch batch_input_ids batch_subtokens_mask
    (map (fun r => padded_to length punct_pad (r_punct_labels r)) group)
    (map (fun r => padded_to length capit_pad (r_capit_labels r)) group)
    (if add_masks_and_segment_ids_to_batch
     then Some (get_masks_and_segment_ids batch_input_ids batch_subtokens_mask pad_id cls_id
                  sep_id ignore_start_end ignore_extra_tokens)
     else None).

End PackIntoBatches.

(** The four arrays of a query have the same length. *)
Definition row_aligned (r : features_row) : Prop :=
  length (r_subtokens_mask r) = length (r_input_ids r)
  /\ length (r_punct_labels r) = length (r_input_ids r)
  /\ length (r_capit_labels r) = length (r_input_ids r).

(** A group of rows fits a batch of length [length]. *)
Definition group_fits (length : Z) (group : list features_row) : Prop :=
  group <> [] /\ length mod 8 = 0
  /\ Forall (fun r => zlen (r_input_ids r) <= length) group
  /\ Exists (fun r => length < zlen (r_input_ids r) + 8) group.

(** * Extracted Wikipedia *)

Definition WIKI_EXTRACTED_DOC_PROGRESS_PERIOD : Z := 100.

Definition is_NL (c : N) : bool := (c =? NL)%N.
Definition not_NL (c : N) : bool := negb (c =? NL)%N.

(** [WIKI_EXTRACTED_NOT_EMPTY_DOC.match(s) is not None]: the start of a
    document, a line, one line feed or more, and the first character of some
    text.  The classes of neighbouring parts of the expression are disjoint,
    so that each part matches as much as it can. *)
Definition WIKI_EXTRACTED_NOT_EMPTY_DOC_match (s : str) : bool :=
  let start := lit "<doc id=" ++ [DQUOTE] in
  startswith start s &&
  let s := drop (length start) s in
  match take_while not_NL s, drop_while not_NL s with
  | _ :: _, _ :: s =>
      match take_while not_NL s, take_while is_NL (drop_while not_NL s),
            drop_while is_NL (drop_while not_NL s) with
      | _ :: _, _ :: _, _ :: _ => true
      | _, _, _ => false
      end
  | _, _ => false
  end.

(** [count_not_empty_docs_in_file], on the text of the file. *)
Definition count_not_empty_docs_in_file (text : str) : Z :=
  zlen (filter (fun doc => WIKI_EXTRACTED_NOT_EMPTY_DOC_match (lstrip doc) = true)
          (split (lit "</doc>") text)).

Section WikiExtracted.

(** [prepare_wiki_extracted_doc(doc, start_line, end_line, input_file)['text']]:
    the cleaning is done by modules that are not part of the sources at
    hand. *)
Variable prepare_text : str -> Z -> Z -> str -> result str.

Record wiki_state : Type := MkWiki {
  ws_prepared_docs : list (Z * str);
  ws_start_line : Z;
  ws_doc_count : Z;
  ws_puts : list Z
}.

(** The body of [for doc_id, doc in enumerate(docs, start=start_doc_id)]. *)
Definition wiki_doc_step (input_file : str) (st : wiki_state) (id_doc : Z * str)
  : result wiki_state :=
  let '(doc_id, doc) := id_doc in
  let num_lines := Z.of_nat (count [NL] doc) in
  st ←
    (if WIKI_EXTRACTED_NOT_EMPTY_DOC_match (lstrip doc) then
       text ← prepare_text doc (ws_start_line st) (ws_start_line st + num_lines) input_file;
       let prepared_docs :=
         match text with
         | [] => ws_prepared_docs st
         | _ => ws_prepared_docs st ++ [(doc_id, text)]
         end in
       let doc_count := ws_doc_count st + 1 in
       if doc_count mod WIKI_EXTRACTED_DOC_PROGRESS_PERIOD =? 0
       then Ok (MkWiki prepared_docs (ws_start_line st) 0 (ws_puts st ++ [doc_count]))
       else Ok (MkWiki prepared_docs (ws_start_line st) doc_count (ws_puts st))
     else Ok st);
  Ok (MkWiki (ws_prepared_docs st) (ws_start_line st + num_lines) (ws_doc_count st)
        (ws_puts st)).

(** [WikiExtractedWorker.__call__], on the path and the text of the input
    file: the documents given to [big.write_docs_to_file] for the file
    [file_id], and the values put on the progress queue. *)
Definition WikiExtractedWorker_call (input_file : str * str) (file_id start_doc_id : Z)
  : result (Z * list (Z * str) * list Z) :=
  let docs := split (lit "</doc>") input_file.2 in
  st ←
    for_each (wiki_doc_step input_file.1)
      (map (fun id_doc : Z * str => (start_doc_id + id_doc.1, id_doc.2)) (enumerate docs))
      (MkWiki [] 0 0 []);
  Ok (file_id, ws_prepared_docs st, ws_puts st ++ [ws_doc_count st]).

(** The dictionary that [preprocess_wiki_extracted] returns. *)
Definition wiki_doc_id_to_file_i (file_id_values start_doc_ids : list Z) : result (gmap Z Z) :=
  for_each
    (fun (m : gmap Z Z) (i_file_id : Z * Z) =>
       let '(i, file_id) := i_file_id in
       first ← getitem start_doc_ids (Z.to_nat i);
       next ← getitem start_doc_ids (Z.to_nat (i + 1));
       Ok (foldl (fun m doc_id => <[doc_id := file_id]> m) m (py_range first next)))
    (enumerate file_id_values) ∅.

(** [preprocess_wiki_extracted], on the paths and the texts of the files
    with data: what the workers write, and the returned dictionary. *)
Definition preprocess_wiki_extracted (files_with_data : list (str * str))
    (start_doc_id start_file_id : Z)
  : result (list (Z * list (Z * str) * list Z) * gmap Z Z) :=
  let num_not_empty_docs_in_files :=
    map (fun file : str * str => count_not_empty_docs_in_file file.2) files_with_data in
  let start_doc_ids := accumulate_initial num_not_empty_docs_in_files start_doc_id in
  let file_id_values := py_range start_file_id (start_file_id + zlen files_with_data) in
  written ←
    for_each
      (fun written (args : str * str * Z * Z) =>
         let '(file, file_id, start) := args in
         w ← WikiExtractedWorker_call file file_id start;
         Ok (written ++ [w]))
      (zip (zip files_with_data file_id_values) start_doc_ids) [];
  doc_id_to_file_i ← wiki_doc_id_to_file_i file_id_values start_doc_ids;
  Ok (written, doc_id_to_file_i).

End WikiExtracted.

(** The text of an extracted file with two documents, of which the first
    has a title and no text. *)
Definition wiki_text : str :=
  lit "<doc id=" ++ [DQUOTE] ++ lit "1" ++ [DQUOTE] ++ lit " url=u title=A>" ++ [NL]
  ++ lit "A" ++ [NL; NL] ++ lit "</doc>" ++ [NL]
  ++ lit "<doc id=" ++ [DQUOTE] ++ lit "2" ++ [DQUOTE] ++ lit " url=u title=B>" ++ [NL]
  ++ lit "B" ++ [NL; NL] ++ lit "Text of B." ++ [NL] ++ lit "</doc>" ++ [NL].
(** * Properties *)

(** ** Generic facts *)

Lemma for_each_inv {S A} (P : S -> Prop) (body : S -> A -> result S) l :
  (forall s x s', P s -> body s x = Ok s' -> P s') ->
  forall s0 s, P s0 -> for_each body l s0 = Ok s -> P s.
Proof.
  intros Hstep. induction l as [|x l IH]; intros s0 s HP Hrun; simpl in Hrun.
  - by inversion Hrun; subst.
  - destruct (body s0 x) as [s1| |] eqn:Hb; simpl in Hrun; try discriminate.
    eapply IH; [|exact Hrun]. eauto.
Qed.

Lemma take_drop_while {A} (p : A -> bool) l : take_while p l ++ drop_while p l = l.
Proof.
  induction l as [|x l IH]; simpl; [done|].
  destruct (p x); simpl; [by rewrite IH | done].
Qed.

Lemma take_while_Forall {A} (p : A -> bool) l : Forall (fun x => p x = true) (take_while p l).
Proof.
  induction l as [|x l IH]; simpl; [constructor|].
  destruct (p x) eqn:Hp; [by constructor | constructor].
Qed.

Lemma drop_while_stops {A} (p : A -> bool) l : stops p (drop_while p l).
Proof.
  induction l as [|x l IH]; simpl; [done|].
  destruct (p x) eqn:Hp; [done | simpl; done].
Qed.

Lemma take_while_app_stop {A} (p : A -> bool) a b :
  Forall (fun x => p x = true) a -> stops p b -> take_while p (a ++ b) = a.
Proof.
  induction 1 as [|x a Hx _ IH]; intros Hb; simpl.
  - destruct b as [|y b]; simpl in *; [done | by rewrite Hb].
  - rewrite Hx. by rewrite IH.
Qed.

Lemma drop_while_app_stop {A} (p : A -> bool) a b :
  Forall (fun x => p x = true) a -> stops p b -> drop_while p (a ++ b) = b.
Proof.
  induction 1 as [|x a Hx _ IH]; intros Hb; simpl.
  - destruct b as [|y b]; simpl in *; [done | by rewrite Hb].
  - rewrite Hx. by rewrite IH.
Qed.

(** ** Words, segments and their first character *)

Section WordFacts.

Variable WC : N -> bool.

Lemma drop_while_not_WC_word_start s : word_start WC (drop_while (not_WC WC) s).
Proof.
  pose proof (drop_while_stops (not_WC WC) s) as H.
  destruct (drop_while (not_WC WC) s) as [|c rest]; [by left | right].
  exists c, rest. split; [done|]. unfold not_WC in H. simpl in H.
  by destruct (WC c).
Qed.

Lemma strip_segment_word_start s : word_start WC (strip_segment WC s).
Proof. unfold strip_segment. apply drop_while_not_WC_word_start. Qed.

(** The shape of a match of the word expression. *)
Lemma match_word_shape s m rest :
  match_word WC s = Some (m, rest) ->
  exists pre w post,
    m = pre ++ w ++ post /\ s = m ++ rest /\
    Forall (fun c => not_WC WC c = true) pre /\
    Forall (fun c => WC c = true) w /\ w <> [] /\
    Forall (fun c => not_WC WC c = true) post /\
    stops (not_WC WC) rest /\ (post = [] -> rest = []).
Proof.
  unfold match_word.
  set (pre := take_while (not_WC WC) s).
  set (r1 := drop_while (not_WC WC) s).
  set (w := take_while WC r1).
  set (r2 := drop_while WC r1).
  set (post := take_while (not_WC WC) r2).
  set (r3 := drop_while (not_WC WC) r2).
  destruct w as [|c w'] eqn:Hw; [discriminate|].
  intros [= <- <-]. exists pre, (c :: w'), post.
  assert (Hs : s = pre ++ r1) by (symmetry; apply take_drop_while).
  assert (Hr1 : r1 = (c :: w') ++ r2) by (rewrite <- Hw; symmetry; apply take_drop_while).
  assert (Hr2 : r2 = post ++ r3) by (symmetry; apply take_drop_while).
  split_and!.
  - done.
  - rewrite Hs at 1. rewrite Hr1, Hr2. simpl.
    rewrite <- app_assoc. simpl. by rewrite <- app_assoc.
  - apply take_while_Forall.
  - rewrite <- Hw. apply take_while_Forall.
  - done.
  - apply take_while_Forall.
  - apply drop_while_stops.
  - intros Hpost. pose proof (drop_while_stops WC r1) as Hst. fold r2 in Hst.
    subst r3 post. destruct r2 as [|x r2']; [done|].
    simpl in Hst, Hpost |- *. unfold not_WC in *. rewrite Hst in Hpost |- *.
    simpl in *. discriminate.
Qed.

Lemma match_word_compose pre w post t :
  Forall (fun c => not_WC WC c = true) pre ->
  Forall (fun c => WC c = true) w -> w <> [] ->
  Forall (fun c => not_WC WC c = true) post ->
  stops (not_WC WC) t -> (post = [] -> t = []) ->
  match_word WC ((pre ++ w ++ post) ++ t) = Some (pre ++ w ++ post, t).
Proof.
  intros Hpre Hw Hne Hpost Ht Hempty.
  assert (Hstop1 : stops (not_WC WC) (w ++ post ++ t)).
  { destruct w as [|c w']; [done|]. inversion Hw; subst. simpl. unfold not_WC.
    by rewrite H1. }
  assert (Hstop2 : stops WC (post ++ t)).
  { destruct post as [|c post'].
    - by rewrite Hempty.
    - inversion Hpost; subst. simpl. unfold not_WC in H1. by destruct (WC c). }
  unfold match_word.
  replace ((pre ++ w ++ post) ++ t) with (pre ++ w ++ post ++ t)
    by (by rewrite <- !app_assoc).
  rewrite (take_while_app_stop _ pre), (drop_while_app_stop _ pre) by done.
  rewrite (take_while_app_stop _ w), (drop_while_app_stop _ w) by done.
  rewrite (take_while_app_stop _ post), (drop_while_app_stop _ post) by done.
  destruct w; [done | done].
Qed.

Lemma match_word_nil : match_word WC [] = None.
Proof. reflexivity. Qed.

Lemma words_of_fun s ms1 : words_of WC s ms1 -> forall ms2, words_of WC s ms2 -> ms1 = ms2.
Proof.
  induction 1 as [s Hn | s m rest ms Hm _ IH]; intros ms2 H2; inversion H2; subst;
    try congruence.
  rewrite Hm in H. injection H as <- <-. f_equal. by apply IH.
Qed.

Lemma match_word_shorter s m rest :
  match_word WC s = Some (m, rest) -> (length rest < length s)%nat.
Proof.
  intros H. destruct (match_word_shape _ _ _ H) as (pre & w & post & -> & -> & _ & _ & Hw & _).
  rewrite !length_app. destruct w; [done | simpl; lia].
Qed.

Lemma finditer_from_words fuel : forall pos s,
  (length s <= fuel)%nat -> words_of WC s (map group0 (finditer_from WC fuel pos s)).
Proof.
  induction fuel as [|fuel IH]; intros pos s Hlen; simpl.
  - destruct s; [|simpl in Hlen; lia]. by constructor.
  - destruct (match_word WC s) as [[m rest]|] eqn:Hm; simpl.
    + econstructor; [exact Hm|]. apply IH.
      pose proof (match_word_shorter _ _ _ Hm). lia.
    + by constructor.
Qed.

Lemma findall_words s : words_of WC s (findall WC s).
Proof. unfold findall, finditer. by apply finditer_from_words. Qed.

Lemma words_of_drop s ms : words_of WC s ms -> forall n, exists s', words_of WC s' (drop n ms).
Proof.
  induction 1 as [s Hn | s m rest ms Hm Hrest IH]; intros n.
  - exists s. rewrite drop_nil. by constructor.
  - destruct n as [|n]; simpl.
    + exists s. by econstructor.
    + apply IH.
Qed.

(** Matching again the concatenation of the first words of a string finds
    the same words. *)
Lemma words_of_take s ms :
  words_of WC s ms -> forall k, words_of WC (concat (take k ms)) (take k ms).
Proof.
  induction 1 as [s Hn | s m rest ms Hm Hrest IH]; intros k.
  - rewrite take_nil. simpl. constructor. apply match_word_nil.
  - destruct k as [|k]; simpl; [constructor; apply match_word_nil|].
    destruct (match_word_shape _ _ _ Hm)
      as (pre & w & post & -> & -> & Hpre & Hw & Hne & Hpost & Hstop & Hempty).
    econstructor; [|apply IH].
    apply match_word_compose; try done.
    + destruct k as [|k]; [done|]. inversion Hrest as [|? m' rest' ms' Hm' _]; subst; [done|].
      simpl. destruct (match_word_shape _ _ _ Hm') as (pre' & w' & post' & -> & -> & Hpre' & _ & Hne' & _).
      destruct pre' as [|c pre'']; simpl in *.
      * destruct w'; [done | simpl in *; done].
      * done.
    + intros Hp. specialize (Hempty Hp). subst rest.
      inversion Hrest; subst; [by rewrite take_nil | by rewrite match_word_nil in H].
Qed.

Lemma cut_segment_loop_spec ms : forall word_i shift k segment,
  0 <= k -> 0 <= word_i ->
  cut_segment_loop ms word_i shift k segment =
  segment ++ concat (map group0
    (take (Z.to_nat (k + shift - Z.max word_i shift)) (drop (Z.to_nat (shift - word_i)) ms))).
Proof.
  induction ms as [|m ms IH]; intros word_i shift k segment Hk Hw; simpl.
  - rewrite drop_nil, take_nil. simpl. by rewrite app_nil_r.
  - destruct (Z.ltb_spec word_i shift) as [Hlt|Hge].
    + rewrite IH by lia.
      replace (Z.to_nat (shift - word_i)) with (S (Z.to_nat (shift - (word_i + 1)))) by lia.
      simpl. do 4 f_equal. lia.
    + replace (Z.to_nat (shift - word_i)) with 0%nat by lia. simpl.
      destruct (Z.geb_spec word_i (k + shift)) as [Hout|Hin].
      * replace (Z.to_nat (k + shift - Z.max word_i shift)) with 0%nat by lia.
        simpl. by rewrite app_nil_r.
      * rewrite IH by lia.
        replace (Z.to_nat (shift - (word_i + 1))) with 0%nat by lia. simpl.
        replace (Z.to_nat (k + shift - Z.max word_i shift))
          with (S (Z.to_nat (k + shift - Z.max (word_i + 1) shift))) by lia.
        simpl. by rewrite <- app_assoc.
Qed.

Lemma cut_segment_spec text0 shift k :
  0 <= shift -> 0 <= k ->
  cut_segment WC text0 shift k =
  concat (take (Z.to_nat k) (drop (Z.to_nat shift) (findall WC text0))).
Proof.
  intros Hs Hk. unfold cut_segment. rewrite cut_segment_loop_spec by lia. simpl.
  unfold findall. rewrite <- firstn_map, <- skipn_map.
  do 3 f_equal; lia.
Qed.

Lemma findall_cut_segment text0 shift k :
  0 <= shift -> 0 <= k ->
  findall WC (cut_segment WC text0 shift k) =
  take (Z.to_nat k) (drop (Z.to_nat shift) (findall WC text0)).
Proof.
  intros Hs Hk. rewrite cut_segment_spec by done.
  destruct (words_of_drop _ _ (findall_words text0) (Z.to_nat shift)) as [s' Hs'].
  pose proof (words_of_take _ _ Hs' (Z.to_nat k)) as Ht.
  exact (words_of_fun _ _ (findall_words _) _ Ht).
Qed.

End WordFacts.

(** C5. For a text and non-negative [shift] and [k] with
    [shift + k <= count_words(text)], the words of
    [cut_segment(text, shift, k)] are the [k] words of the text from the one
    numbered [shift] on, and [count_words] counts [k] of them. *)
Theorem cut_segment_has_k_words (WC : N -> bool) (text0 : str) (shift k : Z) :
  0 <= shift -> 0 <= k -> shift + k <= count_words WC text0 ->
  findall WC (cut_segment WC text0 shift k)
    = take (Z.to_nat k) (drop (Z.to_nat shift) (findall WC text0))
  /\ count_words WC (cut_segment WC text0 shift k) = k.
Proof.
  intros Hs Hk Hle. pose proof (findall_cut_segment WC text0 shift k Hs Hk) as Heq.
  split; [exact Heq|]. unfold count_words, zlen in *. rewrite Heq.
  rewrite length_take, length_drop. lia.
Qed.

(** Two words from the second one on. *)
Lemma cut_segment_has_k_words_witness :
  findall ascii_word_char (cut_segment ascii_word_char (lit "one, two (three) four") 1 2)
    = take 2 (drop 1 (findall ascii_word_char (lit "one, two (three) four")))
  /\ count_words ascii_word_char
       (cut_segment ascii_word_char (lit "one, two (three) four") 1 2) = 2.
Proof.
  apply (cut_segment_has_k_words ascii_word_char (lit "one, two (three) four") 1 2).
  - lia.
  - lia.
  - by vm_compute.
Defined.

(** *** The lines written by [cut_and_save_one_pass] *)

Lemma slice_widen (t : str) (a b e : nat) x :
  (a <= b)%nat -> (b <= e)%nat -> x ∈ slice t b e -> x ∈ slice t a e.
Proof.
  intros Hab Hbe Hx. unfold slice in *.
  replace (e - a)%nat with ((b - a) + (e - b))%nat by lia.
  rewrite <- take_take_drop, drop_drop. apply elem_of_app. right.
  by replace (a + (b - a))%nat with b by lia.
Qed.

Lemma drop_while_keeps {A} (p q : A -> bool) (l : list A) :
  (forall x, p x = true -> q x = false) ->
  (exists x, x ∈ l /\ q x = true) -> exists x, x ∈ drop_while p l /\ q x = true.
Proof.
  intros Hpq. induction l as [|y l IH]; intros (x & Hx & Hq); simpl.
  - by apply elem_of_nil in Hx.
  - destruct (p y) eqn:Hp; [|by exists x].
    apply elem_of_cons in Hx as [->|Hx].
    + rewrite (Hpq _ Hp) in Hq. discriminate.
    + apply IH. by exists x.
Qed.

Lemma elem_of_rev {A} (x : A) (l : list A) : x ∈ rev l <-> x ∈ l.
Proof. rewrite !list_elem_of_In. symmetry. apply in_rev. Qed.

Section CutFacts.

Variable WC : N -> bool.
Hypothesis WC_hyphen : WC 45%N = false.
Hypothesis WC_quote : WC DQUOTE = false.
Hypothesis WC_parenthesis : WC 40%N = false.
Hypothesis WC_space : WC SPACE = false.

Lemma rstrip_chars_keeps_word (cs s : str) :
  (forall c, c ∈ cs -> WC c = false) ->
  (exists x, x ∈ s /\ WC x = true) -> exists x, x ∈ rstrip_chars cs s /\ WC x = true.
Proof.
  intros Hcs (x & Hx & Hw). unfold rstrip_chars.
  destruct (drop_while_keeps (mem_char cs) WC (rev s)) as (y & Hy & Hwy).
  - intros c Hc. apply Hcs. unfold mem_char in Hc. apply existsb_exists in Hc as (d & Hd & Heq).
    apply N.eqb_eq in Heq as ->. by apply list_elem_of_In.
  - exists x. split; [|done]. by apply elem_of_rev.
  - exists y. split; [|done]. by apply elem_of_rev.
Qed.

(** A segment that holds a word character keeps one after [strip_segment],
    which then begins with a word character. *)
Lemma strip_segment_word_first (s : str) :
  (exists x, x ∈ s /\ WC x = true) -> word_first WC (strip_segment WC s).
Proof.
  intros Hs. unfold strip_segment.
  assert (H1 : forall c, c ∈ lit "-" -> WC c = false).
  { intros c Hc. apply list_elem_of_singleton in Hc as ->. exact WC_hyphen. }
  assert (H2 : forall c, c ∈ [DQUOTE; 40%N] -> WC c = false).
  { intros c Hc. apply elem_of_cons in Hc as [->|Hc]; [done|].
    apply list_elem_of_singleton in Hc as ->. exact WC_parenthesis. }
  assert (H3 : forall c, c ∈ lit " " -> WC c = false).
  { intros c Hc. apply list_elem_of_singleton in Hc as ->. exact WC_space. }
  apply (rstrip_chars_keeps_word _ _ H1) in Hs.
  set (s1 := rstrip_chars (lit "-") s) in *.
  assert (Hs2 : exists x,
            x ∈ (if endswith [SPACE; DQUOTE] s1 || endswith (lit "(") s1
                 then rstrip_chars [DQUOTE; 40%N] s1 else s1) /\ WC x = true).
  { destruct (_ || _); [by apply rstrip_chars_keeps_word | done]. }
  apply (rstrip_chars_keeps_word _ _ H3) in Hs2.
  destruct Hs2 as (x & Hx & Hw).
  destruct (strip_segment_word_start WC s) as [Hnil|Hok]; [|exact Hok].
  exfalso. unfold strip_segment in Hnil. fold s1 in Hnil.
  unfold FORBIDDEN_PUNCTUATION_IN_THE_START_OF_SEGMENT_sub in Hnil.
  destruct (drop_while_keeps (not_WC WC) WC _
              (fun c Hc => proj1 (negb_true_iff _) Hc) (ex_intro _ x (conj Hx Hw)))
    as (y & Hy & _).
  rewrite Hnil in Hy. by apply elem_of_nil in Hy.
Qed.

Variable text0 : str.

Lemma cut_line_word_first (sm m : re_match) :
  starts_before sm m -> spans_a_word WC text0 m -> word_first WC (cut_line WC text0 sm m).
Proof.
  intros Hsm (Hle & c & Hc & Hw). unfold cut_line.
  destruct (strip_segment_word_first (slice text0 (span_start sm) (span_end m)))
    as (x & rest & -> & Hx).
  - exists c. split; [|done]. by apply (slice_widen _ _ (span_start m)).
  - by exists x, (rest ++ [NL]).
Qed.

(** The matches of [finditer] come in the order of the text, and each spans
    a word character. *)
Lemma finditer_from_spans fuel : forall pos s,
  drop pos text0 = s ->
  Forall (spans_a_word WC text0) (finditer_from WC fuel pos s)
  /\ StronglySorted starts_before (finditer_from WC fuel pos s)
  /\ Forall (fun m => (pos <= span_start m)%nat) (finditer_from WC fuel pos s).
Proof.
  induction fuel as [|fuel IH]; intros pos s Hs; simpl.
  - split_and!; constructor.
  - destruct (match_word WC s) as [[m rest]|] eqn:Hm; [|split_and!; constructor].
    destruct (match_word_shape _ _ _ _ Hm)
      as (pre & w & post & Hmeq & Hseq & _ & Hw & Hne & _).
    destruct (IH (pos + length m)%nat rest) as (Hgood & Hsorted & Hpos).
    { rewrite <- drop_drop, Hs, Hseq. apply drop_app_length. }
    split_and!.
    + constructor; [|done]. split; [simpl; lia|]. simpl.
      destruct w as [|c w']; [done|]. exists c. split; [|by inversion Hw].
      unfold slice. rewrite Hs, Hseq.
      replace (pos + length m - pos)%nat with (length m) by lia.
      rewrite take_app_length. rewrite Hmeq. apply elem_of_app. right. by left.
    + constructor; [done|]. eapply Forall_impl; [exact Hpos|].
      intros m' Hm'. unfold starts_before. simpl in *. lia.
    + constructor; [simpl; lia|]. eapply Forall_impl; [exact Hpos|].
      intros m' Hm'. simpl in *. lia.
Qed.

Variable samples : nat -> list Z.

(** The loop of [cut_and_save_one_pass] writes lines that begin with a word
    character; [l] is the last match of the text. *)
Lemma cut_loop_word_first (rest : list re_match) : forall st st' l,
  StronglySorted starts_before rest -> Forall (spans_a_word WC text0) rest ->
  (rest <> [] -> last rest = Some l) ->
  (forall sm, cs_start_match st = Some sm ->
              Forall (starts_before sm) rest /\ starts_before sm l) ->
  Forall (word_first WC) (cs_written st) ->
  for_each (cut_step WC samples text0) rest st = Ok st' ->
  Forall (word_first WC) (cs_written st')
  /\ forall sm, cs_start_match st' = Some sm -> starts_before sm l.
Proof.
  induction rest as [|m rest IH]; intros st st' l Hsorted Hgood Hlast Hstart Hlines; simpl.
  - intros [= <-]. split; [done|]. intros sm Hsm. by apply Hstart.
  - apply StronglySorted_inv in Hsorted as [Hsorted Hm].
    apply Forall_cons in Hgood as [Hgm Hgood].
    assert (Hml : starts_before m l).
    { specialize (Hlast ltac:(done)). destruct rest as [|m' rest'].
      - injection Hlast as <-. unfold starts_before. lia.
      - rewrite last_cons in Hlast. destruct (last (m' :: rest')) as [l'|] eqn:Hl';
          [|by apply last_None in Hl'].
        injection Hlast as <-. apply last_Some_elem_of in Hl'.
        rewrite Forall_forall in Hm. by apply Hm. }
    assert (Hlast' : rest <> [] -> last rest = Some l).
    { intros Hne. specialize (Hlast ltac:(done)). rewrite last_cons in Hlast.
      destruct (last rest) eqn:Hl'; [done|]. by apply last_None in Hl'. }
    destruct (cut_step WC samples text0 st m) as [st1| |] eqn:Hstep; simpl; try discriminate.
    apply (IH st1 st' l Hsorted Hgood Hlast').
    + revert Hstep. unfold cut_step.
      destruct (cs_shift st >? 0).
      { intros [= <-]. simpl. intros sm Hsm. destruct (Hstart sm Hsm) as [Hall Hl].
        split; [by inversion Hall | done]. }
      destruct (getitem _ _) as [len| |]; simpl; try discriminate.
      destruct (_ =? len).
      * destruct (_ =? _)%nat, (_ >=? _); intros [= <-]; simpl; done.
      * intros [= <-]. simpl. intros sm [= <-].
        destruct (cs_start_match st) as [sm|] eqn:Hsm.
        -- destruct (Hstart sm eq_refl) as [Hall Hl]. split; [by inversion Hall | done].
        -- split; [done | done].
    + revert Hstep. unfold cut_step.
      destruct (cs_shift st >? 0); [by intros [= <-]|].
      destruct (getitem _ _) as [len| |]; simpl; try discriminate.
      assert (Hline : word_first WC
                (cut_line WC text0
                   (match cs_start_match st with Some sm => sm | None => m end) m)).
      { apply cut_line_word_first; [|done].
        destruct (cs_start_match st) as [sm|] eqn:Hsm.
        - destruct (Hstart sm eq_refl) as [Hall _]. by inversion Hall.
        - unfold starts_before. lia. }
      destruct (_ =? len).
      * destruct (_ =? _)%nat, (_ >=? _); intros [= <-]; simpl;
          (apply Forall_app; split; [done | by constructor]).
      * by intros [= <-].
Qed.

Lemma written_lines_word_first (num_words_in_segments : list Z) (randint : Z) :
  Forall (word_first WC) (written_lines WC samples text0 num_words_in_segments randint).
Proof.
  unfold written_lines, cut_and_save_one_pass.
  destruct (py_max num_words_in_segments) as [mx| |]; simpl; try constructor.
  destruct (random_randint 0 (mx / 2) randint) as [shift| |]; simpl; try constructor.
  destruct (finditer_from_spans (length text0) 0 text0 eq_refl) as (Hgood & Hsorted & _).
  fold (finditer WC text0) in Hgood, Hsorted.
  destruct (for_each _ _ _) as [st| |] eqn:Hrun; simpl; try constructor.
  destruct (last (finditer WC text0)) as [l|] eqn:Hlast.
  - set (st0 := MkCut (samples 0) 1 shift 0 None 0 0 0 [] []) in *.
    assert (H0 : forall sm, cs_start_match st0 = Some sm ->
                   Forall (starts_before sm) (finditer WC text0) /\ starts_before sm l)
      by (intros sm Hsm; discriminate).
    assert (Hw0 : Forall (word_first WC) (cs_written st0)) by constructor.
    destruct (cut_loop_word_first _ st0 st l Hsorted Hgood (fun _ => Hlast) H0 Hw0 Hrun)
      as [Hlines Hstart].
    destruct (cs_start_match st) as [sm|] eqn:Hsm; simpl; [|done].
    apply Forall_app. split; [done|]. constructor; [|done].
    apply cut_line_word_first; [by apply Hstart|].
    rewrite Forall_forall in Hgood. apply Hgood. by apply last_Some_elem_of.
  - apply last_None in Hlast. rewrite Hlast in Hrun. injection Hrun as <-. simpl.
    constructor.
Qed.

End CutFacts.

(** C10. [strip_segment(s)] is empty or begins with a word character, for
    every class of word characters and every string.  With a class that holds
    neither the hyphen, the double quote, the opening parenthesis nor the
    space (the characters that [strip_segment] strips from the end), every
    line that [cut_and_save_one_pass] writes begins with a word character. *)
Theorem strip_segment_starts_with_word_char (WC : N -> bool) :
  (forall s, word_start WC (strip_segment WC s))
  /\ (WC 45%N = false -> WC DQUOTE = false -> WC 40%N = false -> WC SPACE = false ->
      forall text0 samples num_words_in_segments randint,
        Forall (word_first WC)
          (written_lines WC samples text0 num_words_in_segments randint)).
Proof.
  split; [apply strip_segment_word_start|].
  intros H1 H2 H3 H4 text0 samples nws randint.
  by apply written_lines_word_first.
Qed.

(** With the letters and digits of ASCII as word characters. *)
Lemma strip_segment_starts_with_word_char_witness :
  word_start ascii_word_char (strip_segment ascii_word_char (lit ", one (two) - "))
  /\ Forall (word_first ascii_word_char)
       (written_lines ascii_word_char (fun _ => [2; 1]) (lit "a, b c. d e f") [1; 2] 1).
Proof.
  destruct (strip_segment_starts_with_word_char ascii_word_char) as [Hstrip Hlines].
  split; [apply Hstrip|]. by apply Hlines.
Defined.

(** ** ByteRangePartitioner *)

Lemma takeZ_dropZ {A} (l : list A) : forall n, takeZ n l ++ dropZ n l = l.
Proof.
  induction l as [|x l IH]; intros n; simpl; [done|].
  destruct (n <=? 0); simpl; [done|]. by rewrite IH.
Qed.

Lemma dropZ_length {A} (l : list A) : forall n,
  (length (dropZ n l) <= length l)%nat
  /\ (0 < n -> l <> [] -> takeZ n l <> [] /\ (length (dropZ n l) < length l)%nat).
Proof.
  induction l as [|x l IH]; intros n; simpl; [split; [lia|done]|].
  destruct (Z.leb_spec n 0) as [Hn|Hn]; simpl.
  - split; [lia|]. intros. lia.
  - destruct (IH (n - 1)) as [Hle _]. split; [lia|]. intros _ _. split; [done|lia].
Qed.

Lemma fd_read_spec (fd : str) (n : Z) b fd' :
  fd_read fd n = (b, fd') ->
  b ++ fd' = fd
  /\ (0 < n -> fd <> [] -> b <> [] /\ (length fd' < length fd)%nat).
Proof.
  unfold fd_read. destruct (Z.ltb_spec n 0) as [Hn|Hn]; intros [= <- <-].
  - split; [by rewrite app_nil_r | lia].
  - split; [apply takeZ_dropZ|]. apply dropZ_length.
Qed.

Lemma fd_readline_spec (fd : str) :
  fst (fd_readline fd) ++ snd (fd_readline fd) = fd
  /\ (fd <> [] -> (length (snd (fd_readline fd)) < length fd)%nat).
Proof.
  induction fd as [|c fd IH]; simpl; [done|].
  destruct (N.eqb c NL); simpl; [split; [done|intros; lia]|].
  destruct (fd_readline fd) as [line rest]. simpl in *. destruct IH as [Heq Hlt].
  split; [by rewrite Heq|]. intros _. destruct fd as [|d fd']; [|specialize (Hlt ltac:(done)); lia].
  simpl in Heq. apply app_eq_nil in Heq as [_ ->]. simpl. lia.
Qed.

Lemma zlen_app {A} (a b : list A) : zlen (a ++ b) = zlen a + zlen b.
Proof. unfold zlen. rewrite length_app. lia. Qed.

(** [count_characters_in_file] returns the number of characters of the file. *)
Lemma count_in_blocks_spec fuel : forall fd,
  (length fd < fuel)%nat ->
  exists blocks, count_in_blocks fuel fd BUFFER_SIZE = Ok blocks /\ sumZ blocks = zlen fd.
Proof.
  induction fuel as [|fuel IH]; intros fd Hfuel; [lia|]. cbn [count_in_blocks].
  destruct (fd_read fd BUFFER_SIZE) as [b fd'] eqn:Hread.
  destruct (fd_read_spec _ _ _ _ Hread) as [Heq Hne].
  destruct b as [|c b'].
  - exists []. split; [done|]. simpl in Heq. subst fd'.
    destruct fd as [|d fd0]; [done|].
    destruct (Hne ltac:(done) ltac:(done)) as [? _]. done.
  - assert (Hlt : (length fd' < length fd)%nat).
    { rewrite <- Heq. simpl. rewrite length_app. lia. }
    destruct (IH fd' ltac:(lia)) as (blocks & -> & Hsum). simpl.
    eexists. split; [reflexivity|]. simpl. rewrite Hsum, <- Heq, zlen_app. done.
Qed.

Lemma count_characters_in_file_spec (file : str) :
  count_characters_in_file file = Ok (zlen file).
Proof.
  unfold count_characters_in_file.
  destruct (count_in_blocks_spec (S (length file)) file ltac:(lia)) as (blocks & -> & Hsum).
  simpl. by rewrite Hsum.
Qed.

(** [move_by_n_characters_in_file] returns. *)
Lemma move_loop_returns fuel : forall fd n cr br buffer,
  (length fd + 2 <= fuel)%nat ->
  exists cr' br' fd', move_loop fuel fd n BUFFER_SIZE cr br buffer = Ok (cr', br', fd').
Proof.
  induction fuel as [|fuel IH]; intros fd n cr br buffer Hfuel; [lia|]. cbn [move_loop].
  destruct (negb (bool_decide (buffer = [])) && (n >? cr)) eqn:Hcond; [|by eexists _, _, _].
  apply andb_true_iff in Hcond as [_ Hn].
  destruct (fd_read fd (Z.min BUFFER_SIZE (n - cr))) as [b fd'] eqn:Hread.
  destruct (fd_read_spec _ _ _ _ Hread) as [Heq Hne].
  destruct fd as [|c fd0].
  - apply app_eq_nil in Heq as [-> ->].
    destruct fuel as [|fuel']; [simpl in Hfuel; lia|]. simpl. by eexists _, _, _.
  - destruct Hne as [_ Hlt]; [unfold BUFFER_SIZE; lia|done|].
    apply IH. simpl in *. lia.
Qed.

(** The [while line:] loop returns. *)
Lemma scan_lines_returns fuel : forall f line cip bytes total,
  (length f + 2 <= fuel)%nat ->
  exists found f' cip' bytes' total',
    scan_lines fuel f line cip bytes total = Ok (found, f', cip', bytes', total').
Proof.
  induction fuel as [|fuel IH]; intros f line cip bytes total Hfuel; [lia|].
  cbn [scan_lines].
  destruct line as [|c line']; [by eexists _, _, _, _, _|].
  destruct (contains PAGE (c :: line')); [by eexists _, _, _, _, _|].
  pose proof (fd_readline_spec f) as [Heq Hlt].
  destruct (fd_readline f) as [next f'] eqn:Hline. simpl in *.
  destruct f as [|d f0].
  - apply app_eq_nil in Heq as [-> ->].
    destruct fuel as [|fuel']; [simpl in Hfuel; lia|]. simpl. by eexists _, _, _, _, _.
  - specialize (Hlt ltac:(done)). apply IH. simpl in *. lia.
Qed.

(** Every part adds one range, which starts at [last_byte_border]. *)
Lemma borders_step_returns part_size st i :
  exists st' stop chars,
    borders_step part_size st i = Ok st'
    /\ byte_borders st' = byte_borders st ++ [(last_byte_border st, stop)]
    /\ num_characters_in_part st' = num_characters_in_part st ++ [chars].
Proof.
  unfold borders_step, move_by_n_characters_in_file.
  destruct (move_loop_returns (S (S (length (bs_f st)))) (bs_f st)
              (part_size * (i + 1) - total_characters_read st) 0 0 (lit "filler")
              ltac:(lia)) as (cr & br & f & ->).
  cbn [mbind result_bind]. destruct (_ <? _); [by eexists _, _, _|].
  destruct (fd_readline f) as [line f1].
  destruct (scan_lines_returns (S (S (length f1))) f1 line
              (cr + zlen (remainder st)) (br + encode_len (remainder st))
              (total_characters_read st + (cr + zlen (remainder st)) + zlen line)
              ltac:(lia)) as (found & f' & cip' & bytes' & total' & ->).
  cbn [mbind result_bind]. destruct found; by eexists _, _, _.
Qed.

Lemma borders_loop_returns part_size (indices : list Z) : forall st,
  exists st', for_each (borders_step part_size) indices st = Ok st'
    /\ length (byte_borders st') = (length (byte_borders st) + length indices)%nat
    /\ length (num_characters_in_part st')
       = (length (num_characters_in_part st) + length indices)%nat
    /\ (byte_borders st = [] -> last_byte_border st = 0 ->
        forall r, head (byte_borders st') = Some r -> r.1 = 0)
    /\ (forall r, head (byte_borders st) = Some r -> head (byte_borders st') = Some r).
Proof.
  induction indices as [|i indices IH]; intros st.
  - exists st. simpl. split_and!; try done; try lia. by intros ->.
  - destruct (borders_step_returns part_size st i) as (st1 & stop & chars & Hstep & Hb & Hc).
    destruct (IH st1) as (st' & Hrun & Hlen & Hlen' & _ & Hkeep).
    exists st'. cbn [for_each]. rewrite Hstep. simpl. split; [done|].
    rewrite Hb, Hc in *. rewrite !length_app in *. simpl in *. split_and!; try lia.
    + intros Hnil Hlast r Hr. rewrite Hnil in Hkeep. simpl in Hkeep.
      rewrite (Hkeep _ eq_refl) in Hr. injection Hr as <-. done.
    + intros r Hr. apply Hkeep. destruct (byte_borders st); [done|]. done.
Qed.

(** Whatever the file, for a number of parts other than zero the function
    returns, with one range and one count per part, and the first range
    starts at 0. *)
Lemma get_borders_returns (file : str) (num_parts : Z) :
  num_parts <> 0 ->
  exists borders counts,
    get_borders_with_documents_intact file num_parts = Ok (borders, counts)
    /\ length borders = Z.to_nat num_parts /\ length counts = Z.to_nat num_parts
    /\ forall r, head borders = Some r -> r.1 = 0.
Proof.
  intros Hn. unfold get_borders_with_documents_intact.
  rewrite count_characters_in_file_spec. simpl.
  destruct (Z.eqb_spec num_parts 0) as [|_]; [done|].
  destruct (borders_loop_returns (zlen file / num_parts) (seqZ 0 num_parts)
              (MkBorders file [] [] 0 0 []))
    as (st' & -> & Hlen & Hlen' & Hfirst & _).
  simpl in *. rewrite length_seqZ in *. eexists _, _. split; [reflexivity|].
  split_and!; [done|done|]. by apply Hfirst.
Qed.

Lemma borders_step_empty_file bb nc i :
  borders_step 0 (MkBorders [] bb nc 0 0 []) i
  = Ok (MkBorders [] (bb ++ [(0, 0)]) (nc ++ [0]) 0 0 []).
Proof. reflexivity. Qed.

Lemma borders_loop_empty_file (indices : list Z) : forall bb nc,
  for_each (borders_step 0) indices (MkBorders [] bb nc 0 0 [])
  = Ok (MkBorders [] (bb ++ replicate (length indices) (0, 0))
          (nc ++ replicate (length indices) 0) 0 0 []).
Proof.
  induction indices as [|i indices IH]; intros bb nc.
  - simpl. by rewrite !app_nil_r.
  - cbn [for_each]. rewrite borders_step_empty_file. simpl. rewrite IH.
    by rewrite <- !app_assoc.
Qed.

(** C7, as the code has it. For an empty file and [num_parts >= 1] parts,
    [get_borders_with_documents_intact] raises nothing: it returns
    [num_parts] empty ranges [(0, 0)] and [num_parts] counts of zero
    characters. *)
Theorem get_borders_empty_file (num_parts : Z) :
  1 <= num_parts ->
  get_borders_with_documents_intact [] num_parts
  = Ok (replicate (Z.to_nat num_parts) (0, 0), replicate (Z.to_nat num_parts) 0).
Proof.
  intros Hn. unfold get_borders_with_documents_intact. simpl.
  destruct (Z.eqb_spec num_parts 0) as [->|_]; [lia|].
  rewrite borders_loop_empty_file. simpl. by rewrite length_seqZ.
Qed.

(** An empty file in two parts. *)
Lemma get_borders_empty_file_witness :
  get_borders_with_documents_intact [] 2 = Ok ([(0, 0); (0, 0)], [0; 0]).
Proof. apply (get_borders_empty_file 2). lia. Defined.

(** C7, as stated, fails: an empty file split in one part gives no
    [ValueError]. *)
Lemma get_borders_empty_file_no_error :
  ~ exists msg, get_borders_with_documents_intact [] 1 = Raise (ValueError msg).
Proof. intros [msg H]. vm_compute in H. discriminate. Qed.

(** C1 fails on the code.  With more parts than pages, the page that the last
    border was put before is handed out twice; with nine one-line pages and
    three parts, the last range ends before the last page.  In both cases the
    ranges do not cover the file with each range starting where the previous
    one ends. *)
Theorem get_borders_not_a_partition :
  (get_borders_with_documents_intact two_pages 3
   = Ok ([(0, 8); (8, 16); (8, 16)], [8; 8; 8])
   /\ ~ covers_whole_file two_pages [(0, 8); (8, 16); (8, 16)])
  /\ (get_borders_with_documents_intact nine_pages 3
      = Ok ([(0, 24); (24, 48); (48, 64)], [24; 24; 16])
      /\ encode_len nine_pages = 72
      /\ ~ covers_whole_file nine_pages [(0, 24); (24, 48); (48, 64)]).
Proof.
  split; [split|split; [|split]].
  - by vm_compute.
  - unfold covers_whole_file. simpl. lia.
  - by vm_compute.
  - by vm_compute.
  - unfold covers_whole_file. intros H. simpl in H.
    destruct H as (_ & _ & _ & _ & _ & _ & H). vm_compute in H. discriminate.
Qed.

(** ** The UN and Tatoeba extractors *)

Lemma split_from_length sep s : forall skip cur,
  length (split_from sep skip cur s) = S (count_from sep skip s).
Proof.
  induction s as [|c s IH]; intros skip cur; simpl; [done|].
  destruct skip as [|k]; [|apply IH].
  destruct (startswith sep (c :: s)); simpl; by rewrite IH.
Qed.

Lemma split_length sep s : length (split sep s) = S (count sep s).
Proof. apply split_from_length. Qed.

Lemma wrong_body_message_names_file n tag file :
  exists pre, wrong_body_message n tag file = pre ++ file.
Proof.
  unfold wrong_body_message. eexists. rewrite !app_assoc. reflexivity.
Qed.

Section UNFacts.

Variable Cache : Type.
Variable html_unescape : str -> str.
Variable remove_untokenizable_characters_from_text : str -> Cache -> str * Cache * Z.
Variable remove_suspicious_lines_and_rearrange_quotes_and_spaces :
  str -> bool -> bool -> bool -> str * Z.
Variable SPACE_DUP_sub : str -> str.
Variable normalize_punctuation : str -> str -> str.

Let worker :=
  PreprocessUNWorker_call Cache html_unescape remove_untokenizable_characters_from_text
    remove_suspicious_lines_and_rearrange_quotes_and_spaces SPACE_DUP_sub
    normalize_punctuation.

Lemma un_body_raises contents file :
  count (lit "<body>") contents <> 1%nat
  \/ count (lit "</body>") (after_body contents) <> 1%nat ->
  exists pre, un_body contents file = Raise (ValueError (pre ++ file)).
Proof.
  intros Hbad. unfold un_body.
  pose proof (split_length (lit "<body>") contents) as Hlen1.
  destruct (Nat.eqb_spec (length (split (lit "<body>") contents)) 2) as [H2|H2]; simpl.
  - destruct Hbad as [Hbad|Hbad]; [lia|].
    unfold after_body in Hbad.
    destruct (split (lit "<body>") contents) as [|p0 [|p1 [|? ?]]]; try discriminate.
    simpl in *.
    pose proof (split_length (lit "</body>") p1) as Hlen2.
    destruct (Nat.eqb_spec (length (split (lit "</body>") p1)) 2) as [H3|H3]; simpl; [lia|].
    destruct (wrong_body_message_names_file
                (zlen (split (lit "</body>") p1) - 1) (lit "</body>") file) as [pre ->].
    by exists pre.
  - destruct (wrong_body_message_names_file
                (zlen (split (lit "<body>") contents) - 1) (lit "<body>") file) as [pre ->].
    by exists pre.
Qed.

Lemma un_body_returns contents file :
  count (lit "<body>") contents = 1%nat ->
  count (lit "</body>") (after_body contents) = 1%nat ->
  exists body, un_body contents file = Ok body.
Proof.
  intros H1 H2. unfold un_body, after_body in *.
  pose proof (split_length (lit "<body>") contents) as Hlen1. rewrite H1 in Hlen1.
  destruct (split (lit "<body>") contents) as [|p0 [|p1 [|? ?]]]; try discriminate.
  simpl in *.
  pose proof (split_length (lit "</body>") p1) as Hlen2. rewrite H2 in Hlen2.
  destruct (split (lit "</body>") p1) as [|q0 [|q1 [|? ?]]]; try discriminate.
  simpl. by exists q0.
Qed.

Lemma un_worker_body_tags_general document_dir contents cache file file_id doc_id idx :
  contents <> [] ->
  (count (lit "<body>") contents <> 1%nat
   \/ count (lit "</body>") (after_body contents) <> 1%nat ->
   exists pre,
     worker document_dir contents cache file file_id doc_id idx
     = Raise (ValueError (pre ++ file)))
  /\ (count (lit "<body>") contents = 1%nat ->
      count (lit "</body>") (after_body contents) = 1%nat ->
      exists w cache',
        worker document_dir contents cache file file_id doc_id idx = Ok (w, cache')).
Proof.
  intros Hne. unfold worker, PreprocessUNWorker_call.
  destruct (last contents) as [c|] eqn:Hlast;
    [|by apply last_None in Hlast].
  simpl. split.
  - intros Hbad. destruct (un_body_raises contents file Hbad) as [pre ->]. by exists pre.
  - intros H1 H2. destruct (un_body_returns contents file H1 H2) as [body ->]. simpl.
    destruct (foldl _ _ _) as [t cache']. by eexists _, _.
Qed.

Lemma un_worker_writes_empty_text document_dir cache file file_id doc_id idx :
  worker document_dir (lit "<body></body>") cache file file_id doc_id idx
  = Ok (MkWrite [(doc_id, MkDoc [] (lit "gnd-" ++ str_of_int idx) file 0 (Some 1))]
          (shard_path document_dir file_id), cache).
Proof. reflexivity. Qed.

End UNFacts.

(** What the tests of the UN extractor look at.  For a non-empty file, the
    extractor raises a [ValueError] whose message ends with the file name when
    the number of [<body>] tags of the file is not one, or when the number of
    [</body>] tags in the text after the [<body>] tag is not one; otherwise it
    returns. *)
Theorem un_worker_body_tags (Cache : Type) (html_unescape : str -> str)
    (remove_untokenizable_characters_from_text : str -> Cache -> str * Cache * Z)
    (remove_suspicious_lines_and_rearrange_quotes_and_spaces :
       str -> bool -> bool -> bool -> str * Z)
    (SPACE_DUP_sub : str -> str) (normalize_punctuation : str -> str -> str)
    (document_dir contents : str) (cache : Cache) (file : str) (file_id doc_id idx : Z) :
  contents <> [] ->
  (count (lit "<body>") contents <> 1%nat
   \/ count (lit "</body>") (after_body contents) <> 1%nat ->
   exists pre,
     PreprocessUNWorker_call Cache html_unescape remove_untokenizable_characters_from_text
       remove_suspicious_lines_and_rearrange_quotes_and_spaces SPACE_DUP_sub
       normalize_punctuation document_dir contents cache file file_id doc_id idx
     = Raise (ValueError (pre ++ file)))
  /\ (count (lit "<body>") contents = 1%nat ->
      count (lit "</body>") (after_body contents) = 1%nat ->
      exists w cache',
        PreprocessUNWorker_call Cache html_unescape remove_untokenizable_characters_from_text
          remove_suspicious_lines_and_rearrange_quotes_and_spaces SPACE_DUP_sub
          normalize_punctuation document_dir contents cache file file_id doc_id idx
        = Ok (w, cache')).
Proof. apply un_worker_body_tags_general. Qed.

(** A file with two [<body>] tags, and a file with one body. *)
Lemma un_worker_body_tags_witness :
  (exists pre, un_worker_example (lit "<body><body></body>")
               = Raise (ValueError (pre ++ lit "un.xml")))
  /\ (exists w cache', un_worker_example (lit "<body>x</body>") = Ok (w, cache')).
Proof.
  split.
  - apply (un_worker_body_tags unit keep_text keep_all_characters keep_all_lines keep_text
             keep_punctuation (lit "documents") (lit "<body><body></body>") tt (lit "un.xml")
             0 0 0).
    + by vm_compute.
    + left. by vm_compute.
  - apply (un_worker_body_tags unit keep_text keep_all_characters keep_all_lines keep_text
             keep_punctuation (lit "documents") (lit "<body>x</body>") tt (lit "un.xml")
             0 0 0).
    + by vm_compute.
    + by vm_compute.
    + by vm_compute.
Defined.

(** C8 fails on the code.  The file [</body><body>x</body>] holds one
    [<body>] tag and two [</body>] tags, and the extractor raises nothing,
    whatever the cleaning functions are: it hands a document to the shard
    writer.  The test of [<body>] counts the tags of the file; the test of
    [</body>] counts the tags of [body_split_1[1]], the text after [<body>],
    although the error it raises reports the number of [</body>] tags found
    in the file. *)
Theorem un_worker_two_closing_tags :
  count (lit "<body>") (lit "</body><body>x</body>") = 1%nat
  /\ count (lit "</body>") (lit "</body><body>x</body>") = 2%nat
  /\ un_worker_example (lit "</body><body>x</body>")
     = Ok (MkWrite [(0, MkDoc [] (lit "gnd-0") (lit "un.xml") 0 (Some 1))]
             (shard_path (lit "documents") 0), tt)
  /\ (forall Cache html_unescape remove_untokenizable_characters_from_text
        remove_suspicious_lines_and_rearrange_quotes_and_spaces SPACE_DUP_sub
        normalize_punctuation document_dir (cache : Cache) file file_id doc_id idx,
        exists w cache',
          PreprocessUNWorker_call Cache html_unescape
            remove_untokenizable_characters_from_text
            remove_suspicious_lines_and_rearrange_quotes_and_spaces SPACE_DUP_sub
            normalize_punctuation document_dir (lit "</body><body>x</body>") cache file
            file_id doc_id idx
          = Ok (w, cache')).
Proof.
  split; [by vm_compute|]. split; [by vm_compute|]. split; [by vm_compute|].
  intros. apply un_worker_body_tags_general; by vm_compute.
Qed.

(** C4 fails on the code.  The Tatoeba extractor gives the shard writer a
    document with an empty text for an empty file, and the UN extractor for a
    file whose body has no paragraph, whatever the cleaning functions are. *)
Theorem extractors_write_empty_documents :
  (forall file_path document_dir doc_id file_id,
     preprocess_tatoeba [] file_path document_dir doc_id file_id
     = (MkWrite [(doc_id, MkDoc [] (lit "tatoeba") file_path 0 (Some 0))]
          (shard_path document_dir file_id),
        [(doc_id, file_id)]))
  /\ (forall Cache html_unescape remove_untokenizable_characters_from_text
        remove_suspicious_lines_and_rearrange_quotes_and_spaces SPACE_DUP_sub
        normalize_punctuation document_dir (cache : Cache) file file_id doc_id idx,
        PreprocessUNWorker_call Cache html_unescape remove_untokenizable_characters_from_text
          remove_suspicious_lines_and_rearrange_quotes_and_spaces SPACE_DUP_sub
          normalize_punctuation document_dir (lit "<body></body>") cache file file_id doc_id idx
        = Ok (MkWrite [(doc_id, MkDoc [] (lit "gnd-" ++ str_of_int idx) file 0 (Some 1))]
                (shard_path document_dir file_id), cache)).
Proof.
  split; [reflexivity|]. intros. apply un_worker_writes_empty_text.
Qed.

(** ** SegmentSampler: the number of segments per shard *)

Lemma sumZ_app a b : sumZ (a ++ b) = sumZ a + sumZ b.
Proof. induction a as [|x a IH]; simpl; lia. Qed.

Lemma sumZ_insert (l : list Z) j s v :
  l !! j = Some s -> sumZ (<[j := v]> l) = sumZ l - s + v.
Proof.
  revert j. induction l as [|x l IH]; intros [|j] H; simpl in *; try discriminate.
  - injection H as ->. lia.
  - rewrite (IH _ H). lia.
Qed.

Lemma Forall2_le_sum (a b : list Z) : Forall2 Z.le a b -> sumZ a <= sumZ b.
Proof. induction 1; simpl; lia. Qed.

Lemma Forall2_le_insert (l k : list Z) j v m :
  Forall2 Z.le l k -> k !! j = Some m -> v <= m -> Forall2 Z.le (<[j := v]> l) k.
Proof.
  intros Hlk Hm Hv. rewrite <- (list_insert_id k j m Hm).
  by apply Forall2_insert.
Qed.

Lemma getitem_Ok {A} (l : list A) i x : l !! i = Some x -> getitem l i = Ok x.
Proof. unfold getitem. by intros ->. Qed.

Section SegmentsFacts.

Variable max_possible : list Z.
Variable size : Z.

Lemma cap_sizes_spec : forall sizes maxes,
  length sizes = length maxes ->
  exists capped, cap_sizes sizes maxes = Ok capped /\ Forall2 Z.le capped maxes.
Proof.
  induction sizes as [|s sizes IH]; intros [|m maxes] Hlen; simpl in *; try discriminate.
  - exists []. by split.
  - destruct (IH maxes) as (capped & -> & Hle); [lia|]. simpl.
    eexists. split; [reflexivity|]. constructor; [|done].
    destruct (Z.gtb_spec s m); lia.
Qed.

Lemma decrease_loop_spec permutation : forall sizes sum_ sizes' sum',
  Forall2 Z.le sizes max_possible ->
  decrease_loop permutation sizes sum_ size = Ok (sizes', sum') ->
  Forall2 Z.le sizes' max_possible.
Proof.
  induction permutation as [|j permutation IH]; intros sizes sum_ sizes' sum' Hle; simpl.
  - by intros [= <- <-].
  - destruct (sum_ >? size); [|by intros [= <- <-]].
    unfold getitem. destruct (sizes !! j) as [s|] eqn:Hs; simpl; [|discriminate].
    destruct (Z.gtb_spec s 0) as [Hpos|_]; [|by apply IH].
    apply IH. destruct (Forall2_lookup_l _ _ _ _ _ Hle Hs) as (m & Hm & Hsm).
    eapply Forall2_le_insert; [done|done|lia].
Qed.

(** One pass over the permutation in the increasing branch. *)
Lemma increase_pass_spec permutation : forall sizes sum_ was,
  Forall2 Z.le sizes max_possible -> sum_ < size ->
  Forall (fun j => (j < length max_possible)%nat) permutation ->
  exists sizes' sum' was',
    increase_pass permutation max_possible sizes sum_ size was = Ok (sizes', sum', was')
    /\ Forall2 Z.le sizes' max_possible
    /\ sum_ <= sum' <= size
    /\ sum' - sum_ = sumZ sizes' - sumZ sizes
    /\ (was' = true -> was = true \/ sum_ < sum')
    /\ (was' = false ->
        was = false /\ sizes' = sizes
        /\ Forall (fun j => sizes !! j = max_possible !! j) permutation).
Proof.
  induction permutation as [|j permutation IH]; intros sizes sum_ was Hle Hlt Hperm; simpl.
  - exists sizes, sum_, was. split; [done|]. split; [done|]. split; [lia|].
    split; [lia|]. split; [by left|]. by intros ->.
  - inversion Hperm as [|? ? Hj Hperm']; subst.
    destruct (lookup_lt_is_Some_2 max_possible j Hj) as [m Hm].
    destruct (Forall2_lookup_r _ _ _ _ _ Hle Hm) as (s & Hs & Hsm).
    rewrite (getitem_Ok _ _ _ Hs), (getitem_Ok _ _ _ Hm). simpl.
    destruct (Z.ltb_spec s m) as [Hinc|Hfull].
    + assert (Hle' : Forall2 Z.le (<[j := s + 1]> sizes) max_possible)
        by (eapply Forall2_le_insert; [done|done|lia]).
      assert (Hsum : sumZ (<[j := s + 1]> sizes) = sumZ sizes + 1)
        by (rewrite (sumZ_insert _ _ _ _ Hs); lia).
      destruct (Z.geb_spec (sum_ + 1) size) as [Hreach|Hbelow].
      * assert (Heq : sum_ + 1 = size) by lia. rewrite <- Heq, Z.eqb_refl.
        eexists _, _, _. split; [reflexivity|]. split; [done|]. split; [lia|].
        split; [lia|]. split; [intros _; right; lia|]. discriminate.
      * destruct (IH (<[j := s + 1]> sizes) (sum_ + 1) true Hle' ltac:(lia) Hperm')
          as (sizes' & sum' & was' & -> & Hle'' & Hrange & Hdiff & Hwas & Hno).
        exists sizes', sum', was'. split; [done|]. split; [done|]. split; [lia|].
        split; [lia|]. split; [intros _; right; lia|].
        intros Hf. destruct (Hno Hf) as [? _]. discriminate.
    + destruct (IH sizes sum_ was Hle Hlt Hperm')
        as (sizes' & sum' & was' & -> & Hle'' & Hrange & Hdiff & Hwas & Hno).
      exists sizes', sum', was'. split; [done|]. split; [done|]. split; [lia|].
      split; [lia|]. split; [done|].
      intros Hf. destruct (Hno Hf) as (-> & -> & Hall). split; [done|]. split; [done|].
      constructor; [|done]. rewrite Hs, Hm. f_equal. lia.
Qed.

(** The [while] loop of the increasing branch returns, with every file of
    the permutation at its maximum when the requested size was not reached. *)
Lemma increase_loop_spec permutation fuel : forall sizes sum_ was,
  Forall2 Z.le sizes max_possible -> sumZ sizes = sum_ -> sum_ <= size ->
  Forall (fun j => (j < length max_possible)%nat) permutation ->
  (1 <= fuel)%nat ->
  (was = true -> sum_ < size -> (Z.to_nat (size - sum_) < fuel)%nat) ->
  (was = false -> Forall (fun j => sizes !! j = max_possible !! j) permutation) ->
  exists sizes' sum',
    increase_loop fuel permutation max_possible sizes sum_ size was = Ok (sizes', sum')
    /\ Forall2 Z.le sizes' max_possible
    /\ sumZ sizes' = sum' /\ sum' <= size
    /\ (sum' < size -> Forall (fun j => sizes' !! j = max_possible !! j) permutation).
Proof.
  induction fuel as [|fuel IH]; intros sizes sum_ was Hle Hsum Hbound Hperm Hfuel Hwas Hno;
    [lia|].
  simpl. destruct (Z.ltb_spec sum_ size) as [Hlt|Hge]; simpl.
  - destruct was; simpl.
    + destruct (increase_pass_spec permutation sizes sum_ false Hle Hlt Hperm)
        as (sizes' & sum' & was' & -> & Hle' & Hrange & Hdiff & Hw & Hn). simpl.
      apply IH; try done; try lia.
      * intros -> Hlt'. specialize (Hwas eq_refl Hlt).
        destruct (Hw eq_refl) as [?|?]; [discriminate|lia].
      * intros ->. destruct (Hn eq_refl) as (_ & -> & Hall). exact Hall.
    + exists sizes, sum_. split; [done|]. split; [done|]. split; [done|]. split; [lia|].
      intros _. by apply Hno.
  - exists sizes, sum_. split; [done|]. split; [done|]. split; [done|]. split; [lia|]. lia.
Qed.

End SegmentsFacts.

Lemma checked_sizes_Ok num_files sizes size l :
  checked_sizes num_files sizes size = Ok l ->
  l = sizes /\ length sizes = num_files /\ Forall (fun s => 0 <= s) sizes /\ sumZ sizes = size.
Proof.
  unfold checked_sizes, py_assert.
  destruct (bool_decide_reflect (length sizes = num_files)) as [Hlen|]; simpl; [|discriminate].
  destruct (forallb _ sizes) eqn:Hpos; simpl; [|discriminate].
  destruct (Z.eqb_spec (sumZ sizes) size) as [Hsum|]; simpl; [|discriminate].
  intros [= <-]. split_and!; try done.
  apply Forall_forall. intros x Hx. rewrite forallb_forall in Hpos.
  apply list_elem_of_In in Hx. specialize (Hpos x Hx). lia.
Qed.

Lemma checked_sizes_fuel num_files sizes size :
  checked_sizes num_files sizes size <> OutOfFuel.
Proof.
  unfold checked_sizes, py_assert.
  destruct (bool_decide _); simpl; [|done].
  destruct (forallb _ _); simpl; [|done].
  by destruct (_ =? _).
Qed.

Lemma decrease_loop_fuel permutation size : forall sizes sum_,
  decrease_loop permutation sizes sum_ size <> OutOfFuel.
Proof.
  induction permutation as [|j permutation IH]; intros sizes sum_; simpl; [done|].
  destruct (sum_ >? size); [|done].
  unfold getitem. destruct (sizes !! j); simpl; [|done].
  destruct (_ >? 0); apply IH.
Qed.

(** What [adjust_sizes] does to sizes below the maxima, for a permutation of
    the indices. *)
Lemma adjust_sizes_spec permutation max_possible sizes size :
  Forall2 Z.le sizes max_possible ->
  permutation ≡ₚ seq 0 (length max_possible) ->
  adjust_sizes permutation max_possible sizes size <> OutOfFuel
  /\ (forall l, adjust_sizes permutation max_possible sizes size = Ok l ->
        Forall2 Z.le l max_possible)
  /\ (sumZ max_possible < size ->
      adjust_sizes permutation max_possible sizes size
      = Raise (ValueError (not_enough_files_message size (sumZ max_possible)))).
Proof.
  intros Hle Hperm.
  assert (Hrange : Forall (fun j => (j < length max_possible)%nat) permutation).
  { apply Forall_forall. intros j Hj. rewrite Hperm in Hj.
    apply elem_of_seq in Hj. lia. }
  pose proof (Forall2_le_sum _ _ Hle) as Hsum.
  unfold adjust_sizes.
  destruct (Z.gtb_spec (sumZ sizes) size) as [Hgt|Hngt].
  - split_and!.
    + pose proof (decrease_loop_fuel permutation size sizes (sumZ sizes)) as Hf.
      destruct (decrease_loop _ _ _ _) as [[? ?]| |]; simpl; done.
    + intros l. destruct (decrease_loop _ _ _ _) as [[sizes' sum']| |] eqn:Hrun; simpl;
        try discriminate.
      intros [= <-]. by eapply decrease_loop_spec.
    + lia.
  - destruct (Z.ltb_spec (sumZ sizes) size) as [Hlt|Hnlt].
    + destruct (increase_loop_spec max_possible size permutation
                  (S (Z.to_nat (size - sumZ sizes))) sizes (sumZ sizes) true)
        as (sizes' & sum' & -> & Hle' & Hsum' & Hbound & Hfull); try done; try lia.
      simpl. split_and!.
      * by destruct (sum' <? size).
      * intros l. destruct (sum' <? size); [discriminate|]. by intros [= <-].
      * intros Hsmall. pose proof (Forall2_le_sum _ _ Hle') as Hsum''.
        destruct (Z.ltb_spec sum' size) as [Hlt'|]; [|lia].
        assert (sizes' = max_possible) as ->.
        { apply list_eq. intros j.
          destruct (decide (j < length max_possible)%nat) as [Hj|Hj].
          - rewrite Forall_forall in Hfull. apply (Hfull Hlt').
            rewrite Hperm. apply elem_of_seq. lia.
          - rewrite !lookup_ge_None_2; [done|lia|].
            rewrite (Forall2_length _ _ _ Hle'). lia. }
        by rewrite <- Hsum'.
    + split_and!; [done| |lia]. by intros l [= <-].
Qed.

(** *** The call returns when the shards can supply the segments *)

Lemma cap_sizes_zip : forall sizes maxes,
  length sizes = length maxes ->
  cap_sizes sizes maxes = Ok (zip_with (fun s m => if s >? m then m else s) sizes maxes).
Proof.
  induction sizes as [|s sizes IH]; intros [|m maxes] Hlen; simpl in *; try discriminate.
  - done.
  - rewrite IH by lia. done.
Qed.

(** The sizes after the capping are not negative, and what they have above
    the requested size is at most the number of positive ones. *)
Lemma capped_shares_bound (total size : Z) (share : Z -> Z) : forall stats maxes,
  0 <= size -> 0 < total ->
  length stats = length maxes ->
  Forall (fun s => 0 <= s /\ Z.abs (share s * total - s * size) < total) stats ->
  Forall (fun m => 0 <= m) maxes ->
  Forall (fun c => 0 <= c)
    (zip_with (fun s m => if s >? m then m else s) (map share stats) maxes)
  /\ (sumZ (zip_with (fun s m => if s >? m then m else s) (map share stats) maxes)
      - sumZ (map is_positive
                (zip_with (fun s m => if s >? m then m else s) (map share stats) maxes)))
     * total <= sumZ stats * size.
Proof.
  intros stats maxes Hsize Htotal. revert maxes.
  induction stats as [|s stats IH]; intros [|m maxes] Hlen Hstats Hmaxes;
    simpl in *; try discriminate.
  - split; [constructor|lia].
  - inversion Hstats as [|? ? [Hs Hclose] Hstats']; subst.
    inversion Hmaxes as [|? ? Hm Hmaxes']; subst.
    destruct (IH maxes ltac:(lia) Hstats' Hmaxes') as [Hpos Hsum].
    set (rest := zip_with _ (map share stats) maxes) in *.
    assert (Hshare : 0 <= share s) by nia.
    assert (Hupper : (share s - 1) * total <= s * size) by lia.
    set (c := if share s >? m then m else share s).
    assert (Hc : 0 <= c <= share s) by (unfold c; destruct (Z.gtb_spec (share s) m); lia).
    split; [by constructor; [lia|]|].
    assert (Hone : (c - is_positive c) * total <= s * size).
    { unfold is_positive. destruct (Z.gtb_spec c 0) as [Hgt|Hle]; nia. }
    unfold sumZ in *. cbn [foldr]. nia.
Qed.

Lemma sumZ_Permutation (l l' : list Z) : l ≡ₚ l' -> sumZ l = sumZ l'.
Proof. unfold sumZ. induction 1; simpl; lia. Qed.

(** The positive sizes counted by index. *)
Lemma sumZ_by_index (g : Z -> Z) (l : list Z) :
  sumZ (map (fun j => g (default 0 (l !! j))) (seq 0 (length l))) = sumZ (map g l).
Proof.
  induction l as [|x l IH] using rev_ind; [done|].
  rewrite length_app. simpl. rewrite Nat.add_1_r, seq_S, !map_app, !sumZ_app. simpl.
  rewrite lookup_app_r by lia. rewrite Nat.sub_diag. simpl.
  rewrite <- IH. f_equal. f_equal. apply map_ext_in. intros j Hj.
  apply in_seq in Hj. by rewrite lookup_app_l by lia.
Qed.

Lemma is_positive_range (s : Z) : 0 <= is_positive s <= 1.
Proof. unfold is_positive. destruct (s >? 0); lia. Qed.

(** The decreasing loop takes one from every positive size it comes to, each
    index coming once, until the sum is the requested one. *)
Lemma decrease_loop_reaches (size : Z) : forall permutation sizes sum_,
  NoDup permutation ->
  Forall (fun j => (j < length sizes)%nat) permutation ->
  Forall (fun s => 0 <= s) sizes ->
  sumZ sizes = sum_ -> size <= sum_ ->
  sum_ - size <= sumZ (map (fun j => is_positive (default 0 (sizes !! j))) permutation) ->
  exists sizes',
    decrease_loop permutation sizes sum_ size = Ok (sizes', size)
    /\ sumZ sizes' = size /\ Forall (fun s => 0 <= s) sizes'.
Proof.
  induction permutation as [|j permutation IH];
    intros sizes sum_ Hnd Hrange Hpos Hsum Hle Hcount; simpl in *.
  - exists sizes. assert (sum_ = size) as -> by lia. done.
  - apply NoDup_cons in Hnd as [Hj Hnd].
    inversion Hrange as [|? ? Hjlt Hrange']; subst.
    destruct (Z.gtb_spec (sumZ sizes) size) as [Hgt|Hngt].
    + destruct (lookup_lt_is_Some_2 sizes j Hjlt) as [s Hs].
      rewrite (getitem_Ok _ _ _ Hs). cbn [mbind result_bind].
      rewrite Hs in Hcount. simpl in Hcount.
      assert (Hs0 : 0 <= s).
      { rewrite Forall_forall in Hpos. apply Hpos. by apply list_elem_of_lookup_2 in Hs. }
      destruct (Z.gtb_spec s 0) as [Hspos|Hszero].
      * apply IH; try done.
        -- by rewrite length_insert.
        -- rewrite Forall_forall in Hpos |- *. intros x Hx.
           apply list_elem_of_lookup in Hx as [k Hk].
           destruct (decide (k = j)) as [->|Hkj].
           ++ rewrite list_lookup_insert_eq in Hk by done. injection Hk as <-. lia.
           ++ rewrite list_lookup_insert_ne in Hk by done.
              apply Hpos. by apply list_elem_of_lookup_2 in Hk.
        -- rewrite (sumZ_insert _ _ _ _ Hs). lia.
        -- lia.
        -- unfold is_positive in Hcount at 1.
           destruct (Z.gtb_spec s 0) as [_|]; [|lia].
           replace (map (fun k => is_positive (default 0 (<[j := s - 1]> sizes !! k)))
                      permutation)
             with (map (fun k => is_positive (default 0 (sizes !! k))) permutation); [lia|].
           apply map_ext_in. intros k Hk. apply list_elem_of_In in Hk.
           rewrite list_lookup_insert_ne; [done|]. intros ->. done.
      * apply IH; try done.
        unfold is_positive in Hcount at 1.
        destruct (Z.gtb_spec s 0) as [|_]; [lia|]. lia.
    + exists sizes. assert (sumZ sizes = size) as Heq by lia. by rewrite Heq.
Qed.

(** The decreasing loop raises nothing. *)
Lemma decrease_loop_total (size : Z) : forall permutation sizes sum_,
  Forall (fun j => (j < length sizes)%nat) permutation ->
  exists res, decrease_loop permutation sizes sum_ size = Ok res.
Proof.
  induction permutation as [|j permutation IH]; intros sizes sum_ Hrange; simpl.
  - by eexists.
  - inversion Hrange as [|? ? Hjlt Hrange']; subst.
    destruct (sum_ >? size); [|by eexists].
    destruct (lookup_lt_is_Some_2 sizes j Hjlt) as [s Hs].
    rewrite (getitem_Ok _ _ _ Hs). cbn [mbind result_bind].
    destruct (s >? 0); apply IH; [|done]. by rewrite length_insert.
Qed.

Lemma insert_nonneg (sizes : list Z) (j : nat) (v : Z) :
  Forall (fun s => 0 <= s) sizes -> 0 <= v -> Forall (fun s => 0 <= s) (<[j := v]> sizes).
Proof.
  intros Hpos Hv. rewrite Forall_forall in Hpos |- *. intros x Hx.
  apply list_elem_of_lookup in Hx as [k Hk].
  destruct (decide (k = j)) as [->|Hkj].
  - apply list_lookup_insert_Some in Hk as [(_ & <- & _)|[? _]]; [lia|done].
  - rewrite list_lookup_insert_ne in Hk by done.
    apply Hpos. by apply list_elem_of_lookup_2 in Hk.
Qed.

(** The increasing loop leaves sizes that are not negative so. *)
Lemma increase_pass_nonneg max_possible size permutation : forall sizes sum_ was res,
  Forall (fun s => 0 <= s) sizes ->
  increase_pass permutation max_possible sizes sum_ size was = Ok res ->
  Forall (fun s => 0 <= s) res.1.1.
Proof.
  induction permutation as [|j permutation IH]; intros sizes sum_ was res Hpos; simpl.
  - by intros [= <-].
  - unfold getitem. destruct (sizes !! j) as [s|] eqn:Hs; simpl; [|discriminate].
    destruct (max_possible !! j) as [m|]; simpl; [|discriminate].
    assert (Hs0 : 0 <= s).
    { rewrite Forall_forall in Hpos. apply Hpos. by apply list_elem_of_lookup_2 in Hs. }
    destruct (s <? m); [|by apply IH].
    assert (Hpos' : Forall (fun s => 0 <= s) (<[j := s + 1]> sizes))
      by (apply insert_nonneg; [done|lia]).
    destruct (sum_ + 1 >=? size).
    + destruct (sum_ + 1 =? size); [|discriminate]. by intros [= <-].
    + by apply IH.
Qed.

Lemma increase_loop_nonneg max_possible size permutation fuel : forall sizes sum_ was res,
  Forall (fun s => 0 <= s) sizes ->
  increase_loop fuel permutation max_possible sizes sum_ size was = Ok res ->
  Forall (fun s => 0 <= s) res.1.
Proof.
  induction fuel as [|fuel IH]; intros sizes sum_ was res Hpos; simpl; [discriminate|].
  destruct ((sum_ <? size) && was); [|by intros [= <-]].
  destruct (increase_pass _ _ _ _ _ _) as [[[sizes' sum'] was']| |] eqn:Hpass; simpl;
    try discriminate.
  apply IH. exact (increase_pass_nonneg _ _ _ _ _ _ _ Hpos Hpass).
Qed.

(** [adjust_sizes] returns when the maxima add up to the requested size or
    more; the sum of what it returns is the requested size when, in the
    decreasing branch, there are enough positive sizes. *)
Lemma adjust_sizes_returns permutation max_possible sizes size :
  Forall2 Z.le sizes max_possible ->
  permutation ≡ₚ seq 0 (length max_possible) ->
  size <= sumZ max_possible ->
  exists l,
    adjust_sizes permutation max_possible sizes size = Ok l
    /\ Forall2 Z.le l max_possible
    /\ (Forall (fun s => 0 <= s) sizes ->
        sumZ sizes - size <= sumZ (map is_positive sizes) ->
        Forall (fun s => 0 <= s) l /\ sumZ l = size).
Proof.
  intros Hle Hperm Hfeasible.
  assert (Hlen : length sizes = length max_possible) by (by eapply Forall2_length).
  assert (Hrange : Forall (fun j => (j < length max_possible)%nat) permutation).
  { apply Forall_forall. intros j Hj. rewrite Hperm in Hj.
    apply elem_of_seq in Hj. lia. }
  unfold adjust_sizes.
  destruct (Z.gtb_spec (sumZ sizes) size) as [Hgt|Hngt].
  - destruct (decrease_loop_total size permutation sizes (sumZ sizes))
      as ([l sum'] & Hrun); [by rewrite Hlen|].
    rewrite Hrun. cbn [mbind result_bind]. exists l. split; [done|].
    split; [by eapply decrease_loop_spec|].
    intros Hpos Hcount.
    destruct (decrease_loop_reaches size permutation sizes (sumZ sizes))
      as (l' & Hrun' & Hsum & Hpos'); try done.
    + rewrite Hperm. apply NoDup_seq.
    + by rewrite Hlen.
    + lia.
    + assert (Hidx : sumZ (map (fun j => is_positive (default 0 (sizes !! j))) permutation)
                     = sumZ (map is_positive sizes)).
      { rewrite <- sumZ_by_index. apply sumZ_Permutation, Permutation_map.
        by rewrite Hlen. }
      lia.
    + rewrite Hrun in Hrun'. by injection Hrun' as -> _.
  - destruct (Z.ltb_spec (sumZ sizes) size) as [Hlt|Hnlt].
    + destruct (increase_loop_spec max_possible size permutation
                  (S (Z.to_nat (size - sumZ sizes))) sizes (sumZ sizes) true)
        as (sizes' & sum' & Hrun & Hle' & Hsum' & Hbound & Hfull); try done; try lia.
      rewrite Hrun. cbn [mbind result_bind].
      destruct (Z.ltb_spec sum' size) as [Hlt'|Hreached].
      * exfalso. assert (sizes' = max_possible) as ->; [|lia].
        apply list_eq. intros j.
        destruct (decide (j < length max_possible)%nat) as [Hj|Hj].
        -- rewrite Forall_forall in Hfull. apply (Hfull Hlt').
           rewrite Hperm. apply elem_of_seq. lia.
        -- rewrite !lookup_ge_None_2; [done|lia|].
           rewrite (Forall2_length _ _ _ Hle'). lia.
      * exists sizes'. split; [done|]. split; [done|]. intros Hpos _.
        split; [|lia]. exact (increase_loop_nonneg _ _ _ _ _ _ _ _ Hpos Hrun).
    + exists sizes. split; [done|]. split; [done|]. intros Hpos _. split; [done|lia].
Qed.

Lemma checked_sizes_returns num_files sizes size :
  length sizes = num_files -> Forall (fun s => 0 <= s) sizes -> sumZ sizes = size ->
  checked_sizes num_files sizes size = Ok sizes.
Proof.
  intros Hlen Hpos Hsum. unfold checked_sizes, py_assert.
  rewrite bool_decide_eq_true_2 by done. cbn [mbind result_bind].
  replace (forallb (fun s => s >=? 0) sizes) with true.
  - cbn [mbind result_bind]. rewrite <- Hsum, Z.eqb_refl. done.
  - symmetry. apply forallb_forall. intros x Hx. apply list_elem_of_In in Hx.
    rewrite Forall_forall in Hpos. specialize (Hpos x Hx). lia.
Qed.

(** No list passes the three [assert] statements for a negative [size]. *)
Lemma checked_sizes_negative num_files sizes size :
  size < 0 -> checked_sizes num_files sizes size = Raise AssertionError.
Proof.
  intros Hneg.
  destruct (checked_sizes num_files sizes size) as [l|e|] eqn:Hchk.
  - apply checked_sizes_Ok in Hchk as (_ & _ & Hpos & Hsum). exfalso.
    assert (0 <= sumZ sizes); [|lia].
    clear -Hpos. induction Hpos; simpl; lia.
  - revert Hchk. unfold checked_sizes, py_assert.
    destruct (bool_decide _); simpl; [|by intros [= <-]].
    destruct (forallb _ _); simpl; [|by intros [= <-]].
    destruct (_ =? _); simpl; [done|by intros [= <-]].
  - by apply checked_sizes_fuel in Hchk.
Qed.

Lemma max_allowed_loop_lower WC (l : list str) : forall i w L,
  i - zlen l <= (max_allowed_loop WC l i w L).1.
Proof.
  unfold zlen. induction l as [|s l IH]; intros i w L; simpl; [lia|].
  destruct (w <? L); simpl; [|lia].
  specialize (IH (i - 1) (w + count_words WC s) L). lia.
Qed.

Lemma max_possible_segments_nonneg WC files L :
  Forall (fun m => 0 <= m) (max_possible_segments WC files L).
Proof.
  unfold max_possible_segments. apply Forall_forall. intros m Hm.
  apply list_elem_of_In, in_map_iff in Hm as (f & <- & _).
  unfold get_max_allowed_segments_for_text.
  pose proof (max_allowed_loop_lower WC (rev (splitlines (sh_text f)))
                (zlen (splitlines (sh_text f)) - 1) 0 L) as Hlow.
  destruct (max_allowed_loop _ _ _ _ _) as [sent_i num_words]. simpl in Hlow.
  unfold zlen in Hlow. rewrite length_rev in Hlow.
  destruct (num_words <? L); lia.
Qed.

Lemma sumZ_nonneg (l : list Z) : Forall (fun m => 0 <= m) l -> 0 <= sumZ l.
Proof. induction 1; simpl; lia. Qed.

(** C2, as the code has it.  The sizes of the files are not negative, the
    permutation drawn for the adjustment is one of the indices, and every
    rounded share [round((s / total_size) * size)] is less than 1 away from
    the quotient it rounds.  With files whose sizes add up to zero, the
    division raises [ZeroDivisionError], whatever [size] is; otherwise,
    with a number of jobs below 1, the pool raises [ValueError].  In all
    other cases the call returns exactly when [0 <= size] and the maxima add
    up to [size] or more: the list has one element per file, every element
    lies between 0 and the maximum of its file, and the sum is [size].  When
    the maxima add up to less than [size], it raises the [ValueError] that
    reports their sum; and for a negative [size] the [assert] statements
    raise [AssertionError]. *)
Theorem segments_by_files_sum_to_size (WC : N -> bool) (round_share : Z -> Z -> Z -> Z)
    (files : list shard_text) (size max_segment_length num_jobs : Z)
    (permutation : list nat) :
  let total_size := sumZ (map sh_st_size files) in
  let max_possible := max_possible_segments WC files max_segment_length in
  let r := get_how_many_segments_to_cut_by_files WC round_share files size
             max_segment_length num_jobs permutation in
  permutation ≡ₚ seq 0 (length files) ->
  Forall (fun f => 0 <= sh_st_size f) files ->
  (0 < total_size ->
   Forall (fun f => share_close round_share total_size size (sh_st_size f)) files) ->
  (files <> [] -> total_size = 0 -> r = Raise ZeroDivisionError)
  /\ (files = [] \/ total_size <> 0 ->
      (num_jobs < 1 ->
       r = Raise (ValueError (lit "Number of processes must be at least 1")))
      /\ (1 <= num_jobs ->
          (0 <= size <= sumZ max_possible ->
           exists sizes,
             r = Ok sizes /\ length sizes = length files /\ sumZ sizes = size
             /\ Forall2 (fun s m => 0 <= s <= m) sizes max_possible)
          /\ (sumZ max_possible < size ->
              r = Raise (ValueError (not_enough_files_message size (sumZ max_possible))))
          /\ (size < 0 -> r = Raise AssertionError))).
Proof.
  intros total_size max_possible r Hperm Hstats Hround. subst r.
  assert (Hlen : length max_possible = length files)
    by (unfold max_possible, max_possible_segments; apply length_map).
  rewrite <- Hlen in Hperm.
  pose proof (max_possible_segments_nonneg WC files max_segment_length) as Hmaxes.
  fold max_possible in Hmaxes.
  pose proof (sumZ_nonneg _ Hmaxes) as Hmax_sum.
  unfold get_how_many_segments_to_cut_by_files. fold max_possible. fold total_size.
  set (stats := map sh_st_size files) in *.
  set (sizes0 := map (fun s => round_share s total_size size) stats).
  assert (Hlen0 : length sizes0 = length max_possible).
  { unfold sizes0, stats. rewrite !length_map. lia. }
  assert (Hstats_nil : stats = [] <-> files = []).
  { unfold stats. destruct files; simpl; split; intros; done. }
  split.
  - intros Hfiles Hzero.
    rewrite bool_decide_eq_false_2 by (by rewrite Hstats_nil).
    by rewrite Hzero.
  - intros Hshares.
    assert (Hguard : (if bool_decide (stats = []) then Ok tt
                      else if total_size =? 0 then Raise ZeroDivisionError else Ok tt)
                     = Ok tt).
    { destruct (bool_decide_reflect (stats = [])) as [|Hne]; [done|].
      destruct (Z.eqb_spec total_size 0) as [Hz|]; [|done].
      destruct Hshares as [->|Hnz]; [by destruct Hne|done]. }
    rewrite Hguard. cbn [mbind result_bind]. unfold mp_Pool.
    destruct (Z.ltb_spec num_jobs 1) as [Hfew|Hjobs]; cbn [mbind result_bind].
    { split; [done|]. intros. lia. }
    split; [intros; lia|]. intros _.
    rewrite (cap_sizes_zip sizes0 max_possible Hlen0). cbn [mbind result_bind].
    set (capped := zip_with _ sizes0 max_possible).
    assert (Hle : Forall2 Z.le capped max_possible).
    { destruct (cap_sizes_spec sizes0 max_possible Hlen0) as (c & Hc & Hle).
      rewrite (cap_sizes_zip sizes0 max_possible Hlen0) in Hc. by injection Hc as <-. }
    split_and!.
    + intros [Hsize Hfeasible].
      destruct (adjust_sizes_returns permutation max_possible capped size Hle Hperm Hfeasible)
        as (l & -> & Hle' & Hsum). cbn [mbind result_bind].
      assert (Hcapped : Forall (fun s => 0 <= s) capped
                        /\ sumZ capped - size <= sumZ (map is_positive capped)).
      { destruct (decide (files = [])) as [Hnil|Hsome].
        - unfold capped, sizes0, stats. rewrite Hnil. simpl. split; [constructor|lia].
        - assert (Hpos_total : 0 < total_size).
          { destruct Hshares as [|Hnz]; [done|].
            assert (0 <= total_size); [|lia].
            apply sumZ_nonneg. unfold stats. apply Forall_forall. intros s Hs.
            apply list_elem_of_In, in_map_iff in Hs as (f & <- & Hf).
            rewrite Forall_forall in Hstats. apply Hstats. by apply list_elem_of_In. }
          destruct (capped_shares_bound total_size size
                      (fun s => round_share s total_size size) stats max_possible)
            as [Hpos Hbound]; try done.
          + unfold stats. rewrite length_map. lia.
          + unfold stats. apply Forall_forall. intros s Hs.
            apply list_elem_of_In, in_map_iff in Hs as (f & <- & Hf).
            apply list_elem_of_In in Hf.
            specialize (Hround Hpos_total).
            rewrite Forall_forall in Hstats, Hround. split; [by apply Hstats|].
            by apply Hround.
          + fold sizes0 in Hpos, Hbound. fold capped in Hpos, Hbound.
            split; [done|]. fold total_size in Hbound. nia. }
      destruct Hcapped as [Hpos Hcount].
      destruct (Hsum Hpos Hcount) as [Hpos' Hsum'].
      assert (Hl : length l = length files).
      { rewrite (Forall2_length _ _ _ Hle'). done. }
      rewrite (checked_sizes_returns _ _ _ Hl Hpos' Hsum').
      exists l. split_and!; try done.
      clear -Hle' Hpos'. induction Hle'; [constructor|].
      inversion Hpos'; subst. constructor; [lia|]. by apply IHHle'.
    + intros Hsmall.
      destruct (adjust_sizes_spec permutation max_possible capped size Hle Hperm)
        as (_ & _ & Hraise).
      by rewrite (Hraise Hsmall).
    + intros Hneg.
      destruct (adjust_sizes_returns permutation max_possible capped size Hle Hperm
                  ltac:(lia)) as (l & -> & _). cbn [mbind result_bind].
      by apply checked_sizes_negative.
Qed.

Lemma round_half_even_close (s total_size size : Z) :
  0 < total_size -> share_close round_half_even total_size size s.
Proof.
  intros Htotal. unfold share_close, round_half_even.
  pose proof (Z.div_mod (2 * s * size + total_size) (2 * total_size) ltac:(lia)) as Hdiv.
  pose proof (Z.mod_pos_bound (2 * s * size + total_size) (2 * total_size) ltac:(lia))
    as Hmod.
  set (q := (2 * s * size + total_size) / (2 * total_size)) in *.
  set (m := (2 * s * size + total_size) mod (2 * total_size)) in *.
  destruct (Z.eqb_spec m 0) as [Hz|Hnz]; simpl.
  - destruct (Z.odd q); lia.
  - lia.
Qed.

(** With shards that allow 3, 3 and 2 segments, 7 segments are cut. *)
Example segments_by_files_feasible :
  get_how_many_segments_to_cut_by_files ascii_word_char round_half_even small_corpus 7 3 2
    [2; 0; 1]%nat = Ok [3; 2; 2].
Proof. by vm_compute. Qed.

(** The scenario of the design document: 5 + 5 segments are asked of shards
    that allow 8; and 7 segments are asked of them. *)
Lemma segments_by_files_sum_to_size_witness :
  get_how_many_segments_to_cut_by_files ascii_word_char round_half_even small_corpus (5 + 5) 3
    2 [2; 0; 1]%nat
  = Raise (ValueError (not_enough_files_message (5 + 5) 8))
  /\ (exists sizes,
        get_how_many_segments_to_cut_by_files ascii_word_char round_half_even small_corpus 7 3
          2 [2; 0; 1]%nat = Ok sizes
        /\ length sizes = 3%nat /\ sumZ sizes = 7
        /\ Forall2 (fun s m => 0 <= s <= m) sizes [3; 3; 2]).
Proof.
  assert (Hperm : [2; 0; 1]%nat ≡ₚ seq 0 (length small_corpus))
    by exact (Permutation_cons_append [0; 1]%nat 2%nat).
  assert (Hstats : Forall (fun f => 0 <= sh_st_size f) small_corpus)
    by (repeat (apply Forall_cons; split; [by vm_compute|]); apply Forall_nil_2).
  assert (Hround : forall size,
            0 < sumZ (map sh_st_size small_corpus) ->
            Forall (fun f => share_close round_half_even (sumZ (map sh_st_size small_corpus))
                               size (sh_st_size f)) small_corpus).
  { intros size Htotal. apply Forall_forall. intros f _.
    by apply round_half_even_close. }
  assert (Hround10 : 0 < sumZ (map sh_st_size small_corpus) ->
            Forall (fun f => share_close round_half_even (sumZ (map sh_st_size small_corpus))
                               (5 + 5) (sh_st_size f)) small_corpus).
  { intros _. repeat (apply Forall_cons; split; [by vm_compute|]). apply Forall_nil_2. }
  split.
  - apply (segments_by_files_sum_to_size ascii_word_char round_half_even small_corpus (5 + 5) 3
             2 [2; 0; 1]%nat Hperm Hstats Hround10).
    + right. by vm_compute.
    + lia.
    + by vm_compute.
  - apply (segments_by_files_sum_to_size ascii_word_char round_half_even small_corpus 7 3
             2 [2; 0; 1]%nat Hperm Hstats (Hround 7)).
    + right. by vm_compute.
    + lia.
    + by vm_compute.
Defined.

(** C2, as stated, fails: of a corpus of one shard file of no byte, whose
    text allows no segment, 0 segments are asked; the corpus can supply
    them, and the division [s / total_size] raises [ZeroDivisionError]. *)
Lemma segments_by_files_empty_corpus :
  sumZ (max_possible_segments ascii_word_char empty_corpus 3) = 0
  /\ forall round_share num_jobs,
       get_how_many_segments_to_cut_by_files ascii_word_char round_share empty_corpus 0 3
         num_jobs [0%nat]
       = Raise ZeroDivisionError.
Proof. split; [by vm_compute|]. intros round_share num_jobs. by vm_compute. Qed.

(** ** DocumentStore: merging small shard files *)

Lemma reverse_doc_id_to_file_i_spec (m : gmap Z Z) d s :
  (exists l, reverse_doc_id_to_file_i m !! s = Some l /\ d ∈ l) <-> m !! d = Some s.
Proof.
  revert d s. unfold reverse_doc_id_to_file_i.
  apply (map_fold_weak_ind
           (fun (rev : gmap Z (list Z)) (m : gmap Z Z) =>
              forall d s, (exists l, rev !! s = Some l /\ d ∈ l) <-> m !! d = Some s)).
  - intros d s. split.
    + intros (l & H & _). by rewrite lookup_empty in H.
    + by rewrite lookup_empty.
  - intros i x m' r Hfresh IH d s.
    assert (Hstep : forall l0, (forall d', d' ∈ l0 <-> m' !! d' = Some x) ->
              (exists l, <[x := l0 ++ [i]]> r !! s = Some l /\ d ∈ l)
              <-> <[i := x]> m' !! d = Some s).
    { intros l0 Hl0. destruct (decide (s = x)) as [->|Hs].
      - rewrite lookup_insert_eq. destruct (decide (d = i)) as [->|Hd].
        + rewrite lookup_insert_eq. split; [done|]. intros _. eexists. split; [done|].
          apply elem_of_app. right. by apply list_elem_of_singleton.
        + rewrite lookup_insert_ne by done. rewrite <- Hl0. split.
          * intros (l & [= <-] & Hin). apply elem_of_app in Hin as [Hin|Hin]; [done|].
            apply list_elem_of_singleton in Hin. done.
          * intros Hin. eexists. split; [done|]. apply elem_of_app. by left.
      - rewrite lookup_insert_ne by done. rewrite IH.
        destruct (decide (d = i)) as [->|Hd].
        + rewrite lookup_insert_eq, Hfresh. split; [done|]. intros [= ->]. done.
        + by rewrite lookup_insert_ne. }
    destruct (r !! x) as [l0|] eqn:Hx.
    + apply Hstep. intros d'. rewrite <- IH. split.
      * intros Hin. by exists l0.
      * intros (l & Hl & Hin). by simplify_eq.
    + apply (Hstep []). intros d'. rewrite <- IH. split.
      * intros Hin. by apply elem_of_nil in Hin.
      * intros (l & Hl & Hin). by simplify_eq.
Qed.

Lemma foldl_insert_lookup (k d : Z) (l : list Z) : forall acc : gmap Z Z,
  foldl (fun acc vv => <[vv := k]> acc) acc l !! d
  = if decide (d ∈ l) then Some k else acc !! d.
Proof.
  induction l as [|x l IH]; intros acc; simpl.
  - destruct (decide (d ∈ [])) as [Hin|]; [by apply elem_of_nil in Hin | done].
  - rewrite IH. destruct (decide (d ∈ l)) as [Hin|Hnin].
    + rewrite decide_True; [done|]. by right.
    + destruct (decide (d = x)) as [->|Hne].
      * rewrite lookup_insert_eq. rewrite decide_True; [done|]. by left.
      * rewrite lookup_insert_ne by done. rewrite decide_False; [done|].
        intros Hin. apply elem_of_cons in Hin as [?|?]; done.
Qed.

Lemma rev_rev_doc_id_to_file_i_spec (rev : gmap Z (list Z)) :
  one_file_each rev ->
  forall d s, rev_rev_doc_id_to_file_i rev !! d = Some s
              <-> exists l, rev !! s = Some l /\ d ∈ l.
Proof.
  unfold rev_rev_doc_id_to_file_i.
  apply (map_fold_weak_ind
           (fun (r : gmap Z Z) (rev : gmap Z (list Z)) =>
              one_file_each rev ->
              forall d s, r !! d = Some s <-> exists l, rev !! s = Some l /\ d ∈ l)).
  - intros _ d s. split.
    + by rewrite lookup_empty.
    + intros (l & H & _). by rewrite lookup_empty in H.
  - intros i x m r Hfresh IH Hone d s.
    assert (Hone' : one_file_each m).
    { intros d' s1 s2 l1 l2 H1 Hd1 H2 Hd2.
      apply (Hone d' s1 s2 l1 l2); try done.
      - rewrite lookup_insert_ne; [done|]. intros ->. by rewrite Hfresh in H1.
      - rewrite lookup_insert_ne; [done|]. intros ->. by rewrite Hfresh in H2. }
    specialize (IH Hone'). rewrite foldl_insert_lookup.
    destruct (decide (d ∈ x)) as [Hin|Hnin].
    + split.
      * intros [= <-]. exists x. by rewrite lookup_insert_eq.
      * intros (l & Hl & Hdl). f_equal.
        apply (Hone d i s x l); try done. by rewrite lookup_insert_eq.
    + rewrite IH. split.
      * intros (l & Hl & Hdl). exists l. split; [|done].
        rewrite lookup_insert_ne; [done|]. intros ->. by rewrite Hfresh in Hl.
      * intros (l & Hl & Hdl). destruct (decide (i = s)) as [->|Hne].
        -- rewrite lookup_insert_eq in Hl. by simplify_eq.
        -- rewrite lookup_insert_ne in Hl by done. by exists l.
Qed.

Lemma located_app a b d s : located (a ++ b) d s <-> located a d s \/ located b d s.
Proof.
  unfold located. split.
  - intros (f & Hf & Hs & Hd). apply elem_of_app in Hf as [Hf|Hf]; [left|right]; by exists f.
  - intros [(f & Hf & Hs & Hd)|(f & Hf & Hs & Hd)]; exists f; split_and!; try done;
      apply elem_of_app; [by left | by right].
Qed.

Lemma located_cons f b d s :
  located (f :: b) d s <-> (stem f = s /\ d ∈ doc_ids f) \/ located b d s.
Proof.
  unfold located. split.
  - intros (g & Hg & Hs & Hd). apply elem_of_cons in Hg as [->|Hg]; [by left|].
    right. by exists g.
  - intros [[Hs Hd]|(g & Hg & Hs & Hd)].
    + exists f. split_and!; try done. by left.
    + exists g. split_and!; try done. by right.
Qed.

Lemma located_stem dir d s : located dir d s -> s ∈ map stem dir.
Proof.
  intros (f & Hf & <- & _). apply list_elem_of_In, in_map, list_elem_of_In, Hf.
Qed.

(** Where the documents are after [f] was appended to [curr]. *)
Lemma located_merge closed curr f rest size d s :
  NoDup (map stem (closed ++ curr :: f :: rest)) ->
  located (closed ++ MkShard (stem curr) size (doc_ids curr ++ doc_ids f) :: rest) d s
  <-> s <> stem f
      /\ (located (closed ++ curr :: f :: rest) d s
          \/ (s = stem curr /\ located (closed ++ curr :: f :: rest) d (stem f))).
Proof.
  intros Hnd. rewrite map_app in Hnd. simpl in Hnd.
  apply NoDup_app in Hnd as (Hnd1 & Hsep & Hnd2).
  apply NoDup_cons in Hnd2 as (Hc & Hnd2). apply NoDup_cons in Hnd2 as (Hf & Hnd3).
  assert (Hcf : stem curr <> stem f) by (intros Heq; apply Hc; rewrite Heq; by left).
  assert (Hclosed : forall d' s', located closed d' s' -> s' <> stem curr /\ s' <> stem f).
  { intros d' s' Hl. apply located_stem in Hl. split; intros ->.
    - apply (Hsep _ Hl). by left.
    - apply (Hsep _ Hl). right. by left. }
  assert (Hrest : forall d' s', located rest d' s' -> s' <> stem curr /\ s' <> stem f).
  { intros d' s' Hl. apply located_stem in Hl. split; intros ->.
    - apply Hc. by right.
    - by apply Hf. }
  rewrite !located_app, !located_cons. simpl. rewrite elem_of_app. split.
  - intros [Hl|[[<- [Hd|Hd]]|Hl]].
    + destruct (Hclosed _ _ Hl). split; [done|]. by left; left.
    + split; [done|]. left. right. left. done.
    + split; [done|]. right. split; [done|]. right. right. left. done.
    + destruct (Hrest _ _ Hl). split; [done|]. left. right. right. by right.
  - intros [Hsf [[Hl|[[<- Hd]|[[<- Hd]|Hl]]]|[-> [Hl|[[Heq Hd]|[[_ Hd]|Hl]]]]]].
    + by left.
    + right. left. split; [done|]. by left.
    + done.
    + right. by right.
    + by destruct (Hclosed _ _ Hl).
    + done.
    + right. left. split; [done|]. by right.
    + by destruct (Hrest _ _ Hl).
Qed.

Lemma merge_step_spec dir m max_size st f rest :
  merge_inv dir m max_size st (f :: rest) ->
  match merge_step max_size st f with
  | Ok st' => merge_inv dir m max_size st' rest
  | Raise e => e = KeyError /\ Exists holds_no_document dir
  | OutOfFuel => False
  end.
Proof.
  destruct st as [rev closed curr].
  intros (Hnd & Hne & Hrev & Hfun & Hdom & Hclosed & Hcurr & Hrest). simpl in *.
  unfold merge_step. simpl.
  inversion Hrest as [|? ? Hfsize Hrest']; subst.
  destruct (Z.geb_spec (st_size curr) max_size) as [Hfull|Hroom].
  - unfold merge_inv. simpl.
    rewrite <- app_assoc. simpl. split_and!; try done.
    + apply Forall_app. split; [done|]. by constructor.
    + by left.
  - set (disk := closed ++ curr :: f :: rest) in *.
    assert (Hlist : forall g, g ∈ disk ->
              match rev !! stem g with
              | Some l => forall d, d ∈ l <-> located disk d (stem g)
              | None => Exists holds_no_document dir
              end).
    { intros g Hg. destruct (rev !! stem g) as [l|] eqn:Hl.
      - intros d. rewrite <- Hrev. split.
        + intros Hin. by exists l.
        + intros (l' & Hl' & Hin). by simplify_eq.
      - rewrite Forall_forall in Hne. apply (Hne g Hg). unfold holds_no_document.
        destruct (doc_ids g) as [|d0 ds] eqn:Hd0; [done|].
        assert (Hloc : located disk d0 (stem g)).
        { exists g. split_and!; try done. rewrite Hd0. by left. }
        apply Hrev in Hloc as (l & Hl' & _). congruence. }
    pose proof (Hlist curr ltac:(apply elem_of_app; right; by left)) as Hinto_spec.
    pose proof (Hlist f ltac:(apply elem_of_app; right; right; by left)) as Hfrom_spec.
    unfold dict_getitem.
    destruct (rev !! stem curr) as [into|] eqn:Hinto; [|by split].
    destruct (rev !! stem f) as [from|] eqn:Hfrom; [|by split].
    simpl. unfold merge_inv. simpl.
    pose proof (located_merge closed curr f rest (st_size curr + st_size f)) as Hloc.
    assert (Hcf : stem curr <> stem f).
    { intros Heq. unfold disk in Hnd. rewrite map_app in Hnd. simpl in Hnd.
      apply NoDup_app in Hnd as (_ & _ & Hnd). apply NoDup_cons in Hnd as (Hc & _).
      apply Hc. rewrite Heq. by left. }
    split_and!.
    + unfold disk in Hnd. rewrite map_app in Hnd |- *. simpl in *.
      apply NoDup_app in Hnd as (Hnd1 & Hsep & Hnd2). apply NoDup_app. split_and!.
      * done.
      * intros x Hx Hin. apply (Hsep x Hx).
        apply elem_of_cons in Hin as [->|Hin]; [by left|]. right. by right.
      * apply NoDup_cons in Hnd2 as (Hc & Hnd2). apply NoDup_cons in Hnd2 as (Hf & Hnd3).
        apply NoDup_cons. split; [|done]. intros Hin. apply Hc. by right.
    + unfold disk in Hne. rewrite Forall_app in Hne |- *. destruct Hne as (Hne1 & Hne2).
      inversion Hne2 as [|? ? Hcne Hne3]; subst. inversion Hne3 as [|? ? Hfne Hne4]; subst.
      split; [done|]. constructor; [|done]. unfold holds_no_document in *. simpl.
      intros Hnil. apply app_eq_nil in Hnil as [Hnil _]. by apply Hcne.
    + intros d s. rewrite (Hloc d s Hnd). destruct (decide (s = stem f)) as [->|Hsf].
      * rewrite lookup_delete_eq. split; [|by intros []]. by intros (l & Hl & _).
      * rewrite lookup_delete_ne by done. destruct (decide (s = stem curr)) as [->|Hsc].
        -- rewrite lookup_insert_eq. split.
           ++ intros (l & [= <-] & Hin). split; [done|].
              apply elem_of_app in Hin as [Hin|Hin].
              ** left. by apply Hinto_spec.
              ** right. split; [done|]. by apply Hfrom_spec.
           ++ intros [_ [Hl|[_ Hl]]]; eexists; (split; [reflexivity|]); apply elem_of_app.
              ** left. by apply Hinto_spec.
              ** right. by apply Hfrom_spec.
        -- rewrite lookup_insert_ne by done. rewrite Hrev. split.
           ++ intros Hl. split; [done|]. by left.
           ++ intros [_ [Hl|[Heq _]]]; done.
    + intros d s1 s2. rewrite !(Hloc d _ Hnd).
      intros [Hs1 [H1|[-> H1]]] [Hs2 [H2|[-> H2]]].
      * by apply (Hfun d).
      * destruct Hs1. by apply (Hfun d).
      * destruct Hs2. by apply (Hfun d).
      * done.
    + intros d. rewrite Hdom. split.
      * intros [s Hs]. destruct (decide (s = stem f)) as [->|Hsf].
        -- exists (stem curr). apply (Hloc d _ Hnd). split; [done|]. by right.
        -- exists s. apply (Hloc d _ Hnd). split; [done|]. by left.
      * intros [s Hs]. apply (Hloc d _ Hnd) in Hs as [_ [Hs|[_ Hs]]]; eauto.
    + done.
    + right. lia.
    + done.
Qed.

Lemma merge_loop_spec dir m max_size rest : forall st,
  merge_inv dir m max_size st rest ->
  match for_each (merge_step max_size) rest st with
  | Ok st' => merge_inv dir m max_size st' []
  | Raise e => e = KeyError /\ Exists holds_no_document dir
  | OutOfFuel => False
  end.
Proof.
  induction rest as [|f rest IH]; intros st Hinv; [done|].
  pose proof (merge_step_spec _ _ _ _ _ _ Hinv) as Hstep. cbn [for_each].
  destruct (merge_step max_size st f) as [st1|e|]; cbn [mbind result_bind]; [|done..].
  by apply IH.
Qed.

Lemma foldl_max_spec (l : list Z) : forall x,
  foldl Z.max x l ∈ x :: l /\ forall y, y ∈ x :: l -> y <= foldl Z.max x l.
Proof.
  induction l as [|z l IH]; intros x; simpl.
  - split; [by left|]. intros y Hy. apply list_elem_of_singleton in Hy. lia.
  - destruct (IH (Z.max x z)) as [Hin Hub]. split.
    + apply elem_of_cons in Hin as [Heq|Hin]; [|by right; right].
      rewrite Heq. destruct (Z.max_spec x z) as [[_ ->]|[_ ->]]; [right|]; by left.
    + intros y Hy. apply elem_of_cons in Hy as [->|Hy].
      * specialize (Hub (Z.max x z) ltac:(by left)). lia.
      * apply elem_of_cons in Hy as [->|Hy].
        -- specialize (Hub (Z.max x z) ltac:(by left)). lia.
        -- apply Hub. by right.
Qed.

Lemma py_max_spec (l : list Z) :
  l <> [] -> exists mx, py_max l = Ok mx /\ mx ∈ l /\ forall y, y ∈ l -> y <= mx.
Proof.
  destruct l as [|x l]; [done|]. intros _. simpl. eexists. split; [reflexivity|].
  apply foldl_max_spec.
Qed.

Lemma py_max_Permutation (l l' : list Z) mx :
  l ≡ₚ l' -> py_max l = Ok mx -> py_max l' = Ok mx.
Proof.
  intros Hperm Hmax.
  assert (Hl : l <> []) by (intros ->; discriminate).
  assert (Hl' : l' <> []) by (intros ->; by apply Permutation_nil_r in Hperm).
  destruct (py_max_spec l Hl) as (m1 & H1 & Hin1 & Hub1).
  destruct (py_max_spec l' Hl') as (m2 & H2 & Hin2 & Hub2).
  rewrite H2. rewrite H1 in Hmax. injection Hmax as <-. f_equal.
  rewrite Hperm in Hin1. rewrite <- Hperm in Hin2.
  specialize (Hub1 _ Hin2). specialize (Hub2 _ Hin1). lia.
Qed.

Lemma located_Permutation dir dir' d s :
  dir ≡ₚ dir' -> located dir d s <-> located dir' d s.
Proof.
  intros Hperm. unfold located. split; intros (f & Hf & Hrest); exists f; split; try done.
  - by rewrite <- Hperm.
  - by rewrite Hperm.
Qed.

Lemma two_shards_consistent : consistent two_shards two_shards_map.
Proof.
  unfold consistent, two_shards, two_shards_map. split.
  - simpl. apply NoDup_cons. split; [|apply NoDup_singleton].
    intros Hin. by apply list_elem_of_singleton in Hin.
  - intros d s. rewrite lookup_insert_Some, lookup_singleton_Some.
    rewrite located_cons, located_cons. unfold located. simpl.
    rewrite !list_elem_of_singleton. split.
    + intros [[<- <-]|[_ [<- <-]]]; [by left | right; by left].
    + intros [[<- ->]|[[<- ->]|(f & Hf & _)]]; [by left|right; by split|].
      by apply elem_of_nil in Hf.
Qed.

Lemma shards_with_empty_consistent : consistent shards_with_empty shards_with_empty_map.
Proof.
  unfold consistent, shards_with_empty, shards_with_empty_map. split.
  - simpl. apply NoDup_cons. split; [|apply NoDup_singleton].
    intros Hin. by apply list_elem_of_singleton in Hin.
  - intros d s. rewrite lookup_singleton_Some.
    rewrite located_cons, located_cons. unfold located. simpl.
    rewrite list_elem_of_singleton. split.
    + intros [<- <-]. right. by left.
    + intros [[_ Hd]|[[<- ->]|(f & Hf & _)]]; [by apply elem_of_nil in Hd|done|].
      by apply elem_of_nil in Hf.
Qed.

(** C3, as the code has it.  For a non-empty directory of shard files that
    agrees with the map (the files have distinct numbers and the map sends a
    document to the file that holds it), [merge_small_files] raises nothing
    but [KeyError], and this only when a shard file of the directory holds
    no document, the map having no entry for such a file.  Otherwise it
    returns a map with the same document ids that agrees with the shard
    files left in the directory, so that every document maps to the one
    surviving file that holds it; and every surviving shard has at most the
    largest size seen before the merge or less than twice that size. *)
Theorem merge_small_files_keeps_documents (dir : list shard_file) (m : gmap Z Z) :
  dir <> [] -> consistent dir m ->
  match merge_small_files dir m with
  | Ok (m', dir') =>
      exists max_size,
        py_max (map st_size dir) = Ok max_size
        /\ dom m' = dom m
        /\ consistent dir' m'
        /\ Forall (size_within max_size) dir'
  | Raise e => e = KeyError /\ Exists holds_no_document dir
  | OutOfFuel => False
  end.
Proof.
  intros Hdir (Hnd & Hmap).
  pose proof (merge_sort_Permutation stem_le dir) as Hperm.
  unfold merge_small_files.
  destruct (merge_sort stem_le dir) as [|f0 rest] eqn:Hfiles.
  { symmetry in Hperm. by apply Permutation_nil_r in Hperm. }
  assert (Hsizes : map st_size (f0 :: rest) ≡ₚ map st_size dir) by (by rewrite Hperm).
  destruct (py_max_spec (map st_size dir)) as (mx & Hmx & Hin & Hub).
  { by destruct dir. }
  rewrite (py_max_Permutation _ _ _ (symmetry Hsizes) Hmx). simpl.
  assert (Hinv : merge_inv dir m mx (MkMerge (reverse_doc_id_to_file_i m) [] f0) rest).
  { unfold merge_inv. cbn [ms_closed ms_curr ms_rev app].
    assert (Hall : Forall (fun f => st_size f <= mx) (f0 :: rest)).
    { apply Forall_forall. intros f Hf. apply Hub. rewrite <- Hsizes.
      apply list_elem_of_In, in_map, list_elem_of_In, Hf. }
    split_and!.
    - by rewrite Hperm.
    - apply Forall_forall. intros f Hf Hnone. apply Exists_exists. exists f.
      split; [|done]. by rewrite <- Hperm.
    - intros d s. rewrite reverse_doc_id_to_file_i_spec, Hmap.
      by apply located_Permutation.
    - intros d s1 s2 H1 H2.
      apply (located_Permutation _ _ d _ Hperm), Hmap in H1.
      apply (located_Permutation _ _ d _ Hperm), Hmap in H2. congruence.
    - intros d. split.
      + intros [s Hs]. exists s. apply (located_Permutation _ _ d _ Hperm), Hmap, Hs.
      + intros [s Hs]. exists s. apply Hmap, (located_Permutation _ _ d _ Hperm), Hs.
    - constructor.
    - left. by inversion Hall.
    - by inversion Hall. }
  pose proof (merge_loop_spec _ _ _ _ _ Hinv) as Hloop. unfold drop.
  destruct (for_each (merge_step mx) rest _) as [[rev' closed curr]|e|];
    cbn [mbind result_bind]; [|done..].
  destruct Hloop as (Hnd' & _ & Hrev' & Hfun' & Hdom' & Hclosed & Hcurr & _).
  simpl in *.
  assert (Hone : one_file_each rev').
  { intros d s1 s2 l1 l2 H1 Hd1 H2 Hd2. apply (Hfun' d); apply Hrev'; eauto. }
  assert (Hfinal : forall d s,
            rev_rev_doc_id_to_file_i rev' !! d = Some s <-> located (closed ++ [curr]) d s).
  { intros d s. by rewrite (rev_rev_doc_id_to_file_i_spec _ Hone), Hrev'. }
  exists mx. split_and!; try done.
  - apply set_eq. intros d. rewrite !elem_of_dom, Hdom'. split.
    + intros [s Hs]. exists s. by apply Hfinal.
    + intros [s Hs]. exists s. by apply Hfinal.
  - apply Forall_app. split; [done|]. by constructor.
Qed.

(** Two shards of 3 and 5 bytes, which are merged; a shard without a
    document before a shard of 5 bytes, for which [rev[curr_file_i]] raises. *)
Lemma merge_small_files_keeps_documents_witness :
  match merge_small_files two_shards two_shards_map with
  | Ok (m', dir') =>
      exists max_size,
        py_max (map st_size two_shards) = Ok max_size
        /\ dom m' = dom two_shards_map
        /\ consistent dir' m'
        /\ Forall (size_within max_size) dir'
  | Raise e => e = KeyError /\ Exists holds_no_document two_shards
  | OutOfFuel => False
  end
  /\ (exists m', merge_small_files two_shards two_shards_map
                 = Ok (m', [MkShard 0 8 [10; 11]]))
  /\ consistent shards_with_empty shards_with_empty_map
  /\ merge_small_files shards_with_empty shards_with_empty_map = Raise KeyError.
Proof.
  split; [|split; [|split]].
  - apply (merge_small_files_keeps_documents two_shards two_shards_map).
    + by vm_compute.
    + apply two_shards_consistent.
  - eexists. vm_compute. reflexivity.
  - apply shards_with_empty_consistent.
  - by vm_compute.
Defined.

(** C3, as stated, fails: the directory agrees with the map, its largest
    shard has 5 bytes, and the merged shard has 8. *)
Lemma merge_small_files_exceeds_max_size :
  consistent two_shards two_shards_map
  /\ Forall (fun f => doc_ids f <> []) two_shards
  /\ py_max (map st_size two_shards) = Ok 5
  /\ (exists m', merge_small_files two_shards two_shards_map
                 = Ok (m', [MkShard 0 8 [10; 11]]))
  /\ ~ 8 <= 5.
Proof.
  split_and!.
  - apply two_shards_consistent.
  - by repeat constructor.
  - reflexivity.
  - eexists. vm_compute. reflexivity.
  - lia.
Qed.

(** ** The progress consumer *)

Lemma broadcast_length {A} n (param p : list A) :
  broadcast n param = Ok p -> length p = n.
Proof.
  unfold broadcast.
  destruct (Nat.eqb_spec (length param) n) as [Hn|Hn]; simpl.
  - destruct (Nat.eqb_spec (length param) 1) as [H1|H1]; intros [= <-]; [|done].
    rewrite <- Hn, H1. simpl. rewrite length_app. simpl. lia.
  - destruct (Nat.eqb_spec (length param) 1) as [H1|H1]; simpl; [|discriminate].
    intros [= <-]. clear Hn. induction n as [|n IH]; simpl; [done|].
    rewrite length_app, IH. lia.
Qed.

Lemma Progress_init_lengths total desc unit n totals descs units :
  Progress_init total desc unit = Ok (n, totals, descs, units) ->
  length totals = n /\ length descs = n /\ length units = n.
Proof.
  unfold Progress_init.
  destruct (broadcast _ total) as [t| |] eqn:Ht; simpl; try discriminate.
  destruct (broadcast _ desc) as [d| |] eqn:Hd; simpl; try discriminate.
  destruct (broadcast _ unit) as [u| |] eqn:Hu; simpl; try discriminate.
  intros [= <- <- <- <-].
  by rewrite (broadcast_length _ _ _ Ht), (broadcast_length _ _ _ Hd),
    (broadcast_length _ _ _ Hu).
Qed.

Lemma drain_shorter evs : forall to_add d rest,
  drain evs to_add = (d, rest) -> d <> Stuck -> (length rest < length evs)%nat.
Proof.
  induction evs as [|e evs IH]; intros to_add d rest; simpl.
  - intros [= <- <-]. done.
  - destruct e as [v|].
    + destruct (v =? -1); [intros [= <- <-]; lia|].
      intros H Hd. specialize (IH _ _ _ H Hd). lia.
    + intros [= <- <-]. lia.
Qed.

Lemma drain_sentinel vs rest : forall to_add,
  -1 ∉ vs -> drain (map Got vs ++ Got (-1) :: rest) to_add = (Sentinel, rest).
Proof.
  induction vs as [|v vs IH]; intros to_add Hvs; simpl; [done|].
  destruct (Z.eqb_spec v (-1)) as [->|_]; [exfalso; apply Hvs; by left|].
  apply IH. intros Hin. apply Hvs. by right.
Qed.

Lemma drain_blocking evs : forall to_add d rest,
  Forall (fun e => e <> EmptyRaised) evs ->
  drain evs to_add = (d, rest) ->
  (d = Stuck \/ (d = Sentinel /\ Got (-1) ∈ evs))
  /\ Forall (fun e => e <> EmptyRaised) rest.
Proof.
  induction evs as [|e evs IH]; intros to_add d rest Hev; simpl.
  - intros [= <- <-]. split; [by left | constructor].
  - inversion Hev as [|? ? He Hev']; subst. destruct e as [v|]; [|done].
    destruct (Z.eqb_spec v (-1)) as [->|_].
    + intros [= <- <-]. split; [|done]. right. split; [done|]. by left.
    + intros H. destruct (IH _ _ _ Hev' H) as [[->|[-> Hin]] Hrest]; split; try done.
      * by left.
      * right. split; [done|]. by right.
Qed.

Section ConsumerFacts.

Variable total_num_lines : list Z.
Variable n : nat.
Hypothesis Htotals : length total_num_lines = n.

Lemma account_spec st i to_add :
  prog_wf n st -> (i < n)%nat ->
  exists st' b total,
    account total_num_lines st i to_add = Ok st'
    /\ prog st !! i = Some b /\ total_num_lines !! i = Some total
    /\ prog_wf n st' /\ queues st' = queues st
    /\ (to_add < 0 ->
        finished st' !! i = Some true
        /\ warnings st' = if bar_n b <? total then warnings st ++ [(bar_n b, total)]
                          else warnings st).
Proof.
  intros (Hp & Hf & Hq) Hi. unfold account.
  destruct (lookup_lt_is_Some_2 total_num_lines i) as [total Ht]; [lia|].
  destruct (lookup_lt_is_Some_2 (prog st) i) as [b Hb]; [lia|].
  rewrite (getitem_Ok _ _ _ Ht), (getitem_Ok _ _ _ Hb). simpl.
  destruct (Z.ltb_spec to_add 0) as [Hneg|Hpos]; simpl;
    destruct (_ >=? total); eexists _, b, total; (split; [reflexivity|]);
    unfold prog_wf; simpl; rewrite ?length_insert; split_and!; try done; try lia;
    intros _; (split; [|done]); rewrite ?list_lookup_insert_eq; rewrite ?length_insert;
    try done; lia.
Qed.

Lemma pending_insert st i evs rest :
  queues st !! i = Some evs -> (length rest < length evs)%nat ->
  (length (concat (<[i := rest]> (queues st))) < pending st)%nat.
Proof.
  unfold pending. generalize (queues st). intros qs. revert i.
  induction qs as [|q qs IH]; intros [|i] Hq Hlen; simpl in *; try discriminate.
  - injection Hq as ->. rewrite !length_app. lia.
  - specialize (IH _ Hq Hlen). rewrite !length_app. lia.
Qed.

Lemma poll_spec st i :
  prog_wf n st -> (i < n)%nat ->
  exists o, poll total_num_lines st i = Ok o
    /\ match o with
       | Returned st' => prog_wf n st' /\ (pending st' < pending st)%nat
       | Waiting _ => True
       end.
Proof.
  intros Hwf Hi. pose proof Hwf as (Hp & Hf & Hq). unfold poll.
  destruct (lookup_lt_is_Some_2 (queues st) i) as [evs Hevs]; [lia|].
  rewrite (getitem_Ok _ _ _ Hevs). simpl.
  destruct (drain evs 0) as [d rest] eqn:Hdrain.
  set (st1 := MkProg (prog st) (finished st) (<[i := rest]> (queues st)) (warnings st)).
  assert (Hwf1 : prog_wf n st1)
    by (unfold prog_wf, st1; simpl; by rewrite length_insert).
  assert (Hless : d <> Stuck -> (pending st1 < pending st)%nat).
  { intros Hd. apply (pending_insert st i evs rest Hevs). by eapply drain_shorter. }
  destruct d as [|to_add|].
  - destruct (account_spec st1 i (-1) Hwf1 Hi)
      as (st' & b & total & -> & _ & _ & Hwf' & Hq' & _). simpl.
    eexists. split; [reflexivity|]. split; [done|].
    unfold pending in *. rewrite Hq'. by apply Hless.
  - destruct (to_add =? 0).
    + eexists. split; [reflexivity|]. split; [done|]. by apply Hless.
    + destruct (account_spec st1 i to_add Hwf1 Hi)
        as (st' & b & total & -> & _ & _ & Hwf' & Hq' & _). simpl.
      eexists. split; [reflexivity|]. split; [done|].
      unfold pending in *. rewrite Hq'. by apply Hless.
  - eexists. split; [reflexivity|]. done.
Qed.

Lemma poll_all_spec indices : forall st,
  prog_wf n st -> Forall (fun i => (i < n)%nat) indices ->
  exists o, poll_all total_num_lines indices st = Ok o
    /\ match o with
       | Returned st' =>
           prog_wf n st' /\ (pending st' <= pending st)%nat
           /\ (indices <> [] -> (pending st' < pending st)%nat)
       | Waiting _ => True
       end.
Proof.
  induction indices as [|i indices IH]; intros st Hwf Hall; simpl.
  - eexists. split; [reflexivity|]. split_and!; try done.
  - apply Forall_cons in Hall as [Hi Hall'].
    destruct (poll_spec st i Hwf Hi) as (o & -> & Ho). simpl.
    destruct o as [st1|st1]; [|by eexists].
    destruct Ho as (Hwf1 & Hless).
    destruct (IH st1 Hwf1 Hall') as (o & -> & Ho).
    exists o. split; [done|]. destruct o as [st2|]; [|done].
    destruct Ho as (Hwf2 & Hle & _). split_and!; [done|lia|intros _; lia].
Qed.

(** The loop of the consumer returns or waits: it raises nothing and the
    model does not run out of fuel.  It returns only with every bar finished. *)
Lemma show_prog_loop_spec fuel : forall st,
  prog_wf n st -> (pending st < fuel)%nat ->
  exists o, show_prog_loop fuel total_num_lines st = Ok o
    /\ forall st', o = Returned st' ->
         prog_wf n st' /\ Forall (fun b => b = true) (finished st').
Proof.
  induction fuel as [|fuel IH]; intros st Hwf Hfuel; [lia|]. simpl.
  pose proof Hwf as (_ & Hf & Hq).
  destruct (poll_all_spec (seq 0 (length (queues st))) st Hwf) as (o & -> & Ho).
  { apply Forall_forall. intros i Hi. apply elem_of_seq in Hi. lia. }
  simpl. destruct o as [st'|st']; [|by eexists].
  destruct Ho as (Hwf' & Hle & Hlt).
  destruct (forallb (fun b => b) (finished st')) eqn:Hfin.
  - eexists. split; [reflexivity|]. intros ? [= <-]. split; [done|].
    apply Forall_forall. intros b Hb. rewrite forallb_forall in Hfin.
    apply Hfin. by apply list_elem_of_In.
  - apply IH; [done|].
    assert (length (queues st) <> 0)%nat.
    { intros Hz. destruct Hwf' as (_ & Hf' & _). rewrite Hz in Hq. rewrite <- Hq in Hf'.
      destruct (finished st'); [done | discriminate]. }
    assert (seq 0 (length (queues st)) <> []) by (by destruct (length (queues st))).
    specialize (Hlt ltac:(done)). lia.
Qed.

Lemma account_queues st i to_add st' :
  account total_num_lines st i to_add = Ok st' -> queues st' = queues st.
Proof.
  unfold account. destruct (getitem total_num_lines i) as [total| |]; simpl; try discriminate.
  destruct (getitem (prog st) i) as [b| |]; simpl; try discriminate.
  destruct (to_add <? 0); simpl; destruct (_ >=? total); by intros [= <-].
Qed.

(** With calls of [get()] that block, a pass over a queue ends only by the
    sentinel of that queue. *)
Lemma poll_blocking st i st' :
  Forall (Forall (fun e => e <> EmptyRaised)) (queues st) ->
  poll total_num_lines st i = Ok (Returned st') ->
  exists evs rest,
    queues st !! i = Some evs /\ Got (-1) ∈ evs
    /\ queues st' = <[i := rest]> (queues st)
    /\ Forall (fun e => e <> EmptyRaised) rest.
Proof.
  intros Hall. unfold poll, getitem.
  destruct (queues st !! i) as [evs|] eqn:Hevs; simpl; [|discriminate].
  destruct (drain evs 0) as [d rest] eqn:Hdrain.
  assert (Hev : Forall (fun e => e <> EmptyRaised) evs).
  { rewrite Forall_forall in Hall. apply Hall. by eapply list_elem_of_lookup_2. }
  destruct (drain_blocking _ _ _ _ Hev Hdrain) as [[->|[-> Hin]] Hrest]; [discriminate|].
  destruct (account _ _ _ _) as [st1| |] eqn:Hacc; simpl; try discriminate.
  intros [= <-]. apply account_queues in Hacc. simpl in Hacc.
  by exists evs, rest.
Qed.

Lemma poll_all_blocking indices : forall st st',
  NoDup indices ->
  Forall (Forall (fun e => e <> EmptyRaised)) (queues st) ->
  poll_all total_num_lines indices st = Ok (Returned st') ->
  forall i, i ∈ indices -> exists evs, queues st !! i = Some evs /\ Got (-1) ∈ evs.
Proof.
  induction indices as [|j indices IH]; intros st st' Hnd Hall; simpl.
  - intros _ i Hi. by apply elem_of_nil in Hi.
  - apply NoDup_cons in Hnd as [Hj Hnd].
    destruct (poll total_num_lines st j) as [[st1|st1]| |] eqn:Hpoll; simpl; try discriminate.
    destruct (poll_blocking _ _ _ Hall Hpoll) as (evs & rest & Hevs & Hin & Hq & Hrest).
    intros Hrun i Hi. apply elem_of_cons in Hi as [->|Hi]; [by exists evs|].
    assert (Hall1 : Forall (Forall (fun e => e <> EmptyRaised)) (queues st1)).
    { rewrite Hq. by apply Forall_insert. }
    destruct (IH st1 st' Hnd Hall1 Hrun i Hi) as (evs' & Hevs' & Hin').
    exists evs'. split; [|done]. rewrite Hq in Hevs'.
    rewrite list_lookup_insert_ne in Hevs'; [done|]. by intros ->.
Qed.

Lemma show_prog_loop_blocking fuel st st' :
  Forall (Forall (fun e => e <> EmptyRaised)) (queues st) ->
  show_prog_loop fuel total_num_lines st = Ok (Returned st') ->
  Forall (fun evs => Got (-1) ∈ evs) (queues st).
Proof.
  intros Hall. destruct fuel as [|fuel]; simpl; [discriminate|].
  destruct (poll_all _ _ _) as [[st1|st1]| |] eqn:Hpass; simpl; try discriminate.
  intros _. apply Forall_lookup. intros i evs Hevs.
  destruct (poll_all_blocking _ _ _ (NoDup_seq _ _) Hall Hpass i) as (evs' & Hevs' & Hin).
  - apply elem_of_seq. apply lookup_lt_Some in Hevs. lia.
  - by simplify_eq.
Qed.

(** The sentinel finishes the bar of its queue, with a warning when the
    counter is below the total. *)
Lemma poll_sentinel st i vs rest :
  prog_wf n st -> (i < n)%nat ->
  queues st !! i = Some (map Got vs ++ Got (-1) :: rest) -> -1 ∉ vs ->
  exists st' b total,
    poll total_num_lines st i = Ok (Returned st')
    /\ prog st !! i = Some b /\ total_num_lines !! i = Some total
    /\ finished st' !! i = Some true
    /\ warnings st' = if bar_n b <? total then warnings st ++ [(bar_n b, total)]
                      else warnings st.
Proof.
  intros Hwf Hi Hevs Hvs. unfold poll. rewrite (getitem_Ok _ _ _ Hevs). simpl.
  rewrite (drain_sentinel vs rest 0 Hvs).
  set (st1 := MkProg (prog st) (finished st) (<[i := rest]> (queues st)) (warnings st)).
  assert (Hwf1 : prog_wf n st1).
  { destruct Hwf as (? & ? & ?). unfold prog_wf, st1. simpl. by rewrite length_insert. }
  destruct (account_spec st1 i (-1) Hwf1 Hi)
    as (st' & b & total & -> & Hb & Ht & _ & _ & Hfin). simpl.
  destruct (Hfin ltac:(lia)) as [Hf Hw].
  by exists st', b, total.
Qed.

Lemma account_finished st i to_add st' :
  account total_num_lines st i to_add = Ok st' ->
  forall j, finished st !! j = Some true -> finished st' !! j = Some true.
Proof.
  unfold account. destruct (getitem total_num_lines i) as [total| |]; simpl; try discriminate.
  destruct (getitem (prog st) i) as [b| |]; simpl; try discriminate.
  assert (Hins : forall (l : list bool) j, l !! j = Some true -> <[i := true]> l !! j = Some true).
  { intros l j Hj. destruct (decide (i = j)) as [->|Hne].
    - rewrite list_lookup_insert_eq; [done|]. by apply lookup_lt_Some in Hj.
    - by rewrite list_lookup_insert_ne. }
  destruct (to_add <? 0); simpl; destruct (_ >=? total); intros [= <-] j Hj; simpl; auto.
Qed.

(** A queue on which [Progress.finish] has put the sentinel has its bar
    finished by a pass. *)
Lemma poll_after_finish st i vs :
  prog_wf n st -> (i < n)%nat ->
  queues st !! i = Some (map Got vs ++ [Got (-1)]) ->
  exists st', poll total_num_lines st i = Ok (Returned st')
    /\ prog_wf n st' /\ finished st' !! i = Some true
    /\ (forall j, finished st !! j = Some true -> finished st' !! j = Some true)
    /\ (forall j, j <> i -> queues st' !! j = queues st !! j).
Proof.
  intros Hwf Hi Hevs. unfold poll. rewrite (getitem_Ok _ _ _ Hevs). simpl.
  assert (Hdrain : exists rest, drain (map Got vs ++ [Got (-1)]) 0 = (Sentinel, rest)).
  { clear Hevs. generalize 0.
    induction vs as [|v vs IH]; intros t; simpl; [by eexists|].
    destruct (v =? -1); [by eexists | apply IH]. }
  destruct Hdrain as [rest ->].
  set (st1 := MkProg (prog st) (finished st) (<[i := rest]> (queues st)) (warnings st)).
  assert (Hwf1 : prog_wf n st1).
  { destruct Hwf as (? & ? & ?). unfold prog_wf, st1. simpl. by rewrite length_insert. }
  destruct (account_spec st1 i (-1) Hwf1 Hi)
    as (st' & b & total & Hacc & _ & _ & Hwf' & Hq' & Hfin).
  rewrite Hacc. simpl. exists st'. split; [done|]. split; [done|].
  split; [by apply Hfin|]. split.
  - intros j Hj. by apply (account_finished _ _ _ _ Hacc).
  - intros j Hj. rewrite Hq'. simpl. by rewrite list_lookup_insert_ne.
Qed.

Lemma poll_all_after_finish indices : forall st,
  prog_wf n st -> NoDup indices -> Forall (fun i => (i < n)%nat) indices ->
  (forall i, i ∈ indices -> exists vs, queues st !! i = Some (map Got vs ++ [Got (-1)])) ->
  exists st', poll_all total_num_lines indices st = Ok (Returned st')
    /\ prog_wf n st'
    /\ (forall i, i ∈ indices -> finished st' !! i = Some true)
    /\ (forall j, finished st !! j = Some true -> finished st' !! j = Some true).
Proof.
  induction indices as [|i indices IH]; intros st Hwf Hnd Hall Hq; simpl.
  - exists st. split_and!; try done. intros i Hi. by apply elem_of_nil in Hi.
  - apply NoDup_cons in Hnd as [Hi Hnd]. apply Forall_cons in Hall as [Hin Hall].
    destruct (Hq i ltac:(by left)) as [vs Hvs].
    destruct (poll_after_finish st i vs Hwf Hin Hvs)
      as (st1 & -> & Hwf1 & Hfin & Hmono & Hother).
    simpl. destruct (IH st1 Hwf1 Hnd Hall) as (st' & -> & Hwf' & Hfin' & Hmono').
    { intros j Hj. destruct (Hq j ltac:(by right)) as [vs' Hvs']. exists vs'.
      rewrite Hother; [done|]. by intros ->. }
    exists st'. split_and!; try done.
    + intros j Hj. apply elem_of_cons in Hj as [->|Hj]; [by apply Hmono'|by apply Hfin'].
    + intros j Hj. by apply Hmono', Hmono.
Qed.

End ConsumerFacts.

(** Once [Progress.finish] has put the sentinel on every queue, the consumer
    returns, whatever the producers have put before. *)
Lemma show_prog_returns_after_finish (total : list Z) (desc unit : list str) (n : nat)
    (totals : list Z) (descs units : list str) (puts : list (list Z)) :
  Progress_init total desc unit = Ok (n, totals, descs, units) ->
  length puts = n ->
  exists st, show_prog (Progress_finish puts) totals descs units = Ok (Returned st).
Proof.
  intros Hinit Hlen.
  destruct (Progress_init_lengths _ _ _ _ _ _ _ Hinit) as (Ht & Hd & Hu).
  unfold show_prog. set (q := Progress_finish puts).
  assert (Hq : length q = n) by (unfold q, Progress_finish; by rewrite length_map).
  set (st0 := MkProg _ _ q []).
  assert (Hwf : prog_wf n st0).
  { unfold prog_wf, st0, zip3. simpl.
    rewrite length_map, !length_zip_with, length_replicate. lia. }
  cbn [show_prog_loop].
  destruct (poll_all_after_finish totals n Ht (seq 0 (length (queues st0))) st0 Hwf)
    as (st' & -> & Hwf' & Hfin & _).
  - apply NoDup_seq.
  - apply Forall_forall. intros i Hi. apply elem_of_seq in Hi. simpl in Hi. lia.
  - intros i Hi. apply elem_of_seq in Hi. simpl in Hi.
    destruct (lookup_lt_is_Some_2 puts i ltac:(lia)) as [vs Hvs]. exists vs.
    unfold st0, q, Progress_finish. simpl.
    change (map (fun vs => map Got vs ++ [Got (-1)]) puts)
      with ((fun vs => map Got vs ++ [Got (-1)]) <$> puts).
    by rewrite list_lookup_fmap, Hvs.
  - simpl. exists st'.
    assert (Hall : forallb (fun b => b) (finished st') = true).
    { apply forallb_forall. intros b Hb. apply list_elem_of_In in Hb.
      apply list_elem_of_lookup in Hb as [i Hi].
      rewrite Hfin in Hi; [by injection Hi|].
      apply elem_of_seq. apply lookup_lt_Some in Hi.
      destruct Hwf' as (_ & Hf & _). simpl. lia. }
    by rewrite Hall.
Qed.

(** C9. For the lists that [Progress.__init__] hands to the consumer and one
    queue per bar: the consumer raises nothing, whatever the bars have
    counted; a queue that delivers -1 has its bar finished at once, with a
    warning exactly when the counter is below the total; the consumer
    returns only with every bar finished; and with calls of [get()] that
    block, as they are made, only after every queue has delivered -1. *)
Theorem progress_consumer_finalizes (total : list Z) (desc unit : list str) (n : nat)
    (totals : list Z) (descs units : list str) (q : list (list get_event)) :
  Progress_init total desc unit = Ok (n, totals, descs, units) ->
  length q = n ->
  (exists o, show_prog q totals descs units = Ok o)
  /\ (forall st, show_prog q totals descs units = Ok (Returned st) ->
        length (finished st) = n /\ Forall (fun b => b = true) (finished st))
  /\ (Forall (Forall (fun e => e <> EmptyRaised)) q ->
      forall st, show_prog q totals descs units = Ok (Returned st) ->
      Forall (fun evs => Got (-1) ∈ evs) q)
  /\ (forall st i vs rest,
        prog_wf n st -> (i < n)%nat ->
        queues st !! i = Some (map Got vs ++ Got (-1) :: rest) -> -1 ∉ vs ->
        exists st' b t,
          poll totals st i = Ok (Returned st')
          /\ prog st !! i = Some b /\ totals !! i = Some t
          /\ finished st' !! i = Some true
          /\ warnings st' = if bar_n b <? t then warnings st ++ [(bar_n b, t)]
                            else warnings st).
Proof.
  intros Hinit Hq.
  destruct (Progress_init_lengths _ _ _ _ _ _ _ Hinit) as (Ht & Hd & Hu).
  unfold show_prog.
  set (st0 := MkProg _ _ q []).
  assert (Hwf : prog_wf n st0).
  { unfold prog_wf, st0, zip3. simpl.
    rewrite length_map, !length_zip_with, length_replicate. lia. }
  destruct (show_prog_loop_spec totals n Ht (S (length (concat q))) st0 Hwf)
    as (o & Hrun & Hret); [unfold pending, st0; simpl; lia|].
  split_and!.
  - by exists o.
  - intros st Hst. rewrite Hrun in Hst. injection Hst as ->.
    destruct (Hret st eq_refl) as ((_ & Hf & _) & Hall). by split.
  - intros Hblock st Hst.
    exact (show_prog_loop_blocking totals n Ht _ st0 st Hblock Hst).
  - intros st i vs rest. by apply poll_sentinel.
Qed.

(** Two bars with the totals 5 and 7: both are finished by their sentinel.
    What was read before the sentinel in the same pass is not counted, so
    the counters are 0 then and a warning is logged for each bar. *)
Lemma progress_consumer_finalizes_witness :
  exists st,
    show_prog two_queues [5; 7] [lit "Tokenizing"; lit "Tokenizing"] [lit "line"; lit "line"]
    = Ok (Returned st)
    /\ (length (finished st) = 2%nat /\ Forall (fun b => b = true) (finished st))
    /\ Forall (fun evs => Got (-1) ∈ evs) two_queues
    /\ warnings st = [(0, 5); (0, 7)].
Proof.
  pose proof (progress_consumer_finalizes [5; 7] [lit "Tokenizing"] [lit "line"] 2 [5; 7]
                [lit "Tokenizing"; lit "Tokenizing"] [lit "line"; lit "line"] two_queues
                eq_refl eq_refl) as (_ & Hfin & Hblock & _).
  eexists. split; [by vm_compute|].
  split; [eapply Hfin; by vm_compute|].
  split; [|reflexivity].
  eapply Hblock; [|by vm_compute].
  unfold two_queues, Progress_finish. simpl. repeat constructor; discriminate.
Defined.

(** ** Europarl *)





Section EuroparlFacts.

Variable WC : N -> bool.
Variable Cache : Type.
Variable no_cache : Cache.
Variable remove_untokenizable_characters_from_text : str -> Cache -> str * Cache * Z.
Variable remove_suspicious_lines_and_rearrange_quotes_and_spaces :
  str -> bool -> bool -> bool -> str * Z.
Variable SPACE_DUP_sub : str -> str.
Variable NEW_LINE_DUP_sub : str -> str.
Variable BROKEN_PARENTHESES_WITH_CONTENT_sub : str -> str.
Variable normalize_punctuation : str -> str -> str.
Variable SPACING_CHARACTERS_TO_REPLACE_sub : str -> str.
Variable EUROPARL_LINE_match : str -> option (str * str).
Variable too_many_digits : str -> bool.
Variable EUROPARL_LSTRIP_sub : str -> str.
Variable py_repr : str -> str.

Let kept := kept_line WC EUROPARL_LINE_match too_many_digits.
Let step := europarl_step WC EUROPARL_LINE_match too_many_digits EUROPARL_LSTRIP_sub py_repr.





End EuroparlFacts.


(** * Further properties *)

(** ** Dealing the items of a list to jobs *)

Lemma slice_bound_inside len i : 0 <= i <= len -> slice_bound len i = Z.to_nat i.
Proof.
  intros H. unfold slice_bound.
  destruct (Z.ltb_spec i 0); [lia|]. f_equal. lia.
Qed.

Lemma py_slice_inside {A} (l : list A) a b :
  0 <= a <= b -> b <= zlen l ->
  py_slice l a b = take (Z.to_nat (b - a)) (drop (Z.to_nat a) l).
Proof.
  intros Ha Hb. unfold py_slice.
  rewrite !slice_bound_inside by lia. f_equal. lia.
Qed.

Lemma chunks_prefix {A} (l : list A) size (k : nat) :
  0 <= size -> size * Z.of_nat k <= zlen l ->
  concat (map (fun i => py_slice l (size * i) (size * (i + 1))) (seqZ 0 (Z.of_nat k)))
  = take (Z.to_nat (size * Z.of_nat k)) l.
Proof.
  intros Hsize. induction k as [|k IH]; intros Hk.
  - rewrite Z.mul_0_r. reflexivity.
  - replace (Z.of_nat (S k)) with (Z.of_nat k + 1) in * by lia.
    rewrite seqZ_app by lia. rewrite map_app, concat_app, IH by nia.
    rewrite (seqZ_cons _ 1) by lia. rewrite seqZ_nil by lia. simpl.
    rewrite app_nil_r, py_slice_inside by nia.
    replace (0 + Z.of_nat k) with (Z.of_nat k) by lia.
    replace (Z.to_nat (size * (Z.of_nat k + 1)))
      with (Z.to_nat (size * Z.of_nat k) + Z.to_nat size)%nat by nia.
    replace (Z.to_nat (size * (Z.of_nat k + 1) - size * Z.of_nat k))
      with (Z.to_nat size) by nia.
    by rewrite <- take_take_drop.
Qed.

Lemma chunks_spec {A} (l : list A) size n :
  0 <= size -> 1 <= n -> size * (n - 1) <= zlen l ->
  concat (chunks l size n) = l
  /\ zlen (chunks l size n) = n
  /\ (forall i c, chunks l size n !! i = Some c -> Z.of_nat i < n - 1 -> zlen c = size)
  /\ (forall c, last (chunks l size n) = Some c -> zlen c = zlen l - size * (n - 1))
  /\ (size * n <= zlen l -> Forall (fun c => size <= zlen c) (chunks l size n)).
Proof.
  intros Hsize Hn Hlen. unfold chunks, py_range.
  assert (H0 : 0 <= size * (n - 1)) by nia.
  replace (n - 1 - 0) with (Z.of_nat (Z.to_nat (n - 1))) by lia.
  split; [|split; [|split; [|split]]]; cycle 4.
  { intros Hall. apply Forall_app. split.
    - apply Forall_fmap, Forall_seqZ. intros i Hi. simpl.
      rewrite py_slice_inside by nia. unfold zlen.
      rewrite length_take, length_drop. unfold zlen in Hlen, Hall. nia.
    - apply Forall_singleton. unfold py_slice_from.
      rewrite slice_bound_inside by lia. unfold zlen. rewrite length_drop.
      unfold zlen in Hlen, Hall. nia. }
  - rewrite concat_app, chunks_prefix by (rewrite ?Z2Nat.id; lia). simpl. rewrite app_nil_r.
    unfold py_slice_from. rewrite slice_bound_inside by lia.
    replace (Z.of_nat (Z.to_nat (n - 1))) with (n - 1) by lia.
    apply take_drop.
  - unfold zlen. rewrite length_app, length_map, length_seqZ. simpl. lia.
  - intros i c Hi Hlt.
    rewrite lookup_app_l in Hi by (rewrite length_map, length_seqZ; lia).
    rewrite list_lookup_fmap in Hi.
    rewrite lookup_seqZ_lt in Hi by lia. simpl in Hi. injection Hi as <-.
    rewrite py_slice_inside by nia. unfold zlen.
    rewrite length_take, length_drop. unfold zlen in Hlen. nia.
  - intros c. rewrite last_snoc. intros [= <-].
    unfold py_slice_from. rewrite slice_bound_inside by lia.
    unfold zlen. rewrite length_drop. unfold zlen in Hlen. lia.
Qed.

(** X1. [remove_parentheses_parallel] and [estimate_number_of_segments_parallel]
    deal the files to the jobs so that, for a non-negative [num_jobs], either
    every file goes to exactly one job, in order, there are
    [min(num_jobs, len(files))] jobs and each of them gets at least
    [len(files) // num_jobs] files, hence at least one; or, when there is no
    file or [num_jobs] is 0, the division raises [ZeroDivisionError]. *)
Theorem distributed_files_spec {A} (files : list A) (num_jobs : Z) :
  0 <= num_jobs ->
  match distributed_files files num_jobs with
  | Ok dist =>
      files <> [] /\ 0 < num_jobs
      /\ concat dist = files
      /\ zlen dist = Z.min num_jobs (zlen files)
      /\ Forall (fun job => zlen files / zlen dist <= zlen job /\ job <> []) dist
  | Raise e => e = ZeroDivisionError /\ (files = [] \/ num_jobs = 0)
  | OutOfFuel => False
  end.
Proof.
  intros Hjobs. unfold distributed_files, floordiv.
  set (n := Z.min num_jobs (zlen files)).
  assert (Hlen : 0 <= zlen files) by (unfold zlen; lia).
  destruct (Z.eqb_spec n 0) as [Hn|Hn]; simpl.
  - split; [done|]. destruct files; [by left|]. right. unfold zlen in *. simpl in *. lia.
  - assert (Hn1 : 1 <= n) by lia.
    assert (Hle : n <= zlen files) by lia.
    assert (Hdiv : 1 <= zlen files / n) by (apply Z.div_le_lower_bound; lia).
    assert (Hmul : zlen files / n * n <= zlen files).
    { rewrite Z.mul_comm. apply Z.mul_div_le. lia. }
    set (q := zlen files / n) in *.
    destruct (chunks_spec files q n) as (Hc & Hl & _ & _ & Hall); [lia|lia|nia|].
    split; [intros ->; unfold zlen in *; simpl in *; lia|].
    split; [lia|]. split; [done|]. split; [done|].
    rewrite Hl. eapply Forall_impl; [apply Hall; lia|].
    simpl. intros job Hjob. split; [done|]. intros ->. unfold zlen in Hjob. simpl in Hjob. lia.
Qed.

Lemma distributed_files_spec_witness :
  distributed_files [1; 2; 3; 4; 5; 6; 7] 3 = Ok [[1; 2]; [3; 4]; [5; 6; 7]]
  /\ match distributed_files [1; 2; 3; 4; 5; 6; 7] 3 with
     | Ok dist =>
         [1; 2; 3; 4; 5; 6; 7] <> [] /\ 0 < 3
         /\ concat dist = [1; 2; 3; 4; 5; 6; 7]
         /\ zlen dist = Z.min 3 (zlen [1; 2; 3; 4; 5; 6; 7])
         /\ Forall (fun job => zlen [1; 2; 3; 4; 5; 6; 7] / zlen dist <= zlen job /\ job <> [])
              dist
     | Raise e => e = ZeroDivisionError /\ ([1; 2; 3; 4; 5; 6; 7] = [] \/ 3 = 0)
     | OutOfFuel => False
     end.
Proof.
  split; [reflexivity|]. apply (distributed_files_spec [1; 2; 3; 4; 5; 6; 7] 3). lia.
Defined.

(** ** Lengths of the dev and test segments *)


Lemma cycle_cons lo len start n :
  0 <= n -> cycle lo len start (1 + n) = (lo + start mod len) :: cycle lo len (start + 1) n.
Proof.
  intros Hn. unfold cycle. rewrite seqZ_cons by lia. simpl.
  rewrite Z.add_0_r. f_equal.
  replace (Z.pred (1 + n)) with n by lia.
  change (Z.succ 0) with (1 + 0). rewrite <- fmap_add_seqZ.
  rewrite <- list_fmap_compose. apply list_fmap_ext. intros _ j _. simpl.
  do 2 f_equal. lia.
Qed.

Lemma cycle_app lo len start a b :
  0 <= a -> 0 <= b ->
  cycle lo len start (a + b) = cycle lo len start a ++ cycle lo len (start + a) b.
Proof.
  intros Ha Hb. unfold cycle. rewrite seqZ_app by lia. rewrite map_app. f_equal.
  replace (0 + a) with (a + 0) by lia.
  rewrite <- (fmap_add_seqZ a 0).
  rewrite <- list_fmap_compose. apply list_fmap_ext. intros _ j _. simpl.
  do 2 f_equal. lia.
Qed.

Lemma segment_length_step_eq lo len acc s x :
  0 < len ->
  segment_length_step (seqZ lo len) (acc, s mod len) x
  = Ok (acc ++ [lo + s mod len], (s + 1) mod len).
Proof.
  intros Hlen. unfold segment_length_step.
  assert (Hs : 0 <= s mod len < len) by (apply Z.mod_pos_bound; lia).
  unfold getitem. rewrite lookup_seqZ_lt by lia. cbn [mbind result_bind].
  unfold pymod, zlen. rewrite length_seqZ.
  destruct (Z.eqb_spec (Z.of_nat (Z.to_nat len)) 0) as [|_]; [lia|].
  cbn [mbind result_bind]. rewrite !Z2Nat.id by lia.
  by rewrite Zplus_mod_idemp_l.
Qed.

Lemma segment_lengths_step_eq all_lengths lists idx ns :
  segment_lengths_step all_lengths (lists, idx) ns
  = '(lengths, idx') ← for_each (segment_length_step all_lengths) (py_range 0 ns) ([], idx);
    Ok (lists ++ [lengths], idx').
Proof. reflexivity. Qed.

Lemma segment_length_loop lo len (l : list Z) : forall acc s,
  0 < len ->
  for_each (segment_length_step (seqZ lo len)) l (acc, s mod len)
  = Ok (acc ++ cycle lo len s (zlen l), (s + zlen l) mod len).
Proof.
  induction l as [|x l IH]; intros acc s Hlen.
  - replace (cycle lo len s (zlen (@nil Z))) with (@nil Z) by reflexivity.
    simpl. by rewrite app_nil_r, Z.add_0_r.
  - cbn [for_each]. rewrite segment_length_step_eq by done.
    cbn [mbind result_bind]. rewrite IH by lia.
    replace (zlen (x :: l)) with (1 + zlen l) by (unfold zlen; simpl; lia).
    rewrite cycle_cons by (unfold zlen; lia).
    rewrite <- app_assoc. simpl.
    by replace (s + 1 + zlen l) with (s + (1 + zlen l)) by lia.
Qed.

Lemma sumZ_max_nonneg (l : list Z) : 0 <= sumZ (map (Z.max 0) l).
Proof.
  unfold sumZ. induction l as [|a l IH]; cbn [map fold_right]; [lia|].
  revert IH. generalize (fold_right Z.add 0 (map (Z.max 0) l)). lia.
Qed.

Lemma segment_lengths_loop lo len (nsbf : list Z) : forall lists s,
  0 < len ->
  exists lists',
    for_each (segment_lengths_step (seqZ lo len)) nsbf (lists, s mod len)
    = Ok (lists ++ lists', (s + sumZ (map (Z.max 0) nsbf)) mod len)
    /\ Forall2 (fun l ns => zlen l = Z.max 0 ns) lists' nsbf
    /\ concat lists' = cycle lo len s (sumZ (map (Z.max 0) nsbf)).
Proof.
  induction nsbf as [|ns nsbf IH]; intros lists s Hlen.
  - exists []. simpl. rewrite app_nil_r, Z.add_0_r. split; [done|]. split; [constructor|].
    reflexivity.
  - cbn [for_each]. rewrite segment_lengths_step_eq.
    rewrite segment_length_loop by done. cbn [mbind result_bind app].
    assert (Hns : zlen (py_range 0 ns) = Z.max 0 ns).
    { unfold zlen, py_range. rewrite length_seqZ. lia. }
    rewrite Hns.
    destruct (IH (lists ++ [cycle lo len s (Z.max 0 ns)]) (s + Z.max 0 ns) Hlen)
      as (lists' & -> & Hall & Hcat).
    exists (cycle lo len s (Z.max 0 ns) :: lists'). split; [|split].
    + rewrite <- app_assoc. simpl.
      by replace (s + Z.max 0 ns + sumZ (map (Z.max 0) nsbf))
        with (s + (Z.max 0 ns + sumZ (map (Z.max 0) nsbf))) by lia.
    + constructor; [|done]. unfold cycle, zlen. rewrite length_map, length_seqZ. lia.
    + simpl. rewrite Hcat. rewrite <- cycle_app; [done|lia|apply sumZ_max_nonneg].
Qed.

Lemma segment_lengths_loop_none all_lengths (nsbf : list Z) : forall lists idx,
  Forall (fun ns => ns <= 0) nsbf ->
  for_each (segment_lengths_step all_lengths) nsbf (lists, idx)
  = Ok (lists ++ map (fun _ => []) nsbf, idx).
Proof.
  induction nsbf as [|ns nsbf IH]; intros lists idx Hall.
  - simpl. by rewrite app_nil_r.
  - apply Forall_cons in Hall as [Hns Hall]. cbn [for_each].
    rewrite segment_lengths_step_eq. unfold py_range. rewrite seqZ_nil by lia.
    cbn [for_each mbind result_bind]. rewrite IH by done.
    by rewrite <- app_assoc.
Qed.

Lemma segment_lengths_loop_empty_range (nsbf : list Z) : forall lists idx,
  Exists (fun ns => 0 < ns) nsbf ->
  for_each (segment_lengths_step []) nsbf (lists, idx) = Raise IndexError.
Proof.
  induction nsbf as [|ns nsbf IH]; intros lists idx Hex.
  - by apply Exists_nil in Hex.
  - cbn [for_each]. rewrite segment_lengths_step_eq. unfold py_range.
    destruct (Z.le_gt_cases ns 0) as [Hns|Hns].
    + rewrite seqZ_nil by lia. cbn [for_each mbind result_bind].
      apply IH. apply Exists_cons in Hex as [?|?]; [lia|done].
    + rewrite seqZ_cons by lia. reflexivity.
Qed.

(** X2. [get_segment_lengths_by_files] gives file [i] exactly
    [num_segments_by_files[i]] lengths (none for a number that is not
    positive), and the lengths of all the files, read in order, go round
    [range(lo, hi)]: the [k]-th of them is [lo + k % (hi - lo)], so that each
    one lies in the range.  It raises only when the range is empty and some
    file is to give a segment, and then an [IndexError]. *)
Theorem get_segment_lengths_by_files_spec (num_segments_by_files : list Z) (lo hi : Z) :
  match get_segment_lengths_by_files num_segments_by_files (lo, hi) with
  | Ok segment_lengths_by_files =>
      Forall2 (fun lengths ns => zlen lengths = Z.max 0 ns)
        segment_lengths_by_files num_segments_by_files
      /\ forall (k : nat) x,
           concat segment_lengths_by_files !! k = Some x ->
           x = lo + Z.of_nat k mod (hi - lo) /\ lo <= x < hi
  | Raise e => e = IndexError /\ hi <= lo /\ Exists (fun ns => 0 < ns) num_segments_by_files
  | OutOfFuel => False
  end.
Proof.
  unfold get_segment_lengths_by_files, py_range. simpl.
  destruct (Z.lt_ge_cases lo hi) as [Hlt|Hge].
  - destruct (segment_lengths_loop lo (hi - lo) num_segments_by_files [] 0 ltac:(lia))
      as (lists & Heq & Hall & Hcat).
    rewrite Z.mod_0_l in Heq by lia. rewrite Heq. simpl. split; [done|].
    intros k x. rewrite Hcat. unfold cycle. rewrite list_lookup_fmap.
    destruct (seqZ _ _ !! k) as [j|] eqn:Hj; [|done]. simpl. intros [= <-].
    apply lookup_seqZ in Hj as [-> _]. rewrite !Z.add_0_l.
    pose proof (Z.mod_pos_bound (Z.of_nat k) (hi - lo) ltac:(lia)). split; [done|lia].
  - rewrite seqZ_nil by lia.
    destruct (decide (Exists (fun ns => 0 < ns) num_segments_by_files)) as [Hex|Hno].
    + rewrite segment_lengths_loop_empty_range by done. by simpl.
    + assert (Hall : Forall (fun ns => ns <= 0) num_segments_by_files).
      { apply Forall_forall. intros ns Hns. destruct (Z.le_gt_cases ns 0); [done|].
        exfalso. apply Hno, Exists_exists. eauto. }
      rewrite segment_lengths_loop_none by done.
      simpl. clear Hno. split.
      * induction Hall as [|ns l Hns Hall IH]; simpl; constructor; [|done].
        unfold zlen. simpl. lia.
      * intros k x Hk. exfalso. revert k Hk.
        induction Hall as [|ns l Hns Hall IH]; intros k; simpl; [done|apply IH].
Qed.

(** ** Where the dev and test segments start *)

Section SegmentLocationFacts.

Variable WC : N -> bool.

Lemma count_words_nonneg (s : str) : 0 <= count_words WC s.
Proof. unfold count_words, zlen. lia. Qed.

Lemma sumZ_rev (l : list Z) : sumZ (rev l) = sumZ l.
Proof.
  induction l as [|x l IH]; [done|]. simpl. rewrite sumZ_app, IH. simpl. lia.
Qed.

Lemma sumZ_words_nonneg (l : list str) : 0 <= sumZ (map (count_words WC) l).
Proof.
  induction l as [|x l IH]; simpl; [lia|]. pose proof (count_words_nonneg x). lia.
Qed.

Lemma sumZ_words_drop (l : list str) : forall a b : nat,
  (a <= b)%nat ->
  sumZ (map (count_words WC) (drop b l)) <= sumZ (map (count_words WC) (drop a l)).
Proof.
  induction l as [|x l IH]; intros a b Hab.
  - by rewrite !drop_nil.
  - destruct b as [|b]; [by replace a with 0%nat by lia|].
    destruct a as [|a]; simpl.
    + specialize (IH 0%nat b ltac:(lia)). rewrite drop_0 in IH.
      pose proof (count_words_nonneg x). lia.
    + apply IH. lia.
Qed.

(** The loop of [get_max_allowed_segments_for_text] and
    [generate_segment_location] takes some of the last sentences and adds up
    their words. *)
Lemma max_allowed_loop_spec (l : list str) : forall i w L,
  exists k : nat,
    (k <= length l)%nat
    /\ max_allowed_loop WC l i w L
       = (i - Z.of_nat k, w + sumZ (map (count_words WC) (take k l))).
Proof.
  induction l as [|s l IH]; intros i w L.
  - exists 0%nat. simpl. split; [lia|]. f_equal; lia.
  - simpl. destruct (w <? L).
    + destruct (IH (i - 1) (w + count_words WC s) L) as (k & Hk & ->).
      exists (S k). simpl. split; [lia|]. f_equal; lia.
    + exists 0%nat. simpl. split; [lia|]. f_equal; lia.
Qed.

Lemma max_allowed_loop_words (sentences : list str) (L i' w' : Z) :
  max_allowed_loop WC (rev sentences) (zlen sentences - 1) 0 L = (i', w') ->
  -1 <= i' < zlen sentences
  /\ w' = sumZ (map (count_words WC) (drop (Z.to_nat (i' + 1)) sentences)).
Proof.
  destruct (max_allowed_loop_spec (rev sentences) (zlen sentences - 1) 0 L)
    as (k & Hk & ->).
  rewrite length_rev in Hk. intros [= <- <-]. unfold zlen. split; [lia|].
  rewrite firstn_rev, map_rev, sumZ_rev, Z.add_0_l.
  replace (Z.to_nat (Z.of_nat (length sentences) - 1 - Z.of_nat k + 1))
    with (length sentences - k)%nat by lia.
  reflexivity.
Qed.

(** X3. The budget and the sampler agree.  For a positive [num_segments],
    [generate_segment_location] on the lines of a text raises [ValueError]
    when [num_segments] exceeds [get_max_allowed_segments_for_text] of that
    text; otherwise it returns the drawn sentence numbers in ascending
    order, each of them below the budget and followed by sentences that
    hold at least [max_length] words. *)
Theorem generate_segment_location_within_budget (text : str) (max_length num_segments : Z)
    (file : str) (drawn : list Z) :
  0 < num_segments ->
  let budget := get_max_allowed_segments_for_text WC text max_length in
  let sentences := splitlines text in
  (budget < num_segments ->
   exists msg,
     generate_segment_location WC sentences max_length num_segments file drawn
     = Raise (ValueError msg))
  /\ (num_segments <= budget -> drawn_from_range budget num_segments drawn ->
      exists start_sentences,
        generate_segment_location WC sentences max_length num_segments file drawn
        = Ok start_sentences
        /\ Sorted Z.le start_sentences
        /\ start_sentences ≡ₚ drawn
        /\ Forall (fun s => 0 <= s < budget /\ s < zlen sentences
                            /\ max_length <= words_after WC sentences s) start_sentences).
Proof.
  intros Hpos budget sentences. subst budget.
  unfold get_max_allowed_segments_for_text, generate_segment_location.
  fold sentences.
  destruct (Z.ltb_spec num_segments 0) as [|_]; [lia|].
  destruct (Z.eqb_spec num_segments 0) as [|_]; [lia|].
  destruct (max_allowed_loop WC (rev sentences) (zlen sentences - 1) 0 max_length)
    as [sent_i num_words] eqn:Hloop.
  apply max_allowed_loop_words in Hloop as [Hrange Hwords].
  destruct (Z.ltb_spec num_words max_length) as [Hfew|Henough].
  - split; [intros _; by eexists|]. lia.
  - destruct (Z.gtb_spec num_segments (sent_i + 1)) as [Hgt|Hle].
    + split; [intros _; by eexists|]. lia.
    + split; [lia|]. intros _ (Hlen & Hnodup & Hin).
      unfold random_sample, py_range.
      assert (Hpop : zlen (seqZ 0 (sent_i + 1 - 0)) = sent_i + 1).
      { unfold zlen. rewrite length_seqZ. lia. }
      rewrite Hpop.
      destruct (Z.ltb_spec num_segments 0) as [|_]; [lia|].
      destruct (Z.ltb_spec (sent_i + 1) num_segments) as [|_]; [lia|].
      cbn [orb mbind result_bind].
      pose proof (merge_sort_Permutation Z.le drawn) as Hperm.
      assert (Hl : zlen (merge_sort Z.le drawn) = num_segments).
      { unfold zlen in *. by rewrite (Permutation_length Hperm). }
      rewrite Hl, Z.eqb_refl. cbn [py_assert mbind result_bind].
      eexists. split; [reflexivity|]. split; [apply Sorted_merge_sort; apply _|].
      split; [done|].
      rewrite Hperm. eapply Forall_impl; [exact Hin|]. simpl. intros s Hs.
      split; [done|]. split; [lia|].
      unfold words_after. etrans; [exact Henough|]. rewrite Hwords.
      apply sumZ_words_drop. lia.
Qed.

End SegmentLocationFacts.

Lemma generate_segment_location_within_budget_witness :
  let text := lit "a b c" ++ [NL] ++ lit "d e" ++ [NL] ++ lit "f g h" ++ [NL] ++ lit "i j k" in
  get_max_allowed_segments_for_text ascii_word_char text 3 = 3
  /\ generate_segment_location ascii_word_char (splitlines text) 3 2 (lit "0.xml") [2; 0]
     = Ok [0; 2]
  /\ exists msg,
       generate_segment_location ascii_word_char (splitlines text) 3 4 (lit "0.xml") [2; 0]
       = Raise (ValueError msg).
Proof.
  intros text. split; [reflexivity|]. split; [reflexivity|].
  apply (generate_segment_location_within_budget ascii_word_char text 3 4 (lit "0.xml")
           [2; 0]); [lia|]. vm_compute. reflexivity.
Defined.

(** ** Cutting the training segments of a shard *)

(** A loop whose body cannot fail under an invariant returns. *)
Lemma for_each_total {S A} (P : S -> Prop) (body : S -> A -> result S) l :
  (forall s x, P s -> exists s', body s x = Ok s' /\ P s') ->
  forall s0, P s0 -> exists s, for_each body l s0 = Ok s /\ P s.
Proof.
  intros Hstep. induction l as [|x l IH]; intros s0 HP; simpl.
  - by exists s0.
  - destruct (Hstep s0 x HP) as (s1 & -> & HP1). simpl. by apply IH.
Qed.

Section OnePassFacts.

Variable WC : N -> bool.
Variable samples : nat -> list Z.
Variable num_words_in_segments : list Z.

Hypothesis samples_permute : forall n, samples n ≡ₚ num_words_in_segments.
Hypothesis some_length : num_words_in_segments <> [].


Lemma samples_length n : length (samples n) = length num_words_in_segments.
Proof. apply Permutation_length, samples_permute. Qed.

Lemma some_length_pos : (0 < length num_words_in_segments)%nat.
Proof. destruct num_words_in_segments; [by destruct some_length|simpl; lia]. Qed.

Lemma cut_step_total text0 st m :
  one_pass_inv st ->
  exists st', cut_step WC samples text0 st m = Ok st' /\ one_pass_inv st'.
Proof.
  intros (Hp & Hcount & Hputs & Hsum & Hreport). unfold cut_step.
  destruct (cs_shift st >? 0); [by eexists|].
  unfold getitem. destruct (lookup_lt_is_Some_2 _ _ Hp) as [len ->].
  cbn [mbind result_bind].
  destruct (_ =? len); [|by eexists].
  pose proof some_length_pos as Hpos.
  set (p_i := ((cs_p_i st + 1) mod length (cs_permutation st))%nat).
  assert (Hp_i : (p_i < length (cs_permutation st))%nat)
    by (apply Nat.mod_upper_bound; lia).
  unfold REPORT_PROGRESS_PERIOD in *.
  destruct (p_i =? 0)%nat eqn:Hzero;
    destruct (Z.geb_spec (cs_progress_report st + 1) 5000) as [Hge|Hlt];
    eexists; (split; [reflexivity|]); unfold one_pass_inv, REPORT_PROGRESS_PERIOD; simpl;
    rewrite ?samples_length, ?Forall_app, ?Forall_singleton, ?sumZ_app;
    unfold zlen in *; rewrite ?length_app; simpl;
    try apply Nat.eqb_eq in Hzero;
    (split; [lia|]); (split; [lia|]); (split; [first [done | split; [done|lia]]|lia]).
Qed.

Lemma cut_and_save_one_pass_shifted (text0 : str) (shift : Z) :
  exists written puts num_cut_segments,
    (st ← for_each (cut_step WC samples text0) (finditer WC text0)
            (MkCut (samples 0) 1 shift 0 None 0 0 0 [] []);
     match cs_start_match st with
     | Some start_match =>
         m ← match last (finditer WC text0) with
             | Some m => Ok m
             | None => Raise IndexError
             end;
         Ok (cs_written st ++ [cut_line WC text0 start_match m], cs_puts st,
             cs_num_cut_segments st + 1)
     | None => Ok (cs_written st, cs_puts st, cs_num_cut_segments st)
     end)
    = Ok (written, puts, num_cut_segments)
    /\ num_cut_segments = zlen written
    /\ Forall (fun v => v = REPORT_PROGRESS_PERIOD) puts
    /\ sumZ puts <= num_cut_segments.
Proof.
  set (st0 := MkCut _ _ _ _ _ _ _ _ _ _).
  assert (H0 : one_pass_inv st0).
  { unfold one_pass_inv, st0, REPORT_PROGRESS_PERIOD. simpl. rewrite samples_length.
    pose proof some_length_pos. split; [lia|]. split; [done|]. split; [done|]. lia. }
  destruct (for_each_total one_pass_inv (cut_step WC samples text0) (finditer WC text0)
              (fun st m => cut_step_total text0 st m) st0 H0) as (st & Hrun & Hinv).
  rewrite Hrun. cbn [mbind result_bind].
  destruct Hinv as (_ & Hcount & Hputs & Hsum & Hreport).
  destruct (cs_start_match st) as [sm|] eqn:Hsm.
  - destruct (last (finditer WC text0)) as [m|] eqn:Hlast.
    + cbn [mbind result_bind]. eexists _, _, _. split; [reflexivity|].
      unfold zlen in *. rewrite length_app. simpl. split; [lia|]. split; [done|lia].
    + apply last_None in Hlast. rewrite Hlast in Hrun. simpl in Hrun.
      injection Hrun as <-. by simpl in Hsm.
  - eexists _, _, _. split; [reflexivity|]. split; [done|]. split; [done|lia].
Qed.

(** With a length that is not negative the pass returns; with negative
    lengths only, the range of [random.randint] is empty. *)
Lemma cut_and_save_one_pass_outcome (text0 : str) (randint : Z) :
  match cut_and_save_one_pass WC samples text0 num_words_in_segments randint with
  | Ok (written, puts, num_cut_segments) =>
      Exists (fun len => 0 <= len) num_words_in_segments
      /\ num_cut_segments = zlen written
      /\ Forall (fun v => v = REPORT_PROGRESS_PERIOD) puts
      /\ sumZ puts <= num_cut_segments
  | Raise e =>
      e = ValueError (lit "empty range for randrange()")
      /\ Forall (fun len => len < 0) num_words_in_segments
  | OutOfFuel => False
  end.
Proof.
  unfold cut_and_save_one_pass.
  destruct (py_max_spec num_words_in_segments some_length) as (mx & -> & Hin & Hub).
  cbn [mbind result_bind]. unfold random_randint.
  destruct (Z.ltb_spec (mx / 2) 0) as [Hneg|Hpos]; cbn [mbind result_bind].
  - split; [done|]. apply Forall_forall. intros len Hlen.
    specialize (Hub len Hlen). assert (mx < 0); [|lia].
    destruct (Z.lt_ge_cases mx 0) as [|Hmx]; [done|].
    pose proof (Z.div_pos mx 2 Hmx ltac:(lia)). lia.
  - destruct (cut_and_save_one_pass_shifted text0 randint)
      as (written & puts & n & -> & Hn & Hputs & Hsum).
    split; [|done]. apply Exists_exists. exists mx. split; [done|].
    destruct (Z.lt_ge_cases mx 0) as [Hmx|]; [|lia].
    assert (mx / 2 < 0) by (apply Z.div_lt_upper_bound; lia). lia.
Qed.

End OnePassFacts.

Lemma cut_and_save_one_pass_no_lengths WC (s : nat -> list Z) text0 r :
  cut_and_save_one_pass WC s text0 [] r
  = Raise (ValueError (lit "max() arg is an empty sequence")).
Proof. reflexivity. Qed.

(** The outcome of a pass, for the list of lengths that [cut_and_save]
    makes: without a length [max] raises, with negative lengths only
    [random.randint] does, and with a length that is not negative the pass
    returns. *)
Lemma cut_and_save_one_pass_cases (WC : N -> bool) (samples : nat -> list Z)
    (num_words_in_segments : list Z) (text0 : str) (randint : Z) :
  (forall n, samples n ≡ₚ num_words_in_segments) ->
  match cut_and_save_one_pass WC samples text0 num_words_in_segments randint with
  | Ok _ => Exists (fun len => 0 <= len) num_words_in_segments
  | Raise e =>
      Forall (fun len => len < 0) num_words_in_segments
      /\ e = ValueError (if bool_decide (num_words_in_segments = [])
                         then lit "max() arg is an empty sequence"
                         else lit "empty range for randrange()")
  | OutOfFuel => False
  end.
Proof.
  intros Hsamples. destruct (decide (num_words_in_segments = [])) as [->|Hne].
  - by rewrite cut_and_save_one_pass_no_lengths.
  - pose proof (cut_and_save_one_pass_outcome WC samples num_words_in_segments Hsamples Hne
                  text0 randint) as H.
    destruct (cut_and_save_one_pass _ _ _ _ _) as [[[written puts] n]|e|];
      [by destruct H| |done].
    destruct H as [-> Hneg]. split; [done|]. by rewrite bool_decide_eq_false_2.
Qed.

(** X4. Every [random.sample] being a permutation of the list of segment
    lengths, [cut_and_save_one_pass] raises exactly when no length is zero or
    more: [ValueError], from [max] for an empty list and from
    [random.randint(0, max(...) // 2)], whose range is empty, for a list of
    negative lengths.  With a length that is not negative it returns,
    whatever the text and the values drawn; the number it returns is the
    number of lines it wrote; and every value it puts on the progress queue
    is the reporting period, the values put never adding up to more than the
    lines written. *)
Theorem cut_and_save_one_pass_counts (WC : N -> bool) (samples : nat -> list Z)
    (num_words_in_segments : list Z) (text0 : str) (randint : Z) :
  (forall n, samples n ≡ₚ num_words_in_segments) ->
  match cut_and_save_one_pass WC samples text0 num_words_in_segments randint with
  | Ok (written, puts, num_cut_segments) =>
      Exists (fun len => 0 <= len) num_words_in_segments
      /\ num_cut_segments = zlen written
      /\ Forall (fun v => v = REPORT_PROGRESS_PERIOD) puts
      /\ sumZ puts <= num_cut_segments
  | Raise e =>
      Forall (fun len => len < 0) num_words_in_segments
      /\ e = ValueError (if bool_decide (num_words_in_segments = [])
                         then lit "max() arg is an empty sequence"
                         else lit "empty range for randrange()")
  | OutOfFuel => False
  end.
Proof.
  intros Hsamples. destruct (decide (num_words_in_segments = [])) as [->|Hne].
  - by rewrite cut_and_save_one_pass_no_lengths.
  - pose proof (cut_and_save_one_pass_outcome WC samples num_words_in_segments Hsamples Hne
                  text0 randint) as H.
    destruct (cut_and_save_one_pass _ _ _ _ _) as [[[written puts] n]|e|]; [done| |done].
    destruct H as [-> Hneg]. split; [done|]. by rewrite bool_decide_eq_false_2.
Qed.

(** A pass over eight words with the lengths 2 and 3; a pass with the length
    -2 alone. *)
Lemma cut_and_save_one_pass_counts_witness :
  match cut_and_save_one_pass ascii_word_char (fun _ => [3; 2]) (lit "a b c d e f g h")
          [2; 3] 1 with
  | Ok (written, puts, num_cut_segments) =>
      Exists (fun len => 0 <= len) [2; 3]
      /\ num_cut_segments = zlen written
      /\ Forall (fun v => v = REPORT_PROGRESS_PERIOD) puts
      /\ sumZ puts <= num_cut_segments
  | Raise e =>
      Forall (fun len => len < 0) [2; 3]
      /\ e = ValueError (if bool_decide ([2; 3] = @nil Z)
                         then lit "max() arg is an empty sequence"
                         else lit "empty range for randrange()")
  | OutOfFuel => False
  end
  /\ cut_and_save_one_pass ascii_word_char (fun _ => [3; 2]) (lit "a b c d e f g h") [2; 3] 1
     = Ok ([lit "b c d" ++ [NL]; lit "e f" ++ [NL]; lit "g h" ++ [NL]], [], 3)
  /\ cut_and_save_one_pass ascii_word_char (fun _ => [-2]) (lit "a b c") [-2] 0
     = Raise (ValueError (lit "empty range for randrange()")).
Proof.
  split; [|split; by vm_compute].
  apply (cut_and_save_one_pass_counts ascii_word_char (fun _ => [3; 2]) [2; 3]).
  intros _. apply Permutation_swap.
Defined.

Section CutAndSaveFacts.

Variable WC : N -> bool.
Variable SPACE_DUP_sub : str -> str.
Variable samples : nat -> nat -> list Z.
Variable randint : nat -> Z.

(** X5. [cut_and_save] skips a shard whose text has fewer than [2 * lo]
    words, without opening an output file.  For a text of [2 * lo] words or
    more and at least one pass it raises [ValueError] in two cases, with
    [top = min(hi, num_words // 2)]: when [top <= lo] the list of segment
    lengths is empty and [max] raises, so a text of [2 * lo] or [2 * lo + 1]
    words is not skipped but stops the run; when [lo < top <= 0] every
    length is negative and [random.randint] is given an empty range.  In
    every other case it returns. *)
Theorem cut_and_save_spec (shuffled : list str) (num_passes_through_dataset lo hi : Z) :
  let num_words := count_words WC (text_to_cut SPACE_DUP_sub shuffled) in
  let top := Z.min hi (num_words / 2) in
  (forall p n, samples p n ≡ₚ py_range lo top) ->
  match cut_and_save WC SPACE_DUP_sub samples randint shuffled num_passes_through_dataset
          (lo, hi) with
  | Ok None => num_words < lo * 2
  | Ok (Some (written, puts)) =>
      lo * 2 <= num_words
      /\ (num_passes_through_dataset <= 0 /\ written = [] /\ puts = []
          \/ 0 < num_passes_through_dataset /\ lo < top /\ 0 < top)
  | Raise e =>
      0 < num_passes_through_dataset /\ lo * 2 <= num_words
      /\ (top <= lo /\ e = ValueError (lit "max() arg is an empty sequence")
          \/ lo < top <= 0 /\ e = ValueError (lit "empty range for randrange()"))
  | OutOfFuel => False
  end.
Proof.
  intros num_words top Hsamples. unfold cut_and_save. fold num_words. simpl. fold top.
  destruct (Z.ltb_spec num_words (lo * 2)) as [Hfew|Henough]; [done|].
  set (nws := py_range lo top) in *.
  set (body := fun (out : list str * list Z) (p : nat) => _).
  destruct (Z.le_gt_cases num_passes_through_dataset 0) as [Hno|Hpass].
  { replace (Z.to_nat num_passes_through_dataset) with 0%nat by lia. simpl.
    split; [done|]. by left. }
  assert (Hnws : forall len, len ∈ nws <-> lo <= len < top).
  { intros len. unfold nws, py_range. rewrite elem_of_seqZ. lia. }
  destruct (decide (lo < top /\ 0 < top)) as [[Hlo Htop]|Hbad].
  - destruct (for_each_total (fun _ => True) body
                (seq 0 (Z.to_nat num_passes_through_dataset))) with (s0 := ([], []) : list str * list Z)
      as ([written puts] & -> & _); [|done|].
    + intros out p _. unfold body.
      pose proof (cut_and_save_one_pass_cases WC (samples p) nws
                    (text_to_cut SPACE_DUP_sub shuffled) (randint p) (Hsamples p)) as H.
      destruct (cut_and_save_one_pass _ _ _ _ _) as [[[w ps] c]|e|]; [by eexists| |done].
      exfalso. destruct H as [Hneg _]. rewrite Forall_forall in Hneg.
      assert (top - 1 < 0); [|lia]. apply Hneg, Hnws. lia.
    + simpl. split; [done|]. right. lia.
  - destruct (Z.to_nat num_passes_through_dataset) as [|k] eqn:Hk; [lia|].
    cbn [seq for_each].
    pose proof (cut_and_save_one_pass_cases WC (samples 0%nat) nws
                  (text_to_cut SPACE_DUP_sub shuffled) (randint 0%nat) (Hsamples 0%nat)) as H.
    assert (Hb : exists e, body ([], []) 0%nat = Raise e
                   /\ (top <= lo /\ e = ValueError (lit "max() arg is an empty sequence")
                       \/ lo < top <= 0
                          /\ e = ValueError (lit "empty range for randrange()"))).
    { unfold body.
      destruct (cut_and_save_one_pass _ _ _ _ _) as [[[w ps] c]|e|]; [|clear Hk|done].
      - exfalso. apply Exists_exists in H.
        destruct H as (len & Hlen & Hpos). apply Hnws in Hlen. lia.
      - exists e. split; [done|]. destruct H as [_ ->].
        destruct (Z.le_gt_cases top lo) as [Hempty|Hsome].
        + left. split; [done|]. rewrite bool_decide_eq_true_2; [done|].
          unfold nws, py_range. apply seqZ_nil. lia.
        + right. split; [lia|]. rewrite bool_decide_eq_false_2; [done|].
          unfold nws, py_range. rewrite seqZ_cons by lia. done. }
    destruct Hb as (e & -> & He). simpl. done.
Qed.

End CutAndSaveFacts.

(** A text of five words with the range (2, 4): the lengths are those from 2
    to [min(4, 5 // 2) = 2], none.  A text of three words with the range
    (-3, -1): the lengths are -3 and -2. *)
Lemma cut_and_save_spec_witness :
  match cut_and_save ascii_word_char (fun s => s) (fun _ _ => []) (fun _ => 0)
          [lit "a b c d e"] 1 (2, 4) with
  | Ok None => 5 < 2 * 2
  | Ok (Some (written, puts)) =>
      2 * 2 <= 5
      /\ (1 <= 0 /\ written = [] /\ puts = [] \/ 0 < 1 /\ 2 < 2 /\ 0 < 2)
  | Raise e =>
      0 < 1 /\ 2 * 2 <= 5
      /\ (2 <= 2 /\ e = ValueError (lit "max() arg is an empty sequence")
          \/ 2 < 2 <= 0 /\ e = ValueError (lit "empty range for randrange()"))
  | OutOfFuel => False
  end
  /\ cut_and_save ascii_word_char (fun s => s) (fun _ _ => []) (fun _ => 0)
       [lit "a b c d e"] 1 (2, 4)
     = Raise (ValueError (lit "max() arg is an empty sequence"))
  /\ cut_and_save ascii_word_char (fun s => s) (fun _ _ => [-3; -2]) (fun _ => 0)
       [lit "a b c"] 1 (-3, -1)
     = Raise (ValueError (lit "empty range for randrange()")).
Proof.
  split; [|split; by vm_compute].
  apply (cut_and_save_spec ascii_word_char (fun s => s) (fun _ _ => []) (fun _ => 0)
           [lit "a b c d e"] 1 2 4).
  intros _ _. by vm_compute.
Defined.

(** ** Counting in a file *)

Lemma takeZ_take {A} (l : list A) : forall n, takeZ n l = take (Z.to_nat n) l.
Proof.
  induction l as [|x l IH]; intros n; simpl; [by rewrite take_nil|].
  destruct (Z.leb_spec n 0) as [Hn|Hn].
  - by replace (Z.to_nat n) with 0%nat by lia.
  - replace (Z.to_nat n) with (S (Z.to_nat (n - 1))) by lia. simpl. by rewrite IH.
Qed.

Lemma dropZ_drop {A} (l : list A) : forall n, dropZ n l = drop (Z.to_nat n) l.
Proof.
  induction l as [|x l IH]; intros n; simpl; [by rewrite drop_nil|].
  destruct (Z.leb_spec n 0) as [Hn|Hn].
  - by replace (Z.to_nat n) with 0%nat by lia.
  - replace (Z.to_nat n) with (S (Z.to_nat (n - 1))) by lia. simpl. by rewrite IH.
Qed.

Lemma fd_read_take (fd : str) (n : Z) :
  0 <= n -> fd_read fd n = (take (Z.to_nat n) fd, drop (Z.to_nat n) fd).
Proof.
  intros Hn. unfold fd_read. destruct (Z.ltb_spec n 0); [lia|].
  by rewrite takeZ_take, dropZ_drop.
Qed.

(** Occurrences of one character add up over the pieces of a text. *)
Lemma count_char_app (c : N) (a b : str) :
  count [c] (a ++ b) = (count [c] a + count [c] b)%nat.
Proof.
  unfold count. induction a as [|x a IH]; [done|].
  cbn [app count_from startswith length Nat.sub].
  destruct (N.eqb c x); cbn [andb]; rewrite IH; lia.
Qed.

Lemma BUFFER_SIZE_pos : 0 < BUFFER_SIZE.
Proof. reflexivity. Qed.

Lemma take_pos_nil {A} (l : list A) (n : Z) : 0 < n -> take (Z.to_nat n) l = [] -> l = [].
Proof.
  intros Hn. destruct l as [|x l]; [done|].
  replace (Z.to_nat n) with (S (Z.to_nat (n - 1))) by lia. done.
Qed.

Lemma drop_pos_shorter {A} (l : list A) (n : Z) :
  0 < n -> l <> [] -> (length (drop (Z.to_nat n) l) < length l)%nat.
Proof.
  intros Hn Hl. rewrite length_drop. destruct l; [done|]. simpl. lia.
Qed.

(** Without [num_characters], the values yielded for a one-character
    pattern add up to its occurrences in the file. *)
Lemma count_in_blocks_of_char fuel (c : N) (size : Z) : forall fd,
  0 < size -> (length fd < fuel)%nat ->
  exists blocks,
    count_in_blocks_of fuel fd size (Some [c]) None = Ok blocks
    /\ sumZ blocks = Z.of_nat (count [c] fd).
Proof.
  induction fuel as [|fuel IH]; intros fd Hpos Hfuel; [lia|]. cbn [count_in_blocks_of].
  rewrite fd_read_take by lia.
  destruct (take (Z.to_nat size) fd) as [|x b] eqn:Hb.
  - exists []. split; [done|]. by rewrite (take_pos_nil fd size Hpos Hb).
  - assert (Hne : fd <> []) by (intros ->; by rewrite take_nil in Hb).
    pose proof (drop_pos_shorter fd size Hpos Hne) as Hlt.
    destruct (IH (drop (Z.to_nat size) fd) Hpos ltac:(lia)) as (blocks & -> & Hsum).
    cbn [mbind result_bind].
    eexists. split; [reflexivity|]. unfold sumZ in *. cbn [foldr].
    rewrite Hsum, <- Hb, <- Nat2Z.inj_add, <- count_char_app. by rewrite take_drop.
Qed.

(** A limit beyond the block size never stops the generator. *)
Lemma count_in_blocks_of_large_limit fuel pattern (size n : Z) : forall fd,
  0 < size < n ->
  count_in_blocks_of fuel fd size pattern (Some n)
  = count_in_blocks_of fuel fd size pattern None.
Proof.
  induction fuel as [|fuel IH]; intros fd Hn; [done|]. cbn [count_in_blocks_of].
  rewrite fd_read_take by lia.
  destruct (take (Z.to_nat size) fd) as [|x b] eqn:Hb; [done|].
  assert (Hlen : zlen (x :: b) <= size).
  { rewrite <- Hb. unfold zlen. rewrite length_take. lia. }
  destruct (Z.geb_spec (0 + zlen (x :: b)) n) as [|_]; [lia|].
  by rewrite IH.
Qed.

(** A limit of at most the block size cuts the count after that many
    characters. *)
Lemma count_in_blocks_of_small_limit (c : N) (size n : Z) (fd : str) :
  0 <= n <= size -> 0 < size ->
  exists blocks,
    count_in_blocks_of (S (length fd)) fd size (Some [c]) (Some n) = Ok blocks
    /\ sumZ blocks = Z.of_nat (count [c] (take (Z.to_nat n) fd)).
Proof.
  intros Hn Hpos. cbn [count_in_blocks_of]. rewrite fd_read_take by lia.
  destruct (take (Z.to_nat size) fd) as [|x b] eqn:Hb.
  - exists []. split; [done|]. rewrite (take_pos_nil fd size Hpos Hb). by rewrite take_nil.
  - assert (Hne : fd <> []) by (intros ->; by rewrite take_nil in Hb).
    rewrite <- Hb. set (blk := take (Z.to_nat size) fd) in *.
    assert (Hblk : zlen blk = Z.min size (zlen fd)).
    { unfold blk, zlen. rewrite length_take. lia. }
    destruct (Z.geb_spec (0 + zlen blk) n) as [Hge|Hlt].
    + eexists. split; [reflexivity|]. unfold sumZ. cbn [foldr]. rewrite Z.add_0_r.
      do 2 f_equal. unfold py_slice.
      rewrite !slice_bound_inside by lia. rewrite drop_0. unfold blk.
      rewrite take_take. do 2 f_equal. lia.
    + assert (Hshort : zlen fd < size) by lia.
      assert (Hwhole : blk = fd).
      { unfold blk. apply take_ge. unfold zlen in Hshort. lia. }
      rewrite drop_ge by (unfold zlen in Hshort; lia).
      destruct (length fd) as [|k] eqn:Hk;
        [by apply length_zero_iff_nil in Hk|].
      cbn [count_in_blocks_of]. rewrite fd_read_take by lia. rewrite take_nil.
      cbn [mbind result_bind]. eexists. split; [reflexivity|].
      unfold sumZ. cbn [foldr]. rewrite Z.add_0_r, Hwhole.
      rewrite take_ge; [done|]. unfold zlen in *. lia.
Qed.

(** A negative limit stops the generator at the first block, of which the
    last [- n] characters are not counted. *)
Lemma count_in_blocks_of_negative_limit (c : N) (size n : Z) (fd : str) :
  n < 0 -> 0 < size ->
  exists blocks,
    count_in_blocks_of (S (length fd)) fd size (Some [c]) (Some n) = Ok blocks
    /\ sumZ blocks
       = Z.of_nat (count [c] (take (Z.to_nat (Z.min size (zlen fd) + n)) fd)).
Proof.
  intros Hn Hpos. cbn [count_in_blocks_of]. rewrite fd_read_take by lia.
  destruct (take (Z.to_nat size) fd) as [|x b] eqn:Hb.
  - exists []. split; [done|]. rewrite (take_pos_nil fd size Hpos Hb). by rewrite take_nil.
  - rewrite <- Hb. set (blk := take (Z.to_nat size) fd) in *.
    assert (Hblk : zlen blk = Z.min size (zlen fd)).
    { unfold blk, zlen. rewrite length_take. lia. }
    assert (0 <= zlen blk) by (unfold zlen; lia).
    destruct (Z.geb_spec (0 + zlen blk) n) as [_|Hlt]; [|lia].
    eexists. split; [reflexivity|]. unfold sumZ. cbn [foldr]. rewrite Z.add_0_r.
    do 2 f_equal. unfold py_slice, slice_bound. cbn [Z.ltb Z.compare].
    rewrite Z.sub_0_r. destruct (Z.ltb_spec n 0) as [_|]; [|lia].
    replace (Z.to_nat (Z.min (zlen blk) 0)) with 0%nat by lia.
    rewrite drop_0, Nat.sub_0_r. unfold blk. rewrite take_take. f_equal.
    fold blk. lia.
Qed.

(** X6. [count_lines_in_file] returns the number of line feeds of the text
    it is given, however many blocks the text takes.  A limit
    [num_characters] from 0 to the block size restricts the count to the
    first [num_characters] characters; a larger limit has no effect, the
    whole text being counted, because the number of characters read so far
    is never updated; and with a negative limit the count is that of the
    first block, of at most [BUFFER_SIZE] characters, without its last
    [- num_characters] characters. *)
Theorem count_lines_in_file_spec (file : str) :
  count_lines_in_file file None = Ok (Z.of_nat (count [NL] file))
  /\ (forall n, 0 <= n <= BUFFER_SIZE ->
        count_lines_in_file file (Some n)
        = Ok (Z.of_nat (count [NL] (take (Z.to_nat n) file))))
  /\ (forall n, BUFFER_SIZE < n ->
        count_lines_in_file file (Some n) = Ok (Z.of_nat (count [NL] file)))
  /\ (forall n, n < 0 ->
        count_lines_in_file file (Some n)
        = Ok (Z.of_nat
                (count [NL] (take (Z.to_nat (Z.min BUFFER_SIZE (zlen file) + n)) file)))).
Proof.
  pose proof BUFFER_SIZE_pos as Hpos.
  assert (Hall : count_lines_in_file file None = Ok (Z.of_nat (count [NL] file))).
  { unfold count_lines_in_file.
    destruct (count_in_blocks_of_char (S (length file)) NL BUFFER_SIZE file Hpos ltac:(lia))
      as (blocks & -> & Hsum).
    cbn [mbind result_bind]. by rewrite Hsum. }
  split; [done|]. split; [|split].
  - intros n Hn. unfold count_lines_in_file.
    destruct (count_in_blocks_of_small_limit NL BUFFER_SIZE n file Hn Hpos)
      as (blocks & -> & Hsum).
    cbn [mbind result_bind]. by rewrite Hsum.
  - intros n Hn. unfold count_lines_in_file.
    rewrite count_in_blocks_of_large_limit by lia. exact Hall.
  - intros n Hn. unfold count_lines_in_file.
    destruct (count_in_blocks_of_negative_limit NL BUFFER_SIZE n file Hn Hpos)
      as (blocks & -> & Hsum).
    cbn [mbind result_bind]. by rewrite Hsum.
Qed.

Lemma accumulate_from_lookup (dn rest : list Z) (p : Z) : forall acc,
  accumulate_from acc (dn ++ p :: rest) !! length dn = Some (acc + sumZ dn + p).
Proof.
  induction dn as [|d dn IH]; intros acc; simpl.
  - f_equal. lia.
  - rewrite IH. f_equal. lia.
Qed.

Lemma pieces_nil (sizes : list Z) (pattern : str) :
  map (fun piece => Z.of_nat (count pattern piece)) (pieces [] sizes)
  = replicate (length sizes) 0.
Proof.
  induction sizes as [|n sizes IH]; [done|]. simpl.
  rewrite take_nil, drop_nil, IH. done.
Qed.

Section FilePartsFacts.

Variable pattern : str.
Variable parts : list Z.


Lemma count_in_file_parts_loop_spec (fuel : nat) :
  forall (f : str) (dn : list Z) (p : Z) (rest : list Z) (done_ : list Z) (cur cr : Z)
         (buffer : str),
    parts = dn ++ p :: rest -> length done_ = length dn ->
    cr < sumZ dn + p ->
    splits_ok pattern (sumZ dn + p - cr) ->
    Forall (fun q => 0 < q /\ splits_ok pattern q) rest ->
    buffer <> [] -> (length f + 2 <= fuel)%nat ->
    count_in_file_parts_loop fuel f (length parts) (accumulate parts) pattern
      (done_ ++ cur :: replicate (length rest) 0) (length dn) cr buffer
    = Ok (done_ ++ (cur + cnt pattern (take (Z.to_nat (sumZ dn + p - cr)) f))
            :: map (cnt pattern) (pieces (drop (Z.to_nat (sumZ dn + p - cr)) f) rest)).
Proof.
  pose proof BUFFER_SIZE_pos as Hpos.
  induction fuel as [|fuel IH];
    intros f dn p rest done_ cur cr buffer Hparts Hdone Hcr Hok Hrest Hbuf Hfuel; [lia|].
  cbn [count_in_file_parts_loop].
  destruct buffer as [|b0 buffer0]; [done|].
  set (bound := sumZ dn + p) in *. set (rem := bound - cr) in *.
  assert (Hget : getitem (accumulate parts) (length dn) = Ok bound).
  { unfold getitem, accumulate. rewrite Hparts, accumulate_from_lookup. by rewrite Z.add_0_l. }
  assert (Hnum : length parts = (length dn + S (length rest))%nat).
  { rewrite Hparts, length_app. done. }
  rewrite Hget, Hnum. cbn [mbind result_bind].
  destruct (Z.gtb_spec bound cr) as [_|]; [|lia].
  fold rem. rewrite fd_read_take by lia.
  set (n := Z.min BUFFER_SIZE rem).
  set (buffer' := take (Z.to_nat n) f).
  assert (Hlen' : zlen buffer' = Z.min n (zlen f)).
  { unfold buffer', zlen. rewrite length_take. lia. }
  unfold getitem. rewrite <- Hdone, list_lookup_middle by done.
  cbn [mbind result_bind].
  assert (Hins : <[length done_ := cur + Z.of_nat (count pattern buffer')]>
                   (done_ ++ cur :: replicate (length rest) 0)
                 = done_ ++ (cur + cnt pattern buffer') :: replicate (length rest) 0).
  { rewrite insert_app_r_alt by lia. by rewrite Nat.sub_diag. }
  rewrite Hins. clear Hins. rewrite !Hdone.
  destruct (Z.geb_spec (cr + zlen buffer') bound) as [Hfull|Hpart].
  - (* the part has been read to its end *)
    assert (Hn : n = rem) by lia.
    assert (Hb : buffer' = take (Z.to_nat rem) f) by (unfold buffer'; by rewrite Hn).
    rewrite Hn.
    destruct rest as [|q rest'].
    + destruct (Nat.leb_spec (length dn + S (length (@nil Z))) (S (length dn)))
        as [_|Hc]; [|simpl in Hc; lia].
      simpl. by rewrite Hb.
    + destruct (Nat.leb_spec (length dn + S (length (q :: rest'))) (S (length dn)))
        as [Hc|_]; [simpl in Hc; lia|].
      apply Forall_cons in Hrest as [[Hq Hqok] Hrest].
      assert (Hne : buffer' <> []).
      { intros Hnil. rewrite Hnil in Hfull. unfold zlen in Hfull. simpl in Hfull. lia. }
      pose proof (IH (drop (Z.to_nat rem) f) (dn ++ [p]) q rest'
                    (done_ ++ [cur + cnt pattern buffer']) 0 (cr + zlen buffer') buffer') as IH'.
      rewrite !length_app in IH'. simpl in IH'.
      rewrite sumZ_app in IH'. simpl in IH'.
      replace (sumZ dn + (p + 0) + q - (cr + zlen buffer')) with q in IH' by (unfold bound in *; lia).
      rewrite <- !app_assoc in IH'. simpl in IH'.
      replace (S (length dn)) with (length dn + 1)%nat by lia.
      rewrite <- Hnum. cbn [length replicate].
      rewrite IH'; [| exact Hparts | lia | unfold bound in *; lia | done
                     | done | done | rewrite length_drop; unfold zlen in *; lia].
      simpl. by rewrite Hb, Z.add_0_l.
  - (* more of the part is to be read *)
    destruct (decide (buffer' = [])) as [Hnil|Hne].
    + assert (Hf : f = []).
      { destruct f; [done|]. unfold buffer' in Hnil.
        replace (Z.to_nat n) with (S (Z.to_nat (n - 1))) in Hnil by lia. done. }
      rewrite Hnil, Hf. destruct fuel as [|fuel']; [simpl in Hfuel; lia|].
      rewrite drop_nil. cbn [count_in_file_parts_loop]. rewrite take_nil, drop_nil.
      unfold cnt. rewrite pieces_nil. simpl. by rewrite !Z.add_0_r.
    + pose proof (IH (drop (Z.to_nat n) f) dn p rest done_ (cur + cnt pattern buffer')
                    (cr + zlen buffer') buffer') as IH'.
      fold bound in IH'.
      assert (Hshorter : (length (drop (Z.to_nat n) f) < length f)%nat).
      { rewrite length_drop. destruct f; [by unfold buffer' in Hne; rewrite take_nil in Hne|].
        simpl. lia. }
      rewrite <- Hnum.
      rewrite IH'; [|done|done|lia| |done|done|lia].
      2:{ destruct Hok as [Hle|Hc]; [left; unfold rem, zlen in *; lia|by right]. }
      assert (Hhead : cnt pattern buffer' + cnt pattern (take (Z.to_nat (bound - (cr + zlen buffer')))
                                           (drop (Z.to_nat n) f))
                      = cnt pattern (take (Z.to_nat rem) f)).
      { destruct (Z.lt_ge_cases (zlen f) n) as [Hshort|Hlong].
        - (* the file ended inside the part *)
          unfold buffer'. rewrite drop_ge by (unfold zlen in Hshort; lia).
          rewrite take_nil, !take_ge by (unfold zlen in *; lia).
          change (cnt pattern []) with 0. lia.
        - assert (Hz : zlen buffer' = n) by lia.
          assert (HBS : n = BUFFER_SIZE) by lia.
          destruct Hok as [Hle|[c Hc]]; [fold rem in Hle; lia|].
          unfold cnt. rewrite Hc, <- Nat2Z.inj_add, <- count_char_app. rewrite Hz.
          unfold buffer'. rewrite take_take_drop. do 3 f_equal.
          rewrite Hz in Hpart. clear -Hpart Hpos HBS Hcr. subst n rem. lia. }
      assert (Htail : drop (Z.to_nat (bound - (cr + zlen buffer'))) (drop (Z.to_nat n) f)
                      = drop (Z.to_nat rem) f).
      { rewrite drop_drop.
        destruct (Z.lt_ge_cases (zlen f) n) as [Hshort|Hlong].
        - rewrite !drop_ge; [done| unfold zlen, rem in *; lia | unfold zlen in *; lia].
        - f_equal. unfold rem. lia. }
      by rewrite <- Z.add_assoc, Hhead, Htail.
Qed.

End FilePartsFacts.

(** X7. [count_in_file_parts] with parts of positive sizes: entry [i] of the
    result is the number of occurrences of the pattern in part [i] of the
    text, the parts following one another from the start of the file and a
    part beyond the end of the file being empty.  This holds when the pattern
    is one character, as the line feed is, or when no part is longer than
    one block; an empty list of parts raises [IndexError]. *)
Theorem count_in_file_parts_spec (file : str) (part_num_characters : list Z) (pattern : str) :
  Forall (fun p => 0 < p) part_num_characters ->
  (exists c, pattern = [c]) \/ Forall (fun p => p <= BUFFER_SIZE) part_num_characters ->
  count_in_file_parts file part_num_characters pattern
  = match part_num_characters with
    | [] => Raise IndexError
    | _ :: _ =>
        Ok (map (fun part => Z.of_nat (count pattern part)) (pieces file part_num_characters))
    end.
Proof.
  intros Hposs Hmode. unfold count_in_file_parts.
  destruct part_num_characters as [|p rest] eqn:Hparts.
  - by rewrite Nat.add_comm.
  - rewrite <- Hparts.
    assert (Hok : forall q, q ∈ part_num_characters -> splits_ok pattern q).
    { intros q Hq. destruct Hmode as [Hc|Hall]; [by right|left].
      rewrite <- Hparts in Hall. rewrite Forall_forall in Hall. by apply Hall. }
    apply Forall_cons in Hposs as [Hp Hposs].
    pose proof (count_in_file_parts_loop_spec pattern part_num_characters
                  (length file + 2) file [] p rest [] 0 0 (lit "filler") Hparts eq_refl)
      as Hloop.
    cbn [sumZ foldr length app] in Hloop. rewrite !Z.add_0_l, !Z.sub_0_r in Hloop.
    rewrite Hparts at 3. cbn [length replicate].
    rewrite Hloop; [by rewrite Hparts| lia | | | done | lia].
    + apply Hok. rewrite Hparts. by left.
    + apply Forall_forall. intros q Hq. rewrite Forall_forall in Hposs.
      split; [by apply Hposs|]. apply Hok. rewrite Hparts. by right.
Qed.

Lemma count_in_file_parts_spec_witness :
  count_in_file_parts nine_pages [24; 24; 24] PAGE = Ok [3; 3; 3]
  /\ count_in_file_parts nine_pages [24; 24; 24] PAGE
     = Ok (map (fun part => Z.of_nat (count PAGE part)) (pieces nine_pages [24; 24; 24])).
Proof.
  split; [reflexivity|].
  apply (count_in_file_parts_spec nine_pages [24; 24; 24] PAGE).
  - repeat constructor.
  - right. repeat constructor; by vm_compute.
Defined.

(** ** The document store *)

Lemma reverse_one_file_each (m : gmap Z Z) : one_file_each (reverse_doc_id_to_file_i m).
Proof.
  intros d s1 s2 l1 l2 H1 Hd1 H2 Hd2.
  assert (m !! d = Some s1) as E1 by (apply reverse_doc_id_to_file_i_spec; eauto).
  assert (m !! d = Some s2) as E2 by (apply reverse_doc_id_to_file_i_spec; eauto).
  congruence.
Qed.

(** X8. Turning the map from documents to files into the map from files to
    their documents and back gives the map one started from: no document is
    lost, none is added and none changes file. *)
Theorem rev_rev_of_reverse (doc_id_to_file_i : gmap Z Z) :
  rev_rev_doc_id_to_file_i (reverse_doc_id_to_file_i doc_id_to_file_i) = doc_id_to_file_i.
Proof.
  apply map_eq. intros d. apply option_eq. intros s.
  rewrite (rev_rev_doc_id_to_file_i_spec _ (reverse_one_file_each doc_id_to_file_i)).
  apply reverse_doc_id_to_file_i_spec.
Qed.

(** ** Moving in a file and cutting it into parts *)

Lemma encode_len_app (a b : str) : encode_len (a ++ b) = encode_len a + encode_len b.
Proof. unfold encode_len. by rewrite map_app, sumZ_app. Qed.

Lemma move_loop_spec (buffer_size : Z) (fuel : nat) : forall fd n cr br buffer,
  0 < buffer_size -> buffer <> [] -> (length fd + 2 <= fuel)%nat ->
  move_loop fuel fd n buffer_size cr br buffer
  = Ok (cr + zlen (take (Z.to_nat (n - cr)) fd),
        br + encode_len (take (Z.to_nat (n - cr)) fd),
        drop (Z.to_nat (n - cr)) fd).
Proof.
  induction fuel as [|fuel IH]; intros fd n cr br buffer Hsize Hbuf Hfuel; [lia|].
  cbn [move_loop].
  destruct (bool_decide_reflect (buffer = [])) as [|_]; [done|]. cbn [negb andb].
  destruct (Z.gtb_spec n cr) as [Hmore|Hdone].
  - set (m := Z.min buffer_size (n - cr)).
    rewrite fd_read_take by lia.
    set (b := take (Z.to_nat m) fd).
    destruct (decide (b = [])) as [Hnil|Hne].
    + assert (Hfd : fd = []) by (apply (take_pos_nil fd m); [lia|done]).
      rewrite Hnil, Hfd, drop_nil. destruct fuel as [|fuel']; [simpl in Hfuel; lia|].
      cbn [move_loop]. destruct (bool_decide_reflect (@nil N = [])) as [_|]; [|done].
      cbn [negb andb]. by rewrite take_nil, drop_nil.
    + assert (Hshorter : (length (drop (Z.to_nat m) fd) < length fd)%nat).
      { apply drop_pos_shorter; [lia|]. intros ->. unfold b in Hne. by rewrite take_nil in Hne. }
      rewrite IH by (done || lia).
      assert (Hlen : zlen b = Z.min m (zlen fd)).
      { unfold b, zlen. rewrite length_take. lia. }
      assert (Htake : take (Z.to_nat (n - cr)) fd
                      = b ++ take (Z.to_nat (n - (cr + zlen b))) (drop (Z.to_nat m) fd)).
      { destruct (Z.lt_ge_cases (zlen fd) m) as [Hshort|Hlong].
        - rewrite drop_ge by (unfold zlen in Hshort; lia). rewrite take_nil, app_nil_r.
          unfold b. rewrite !take_ge; [done| |]; unfold zlen in *; lia.
        - unfold b. rewrite take_take_drop. f_equal. fold b. lia. }
      assert (Hdrop : drop (Z.to_nat (n - cr)) fd
                      = drop (Z.to_nat (n - (cr + zlen b))) (drop (Z.to_nat m) fd)).
      { rewrite drop_drop.
        destruct (Z.lt_ge_cases (zlen fd) m) as [Hshort|Hlong].
        - rewrite !drop_ge; [done| |]; unfold zlen in *; lia.
        - f_equal. lia. }
      rewrite Htake, Hdrop, zlen_app, encode_len_app. by rewrite !Z.add_assoc.
  - replace (Z.to_nat (n - cr)) with 0%nat by lia. rewrite take_0, drop_0.
    unfold zlen, encode_len. simpl. by rewrite !Z.add_0_r.
Qed.

(** X9. [move_by_n_characters_in_file] with a positive buffer size moves by
    exactly [n] characters, or to the end of the file when fewer are left:
    it returns the number of characters passed and the number of bytes of
    their UTF-8 encoding, and leaves the file at the character that
    follows. *)
Theorem move_by_n_characters_in_file_spec (fd : str) (n buffer_size : Z) :
  0 < buffer_size ->
  let moved := take (Z.to_nat n) fd in
  move_by_n_characters_in_file fd n buffer_size
  = Ok (zlen moved, encode_len moved, drop (Z.to_nat n) fd)
  /\ zlen moved = Z.max 0 (Z.min n (zlen fd)).
Proof.
  intros Hsize moved. split.
  - unfold move_by_n_characters_in_file.
    rewrite move_loop_spec by (done || lia). by rewrite Z.sub_0_r, !Z.add_0_l.
  - unfold moved, zlen. rewrite length_take. lia.
Qed.

Lemma move_by_n_characters_in_file_spec_witness :
  move_by_n_characters_in_file [233%N; 116%N; 233%N; 10%N] 3 2 = Ok (3, 5, [10%N]).
Proof.
  apply (move_by_n_characters_in_file_spec [233%N; 116%N; 233%N; 10%N] 3 2). lia.
Defined.

Lemma borders_step_one_part (file : str) :
  borders_step (zlen file / 1) (MkBorders file [] [] 0 0 []) 0
  = Ok (MkBorders [] [(0, encode_len file)] [zlen file] 0 (zlen file) []).
Proof.
  pose proof BUFFER_SIZE_pos as Hpos.
  unfold borders_step. cbn [total_characters_read bs_f remainder last_byte_border
                             byte_borders num_characters_in_part].
  rewrite Z.div_1_r.
  assert (Hmove : move_by_n_characters_in_file file (zlen file * (0 + 1) - 0) BUFFER_SIZE
                  = Ok (zlen (take (Z.to_nat (zlen file * (0 + 1) - 0)) file),
                        encode_len (take (Z.to_nat (zlen file * (0 + 1) - 0)) file),
                        drop (Z.to_nat (zlen file * (0 + 1) - 0)) file)).
  { unfold move_by_n_characters_in_file.
    rewrite move_loop_spec by (done || lia). by rewrite Z.sub_0_r, !Z.add_0_l. }
  rewrite Hmove.
  replace (Z.to_nat (zlen file * (0 + 1) - 0)) with (length file) by (unfold zlen; lia).
  rewrite take_ge, drop_ge by lia. cbn [mbind result_bind].
  change (zlen (@nil N)) with 0. change (encode_len []) with 0.
  destruct (Z.ltb_spec (zlen file + 0) (zlen file * (0 + 1) - 0)) as [|_]; [lia|].
  cbn [fd_readline length scan_lines mbind result_bind app].
  by rewrite !Z.add_0_r, !Z.add_0_l.
Qed.

(** Reading in text mode leaves a text without carriage return as it is,
    and takes one character, of one byte, from each pair of a carriage
    return and a line feed. *)
Lemma universal_newlines_no_CR (disk : str) :
  CR ∉ disk -> universal_newlines disk = disk.
Proof.
  induction disk as [|c rest IH]; [done|]. intros Hno.
  apply not_elem_of_cons in Hno as [Hc Hrest]. cbn [universal_newlines].
  destruct (N.eqb_spec c CR) as [->|_]; [done|]. by rewrite IH.
Qed.

Lemma universal_newlines_sizes_upto (n : nat) : forall disk,
  (length disk <= n)%nat ->
  encode_len (universal_newlines disk) = encode_len disk - Z.of_nat (count [CR; NL] disk)
  /\ zlen (universal_newlines disk) = zlen disk - Z.of_nat (count [CR; NL] disk).
Proof.
  unfold count, encode_len, zlen.
  induction n as [|n IH]; intros disk Hlen.
  - destruct disk; [done|simpl in Hlen; lia].
  - destruct disk as [|c rest]; [done|]. simpl in Hlen.
    cbn [universal_newlines count_from startswith].
    destruct (N.eqb_spec c CR) as [->|Hc].
    + change (CR =? CR)%N with true. cbn [andb].
      destruct rest as [|c' rest'].
      * done.
      * simpl in Hlen. cbn [startswith andb].
        destruct (N.eqb_spec c' NL) as [->|Hc'].
        -- change (NL =? NL)%N with true. cbn [andb length Nat.sub count_from].
           destruct (IH rest' ltac:(lia)) as [He Hz].
           cbn [map sumZ foldr length]. unfold sumZ in He.
           change (utf8_len NL) with 1. change (utf8_len CR) with 1. lia.
        -- replace (NL =? c')%N with false by (symmetry; apply N.eqb_neq; congruence).
           cbn [andb].
           destruct (IH (c' :: rest') ltac:(simpl; lia)) as [He Hz].
           cbn [map sumZ foldr length] in *. unfold sumZ in He.
           change (utf8_len NL) with 1. change (utf8_len CR) with 1. lia.
    + replace (CR =? c)%N with false by (symmetry; apply N.eqb_neq; congruence).
      cbn [andb]. destruct (IH rest ltac:(lia)) as [He Hz].
      cbn [map sumZ foldr length]. unfold sumZ in He. lia.
Qed.

Lemma universal_newlines_sizes (disk : str) :
  encode_len (universal_newlines disk) = encode_len disk - Z.of_nat (count [CR; NL] disk)
  /\ zlen (universal_newlines disk) = zlen disk - Z.of_nat (count [CR; NL] disk).
Proof. by apply (universal_newlines_sizes_upto (length disk)). Qed.

(** X10. [get_borders_with_documents_intact], on the text that reading the
    file in text mode gives, returns for every file and every number of
    parts other than 0, with one byte range and one number of characters per
    part, the first range starting at byte 0; for 0 parts the division
    raises [ZeroDivisionError].  With one part, the range ends at the number
    of bytes of the text as it is read, and the number of characters is that
    of this text: the size of the file on disk less one for every carriage
    return that a line feed follows.  So the range is the whole file in
    bytes when the file holds no such pair, and ends before the end of the
    file when it holds one. *)
Theorem get_borders_with_documents_intact_returns (disk : str) (num_parts : Z) :
  match get_borders_with_documents_intact (universal_newlines disk) num_parts with
  | Ok (borders, counts) =>
      num_parts <> 0
      /\ length borders = Z.to_nat num_parts /\ length counts = Z.to_nat num_parts
      /\ (forall r, head borders = Some r -> r.1 = 0)
      /\ (num_parts = 1 ->
          borders = [(0, encode_len disk - Z.of_nat (count [CR; NL] disk))]
          /\ counts = [zlen disk - Z.of_nat (count [CR; NL] disk)])
  | Raise e => e = ZeroDivisionError /\ num_parts = 0
  | OutOfFuel => False
  end.
Proof.
  destruct (universal_newlines_sizes disk) as [<- <-].
  set (file := universal_newlines disk).
  destruct (decide (num_parts = 0)) as [->|Hn].
  - unfold get_borders_with_documents_intact.
    destruct (count_characters_in_file file) as [len| |] eqn:Hc; simpl; try done.
    + by rewrite count_characters_in_file_spec in Hc.
    + by rewrite count_characters_in_file_spec in Hc.
  - destruct (get_borders_returns file num_parts Hn)
      as (borders & counts & Heq & Hb & Hc & Hfirst).
    rewrite Heq. split; [done|]. split; [done|]. split; [done|]. split; [done|].
    intros ->. revert Heq. unfold get_borders_with_documents_intact.
    rewrite count_characters_in_file_spec. cbn [mbind result_bind Z.eqb].
    rewrite (seqZ_cons 0 1) by lia. rewrite seqZ_nil by lia. cbn [for_each].
    rewrite borders_step_one_part. cbn [mbind result_bind byte_borders num_characters_in_part].
    by intros [= <- <-].
Qed.

(** Two pages with lines that end in a carriage return and a line feed: the
    file has 18 bytes, and the single range ends at byte 16. *)
Lemma get_borders_carriage_returns :
  let disk := lit "<page>a" ++ [CR; NL] ++ lit "<page>b" ++ [CR; NL] in
  encode_len disk = 18
  /\ get_borders_with_documents_intact (universal_newlines disk) 1 = Ok ([(0, 16)], [16])
  /\ get_borders_with_documents_intact (universal_newlines (lit "<page>a")) 1
     = Ok ([(0, 7)], [7]).
Proof. by vm_compute. Qed.

(** * The dataset module *)

(** X11. [tokenize_create_masks_clip_parallel] cuts the queries, and their
    labels in the same way, into splits: with at least as many queries as
    jobs, the splits put end to end are the queries, none of them is empty,
    and there are at least as many splits as jobs; with fewer queries than
    jobs (than 1, for a number of jobs that is not positive) the size of a
    split is 0 and the division by it raises [ZeroDivisionError]. *)
Theorem split_queries_spec {A} (queries : list A) (njobs : Z) :
  match split_queries queries njobs with
  | Ok splits =>
      Z.max njobs 1 <= zlen queries
      /\ concat splits = queries
      /\ Forall (fun split => split <> []) splits
      /\ Z.max njobs 1 <= zlen splits
  | Raise e => e = ZeroDivisionError /\ zlen queries < Z.max njobs 1
  | OutOfFuel => False
  end.
Proof.
  unfold split_queries, floordiv.
  set (j := Z.max njobs 1). assert (Hj : 1 <= j) by lia.
  set (len := zlen queries). assert (Hlen : 0 <= len) by (unfold len, zlen; lia).
  assert (HM : MAX_NUM_QUERIES_IN_SPLIT = 10000) by reflexivity.
  set (ss := Z.min (len / j) MAX_NUM_QUERIES_IN_SPLIT).
  assert (Hssd : ss = Z.min (len / j) 10000) by (unfold ss; by rewrite HM).
  clearbody ss.
  destruct (Z.eqb_spec ss 0) as [Hz|Hnz]; simpl.
  - split; [done|]. assert (len / j = 0) as Hd by lia.
    apply Z.div_small_iff in Hd; lia.
  - assert (Hq : j <= len).
    { destruct (Z.lt_ge_cases len j) as [Hlt|]; [|done].
      rewrite (Z.div_small len j) in Hssd by lia. lia. }
    assert (Hdiv : 1 <= len / j) by (apply Z.div_le_lower_bound; lia).
    assert (Hss : 1 <= ss) by lia.
    assert (Hss' : ss <= len / j) by lia.
    assert (Hn : j <= len / ss).
    { apply Z.div_le_lower_bound; [lia|].
      pose proof (Z.mul_div_le len j ltac:(lia)). nia. }
    pose proof (Z.mul_div_le len ss ltac:(lia)) as Hmul.
    destruct (chunks_spec queries ss (len / ss)) as (Hc & Hl & _ & _ & Hall);
      [lia|lia|fold len; nia|].
    split; [done|]. split; [done|]. split; [|lia].
    eapply Forall_impl; [apply Hall; fold len; lia|].
    simpl. intros split Hs ->. unfold zlen in Hs. simpl in Hs. lia.
Qed.

(** X12. [maybe_clip] with a maximum of at least 2 never returns more than
    the maximum number of values: a longer list is replaced by
    [prepend_value] followed by its last [max_seq_length - 1] values, so
    that the start of the sequence is what is dropped.  With a maximum of 1
    a longer list is not shortened but grows by one value. *)
Theorem maybe_clip_spec {A} (max_seq_length : Z) (values : list A) (prepend_value : A) :
  (2 <= max_seq_length ->
   zlen (maybe_clip max_seq_length values prepend_value)
   = Z.min (zlen values) max_seq_length
   /\ (max_seq_length < zlen values ->
       maybe_clip max_seq_length values prepend_value
       = prepend_value
         :: drop (length values - Z.to_nat (max_seq_length - 1)) values))
  /\ (max_seq_length = 1 -> 1 < zlen values ->
      maybe_clip max_seq_length values prepend_value = prepend_value :: values).
Proof.
  unfold maybe_clip, py_slice_from, slice_bound. split.
  - intros Hmax. destruct (Z.gtb_spec (zlen values) max_seq_length) as [Hlong|Hshort].
    + destruct (Z.ltb_spec (- max_seq_length + 1) 0) as [_|]; [|lia].
      assert (Hd : Z.to_nat (Z.min (zlen values)
                               (Z.max 0 (- max_seq_length + 1 + zlen values)))
                   = (length values - Z.to_nat (max_seq_length - 1))%nat)
        by (unfold zlen in *; lia).
      rewrite Hd. split; [|done]. unfold zlen in *. simpl. rewrite length_drop. lia.
    + split; [lia|]. lia.
  - intros -> Hlen. destruct (Z.gtb_spec (zlen values) 1) as [_|]; [|lia].
    change (- (1) + 1 <? 0) with false. cbv beta iota.
    replace (Z.to_nat (Z.min (zlen values) (- (1) + 1))) with 0%nat by lia.
    by rewrite drop_0.
Qed.

Lemma array_map_false {A} (a : list (list A)) (f : A -> bool) :
  (forall x, f x = false) -> array_map f a = array_map (fun _ => false) a.
Proof.
  intros Hf. unfold array_map. apply map_ext. intros row. apply map_ext. intros x. apply Hf.
Qed.

Lemma zip_with_andb_true (m : list bool) (row : list Z) :
  zip_with andb m (map negb (map (fun _ => false) row)) = take (length row) m.
Proof.
  revert m. induction row as [|x row IH]; intros m; simpl.
  - by destruct m.
  - destruct m as [|b m]; [done|]. simpl. by rewrite IH, andb_true_r.
Qed.

Lemma zip_with_orb_false (m : list bool) (row : list Z) :
  zip_with orb m (map (fun _ => false) row) = take (length row) m.
Proof.
  revert m. induction row as [|x row IH]; intros m; simpl.
  - by destruct m.
  - destruct m as [|b m]; [done|]. simpl. by rewrite IH, orb_false_r.
Qed.

(** X13. In [get_masks_and_segment_ids] the mask of special tokens is the
    conjunction of "is [CLS]" and "is [SEP]": when the two ids differ it
    marks nothing, and [ignore_start_end] has no effect: the loss mask is
    the subtokens mask when [ignore_extra_tokens] is set and the input mask
    otherwise, so that the loss is never masked at [CLS] and [SEP]. *)
Theorem get_masks_and_segment_ids_ignores_flag (input_ids : list (list Z))
    (subtokens_mask : list (list bool)) (pad_id cls_id sep_id : Z)
    (ignore_start_end ignore_extra_tokens : bool) :
  cls_id <> sep_id -> same_shape input_ids subtokens_mask ->
  (get_masks_and_segment_ids input_ids subtokens_mask pad_id cls_id sep_id ignore_start_end
     ignore_extra_tokens).2
  = if ignore_extra_tokens then subtokens_mask
    else array_map (fun x => negb (x =? pad_id)) input_ids.
Proof.
  intros Hids Hshape. unfold get_masks_and_segment_ids. cbn [snd].
  assert (Hspecial : array_zip andb (array_map (fun x => x =? cls_id) input_ids)
                       (array_map (fun x => x =? sep_id) input_ids)
                     = array_map (fun _ => false) input_ids).
  { unfold array_zip, array_map. clear Hshape.
    induction input_ids as [|row rows IH]; [done|]. simpl. rewrite IH. f_equal.
    clear IH. induction row as [|x row IH]; [done|]. simpl. rewrite IH. f_equal.
    destruct (Z.eqb_spec x cls_id), (Z.eqb_spec x sep_id); try done. congruence. }
  rewrite Hspecial.
  destruct ignore_start_end, ignore_extra_tokens; try done.
  - unfold array_zip, array_map. clear Hspecial Hshape.
    induction input_ids as [|row rows IH]; [done|]. simpl. rewrite IH. f_equal.
    rewrite zip_with_andb_true. rewrite take_ge; [done|]. by rewrite length_map.
  - unfold array_zip, array_map. clear Hspecial.
    induction Hshape as [|row m rows ms Hlen Hshape IH]; [done|]. simpl.
    rewrite IH. f_equal. rewrite zip_with_orb_false. apply take_ge. lia.
Qed.

Lemma get_masks_and_segment_ids_ignores_flag_witness :
  (get_masks_and_segment_ids [[101; 7; 8; 102; 0]] [[false; true; false; false; false]]
     0 101 102 true false).2
  = [[true; true; true; true; false]].
Proof.
  apply (get_masks_and_segment_ids_ignores_flag [[101; 7; 8; 102; 0]]
           [[false; true; false; false; false]] 0 101 102 true false).
  - lia.
  - repeat constructor.
Defined.

(** ** The progress consumer *)

Lemma map_const_replicate {A B} (c : B) (l : list A) :
  map (fun _ => c) l = replicate (length l) c.
Proof. induction l as [|x l IH]; [done|]. simpl. by rewrite IH. Qed.

Lemma account_sentinel totals st i t b :
  totals !! i = Some t -> prog st !! i = Some b ->
  account totals st i (-1)
  = Ok (MkProg (<[i := MkBar (bar_n b - 1) true]> (prog st)) (<[i := true]> (finished st))
          (queues st)
          (if bar_n b <? t then warnings st ++ [(bar_n b, t)] else warnings st)).
Proof.
  intros Ht Hb. unfold account. rewrite (getitem_Ok _ _ _ Ht), (getitem_Ok _ _ _ Hb).
  cbn [mbind result_bind]. change (-1 <? 0) with true. cbv beta iota.
  cbn [bar_n bar_closed].
  destruct (bar_n b + -1 >=? t); cbn [bar_n]; [by rewrite list_insert_insert_eq|done].
Qed.

Lemma poll_sentinel_exact totals st i vs t b :
  queues st !! i = Some (map Got vs ++ [Got (-1)]) -> -1 ∉ vs ->
  totals !! i = Some t -> prog st !! i = Some b ->
  poll totals st i
  = Ok (Returned
          (MkProg (<[i := MkBar (bar_n b - 1) true]> (prog st)) (<[i := true]> (finished st))
             (<[i := []]> (queues st))
             (if bar_n b <? t then warnings st ++ [(bar_n b, t)] else warnings st))).
Proof.
  intros Hq Hvs Ht Hb. unfold poll. rewrite (getitem_Ok _ _ _ Hq). cbn [mbind result_bind].
  rewrite (drain_sentinel vs [] 0 Hvs).
  cbv beta iota.
  rewrite (account_sentinel totals
             (MkProg (prog st) (finished st) (<[i := []]> (queues st)) (warnings st))
             i t b Ht Hb).
  reflexivity.
Qed.

Lemma unfinished_warnings_snoc (l : list Z) (t : Z) :
  unfinished_warnings (l ++ [t])
  = unfinished_warnings l ++ (if 0 <? t then [(0, t)] else []).
Proof.
  unfold unfinished_warnings. rewrite map_app, concat_app. simpl. by rewrite app_nil_r.
Qed.

Lemma insert_replicate_middle {A} (k m : nat) (a b : A) :
  <[k := a]> (replicate k a ++ replicate (S m) b) = replicate (S k) a ++ replicate m b.
Proof.
  induction k as [|k IH]; [done|]. cbn [replicate app]. cbn [replicate app] in IH.
  by rewrite <- IH.
Qed.

Lemma insert_replicate_drop {A} (k : nat) (a x : A) (l : list A) :
  l !! k = Some x ->
  <[k := a]> (replicate k a ++ drop k l) = replicate (S k) a ++ drop (S k) l.
Proof.
  revert l. induction k as [|k IH]; intros l Hk.
  - destruct l; [done|]. simpl. by rewrite drop_0.
  - destruct l as [|y l]; [done|]. simpl in Hk. cbn [replicate app drop].
    specialize (IH l Hk). cbn [replicate app] in IH. by rewrite <- IH.
Qed.

Lemma poll_all_sentinels (totals : list Z) (puts : list (list Z)) (m : nat) :
  forall k st,
    (k + m = length puts)%nat -> length totals = length puts ->
    Forall (fun vs => -1 ∉ vs) puts ->
    prog st = replicate k (MkBar (-1) true) ++ replicate m (MkBar 0 false) ->
    finished st = replicate k true ++ replicate m false ->
    queues st = replicate k [] ++ drop k (Progress_finish puts) ->
    warnings st = unfinished_warnings (take k totals) ->
    poll_all totals (seq k m) st
    = Ok (Returned (MkProg (replicate (k + m) (MkBar (-1) true)) (replicate (k + m) true)
                      (replicate (k + m) []) (unfinished_warnings totals))).
Proof.
  induction m as [|m IH]; intros k st Hkm Hlen Hvs Hprog Hfin Hq Hw.
  - simpl. rewrite Nat.add_0_r in *. destruct st as [p f q w]. simpl in *.
    rewrite Hprog, Hfin, Hq, Hw, !app_nil_r.
    rewrite drop_ge by (unfold Progress_finish; rewrite length_map; lia).
    rewrite take_ge by lia. by rewrite app_nil_r.
  - cbn [seq poll_all].
    destruct (lookup_lt_is_Some_2 puts k ltac:(lia)) as [vs Hk].
    destruct (lookup_lt_is_Some_2 totals k ltac:(lia)) as [t Ht].
    assert (Hqk : queues st !! k = Some (map Got vs ++ [Got (-1)])).
    { rewrite Hq, lookup_app_r by (rewrite length_replicate; lia).
      rewrite length_replicate, Nat.sub_diag, lookup_drop, Nat.add_0_r.
      unfold Progress_finish. by rewrite list_lookup_fmap, Hk. }
    assert (Hpk : prog st !! k = Some (MkBar 0 false)).
    { rewrite Hprog, lookup_app_r by (rewrite length_replicate; lia).
      by rewrite length_replicate, Nat.sub_diag. }
    assert (Hvk : -1 ∉ vs) by (rewrite Forall_forall in Hvs; apply Hvs; by eapply list_elem_of_lookup_2).
    rewrite (poll_sentinel_exact totals st k vs t _ Hqk Hvk Ht Hpk).
    cbn [mbind result_bind bar_n].
    rewrite IH; [by replace (S k + m)%nat with (k + S m)%nat by lia|lia|done|done| | | | ];
      cbn [prog finished queues warnings].
    + rewrite Hprog. apply insert_replicate_middle.
    + rewrite Hfin. apply insert_replicate_middle.
    + rewrite Hq. apply (insert_replicate_drop k [] (map Got vs ++ [Got (-1)])).
      unfold Progress_finish. by rewrite list_lookup_fmap, Hk.
    + rewrite Hw, (take_S_r _ _ t Ht), unfinished_warnings_snoc.
      change (0 <? t) with (0 <? t). destruct (0 <? t); [done|by rewrite app_nil_r].
Qed.

(** X14. The values that reach the consumer before the sentinel of their
    queue are never added to the bar.  Whatever the producers have put on
    the queues, once [Progress.finish] has put -1 on each of them the
    consumer returns, every bar is closed with its counter at -1, and a
    warning is logged for every bar whose total is positive. *)
Theorem show_prog_discards_progress (total : list Z) (desc unit : list str) (n : nat)
    (totals : list Z) (descs units : list str) (puts : list (list Z)) :
  Progress_init total desc unit = Ok (n, totals, descs, units) ->
  length puts = n ->
  Forall (fun vs => -1 ∉ vs) puts ->
  show_prog (Progress_finish puts) totals descs units
  = Ok (Returned (MkProg (replicate n (MkBar (-1) true)) (replicate n true)
                    (replicate n []) (unfinished_warnings totals))).
Proof.
  intros Hinit Hlen Hvs.
  destruct (Progress_init_lengths _ _ _ _ _ _ _ Hinit) as (Ht & Hd & Hu).
  unfold show_prog. cbn [show_prog_loop].
  assert (Hq : length (Progress_finish puts) = n)
    by (unfold Progress_finish; by rewrite length_map).
  cbn [queues].
  rewrite map_const_replicate. unfold zip3. rewrite !length_zip_with, Ht, Hd, Hu, Hq.
  replace (Nat.min (Nat.min n n) n) with n by lia.
  assert (Hall : forallb (fun b : bool => b) (replicate n true) = true).
  { clear. by induction n. }
  rewrite (poll_all_sentinels totals puts n 0); cbn [prog finished queues warnings].
  - cbn [mbind result_bind Nat.add finished]. by rewrite Hall.
  - lia.
  - lia.
  - done.
  - done.
  - done.
  - done.
  - done.
Qed.

Lemma show_prog_discards_progress_witness :
  show_prog two_queues [3; 7] [lit "a"; lit "a"] [lit "u"; lit "u"]
  = Ok (Returned (MkProg [MkBar (-1) true; MkBar (-1) true] [true; true] [[]; []]
                    [(0, 3); (0, 7)])).
Proof.
  apply (show_prog_discards_progress [3; 7] [lit "a"] [lit "u"] 2 [3; 7] [lit "a"; lit "a"]
           [lit "u"; lit "u"] [[3]; [2; 5]]).
  - reflexivity.
  - reflexivity.
  - repeat constructor; intros H; repeat (apply elem_of_cons in H as [H|H]; [lia|]);
      by apply elem_of_nil in H.
Defined.

(** ** Marking up batches *)

Lemma ceil8_ge (n : Z) : n <= ceil8 n.
Proof.
  unfold ceil8. pose proof (Z.div_mod (n + 7) 8 ltac:(lia)).
  pose proof (Z.mod_pos_bound (n + 7) 8 ltac:(lia)). lia.
Qed.

Lemma ceil8_mod (n : Z) : ceil8 n mod 8 = 0.
Proof. unfold ceil8. apply Z.mod_mul. lia. Qed.

Lemma ceil8_lt (n : Z) : ceil8 n < n + 8.
Proof.
  unfold ceil8. pose proof (Z.div_mod (n + 7) 8 ltac:(lia)).
  pose proof (Z.mod_pos_bound (n + 7) 8 ltac:(lia)). lia.
Qed.

Lemma for_each_unit {A} (body : unit -> A -> result unit) (l : list A) :
  (forall x, x ∈ l -> body tt x = Ok tt) -> for_each body l tt = Ok tt.
Proof.
  induction l as [|x l IH]; intros Hall; [done|]. cbn [for_each].
  rewrite Hall by (by left). cbn [mbind result_bind]. apply IH.
  intros y Hy. apply Hall. by right.
Qed.

Section MarkUpFacts.

Variable tokens_in_batch : Z.
Variable with_queue : bool.
Variable input_ids : list (list Z).

Lemma max_len_between_Ok (a b : Z) :
  0 <= a < b -> b <= zlen input_ids ->
  exists m, max_len_between input_ids a b = Ok m
            /\ (forall inp, inp ∈ py_slice input_ids a b -> zlen inp <= m)
            /\ (exists inp, inp ∈ py_slice input_ids a b /\ zlen inp = m).
Proof.
  intros Ha Hb. unfold max_len_between.
  assert (Hne : map zlen (py_slice input_ids a b) <> []).
  { rewrite py_slice_inside by lia. intros Hnil. apply (f_equal length) in Hnil.
    rewrite length_map, length_take, length_drop in Hnil. unfold zlen in *. simpl in Hnil. lia. }
  destruct (py_max_spec _ Hne) as (m & -> & Hin & Hub). exists m. split; [done|]. split.
  - intros inp Hinp. apply Hub. apply list_elem_of_fmap. by exists inp.
  - apply list_elem_of_fmap in Hin as (inp & -> & Hinp). by exists inp.
Qed.

Lemma py_slice_to_end (a : Z) :
  0 <= a <= zlen input_ids ->
  py_slice_from input_ids a = py_slice input_ids a (zlen input_ids).
Proof.
  intros Ha. unfold py_slice_from. rewrite py_slice_inside by lia.
  rewrite slice_bound_inside by lia. rewrite take_ge; [done|].
  rewrite length_drop. unfold zlen. lia.
Qed.


Lemma mark_progress_inv i st :
  mark_inv input_ids i st -> mark_inv input_ids i (mark_progress with_queue st).
Proof.
  unfold mark_progress, mark_inv. destruct with_queue; [|done].
  by destruct (_ >=? _).
Qed.

Lemma close_batch_inv (i batch_size : Z) st :
  mark_inv input_ids i st -> 0 <= i < zlen input_ids -> 1 <= batch_size <= i - mu_start st ->
  exists st', close_batch with_queue input_ids st i batch_size = Ok st' /\ mark_inv input_ids (i + 1) st'.
Proof.
  intros [Hb Hs] Hi Hsize. unfold close_batch.
  destruct (max_len_between_Ok (mu_start st) (mu_start st + batch_size) ltac:(lia) ltac:(lia))
    as (m & Hm & _).
  destruct (max_len_between_Ok (mu_start st + batch_size) (i + 1) ltac:(lia) ltac:(lia))
    as (m' & Hm' & _).
  rewrite Hm. cbn [mbind result_bind]. rewrite Hm'. cbn [mbind result_bind].
  eexists. split; [reflexivity|]. apply mark_progress_inv. split; simpl; [|lia].
  apply batched_snoc; [done|lia|lia|done].
Qed.

Lemma mark_up_step_inv (i : Z) (inp : list Z) st :
  mark_inv input_ids i st -> 0 <= i < zlen input_ids ->
  exists st', mark_up_step tokens_in_batch with_queue input_ids st i inp = Ok st'
              /\ mark_inv input_ids (i + 1) st'.
Proof.
  intros Hinv Hi. pose proof Hinv as [Hb Hs]. unfold mark_up_step.
  set (cm := Z.max _ _).
  assert (Hinv' : mark_inv input_ids i (MkMark (mu_start st) cm (mu_batch_beginnings st)
                                (mu_batch_sizes st) (mu_batch_seq_lengths st)
                                (mu_progress_made st) (mu_puts st))) by done.
  destruct (_ >? tokens_in_batch).
  - pose proof (Z.div_mod (i - mu_start st) 8 ltac:(lia)) as Hdm.
    pose proof (Z.mod_pos_bound (i - mu_start st) 8 ltac:(lia)) as Hmod.
    destruct (Z.eqb_spec ((i - mu_start st) / 8 * 8) 0) as [Hz|Hnz].
    + destruct (Z.gtb_spec i (mu_start st)) as [Hgt|Hle].
      * apply close_batch_inv; [done|done|simpl; lia].
      * eexists. split; [reflexivity|]. split; simpl; [|lia].
        by replace i with (mu_start st) by lia.
    + apply close_batch_inv; [done|done|simpl; lia].
  - eexists. split; [reflexivity|]. apply mark_progress_inv.
    destruct Hinv' as [? ?]. split; simpl in *; [done|lia].
Qed.

Lemma mark_up_loop_inv (rest : list (list Z)) : forall i st,
  mark_inv input_ids i st -> 0 <= i -> i + zlen rest = zlen input_ids ->
  exists st', mark_up_loop tokens_in_batch with_queue input_ids i rest st = Ok st'
              /\ mark_inv input_ids (zlen input_ids) st'.
Proof.
  induction rest as [|inp rest IH]; intros i st Hinv Hi Hlen.
  - exists st. split; [done|]. unfold zlen in Hlen at 1. simpl in Hlen.
    by replace (zlen input_ids) with i by lia.
  - cbn [mark_up_loop].
    assert (Hi' : 0 <= i < zlen input_ids) by (unfold zlen in *; simpl in Hlen; lia).
    destruct (mark_up_step_inv i inp st Hinv Hi') as (st1 & -> & Hinv1).
    cbn [mbind result_bind]. apply IH; [done|lia|]. unfold zlen in *. simpl in Hlen. lia.
Qed.

(** What the batches marked up to [stop] are like. *)
Lemma batched_facts bs szs sls stop :
  batched input_ids bs szs sls stop ->
  length bs = length szs /\ length sls = length szs /\ sumZ szs = stop /\ 0 <= stop
  /\ forall (j : nat) b s l,
       bs !! j = Some b -> szs !! j = Some s -> sls !! j = Some l ->
       b = sumZ (take j szs) /\ 1 <= s /\ 0 <= b /\ b + s <= zlen input_ids
       /\ (exists m, max_len_between input_ids b (b + s) = Ok m /\ l = ceil8 m)
       /\ (forall b', bs !! S j = Some b' -> b' = b + s).
Proof.
  induction 1 as [|bs szs sls start sz m Hb IH Hsz Hend Hm].
  - split_and!; try done; intros j b s l Hj; by rewrite lookup_nil in Hj.
  - destruct IH as (Hl1 & Hl2 & Hsum & Hpos & IH).
    rewrite !length_app, sumZ_app. simpl. split_and!; try lia.
    intros j b s l Hj Hs Hl.
    destruct (decide (j < length bs)%nat) as [Hlt|Hge].
    + rewrite lookup_app_l in Hj by lia. rewrite lookup_app_l in Hs by lia.
      rewrite lookup_app_l in Hl by lia.
      destruct (IH j b s l Hj Hs Hl) as (Hbj & Hsj & Hbpos & Hbe & Hmj & Hnext).
      split_and!; try done.
      * rewrite take_app_le by lia. done.
      * intros b'. destruct (decide (S j < length bs)%nat) as [Hlt'|Hge'].
        -- rewrite lookup_app_l by lia. apply Hnext.
        -- rewrite lookup_app_r by lia. replace (S j - length bs)%nat with 0%nat by lia.
           simpl. intros [= <-].
           assert (Hsplit : sumZ szs = sumZ (take j szs) + s).
           { rewrite <- (take_drop j szs) at 1. rewrite sumZ_app.
             rewrite (drop_S _ s j Hs). rewrite drop_ge by lia. simpl. lia. }
           lia.
    + assert (j = length bs) as ->.
      { apply lookup_lt_Some in Hj. rewrite length_app in Hj. simpl in Hj. lia. }
      rewrite list_lookup_middle in Hj by done. rewrite list_lookup_middle in Hs by lia.
      rewrite list_lookup_middle in Hl by lia.
      injection Hj as <-. injection Hs as <-. injection Hl as <-.
      split_and!; try lia.
      * rewrite take_app_le by lia. rewrite take_ge by lia. done.
      * by exists m.
      * intros b' Hb'. apply lookup_lt_Some in Hb'. rewrite length_app in Hb'. simpl in Hb'. lia.
Qed.

(** [mark_up_batches] returns, and what it returns are batches of all the
    sequences. *)
Lemma mark_up_batches_batched :
  exists batch_beginnings batch_sizes batch_seq_lengths puts,
    mark_up_batches tokens_in_batch with_queue input_ids
    = Ok (batch_beginnings, batch_sizes, batch_seq_lengths, puts)
    /\ batched input_ids batch_beginnings batch_sizes batch_seq_lengths (zlen input_ids).
Proof.
  unfold mark_up_batches.
  destruct (mark_up_loop_inv input_ids 0 (MkMark 0 0 [] [] [] 0 []))
    as (st & -> & [Hb Hs]); [split; [constructor|simpl; lia]|lia|lia|].
  cbn [mbind result_bind].
  (* the last batch *)
  assert (Hlast : exists st',
            (if mu_start st <? zlen input_ids then
               m ← py_max (map zlen (py_slice_from input_ids (mu_start st)));
               Ok (MkMark (mu_start st) (mu_current_max_length st)
                     (mu_batch_beginnings st ++ [mu_start st])
                     (mu_batch_sizes st ++ [zlen input_ids - mu_start st])
                     (mu_batch_seq_lengths st ++ [ceil8 m])
                     (mu_progress_made st)
                     (if with_queue then mu_puts st ++ [mu_progress_made st] else mu_puts st))
             else Ok st) = Ok st'
            /\ batched input_ids (mu_batch_beginnings st') (mu_batch_sizes st')
                 (mu_batch_seq_lengths st') (zlen input_ids)).
  { destruct (Z.ltb_spec (mu_start st) (zlen input_ids)) as [Hlt|Hge].
    - destruct (max_len_between_Ok (mu_start st) (zlen input_ids) ltac:(lia) ltac:(lia))
        as (m & Hm & _).
      rewrite py_slice_to_end by lia. unfold max_len_between in Hm. rewrite Hm.
      cbn [mbind result_bind]. eexists. split; [reflexivity|]. simpl.
      replace (zlen input_ids) with (mu_start st + (zlen input_ids - mu_start st)) at 2 by lia.
      apply batched_snoc; [done|lia|lia|].
      unfold max_len_between.
      by replace (mu_start st + (zlen input_ids - mu_start st)) with (zlen input_ids) by lia.
    - exists st. split; [done|]. by replace (zlen input_ids) with (mu_start st) by lia. }
  destruct Hlast as (st' & -> & Hb'). cbn [mbind result_bind].
  destruct (batched_facts _ _ _ _ Hb') as (Hl1 & Hl2 & Hsum & _ & Hfacts).
  rewrite Hsum, Z.eqb_refl. cbn [py_assert mbind result_bind].
  rewrite for_each_unit.
  2:{ intros i Hi. unfold py_range in Hi. apply elem_of_seqZ in Hi.
      unfold zlen in Hi. unfold check_batch.
      destruct (lookup_lt_is_Some_2 (mu_batch_beginnings st') (Z.to_nat i) ltac:(lia))
        as [b Hbi].
      destruct (lookup_lt_is_Some_2 (mu_batch_sizes st') (Z.to_nat i) ltac:(lia)) as [s Hsi].
      destruct (lookup_lt_is_Some_2 (mu_batch_seq_lengths st') (Z.to_nat i) ltac:(lia))
        as [l Hli].
      destruct (lookup_lt_is_Some_2 (mu_batch_beginnings st') (Z.to_nat (i + 1)) ltac:(lia))
        as [b' Hbi'].
      destruct (Hfacts _ _ _ _ Hbi Hsi Hli) as (_ & _ & _ & _ & (m & Hm & ->) & Hnext).
      replace (Z.to_nat (i + 1)) with (S (Z.to_nat i)) in Hbi' by lia.
      rewrite (Hnext b' Hbi') in Hbi'.
      rewrite (getitem_Ok _ _ _ Hbi), (getitem_Ok _ _ _ Hsi). cbn [mbind result_bind].
      replace (Z.to_nat (i + 1)) with (S (Z.to_nat i)) by lia.
      rewrite (getitem_Ok _ _ _ Hbi'). cbn [mbind result_bind].
      rewrite Z.eqb_refl. cbn [py_assert mbind result_bind].
      rewrite (getitem_Ok _ _ _ Hli), Hm. cbn [mbind result_bind].
      pose proof (ceil8_ge m). destruct (Z.geb_spec (ceil8 m) m); [done|lia]. }
  cbn [mbind result_bind]. eexists _, _, _, _. split; [reflexivity|]. exact Hb'.
Qed.

(** X15. [mark_up_batches] returns for every list of sequences and every
    [tokens_in_batch]: none of its assertions fails and [max] is never
    called on an empty list.  The batches follow one another from sequence 0
    to the last one, so that every sequence, even one that alone exceeds
    [tokens_in_batch], is in exactly one batch; no batch is empty; and the
    length of a batch is a multiple of 8, at least the length of each of its
    sequences and less than 8 more than the longest one. *)
Theorem mark_up_batches_spec :
  exists batch_beginnings batch_sizes batch_seq_lengths puts,
    mark_up_batches tokens_in_batch with_queue input_ids
    = Ok (batch_beginnings, batch_sizes, batch_seq_lengths, puts)
    /\ length batch_beginnings = length batch_sizes
    /\ length batch_seq_lengths = length batch_sizes
    /\ sumZ batch_sizes = zlen input_ids
    /\ forall (j : nat) b s l,
         batch_beginnings !! j = Some b -> batch_sizes !! j = Some s ->
         batch_seq_lengths !! j = Some l ->
         b = sumZ (take j batch_sizes) /\ 1 <= s /\ l mod 8 = 0
         /\ (forall inp, inp ∈ py_slice input_ids b (b + s) -> zlen inp <= l)
         /\ (exists inp, inp ∈ py_slice input_ids b (b + s) /\ l < zlen inp + 8).
Proof.
  destruct mark_up_batches_batched as (bs & szs & sls & puts & Hrun & Hb').
  exists bs, szs, sls, puts. split; [exact Hrun|].
  destruct (batched_facts _ _ _ _ Hb') as (Hl1 & Hl2 & Hsum & _ & Hfacts).
  split; [done|]. split; [done|]. split; [done|].
  intros j b s l Hj Hsj Hlj.
  destruct (Hfacts _ _ _ _ Hj Hsj Hlj) as (Hbj & Hs1 & Hb0 & Hend & (m & Hm & ->) & _).
  split; [done|]. split; [done|]. split; [apply ceil8_mod|].
  destruct (max_len_between_Ok b (b + s) ltac:(lia) ltac:(lia)) as (m' & Hm' & Hub & Hex).
  rewrite Hm in Hm'. injection Hm' as <-. split.
  - intros inp Hinp. pose proof (Hub inp Hinp). pose proof (ceil8_ge m). lia.
  - destruct Hex as (inp & Hinp & Hz). exists inp. split; [done|].
    pose proof (ceil8_lt m). lia.
Qed.

End MarkUpFacts.

(** ** Features for inference *)

Lemma py_range_step_pos (b step : Z) :
  0 < step ->
  exists starts, py_range_step 0 b step = Ok starts
    /\ zlen starts = Z.max 0 ((b + step - 1) / step)
    /\ (forall i, i ∈ starts <-> exists k, 0 <= k < (b + step - 1) / step /\ i = k * step).
Proof.
  intros Hstep. unfold py_range_step.
  destruct (Z.eqb_spec step 0) as [|_]; [lia|]. destruct (Z.ltb_spec 0 step) as [_|]; [|lia].
  rewrite Z.sub_0_r. eexists. split; [reflexivity|]. split.
  - unfold zlen. rewrite length_map, length_seqZ. lia.
  - intros i. rewrite list_elem_of_fmap. split.
    + intros (k & -> & Hk). apply elem_of_seqZ in Hk. exists k. split; lia.
    + intros (k & Hk & ->). exists k. split; [lia|]. apply elem_of_seqZ. lia.
Qed.

Lemma py_range_step_back (step : Z) :
  step < 0 -> py_range_step 0 step step = Ok [0].
Proof.
  intros Hstep. unfold py_range_step.
  destruct (Z.eqb_spec step 0) as [|_]; [lia|]. destruct (Z.ltb_spec 0 step) as [|_]; [lia|].
  replace ((0 - step - step - 1) / - step) with 1.
  - rewrite (seqZ_cons 0 1) by lia. rewrite seqZ_nil by lia. done.
  - apply Z.div_unique with (r := - step - 1); lia.
Qed.

Lemma zip_replicate_map {A B} (c : A) (f : Z -> B) (l : list Z) :
  zip (replicate (Z.to_nat (zlen (map f l))) c) (map f l) = map (fun x => (c, f x)) l.
Proof.
  unfold zlen. rewrite Nat2Z.id, length_map.
  induction l as [|x l IH]; [done|]. simpl. by rewrite IH.
Qed.

Lemma zip_concat {A B} (xs : list (list A)) (ys : list (list B)) :
  Forall2 (fun x y => length x = length y) xs ys ->
  zip (concat xs) (concat ys) = concat (zip_with zip xs ys).
Proof.
  induction 1 as [|x y xs ys Hlen _ IH]; [done|].
  change (zip_with zip (x :: xs) (y :: ys)) with (zip x y :: zip_with zip xs ys).
  rewrite !concat_cons. by rewrite zip_with_app, IH.
Qed.

Lemma starts_cover (n length step : Z) (starts : list Z) :
  0 < step <= length ->
  py_range_step 0 (Z.max n length - length + step) step = Ok starts ->
  1 <= zlen starts
  /\ forall p, 0 <= p < n -> exists i, i ∈ starts /\ i <= p < i + length.
Proof.
  intros Hstep Hrange.
  destruct (py_range_step_pos (Z.max n length - length + step) step ltac:(lia))
    as (starts' & Heq & Hlen & Hin).
  rewrite Heq in Hrange. injection Hrange as ->.
  set (stop := Z.max n length - length + step) in *.
  set (c := (stop + step - 1) / step) in *.
  pose proof (Z.div_mod (stop + step - 1) step ltac:(lia)) as Hdm.
  pose proof (Z.mod_pos_bound (stop + step - 1) step ltac:(lia)) as Hmod.
  fold c in Hdm.
  assert (Hc : 1 <= c) by (apply Z.div_le_lower_bound; lia).
  split; [lia|]. intros p Hp.
  pose proof (Z.div_mod p step ltac:(lia)) as Hpd.
  pose proof (Z.mod_pos_bound p step ltac:(lia)) as Hpm.
  destruct (Z.le_gt_cases (p / step) (c - 1)) as [Hle|Hgt].
  - exists (p / step * step). split.
    + apply Hin. exists (p / step). split; [|done]. split; [|lia].
      apply Z.div_pos; lia.
    + lia.
  - exists ((c - 1) * step). split.
    + apply Hin. exists (c - 1). split; [lia|done].
    + subst stop. nia.
Qed.

Lemma concat_lengths {R A B} (f : R -> list A) (g : R -> list B) (rows : list R) :
  Forall (fun r => List.length (f r) = List.length (g r)) rows ->
  List.length (concat (map f rows)) = List.length (concat (map g rows)).
Proof.
  induction 1 as [|r rows Hr _ IH]; [done|]. simpl. rewrite !length_app. lia.
Qed.

Lemma elem_of_zip_rows {R A B} (a : R -> list A) (b : R -> list B) (rows : list R)
    (k : nat) (row : R) (x : A * B) :
  Forall (fun r => List.length (a r) = List.length (b r)) rows ->
  rows !! k = Some row -> x ∈ zip (a row) (b row) ->
  x ∈ zip (concat (map a rows)) (concat (map b rows)).
Proof.
  intros Hall. revert k. induction Hall as [|r rows Hr _ IH]; intros k Hk Hx; [done|].
  rewrite !map_cons, !concat_cons. rewrite zip_with_app by done.
  apply elem_of_app.
  destruct k as [|k]; simpl in Hk.
  - injection Hk as ->. by left.
  - right. by eapply IH.
Qed.

Section InferenceFacts.

Variable token : Type.
Variable text_to_tokens : str -> list token.
Variable tokens_to_ids : list token -> list Z.
Variable cls_token sep_token : token.

Local Abbreviation subtokens := (subtokens_of token text_to_tokens).
Local Abbreviation row_of := (segments_row token tokens_to_ids cls_token sep_token).
Local Abbreviation ids_at :=
  (segment_ids_at token text_to_tokens tokens_to_ids cls_token sep_token).


Lemma query_segments_eq length step acc q :
  query_segments token tokens_to_ids cls_token sep_token length step acc q
  = starts ← py_range_step 0 (Z.max (zlen q.2.1) length - length + step) step;
    Ok (acc ++ [row_of length q starts]).
Proof. by destruct q as [q_i [query_st query_stm]]. Qed.

Lemma query_segments_loop length step (l : list (Z * (list token * list Z))) : forall acc,
  Forall (fun q => exists starts,
            py_range_step 0 (Z.max (zlen q.2.1) length - length + step) step = Ok starts) l ->
  exists rows,
    for_each (query_segments token tokens_to_ids cls_token sep_token length step) l acc
    = Ok (acc ++ rows)
    /\ Forall2 (fun row q => exists starts,
                  py_range_step 0 (Z.max (zlen q.2.1) length - length + step) step = Ok starts
                  /\ row = row_of length q starts) rows l.
Proof.
  induction l as [|q l IH]; intros acc Hall.
  - exists []. simpl. rewrite app_nil_r. split; [done|constructor].
  - apply Forall_cons in Hall as [[starts Hq] Hall]. cbn [for_each].
    rewrite query_segments_eq, Hq. cbn [mbind result_bind].
    destruct (IH (acc ++ [row_of length q starts]) Hall) as (rows & -> & Hrows).
    exists (row_of length q starts :: rows). split; [by rewrite <- app_assoc|].
    constructor; [by exists starts|done].
Qed.


Lemma check_accepted max_seq_length margin step :
  accepted max_seq_length margin step ->
  _check_max_seq_length_and_margin_and_step max_seq_length margin step = Ok tt.
Proof.
  intros (HM & Hm & Hmargin & Hstep). unfold _check_max_seq_length_and_margin_and_step.
  destruct (Z.ltb_spec max_seq_length 3) as [|_]; [lia|].
  destruct (Z.geb_spec margin ((max_seq_length - 2) / 2)),
    (Z.gtb_spec margin 0), (Z.ltb_spec margin 0); simpl; try lia;
    destruct (Z.leb_spec step 0); try lia; done.
Qed.

(** X16. [get_features_infer] with accepted parameters and at least one
    query.  When the longest query has exactly [2 * margin] subtokens, the
    step is reduced to 0 and [range] raises [ValueError]: so it is with the
    default margin of 16 and a longest query of 32 subtokens.  In every
    other case the function returns; its eight columns have the same
    length; and the segments of a query cover it: every subtoken of the
    query lies in the window of one of the segments listed for that
    query. *)
Theorem get_features_infer_spec (queries : list str) (max_seq_length step margin longest : Z) :
  accepted max_seq_length margin step ->
  py_max (map (fun q => zlen (subtokens q)) queries) = Ok longest ->
  let length := Z.min max_seq_length (longest + 2) - 2 in
  match get_features_infer token text_to_tokens tokens_to_ids cls_token sep_token queries
          max_seq_length step margin with
  | Raise e =>
      e = ValueError (lit "range() arg 3 must not be zero") /\ longest = 2 * margin
  | Ok f =>
      longest <> 2 * margin
      /\ List.length (all_segment_ids f) = List.length (all_input_ids f)
      /\ List.length (all_input_mask f) = List.length (all_input_ids f)
      /\ List.length (all_subtokens_mask f) = List.length (all_input_ids f)
      /\ List.length (all_quantities_of_preceding_words f) = List.length (all_input_ids f)
      /\ List.length (all_query_ids f) = List.length (all_input_ids f)
      /\ List.length (all_is_first f) = List.length (all_input_ids f)
      /\ List.length (all_is_last f) = List.length (all_input_ids f)
      /\ forall (q_i : nat) query p,
           queries !! q_i = Some query -> 0 <= p < zlen (subtokens query) ->
           exists i, i <= p < i + length
                     /\ (Z.of_nat q_i, ids_at query length i)
                        ∈ zip (all_query_ids f) (all_input_ids f)
  | OutOfFuel => False
  end.
Proof.
  intros Hacc Hmax length. pose proof Hacc as (HM & Hm & Hmargin & Hstep).
  unfold get_features_infer. rewrite (check_accepted _ _ _ Hacc). cbn [mbind result_bind].
  rewrite map_map. change (fun x : str => zlen (_get_subtokens_and_subtokens_mask token
                             text_to_tokens x).1) with (fun q : str => zlen (subtokens q)).
  rewrite Hmax. cbn [mbind result_bind]. fold length.
  set (step' := Z.min (length - margin * 2) step).
  set (tokenized := map (_get_subtokens_and_subtokens_mask token text_to_tokens) queries).
  assert (Hne : queries <> []) by (intros ->; discriminate).
  assert (Hne' : map (fun q => zlen (subtokens q)) queries <> [])
    by (by destruct queries).
  destruct (py_max_spec _ Hne') as (mx & Hmx & Hin & Hub).
  rewrite Hmax in Hmx. injection Hmx as <-.
  assert (Hlongest : 0 <= longest).
  { apply list_elem_of_fmap in Hin as (q & -> & _). unfold zlen. lia. }
  assert (Hhalf : margin = 0 \/ 2 * margin + 2 <= max_seq_length - 2).
  { destruct Hmargin as [|Hlt]; [by left|right].
    pose proof (Z.div_mod (max_seq_length - 2) 2 ltac:(lia)).
    pose proof (Z.mod_pos_bound (max_seq_length - 2) 2 ltac:(lia)). lia. }
  destruct (decide (longest = 2 * margin)) as [Heq|Hneq].
  - (* the step becomes 0 *)
    assert (Hstep0 : step' = 0) by (unfold step', length; lia).
    rewrite Hstep0. destruct queries as [|q qs]; [done|].
    unfold tokenized, enumerate. cbn [map imap for_each].
    rewrite query_segments_eq. by cbn.
  - assert (Hstep' : step' <> 0) by (unfold step', length; lia).
    assert (Hsmall : step' < 0 -> length = longest) by (unfold step', length; lia).
    assert (Hranges : forall q : Z * (list token * list Z),
              q ∈ enumerate tokenized ->
              exists starts,
                py_range_step 0 (Z.max (zlen q.2.1) length - length + step') step' = Ok starts
                /\ 1 <= zlen starts
                /\ forall p, 0 <= p < zlen q.2.1 ->
                             exists i, i ∈ starts /\ i <= p < i + length).
    { intros q Hq. apply elem_of_lookup_imap in Hq as (k & t & -> & Hk). cbn [fst snd].
      unfold tokenized in Hk. rewrite list_lookup_fmap in Hk.
      destruct (queries !! k) as [query|] eqn:Hquery; [|done]. injection Hk as <-.
      fold (subtokens query).
      assert (Hle : zlen (subtokens query) <= longest).
      { apply Hub. apply list_elem_of_fmap. exists query. split; [done|].
        by eapply list_elem_of_lookup_2. }
      destruct (Z.lt_trichotomy step' 0) as [Hneg|[|Hpos]]; [|done|].
      - specialize (Hsmall Hneg).
        replace (Z.max (zlen (subtokens query)) length - length + step') with step' by lia.
        exists [0]. split; [by apply py_range_step_back|]. split; [done|].
        intros p Hp. exists 0. split; [by left|lia].
      - destruct (py_range_step_pos (Z.max (zlen (subtokens query)) length - length + step')
                    step' Hpos) as (starts & Hs & _).
        exists starts. split; [done|].
        apply (starts_cover (zlen (subtokens query)) length step' starts); [|done].
        unfold step'. lia. }
    destruct (query_segments_loop length step' (enumerate tokenized) [])
      as (rows & -> & Hrows).
    { apply Forall_forall. intros q Hq. destruct (Hranges q Hq) as (starts & ? & _).
      by exists starts. }
    cbn [mbind result_bind app].
    assert (Hcols : Forall (fun row =>
              List.length (all_segment_ids row) = List.length (all_input_ids row)
              /\ List.length (all_input_mask row) = List.length (all_input_ids row)
              /\ List.length (all_subtokens_mask row) = List.length (all_input_ids row)
              /\ List.length (all_quantities_of_preceding_words row)
                 = List.length (all_input_ids row)
              /\ List.length (all_query_ids row) = List.length (all_input_ids row)
              /\ List.length (all_is_first row) = List.length (all_input_ids row)
              /\ List.length (all_is_last row) = List.length (all_input_ids row)) rows).
    { apply Forall_forall. intros row Hrow.
      apply list_elem_of_lookup in Hrow as [k Hk].
      destruct (Forall2_lookup_l _ _ _ _ _ Hrows Hk) as (q & Hq & starts & Hs & ->).
      apply list_elem_of_lookup_2 in Hq.
      destruct (Hranges q Hq) as (starts' & Hs' & Hlen & _).
      rewrite Hs in Hs'. injection Hs' as <-.
      unfold segments_row. cbn. unfold zlen in *.
      rewrite !length_app, !length_map, !length_replicate. cbn. lia. }
    split; [done|]. cbn [all_input_ids all_segment_ids all_input_mask all_subtokens_mask
                         all_quantities_of_preceding_words all_query_ids all_is_first
                         all_is_last].
    split; [apply concat_lengths; eapply Forall_impl; [exact Hcols|]; by intros ? (?&?&?&?&?&?&?)|].
    split; [apply concat_lengths; eapply Forall_impl; [exact Hcols|]; by intros ? (?&?&?&?&?&?&?)|].
    split; [apply concat_lengths; eapply Forall_impl; [exact Hcols|]; by intros ? (?&?&?&?&?&?&?)|].
    split; [apply concat_lengths; eapply Forall_impl; [exact Hcols|]; by intros ? (?&?&?&?&?&?&?)|].
    split; [apply concat_lengths; eapply Forall_impl; [exact Hcols|]; by intros ? (?&?&?&?&?&?&?)|].
    split; [apply concat_lengths; eapply Forall_impl; [exact Hcols|]; by intros ? (?&?&?&?&?&?&?)|].
    split; [apply concat_lengths; eapply Forall_impl; [exact Hcols|]; by intros ? (?&?&?&?&?&?&?)|].
    intros q_i query p Hquery Hp.
    assert (Hq : enumerate tokenized !! q_i
                 = Some (Z.of_nat q_i,
                         _get_subtokens_and_subtokens_mask token text_to_tokens query)).
    { unfold enumerate, tokenized. by rewrite list_lookup_imap, list_lookup_fmap, Hquery. }
    destruct (Forall2_lookup_r _ _ _ _ _ Hrows Hq) as (row & Hrow & starts & Hs & ->).
    destruct (Hranges _ (list_elem_of_lookup_2 _ _ _ Hq)) as (starts' & Hs' & _ & Hcover).
    rewrite Hs in Hs'. injection Hs' as <-.
    destruct (Hcover p Hp) as (i & Hi & Hwin). exists i. split; [done|].
    eapply (elem_of_zip_rows all_query_ids all_input_ids); [|exact Hrow|].
    + eapply Forall_impl; [exact Hcols|]. by intros ? (?&?&?&?&?&?&?).
    + unfold segments_row. cbn [all_query_ids all_input_ids fst snd].
      rewrite zip_replicate_map. apply list_elem_of_fmap. by exists i.
Qed.

End InferenceFacts.

Lemma get_features_infer_spec_witness :
  exists e,
    get_features_infer N characters (map Z.of_N) 1%N 2%N [lit "hello you"; lit "abcd"] 64 8 4
    = Raise e.
Proof.
  pose proof (get_features_infer_spec N characters (map Z.of_N) 1%N 2%N
                [lit "hello you"; lit "abcd"] 64 8 4 8
                ltac:(unfold accepted; vm_compute; intuition discriminate)
                ltac:(reflexivity)) as H.
  cbv zeta in H.
  destruct (get_features_infer _ _ _ _ _ _ _ _ _) as [f|e|] eqn:E.
  - exfalso. destruct H as [H _]. by apply H.
  - by exists e.
  - destruct H.
Defined.

(** ** Tokenization of the training queries *)

Lemma maybe_clip_length {A} (max_seq_length : Z) (values : list A) (prepend_value : A) :
  2 <= max_seq_length ->
  zlen (maybe_clip max_seq_length values prepend_value) = Z.min (zlen values) max_seq_length.
Proof.
  intros Hmax. unfold maybe_clip, py_slice_from, slice_bound.
  destruct (Z.gtb_spec (zlen values) max_seq_length) as [Hlong|Hshort]; [|lia].
  destruct (Z.ltb_spec (- max_seq_length + 1) 0) as [_|]; [|lia].
  unfold zlen in *. simpl. rewrite length_drop. lia.
Qed.

Lemma for_each_inv_elem {S A} (P : S -> Prop) (body : S -> A -> result S) l :
  (forall s x s', x ∈ l -> P s -> body s x = Ok s' -> P s') ->
  forall s0 s, P s0 -> for_each body l s0 = Ok s -> P s.
Proof.
  induction l as [|x l IH]; intros Hstep s0 s HP Hrun; simpl in Hrun.
  - by injection Hrun as <-.
  - destruct (body s0 x) as [s1| |] eqn:Hb; simpl in Hrun; try discriminate.
    eapply IH; [|exact (Hstep s0 x s1 ltac:(by left) HP Hb)|exact Hrun].
    intros s' y s'' Hy. apply Hstep. by right.
Qed.

Lemma split_ws_from_nonempty (s : str) : forall cur,
  Forall (fun w => w <> []) (split_ws_from cur s).
Proof.
  induction s as [|c s IH]; intros cur; simpl.
  - destruct cur as [|d cur]; [constructor|]. apply Forall_singleton.
    intros Hnil. apply (f_equal (@length N)) in Hnil. rewrite length_rev in Hnil. done.
  - destruct (is_space c).
    + destruct cur as [|d cur]; [apply IH|]. constructor; [|apply IH].
      intros Hnil. apply (f_equal (@length N)) in Hnil. rewrite length_rev in Hnil. done.
    + apply IH.
Qed.

Section TokenizeFacts.

Variable text_to_ids : str -> list Z.
Variable cls_id sep_id : Z.
Variable max_seq_length : Z.
Variable punct_label_ids capit_label_ids : gmap (list N) Z.
Variable pad_label : str.
Variable punctuation_labels_message capitalization_labels_message :
  list str -> str -> Z -> Z -> list str -> list str -> str.

Hypothesis every_word_has_ids : forall word, word <> [] -> text_to_ids word <> [].
Hypothesis room_for_a_token : 2 <= max_seq_length.


Lemma tokenize_word_lengths query_labels st jw st' :
  jw.2 <> [] ->
  tokenize_word text_to_ids st jw (Some query_labels) = Ok st' ->
  zlen st.1.1.2 = zlen st.1.1.1 -> zlen st.1.2 = zlen st.1.1.1 -> zlen st.2 = zlen st.1.1.1 ->
  zlen st'.1.1.2 = zlen st'.1.1.1 /\ zlen st'.1.2 = zlen st'.1.1.1
  /\ zlen st'.2 = zlen st'.1.1.1.
Proof.
  destruct st as [[[ids mask] punct] capit], jw as [j word], query_labels as [pq cq].
  intros Hword. unfold tokenize_word. cbn [fst snd] in *.
  destruct (getitem pq _) as [p| |]; cbn [mbind result_bind]; try discriminate.
  destruct (getitem cq _) as [c| |]; cbn [mbind result_bind]; try discriminate.
  intros [= <-] Hm Hp Hc. cbn [fst snd].
  pose proof (every_word_has_ids word Hword) as Hne.
  assert (Hpos : (0 < length (text_to_ids word))%nat)
    by (destruct (text_to_ids word); [done|simpl; lia]).
  unfold zlen in *. rewrite !length_app, !length_replicate. simpl. lia.
Qed.

(** X17. With labels, a tokenizer that gives every word at least one id
    and a maximum length of at least 2, what
    [TokenizeCreateMasksClipWorker.__call__] returns is aligned: for every
    query the input ids, the subtokens mask, the punctuation labels and the
    capitalization labels have the same length, which is the length recorded
    in [sent_lengths] or, when that is larger, [max_seq_length]; and there is
    one entry per query in each of the five lists. *)
Theorem tokenize_worker_aligned (queries : list str)
    (punct_labels_lines capit_labels_lines : list (list str)) (split_i : Z) (t : tokenized) :
  TokenizeCreateMasksClipWorker_call text_to_ids cls_id sep_id max_seq_length punct_label_ids
    capit_label_ids pad_label true punctuation_labels_message capitalization_labels_message
    queries punct_labels_lines capit_labels_lines split_i = Ok t ->
  aligned max_seq_length t /\ length (tk_all_input_ids t) = length queries.
Proof.
  unfold TokenizeCreateMasksClipWorker_call.
  assert (Hgen : forall (l : list (Z * str)) st0,
            aligned max_seq_length st0 ->
            for_each (tokenize_query text_to_ids cls_id sep_id max_seq_length punct_label_ids
                        capit_label_ids pad_label true punctuation_labels_message
                        capitalization_labels_message split_i punct_labels_lines
                        capit_labels_lines) l st0 = Ok t ->
            aligned max_seq_length t
            /\ length (tk_all_input_ids t) = (length (tk_all_input_ids st0) + length l)%nat).
  { induction l as [|[i query] l IH]; intros st0 Hal Hrun.
    - simpl in Hrun. injection Hrun as <-. split; [done|simpl; lia].
    - cbn [for_each] in Hrun.
      destruct (tokenize_query _ _ _ _ _ _ _ _ _ _ _ _ _ st0 (i, query)) as [st1| |] eqn:Hq;
        cbn [mbind result_bind] in Hrun; try discriminate.
      assert (H1 : aligned max_seq_length st1 /\ length (tk_all_input_ids st1)
                                  = S (length (tk_all_input_ids st0))).
      { revert Hq. unfold tokenize_query.
        destruct (getitem punct_labels_lines _) as [pl| |]; cbn [mbind result_bind];
          try discriminate.
        destruct (getitem capit_labels_lines _) as [cl| |]; cbn [mbind result_bind];
          try discriminate.
        destruct (check_number_of_labels _ _ _ _ _ _ _ _) as [[]| |];
          cbn [mbind result_bind]; try discriminate.
        destruct (label_id _ _) as [pad_id| |]; cbn [mbind result_bind]; try discriminate.
        destruct (label_ids_of punct_label_ids pl) as [pq| |]; cbn [mbind result_bind];
          try discriminate.
        destruct (label_ids_of capit_label_ids cl) as [cq| |]; cbn [mbind result_bind];
          try discriminate.
        destruct (for_each _ (enumerate _) _) as [w| |] eqn:Hwords;
          cbn [mbind result_bind]; try discriminate.
        destruct w as [[[ids mask] punct] capit].
        assert (Hlens : zlen mask = zlen ids /\ zlen punct = zlen ids /\ zlen capit = zlen ids).
        { refine (for_each_inv_elem
                    (fun st : list Z * list Z * list Z * list Z =>
                       zlen st.1.1.2 = zlen st.1.1.1 /\ zlen st.1.2 = zlen st.1.1.1
                       /\ zlen st.2 = zlen st.1.1.1)
                    _ _ _ _ (ids, mask, punct, capit) _ Hwords); [|done].
          intros st jw st' Hjw (Hm & Hp & Hc) Hstep.
          apply (tokenize_word_lengths (pq, cq) st jw st'); try done.
          apply elem_of_lookup_imap in Hjw as (k & w & -> & Hk). cbn [snd].
          pose proof (split_ws_from_nonempty (strip query) []) as Hall.
          rewrite Forall_forall in Hall. apply Hall. by eapply list_elem_of_lookup_2. }
        destruct Hlens as (Hm & Hp & Hc).
        destruct Hal as (A1 & A2 & A3 & A4).
        assert (Hsnoc : forall (P : list Z -> list Z -> Prop) xs ys x y,
                  Forall2 P xs ys -> P x y -> Forall2 P (xs ++ [x]) (ys ++ [y])).
        { intros P xs ys x y Hxs Hxy. apply Forall2_app; [done|]. by constructor. }
        assert (Hsnoc' : forall (P : list Z -> Z -> Prop) xs ys x y,
                  Forall2 P xs ys -> P x y -> Forall2 P (xs ++ [x]) (ys ++ [y])).
        { intros P xs ys x y Hxs Hxy. apply Forall2_app; [done|]. by constructor. }
        assert (Hrow : zlen (maybe_clip max_seq_length (mask ++ [0]) 0)
                       = zlen (maybe_clip max_seq_length (ids ++ [sep_id]) cls_id)
                       /\ zlen (maybe_clip max_seq_length (punct ++ [pad_id]) pad_id)
                          = zlen (maybe_clip max_seq_length (ids ++ [sep_id]) cls_id)
                       /\ zlen (maybe_clip max_seq_length (capit ++ [pad_id]) pad_id)
                          = zlen (maybe_clip max_seq_length (ids ++ [sep_id]) cls_id)
                       /\ zlen (maybe_clip max_seq_length (ids ++ [sep_id]) cls_id)
                          = Z.min (zlen (ids ++ [sep_id])) max_seq_length).
        { rewrite !maybe_clip_length by done. unfold zlen in *. rewrite !length_app.
          simpl. lia. }
        destruct Hrow as (R1 & R2 & R3 & R4).
        destruct (_ >=? _); intros [= <-]; (split; [|cbn; rewrite length_app; simpl; lia]);
          unfold aligned; cbn [tk_all_input_ids tk_all_subtokens_mask tk_sent_lengths
                               tk_punct_all_labels tk_capit_all_labels];
          (split; [by apply Hsnoc|]); (split; [by apply Hsnoc|]);
          (split; [by apply Hsnoc|by apply Hsnoc']). }
      destruct H1 as [Hal1 Hlen1]. destruct (IH st1 Hal1 Hrun) as [Halt Hlen].
      split; [done|]. simpl. lia. }
  intros Hrun.
  assert (H0 : aligned max_seq_length (MkTokenized [] [] [] [] [] 0 [])) by (repeat split; constructor).
  destruct (Hgen _ _ H0 Hrun) as [Hal Hlen].
  split; [done|]. rewrite Hlen. unfold enumerate. by rewrite length_imap.
Qed.

End TokenizeFacts.

Lemma tokenize_worker_aligned_witness :
  exists t,
    TokenizeCreateMasksClipWorker_call (map Z.of_N) 101 102 8
      {[ lit "O" := 0; lit "," := 1 ]} {[ lit "O" := 0; lit "U" := 1 ]} (lit "O") true
      (fun _ _ _ _ _ _ => []) (fun _ _ _ _ _ _ => [])
      [lit "hi you"; lit "abcdefghij k"]
      [[lit ","; lit "O"]; [lit "O"; lit ","]] [[lit "U"; lit "O"]; [lit "U"; lit "O"]] 0 = Ok t
    /\ aligned 8 t /\ length (tk_all_input_ids t) = 2%nat.
Proof.
  eexists. split; [by vm_compute|].
  apply (tokenize_worker_aligned (map Z.of_N) 101 102 8
           {[ lit "O" := 0; lit "," := 1 ]} {[ lit "O" := 0; lit "U" := 1 ]} (lit "O")
           (fun _ _ _ _ _ _ => []) (fun _ _ _ _ _ _ => [])
           ltac:(intros [|c w]; [done|discriminate]) ltac:(lia)
           [lit "hi you"; lit "abcdefghij k"]
           [[lit ","; lit "O"]; [lit "O"; lit ","]] [[lit "U"; lit "O"]; [lit "U"; lit "O"]] 0).
  by vm_compute.
Defined.
(** * Further properties of the preparation script *)

(** ** Counting words through runs of word characters *)

Section WordRunFacts.

Variable WC : N -> bool.

Lemma match_word_None_runs (s : str) :
  match_word WC s = None -> word_runs WC false s = 0%nat.
Proof.
  intros Hnone.
  assert (Hw : take_while WC (drop_while (not_WC WC) s) = []).
  { unfold match_word in Hnone.
    by destruct (take_while WC (drop_while (not_WC WC) s)). }
  clear Hnone. induction s as [|c s IH]; [done|].
  simpl in *. unfold not_WC in Hw at 1. destruct (WC c) eqn:Hc; simpl in Hw.
  - by rewrite Hc in Hw.
  - by apply IH.
Qed.

Lemma word_runs_skip (pre x : str) :
  Forall (fun c => not_WC WC c = true) pre ->
  word_runs WC false (pre ++ x) = word_runs WC false x.
Proof.
  induction 1 as [|c pre Hc _ IH]; [done|]. simpl.
  unfold not_WC in Hc. destruct (WC c); [done|]. exact IH.
Qed.

Lemma word_runs_skip_after (post x : str) :
  Forall (fun c => not_WC WC c = true) post -> post <> [] ->
  word_runs WC true (post ++ x) = word_runs WC false x.
Proof.
  intros Hpost Hne. destruct Hpost as [|c post Hc Hpost]; [done|]. simpl.
  unfold not_WC in Hc. destruct (WC c); [done|]. by apply word_runs_skip.
Qed.

Lemma word_runs_word (w x : str) :
  Forall (fun c => WC c = true) w -> word_runs WC true (w ++ x) = word_runs WC true x.
Proof.
  induction 1 as [|c w Hc _ IH]; [done|]. simpl. by rewrite Hc, IH.
Qed.

Lemma words_of_runs (s : str) (ms : list str) :
  words_of WC s ms -> length ms = word_runs WC false s.
Proof.
  induction 1 as [s Hnone|s m rest ms Hm _ IH].
  - by rewrite match_word_None_runs.
  - destruct (match_word_shape WC _ _ _ Hm)
      as (pre & w & post & -> & -> & Hpre & Hw & Hne & Hpost & _ & Hrest).
    rewrite <- !app_assoc, word_runs_skip by done.
    destruct Hw as [|c w Hc Hw]; [done|]. simpl. rewrite Hc. simpl.
    rewrite word_runs_word by done. f_equal. rewrite IH.
    destruct post as [|p post].
    + by rewrite (Hrest eq_refl).
    + symmetry. by apply word_runs_skip_after.
Qed.

Lemma count_words_runs (s : str) : count_words WC s = Z.of_nat (word_runs WC false s).
Proof. unfold count_words, zlen. f_equal. apply words_of_runs, findall_words. Qed.

Lemma word_runs_sep (a b : str) (c : N) : forall in_word,
  WC c = false ->
  word_runs WC in_word (a ++ c :: b)
  = (word_runs WC in_word a + word_runs WC false b)%nat.
Proof.
  intros in_word Hc. revert in_word.
  induction a as [|x a IH]; intros in_word; simpl.
  - by rewrite Hc.
  - destruct (WC x); rewrite IH; lia.
Qed.

(** Joining sentences with a character that is not a word character adds
    up their numbers of words. *)
Lemma count_words_join (sep : N) (l : list str) :
  WC sep = false ->
  count_words WC (join [sep] l) = sumZ (map (count_words WC) l).
Proof.
  intros Hsep. induction l as [|s l IH]; [done|].
  destruct l as [|s' l].
  - simpl. lia.
  - change (join [sep] (s :: s' :: l)) with (s ++ sep :: join [sep] (s' :: l)).
    rewrite map_cons. change (sumZ (?x :: ?r)) with (x + sumZ r).
    rewrite <- IH, !count_words_runs, word_runs_sep by done. lia.
Qed.

(** A segment cut where enough words are left has the number of words asked
    for. *)
Lemma count_words_cut_segment (text0 : str) (shift k : Z) :
  0 <= shift -> 0 <= k -> shift + k <= count_words WC text0 ->
  count_words WC (cut_segment WC text0 shift k) = k.
Proof.
  intros Hs Hk Hle. unfold count_words, zlen in *.
  rewrite findall_cut_segment by done. rewrite length_take, length_drop. lia.
Qed.

End WordRunFacts.

(** ** The worker that cuts the dev and test segments *)

Lemma dev_lines_foldl (docs : list (Z * str)) : forall sentences doc_ids sent_indices to_exclude,
  foldl dev_lines_step (sentences, doc_ids, sent_indices, to_exclude) docs
  = (sentences ++ sentences_of docs, doc_ids ++ doc_ids_of docs,
     sent_indices ++ sent_indices_of docs,
     foldl (fun m doc => <[doc.1 := ∅]> m) to_exclude docs).
Proof.
  induction docs as [|doc docs IH]; intros s d i te.
  - simpl. by rewrite !app_nil_r.
  - cbn [foldl dev_lines_step]. rewrite IH.
    unfold sentences_of, doc_ids_of, sent_indices_of.
    by rewrite !map_cons, !concat_cons, <- !app_assoc.
Qed.

Lemma doc_ids_of_length (docs : list (Z * str)) :
  length (doc_ids_of docs) = length (sentences_of docs).
Proof.
  unfold doc_ids_of, sentences_of. induction docs as [|doc docs IH]; [done|].
  rewrite !map_cons, !concat_cons, !length_app, IH. by rewrite length_replicate.
Qed.

Lemma sent_indices_of_length (docs : list (Z * str)) :
  length (sent_indices_of docs) = length (sentences_of docs).
Proof.
  unfold sent_indices_of, sentences_of, py_range, zlen.
  induction docs as [|doc docs IH]; [done|].
  rewrite !map_cons, !concat_cons, !length_app, IH. rewrite length_seqZ. lia.
Qed.

Lemma doc_ids_of_elem (docs : list (Z * str)) (d : Z) :
  d ∈ doc_ids_of docs -> d ∈ map fst docs.
Proof.
  unfold doc_ids_of. induction docs as [|doc docs IH]; [done|].
  rewrite map_cons, concat_cons, elem_of_app. intros [Hd|Hd].
  - apply elem_of_replicate in Hd as [-> _]. apply list_elem_of_here.
  - apply list_elem_of_further. by apply IH.
Qed.

Lemma empty_sets_lookup (docs : list (Z * str)) : forall (m : gmap Z (gset Z)) d,
  foldl (fun m doc => <[doc.1 := ∅]> m) m docs !! d
  = if decide (d ∈ map fst docs) then Some ∅ else m !! d.
Proof.
  induction docs as [|doc docs IH]; intros m d; [done|].
  cbn [foldl]. rewrite IH. rewrite map_cons.
  destruct (decide (d ∈ map fst docs)) as [Hin|Hnin].
  - rewrite decide_True; [done|]. by apply list_elem_of_further.
  - destruct (decide (d = doc.1)) as [->|Hne].
    + rewrite lookup_insert_eq. rewrite decide_True; [done|]. apply list_elem_of_here.
    + rewrite lookup_insert_ne by done. rewrite decide_False; [done|].
      rewrite elem_of_cons. tauto.
Qed.

Lemma excludes_agree_init (docs : list (Z * str)) :
  excludes_agree (doc_ids_of docs) (sent_indices_of docs)
    (foldl (fun m doc => <[doc.1 := ∅]> m) ∅ docs) ∅.
Proof.
  split.
  - intros d Hd. rewrite empty_sets_lookup.
    rewrite decide_True; [by eexists|]. by apply doc_ids_of_elem.
  - intros d lines. rewrite empty_sets_lookup.
    destruct (decide _); [|by rewrite lookup_empty].
    intros [= <-] i. split; [by intros ?%not_elem_of_empty|].
    by intros (k & Hk%not_elem_of_empty & _).
Qed.

Section DevSegmentFacts.

Variable WC : N -> bool.
Variable randint : nat -> Z -> Z -> Z.

Lemma sentences_for_segment_spec (following : list str) : forall needed w n,
  needed <= w + sumZ (map (count_words WC) following) ->
  exists m : nat,
    sentences_for_segment WC following needed w n = Ok (n + Z.of_nat m)
    /\ (m <= length following)%nat
    /\ needed <= w + sumZ (map (count_words WC) (take m following)).
Proof.
  induction following as [|s following IH]; intros needed w n Hle.
  - simpl in *. destruct (Z.ltb_spec w needed); [lia|].
    exists 0%nat. split; [f_equal; lia|]. split; [done|]. simpl. lia.
  - cbn [sentences_for_segment]. destruct (Z.ltb_spec w needed) as [Hlt|Hge].
    + destruct (IH needed (w + count_words WC s) (n + 1)) as (m & -> & Hm & Hsum).
      { simpl in Hle. lia. }
      exists (S m). split; [f_equal; lia|]. split; [simpl; lia|]. simpl. lia.
    + exists 0%nat. split; [f_equal; lia|]. split; [simpl; lia|]. simpl. lia.
Qed.

Lemma exclude_loop_spec (doc_ids sent_indices : list Z) (sentence_i : Z) (n : nat) :
  forall (j : Z) to_exclude (excluded : gset Z),
  0 <= sentence_i -> 0 <= j ->
  sentence_i + j + Z.of_nat n <= zlen doc_ids ->
  length sent_indices = length doc_ids ->
  excludes_agree doc_ids sent_indices to_exclude excluded ->
  exists to_exclude',
    for_each (exclude_sentence doc_ids sent_indices sentence_i) (seqZ j (Z.of_nat n)) to_exclude
    = Ok to_exclude'
    /\ excludes_agree doc_ids sent_indices to_exclude'
         (excluded ∪ list_to_set (map (fun i => sentence_i + i) (seqZ j (Z.of_nat n)))).
Proof.
  induction n as [|n IH]; intros j te ex Hsi Hj Hlen Hsame Hagree.
  - simpl. exists te. split; [done|].
    by rewrite (right_id_L ∅ (∪)).
  - rewrite Nat2Z.inj_succ, seqZ_cons by lia. cbn [for_each].
    replace (Z.pred (Z.succ (Z.of_nat n))) with (Z.of_nat n) by lia.
    unfold zlen in Hlen.
    destruct (lookup_lt_is_Some_2 doc_ids (Z.to_nat (sentence_i + j)) ltac:(lia)) as [d Hd].
    destruct (lookup_lt_is_Some_2 sent_indices (Z.to_nat (sentence_i + j)) ltac:(lia))
      as [i0 Hi0].
    destruct Hagree as [Hdom Hsets].
    destruct (Hdom d) as [lines Hlines]; [by eapply list_elem_of_lookup_2|].
    assert (Hstep : exclude_sentence doc_ids sent_indices sentence_i te j
                    = Ok (<[d := {[i0]} ∪ lines]> te)).
    { unfold exclude_sentence. rewrite (getitem_Ok _ _ _ Hd), (getitem_Ok _ _ _ Hi0).
      cbn [mbind result_bind]. by rewrite Hlines. }
    rewrite Hstep. cbn [mbind result_bind].
    destruct (IH (Z.succ j) (<[d := {[i0]} ∪ lines]> te) (ex ∪ {[sentence_i + j]}))
      as (te' & Hrun & Hagree'); [lia|lia|unfold zlen; lia|done| |].
    + split.
      * intros d' Hd'. destruct (decide (d' = d)) as [->|Hne].
        -- rewrite lookup_insert_eq. by eexists.
        -- rewrite lookup_insert_ne by done. by apply Hdom.
      * intros d' lines' Hl' i. destruct (decide (d' = d)) as [->|Hne].
        -- rewrite lookup_insert_eq in Hl'. injection Hl' as <-.
           rewrite elem_of_union, elem_of_singleton, (Hsets _ _ Hlines i). split.
           ++ intros [->|(k & Hk & Hkd & Hki)].
              ** exists (Z.to_nat (sentence_i + j)). split; [|done].
                 rewrite Z2Nat.id by lia. apply elem_of_union_r. by apply elem_of_singleton.
              ** exists k. split; [by apply elem_of_union_l|done].
           ++ intros (k & Hk & Hkd & Hki).
              apply elem_of_union in Hk as [Hk|Hk].
              ** right. by exists k.
              ** left. apply elem_of_singleton in Hk.
                 replace k with (Z.to_nat (sentence_i + j)) in Hki by lia. congruence.
        -- rewrite lookup_insert_ne in Hl' by done.
           rewrite (Hsets _ _ Hl' i). split.
           ++ intros (k & Hk & Hkd & Hki). exists k. split; [by apply elem_of_union_l|done].
           ++ intros (k & Hk & Hkd & Hki).
              apply elem_of_union in Hk as [Hk|Hk]; [by exists k|].
              apply elem_of_singleton in Hk.
              replace k with (Z.to_nat (sentence_i + j)) in Hkd by lia. congruence.
    + exists te'. split; [exact Hrun|].
      replace (ex ∪ list_to_set (map (fun i => sentence_i + i) (j :: seqZ (Z.succ j) (Z.of_nat n))))
        with (ex ∪ {[sentence_i + j]}
              ∪ list_to_set (map (fun i => sentence_i + i) (seqZ (Z.succ j) (Z.of_nat n))));
        [done|].
      by rewrite map_cons, list_to_set_cons, (assoc_L (∪)).
Qed.

Lemma covered_by_snoc (spans : list (Z * Z)) (start n : Z) :
  covered_by (spans ++ [(start, n)])
  = covered_by spans ∪ list_to_set (map (fun i => start + i) (seqZ 0 n)).
Proof.
  unfold covered_by. rewrite map_app, concat_app, list_to_set_app_L. f_equal.
  cbn [map concat fst snd]. rewrite app_nil_r. unfold py_range.
  replace (start + n - start) with n by lia.
  change (map (fun i => start + i) (seqZ 0 n)) with (Z.add start <$> seqZ 0 n).
  by rewrite fmap_add_seqZ, Z.add_0_r.
Qed.

Lemma StronglySorted_lookup_lt {A} (R : relation A) (l : list A) :
  StronglySorted R l ->
  forall (a b : nat) x y, (a < b)%nat -> l !! a = Some x -> l !! b = Some y -> R x y.
Proof.
  induction 1 as [|z l _ IH Hall]; intros a b x y Hab Ha Hb; [done|].
  destruct b as [|b]; [lia|]. destruct a as [|a].
  - injection Ha as <-. rewrite Forall_forall in Hall. apply Hall.
    by eapply list_elem_of_lookup_2.
  - apply (IH a b); [lia|done|done].
Qed.

Section DevLoopFacts.

Variable sentences : list str.
Variables doc_ids sent_indices start_sentences segment_lengths : list Z.
Variable max_length : Z.

Hypothesis space_is_no_word_char : WC SPACE = false.
Hypothesis randint_in_range : forall j a b, a <= b -> a <= randint j a b <= b.
Hypothesis lengths_in_range : Forall (fun k => 0 <= k <= max_length) segment_lengths.
Hypothesis starts_increase :
  forall (a b : nat) x y,
    (a < b)%nat -> start_sentences !! a = Some x -> start_sentences !! b = Some y -> x < y.
Hypothesis starts_in_range :
  Forall (fun s => 0 <= s < zlen sentences /\ max_length <= words_after WC sentences s)
    start_sentences.
Hypothesis one_start_per_length : length start_sentences = length segment_lengths.
Hypothesis one_id_per_sentence : length doc_ids = length sentences.
Hypothesis one_index_per_sentence : length sent_indices = length sentences.

Lemma dev_step_inv (sentence_i : Z) (spans : list (Z * Z)) (st : dev_state) :
  0 <= sentence_i < zlen sentences ->
  dev_inv WC sentences doc_ids sent_indices start_sentences segment_lengths sentence_i spans st ->
  exists spans' st',
    dev_step WC randint sentences doc_ids sent_indices start_sentences segment_lengths st
      sentence_i = Ok st'
    /\ dev_inv WC sentences doc_ids sent_indices start_sentences segment_lengths
         (sentence_i + 1) spans' st'.
Proof.
  intros Hi (Hlen & Hfst & Hge & Hwords & Hcut & Hex & Hagree & Hprog & Hputs).
  unfold dev_step. set (c := dv_curr_segment_i st) in *.
  destruct (start_sentences !! c) as [start|] eqn:Hstart.
  2:{ exists spans, st. split; [done|]. unfold dev_inv. fold c.
      split_and!; try done. rewrite drop_ge; [constructor|].
      by apply lookup_ge_None. }
  assert (Hlater : forall j s, drop (S c) start_sentences !! j = Some s -> start < s).
  { intros j s. rewrite lookup_drop. intros Hs.
    apply (starts_increase c (S c + j) start s); [lia|done|done]. }
  rewrite (drop_S _ _ _ Hstart) in Hge. apply Forall_cons in Hge as [Hle Hge].
  destruct (Z.eqb_spec sentence_i start) as [->|Hne].
  2:{ exists spans, st. split; [done|]. unfold dev_inv. fold c.
      split_and!; try done. rewrite (drop_S _ _ _ Hstart). constructor; [lia|].
      apply Forall_lookup. intros j s Hs. specialize (Hlater j s Hs). lia. }
  apply (proj1 (Forall_lookup _ _) starts_in_range) in Hstart as Hrange.
  destruct Hrange as [Hrange Hafter]. unfold zlen in Hrange.
  destruct (lookup_lt_is_Some_2 sentences (Z.to_nat start) ltac:(lia)) as [sentence Hsent].
  destruct (lookup_lt_is_Some_2 segment_lengths c) as [k Hk].
  { rewrite <- one_start_per_length. by eapply lookup_lt_Some. }
  apply (proj1 (Forall_lookup _ _) lengths_in_range) in Hk as Hkrange.
  rewrite (getitem_Ok _ _ _ Hsent), (getitem_Ok _ _ _ Hk). cbn [mbind result_bind].
  set (shift := randint c 0 (count_words WC sentence / 2)).
  pose proof (count_words_nonneg WC sentence) as Hcw.
  assert (Hshift : 0 <= shift <= count_words WC sentence / 2).
  { apply randint_in_range. apply Z.div_pos; lia. }
  assert (Hfrom : py_slice_from sentences start
                  = sentence :: drop (S (Z.to_nat start)) sentences).
  { unfold py_slice_from. rewrite slice_bound_inside by (unfold zlen; lia).
    by apply drop_S. }
  destruct (sentences_for_segment_spec (py_slice_from sentences start) (shift + k) 0 0)
    as (m & Hrun & Hm & Henough).
  { rewrite Hfrom. cbn [map sumZ foldr]. unfold words_after in Hafter.
    assert (count_words WC sentence / 2 <= count_words WC sentence)
      by (apply Z.div_le_upper_bound; lia).
    fold (sumZ (map (count_words WC) (drop (S (Z.to_nat start)) sentences))). lia. }
  rewrite Hrun. cbn [mbind result_bind].
  assert (Hm' : start + Z.of_nat m <= zlen sentences).
  { rewrite Hfrom in Hm. simpl in Hm. rewrite length_drop in Hm. unfold zlen. lia. }
  unfold py_range. replace (0 + Z.of_nat m - 0) with (Z.of_nat m) by lia.
  destruct (exclude_loop_spec doc_ids sent_indices start m 0 (dv_to_exclude st)
              (dv_excluded st))
    as (te' & Hloop & Hagree'); [lia|lia|unfold zlen in *; lia|congruence|done|].
  rewrite Hloop. cbn [mbind result_bind].
  exists (spans ++ [(start, Z.of_nat m)]). eexists. split; [reflexivity|].
  assert (Hslice : py_slice sentences start (start + (0 + Z.of_nat m))
                   = take m (py_slice_from sentences start)).
  { rewrite py_slice_inside by lia. unfold py_slice_from.
    rewrite slice_bound_inside by (unfold zlen; lia). f_equal. lia. }
  unfold dev_inv. cbn [dv_curr_segment_i dv_segments dv_to_exclude dv_excluded dv_progress
                       dv_puts].
  rewrite Hprog. simpl (0 + 1 >=? 1). cbv iota.
  split_and!.
  - rewrite length_app. simpl. lia.
  - rewrite map_app, Hfst. simpl. by rewrite (take_S_r _ _ _ Hstart).
  - apply Forall_lookup. intros j s Hs. specialize (Hlater j s Hs). lia.
  - rewrite (take_S_r _ _ _ Hk). apply Forall2_app; [done|].
    constructor; [|constructor].
    apply count_words_cut_segment; [lia|lia|].
    rewrite Hslice, count_words_join by done. lia.
  - apply Forall2_app; [done|]. constructor; [|constructor].
    unfold cut_from. cbn [fst snd]. split_and!; [lia|lia|lia|].
    exists shift, k. split; [lia|]. by replace (0 + Z.of_nat m) with (Z.of_nat m) by lia.
  - by rewrite covered_by_snoc, Hex.
  - exact Hagree'.
  - done.
  - by rewrite Hputs, replicate_S_end.
Qed.

Lemma dev_loop_inv (n : nat) : forall (sentence_i : Z) (spans : list (Z * Z)) (st : dev_state),
  0 <= sentence_i -> sentence_i + Z.of_nat n <= zlen sentences ->
  dev_inv WC sentences doc_ids sent_indices start_sentences segment_lengths sentence_i spans st ->
  exists spans' st',
    for_each (dev_step WC randint sentences doc_ids sent_indices start_sentences segment_lengths)
      (seqZ sentence_i (Z.of_nat n)) st = Ok st'
    /\ dev_inv WC sentences doc_ids sent_indices start_sentences segment_lengths
         (sentence_i + Z.of_nat n) spans' st'.
Proof.
  induction n as [|n IH]; intros i spans st Hi Hn Hinv.
  - exists spans, st. split; [done|]. by rewrite Z.add_0_r.
  - rewrite Nat2Z.inj_succ, seqZ_cons by lia. cbn [for_each].
    replace (Z.pred (Z.succ (Z.of_nat n))) with (Z.of_nat n) by lia.
    destruct (dev_step_inv i spans st) as (spans1 & st1 & -> & Hinv1); [lia|done|].
    cbn [mbind result_bind].
    destruct (IH (Z.succ i) spans1 st1) as (spans2 & st2 & Hrun & Hinv2); [lia|lia|done|].
    exists spans2, st2. split; [done|].
    by replace (i + Z.succ (Z.of_nat n)) with (Z.succ i + Z.of_nat n) by lia.
Qed.

Lemma dev_inv_end (spans : list (Z * Z)) (st : dev_state) :
  dev_inv WC sentences doc_ids sent_indices start_sentences segment_lengths (zlen sentences)
    spans st ->
  dv_curr_segment_i st = length start_sentences.
Proof.
  intros (Hlen & Hfst & Hge & _).
  assert (Hc : (dv_curr_segment_i st <= length start_sentences)%nat).
  { apply (f_equal length) in Hfst. rewrite length_map, length_take in Hfst. lia. }
  destruct (drop (dv_curr_segment_i st) start_sentences) as [|s rest] eqn:Hdrop.
  - apply (f_equal length) in Hdrop. rewrite length_drop in Hdrop. simpl in Hdrop. lia.
  - apply Forall_cons in Hge as [Hs _].
    assert (Hin : start_sentences !! (dv_curr_segment_i st + 0)%nat = Some s)
      by (by rewrite <- lookup_drop, Hdrop).
    apply (proj1 (Forall_lookup _ _) starts_in_range) in Hin. lia.
Qed.

End DevLoopFacts.

(** *** The documents that are left *)

Lemma filter_ext_elem {A} (P1 P2 : A -> Prop) `{!forall x, Decision (P1 x)}
    `{!forall x, Decision (P2 x)} (l : list A) :
  (forall x, x ∈ l -> P1 x <-> P2 x) -> filter P1 l = filter P2 l.
Proof.
  induction l as [|x l IH]; intros Hext; [done|].
  rewrite !filter_cons. rewrite IH by (intros y Hy; apply Hext; by apply list_elem_of_further).
  destruct (decide (P1 x)) as [H1|H1], (decide (P2 x)) as [H2|H2]; try done;
    apply Hext in H1 || apply Hext in H2; try done; apply list_elem_of_here.
Qed.

Lemma elem_of_enumerate {A} (l : list A) (il : Z * A) :
  il ∈ enumerate l -> exists i : nat, il.1 = Z.of_nat i /\ l !! i = Some il.2.
Proof.
  unfold enumerate. intros Hin. apply list_elem_of_lookup in Hin as [i Hi].
  rewrite list_lookup_imap in Hi. destruct (l !! i) as [x|] eqn:Hx; [|done].
  injection Hi as <-. by exists i.
Qed.

Lemma sentences_of_app (before after : list (Z * str)) :
  sentences_of (before ++ after) = sentences_of before ++ sentences_of after.
Proof. unfold sentences_of. by rewrite map_app, concat_app. Qed.

Section DocumentsLeft.

Variables before after : list (Z * str).
Variable doc : Z * str.

Hypothesis distinct_ids : NoDup (map fst (before ++ doc :: after)).

Local Abbreviation docs := (before ++ doc :: after).
Local Abbreviation off := (length (sentences_of before)).
Local Abbreviation lines := (splitlines doc.2).

Lemma doc_ids_of_split :
  doc_ids_of docs = doc_ids_of before ++ replicate (length lines) doc.1 ++ doc_ids_of after.
Proof. unfold doc_ids_of. by rewrite map_app, concat_app, map_cons, concat_cons. Qed.

Lemma sent_indices_of_split :
  sent_indices_of docs
  = sent_indices_of before ++ py_range 0 (zlen lines) ++ sent_indices_of after.
Proof. unfold sent_indices_of. by rewrite map_app, concat_app, map_cons, concat_cons. Qed.

Lemma positions_of_lines (i : nat) :
  (i < length lines)%nat ->
  doc_ids_of docs !! (off + i)%nat = Some doc.1
  /\ sent_indices_of docs !! (off + i)%nat = Some (Z.of_nat i).
Proof.
  intros Hi. rewrite doc_ids_of_split, sent_indices_of_split. split.
  - rewrite lookup_app_r by (rewrite doc_ids_of_length; lia).
    rewrite doc_ids_of_length. replace (off + i - off)%nat with i by lia.
    rewrite lookup_app_l by (by rewrite length_replicate).
    by apply lookup_replicate_2.
  - rewrite lookup_app_r by (rewrite sent_indices_of_length; lia).
    rewrite sent_indices_of_length. replace (off + i - off)%nat with i by lia.
    unfold py_range, zlen.
    rewrite lookup_app_l by (rewrite length_seqZ; lia).
    by rewrite lookup_seqZ_lt by lia.
Qed.

Lemma positions_of_doc (k : nat) :
  doc_ids_of docs !! k = Some doc.1 -> (off <= k < off + length lines)%nat.
Proof.
  rewrite map_app, map_cons in distinct_ids.
  apply NoDup_app in distinct_ids as (_ & Hbefore & Hafter%NoDup_cons).
  destruct Hafter as [Hafter _].
  rewrite doc_ids_of_split. intros Hk.
  apply lookup_app_Some in Hk as [Hk|[Hge Hk]].
  - exfalso. apply (Hbefore doc.1); [|apply list_elem_of_here].
    apply doc_ids_of_elem. by eapply list_elem_of_lookup_2.
  - rewrite doc_ids_of_length in Hge, Hk.
    apply lookup_app_Some in Hk as [Hk|[Hge' Hk]].
    + apply lookup_lt_Some in Hk. rewrite length_replicate in Hk. lia.
    + exfalso. apply Hafter. apply doc_ids_of_elem. by eapply list_elem_of_lookup_2.
Qed.

Lemma kept_lines_outside (to_exclude : gmap Z (gset Z)) (excluded : gset Z) :
  excludes_agree (doc_ids_of docs) (sent_indices_of docs) to_exclude excluded ->
  kept_lines (default ∅ (to_exclude !! doc.1)) lines
  = lines_outside excluded (Z.of_nat off) lines.
Proof.
  intros [Hdom Hsets]. unfold kept_lines, lines_outside. f_equal.
  apply filter_ext_elem. intros il Hil.
  apply elem_of_enumerate in Hil as (i & -> & Hi). apply lookup_lt_Some in Hi.
  destruct (positions_of_lines i Hi) as [Hid Hidx].
  destruct (Hdom doc.1) as [set Hset]; [by eapply list_elem_of_lookup_2|].
  rewrite Hset. cbn [default]. apply not_iff_compat.
  rewrite (Hsets _ _ Hset). split.
  - intros (k & Hk & Hkd & Hki). pose proof (positions_of_doc k Hkd) as Hkr.
    destruct (positions_of_lines (k - off)) as [_ Hidx']; [lia|].
    replace (off + (k - off))%nat with k in Hidx' by lia.
    rewrite Hki in Hidx'. injection Hidx' as Heq.
    by replace (Z.of_nat off + Z.of_nat i) with (Z.of_nat k) by lia.
  - intros Hin. exists (off + i)%nat. split; [|done].
    by replace (Z.of_nat (off + i)) with (Z.of_nat off + Z.of_nat i) by lia.
Qed.

End DocumentsLeft.

Lemma filtered_docs_spec (to_exclude : gmap Z (gset Z)) (excluded : gset Z)
    (after : list (Z * str)) : forall before,
  NoDup (map fst (before ++ after)) ->
  excludes_agree (doc_ids_of (before ++ after)) (sent_indices_of (before ++ after)) to_exclude
    excluded ->
  omap (filtered_doc to_exclude) after
  = documents_without excluded (zlen (sentences_of before)) after.
Proof.
  induction after as [|doc after IH]; intros before Hnodup Hagree; [done|].
  cbn [omap list_omap documents_without]. unfold filtered_doc at 1.
  rewrite (kept_lines_outside before after doc Hnodup _ excluded Hagree).
  specialize (IH (before ++ [doc])). rewrite <- !app_assoc in IH. cbn [app] in IH.
  specialize (IH Hnodup Hagree).
  assert (Hoff : zlen (sentences_of (before ++ [doc]))
                 = zlen (sentences_of before) + zlen (splitlines doc.2)).
  { rewrite sentences_of_app. unfold sentences_of at 2. cbn [map concat].
    rewrite app_nil_r. apply zlen_app. }
  rewrite Hoff in IH. fold (zlen (sentences_of before)).
  destruct (lines_outside excluded (zlen (sentences_of before)) (splitlines doc.2));
    by rewrite IH.
Qed.

(** *** The worker *)

Lemma generate_segment_location_sampled (sentences : list str) (max_length num_segments : Z)
    (file : str) (drawn : list Z) :
  0 < num_segments ->
  let budget := max_allowed_segments WC sentences max_length in
  (budget < num_segments ->
   exists msg,
     generate_segment_location WC sentences max_length num_segments file drawn
     = Raise (ValueError msg))
  /\ (num_segments <= budget -> drawn_from_range budget num_segments drawn ->
      generate_segment_location WC sentences max_length num_segments file drawn
      = Ok (merge_sort Z.le drawn)
      /\ Forall (fun s => 0 <= s < zlen sentences
                          /\ max_length <= words_after WC sentences s) drawn).
Proof.
  intros Hpos budget. subst budget.
  unfold max_allowed_segments, generate_segment_location.
  destruct (Z.ltb_spec num_segments 0) as [|_]; [lia|].
  destruct (Z.eqb_spec num_segments 0) as [|_]; [lia|].
  destruct (max_allowed_loop WC (rev sentences) (zlen sentences - 1) 0 max_length)
    as [sent_i num_words] eqn:Hloop.
  apply max_allowed_loop_words in Hloop as [Hrange Hwords].
  destruct (Z.ltb_spec num_words max_length) as [Hfew|Henough].
  - split; [intros _; by eexists|]. lia.
  - destruct (Z.gtb_spec num_segments (sent_i + 1)) as [Hgt|Hle].
    + split; [intros _; by eexists|]. lia.
    + split; [lia|]. intros _ (Hlen & Hnodup & Hin).
      unfold random_sample, py_range.
      assert (Hpop : zlen (seqZ 0 (sent_i + 1 - 0)) = sent_i + 1).
      { unfold zlen. rewrite length_seqZ. lia. }
      rewrite Hpop.
      destruct (Z.ltb_spec num_segments 0) as [|_]; [lia|].
      destruct (Z.ltb_spec (sent_i + 1) num_segments) as [|_]; [lia|].
      cbn [orb mbind result_bind].
      pose proof (merge_sort_Permutation Z.le drawn) as Hperm.
      assert (Hl : zlen (merge_sort Z.le drawn) = num_segments).
      { unfold zlen in *. by rewrite (Permutation_length Hperm). }
      rewrite Hl, Z.eqb_refl. cbn [py_assert mbind result_bind].
      split; [reflexivity|].
      eapply Forall_impl; [exact Hin|]. simpl. intros s Hs.
      split; [lia|].
      unfold words_after. etrans; [exact Henough|]. rewrite Hwords.
      apply sumZ_words_drop. lia.
Qed.

Lemma sorted_sample_increases (drawn : list Z) :
  NoDup drawn ->
  forall (a b : nat) x y,
    (a < b)%nat -> merge_sort Z.le drawn !! a = Some x -> merge_sort Z.le drawn !! b = Some y ->
    x < y.
Proof.
  intros Hnodup a b x y Hab Ha Hb.
  pose proof (merge_sort_Permutation Z.le drawn) as Hperm.
  assert (Hle : x <= y).
  { eapply (StronglySorted_lookup_lt Z.le); [|exact Hab|exact Ha|exact Hb].
    apply StronglySorted_merge_sort; apply _. }
  assert (Hne : x <> y).
  { intros ->. rewrite <- Hperm in Hnodup.
    pose proof (NoDup_lookup _ _ _ _ Hnodup Ha Hb). lia. }
  lia.
Qed.

Section WorkerFacts.

Variable file : str.
Variable segment_lengths : list Z.
Variable docs : list (Z * str).
Variable drawn : list Z.
Variable max_length : Z.

Hypothesis space_is_no_word_char : WC SPACE = false.
Hypothesis randint_in_range : forall j a b, a <= b -> a <= randint j a b <= b.
Hypothesis lengths_not_negative : Forall (fun k => 0 <= k) segment_lengths.
Hypothesis longest : py_max segment_lengths = Ok max_length.

Local Abbreviation sentences := (sentences_of docs).
Local Abbreviation budget := (max_allowed_segments WC sentences max_length).
Local Abbreviation num_segments := (zlen segment_lengths).

Lemma some_segment : 0 < num_segments.
Proof. destruct segment_lengths; [done|]. unfold zlen. simpl. lia. Qed.

Lemma worker_not_enough :
  budget < num_segments ->
  exists msg,
    extract_dev_text_segments_worker WC randint file segment_lengths docs drawn
    = Raise (ValueError msg).
Proof.
  intros Hfew. pose proof some_segment as Hpos.
  unfold extract_dev_text_segments_worker.
  destruct (Z.eqb_spec num_segments 0) as [|_]; [lia|].
  rewrite dev_lines_foldl. cbn [app]. rewrite longest. cbn [mbind result_bind].
  destruct (generate_segment_location_sampled sentences max_length num_segments file drawn Hpos)
    as [Hraise _].
  destruct (Hraise Hfew) as [msg ->]. by exists msg.
Qed.

Lemma worker_returns :
  num_segments <= budget -> drawn_from_range budget num_segments drawn ->
  exists spans st,
    extract_dev_text_segments_worker WC randint file segment_lengths docs drawn
    = Ok (dv_segments st, map (fun _ => 1) segment_lengths ++ [0],
          match omap (filtered_doc (dv_to_exclude st)) docs with
          | [] => None
          | filtered_docs => Some filtered_docs
          end)
    /\ dev_inv WC sentences (doc_ids_of docs) (sent_indices_of docs) (merge_sort Z.le drawn)
         segment_lengths (zlen sentences) spans st
    /\ dv_curr_segment_i st = length segment_lengths.
Proof.
  intros Hle Hdrawn. pose proof some_segment as Hpos.
  unfold extract_dev_text_segments_worker.
  destruct (Z.eqb_spec num_segments 0) as [|_]; [lia|].
  rewrite dev_lines_foldl. cbn [app]. rewrite longest. cbn [mbind result_bind].
  destruct (generate_segment_location_sampled sentences max_length num_segments file drawn Hpos)
    as [_ Hok].
  destruct (Hok Hle Hdrawn) as [-> Hstarts]. cbn [mbind result_bind].
  destruct Hdrawn as (Hlen & Hnodup & _).
  pose proof (merge_sort_Permutation Z.le drawn) as Hperm.
  assert (Hsame : length (merge_sort Z.le drawn) = length segment_lengths).
  { rewrite (Permutation_length Hperm). unfold zlen in Hlen. lia. }
  assert (Hlens : Forall (fun k => 0 <= k <= max_length) segment_lengths).
  { destruct (py_max_spec segment_lengths) as (mx & Hmx & _ & Hmax).
    { intros ->. unfold zlen in Hpos. simpl in Hpos. lia. }
    rewrite longest in Hmx. injection Hmx as <-.
    apply Forall_forall. intros k Hk. split; [|by apply Hmax].
    by apply (proj1 (Forall_forall _ _) lengths_not_negative). }
  unfold py_range. rewrite Z.sub_0_r.
  destruct (dev_loop_inv sentences (doc_ids_of docs) (sent_indices_of docs)
              (merge_sort Z.le drawn) segment_lengths max_length space_is_no_word_char
              randint_in_range Hlens (sorted_sample_increases drawn Hnodup)
              ltac:(by rewrite Hperm) Hsame (doc_ids_of_length docs)
              (sent_indices_of_length docs) (length sentences) 0 []
              (MkDev 0 [] (foldl (fun m doc => <[doc.1 := ∅]> m) ∅ docs) ∅ 0 []))
    as (spans & st & Hrun & Hinv); [lia|unfold zlen; lia| |].
  { unfold dev_inv. cbn [dv_curr_segment_i dv_segments dv_to_exclude dv_excluded dv_progress
                         dv_puts].
    rewrite drop_0, !take_0. split_and!; try done.
    - apply Forall_forall. intros s Hs. rewrite Hperm in Hs.
      apply (proj1 (Forall_forall _ _) Hstarts) in Hs. lia.
    - apply excludes_agree_init. }
  fold (zlen sentences) in Hrun. rewrite Hrun. cbn [mbind result_bind].
  rewrite Z.add_0_l in Hinv. fold (zlen sentences) in Hinv.
  pose proof (dev_inv_end sentences (doc_ids_of docs) (sent_indices_of docs)
                (merge_sort Z.le drawn) segment_lengths max_length
                ltac:(by rewrite Hperm) Hsame (doc_ids_of_length docs)
                (sent_indices_of_length docs) spans st Hinv) as Hend.
  rewrite Hsame in Hend.
  pose proof Hinv as (_ & _ & _ & Hwords & _ & _ & _ & Hprog & Hputs).
  assert (Hsegs : zlen (dv_segments st) = num_segments).
  { apply Forall2_length in Hwords. rewrite length_take in Hwords. unfold zlen. lia. }
  rewrite Hsegs, Z.eqb_refl. cbn [py_assert mbind result_bind].
  exists spans, st. split; [|done].
  rewrite Hprog, Hputs, Hend.
  replace (replicate (length segment_lengths) 1) with (map (fun _ : Z => 1) segment_lengths).
  - by destruct (omap (filtered_doc (dv_to_exclude st)) docs).
  - clear. induction segment_lengths as [|k l IH]; [done|]. simpl. by rewrite IH.
Qed.

End WorkerFacts.

End DevSegmentFacts.


(** X18. [extract_dev_text_segments_worker], asked for segments of
    non-negative lengths of which [max_length] is the longest, when the space
    is not a word character: it returns exactly when the number of segments is
    within the budget that [get_max_allowed_segments_for_text] computes for
    its sentences, and raises [ValueError] otherwise.  When it returns there is
    one segment per length, in order, segment [j] having exactly
    [segment_lengths[j]] words; no index is out of range and the final
    assertion holds; and 1 is put on the progress queue for each segment,
    then 0. *)
Theorem extract_dev_text_segments_worker_cuts (WC : N -> bool) (randint : nat -> Z -> Z -> Z)
    (file : str) (segment_lengths : list Z) (docs : list (Z * str)) (drawn : list Z)
    (max_length : Z) :
  WC SPACE = false ->
  (forall j a b, a <= b -> a <= randint j a b <= b) ->
  Forall (fun k => 0 <= k) segment_lengths ->
  py_max segment_lengths = Ok max_length ->
  let budget := max_allowed_segments WC (sentences_of docs) max_length in
  (zlen segment_lengths <= budget -> drawn_from_range budget (zlen segment_lengths) drawn) ->
  match extract_dev_text_segments_worker WC randint file segment_lengths docs drawn with
  | Ok (segments, puts, _) =>
      zlen segment_lengths <= budget
      /\ Forall2 (fun segment k => count_words WC segment = k) segments segment_lengths
      /\ puts = map (fun _ => 1) segment_lengths ++ [0]
  | Raise e => budget < zlen segment_lengths /\ exists msg, e = ValueError msg
  | OutOfFuel => False
  end.
Proof.
  intros Hspace Hrand Hlens Hmax budget Hdrawn.
  destruct (Z.le_gt_cases (zlen segment_lengths) budget) as [Hle|Hgt].
  - destruct (worker_returns WC randint file segment_lengths docs drawn max_length Hspace Hrand
                Hlens Hmax Hle (Hdrawn Hle)) as (spans & st & -> & Hinv & Hend).
    split; [done|]. split; [|done].
    destruct Hinv as (_ & _ & _ & Hwords & _). rewrite Hend in Hwords.
    by rewrite firstn_all in Hwords.
  - destruct (worker_not_enough WC randint file segment_lengths docs drawn max_length)
      as [msg ->]; [done..|]. split; [lia|]. by exists msg.
Qed.

Lemma extract_dev_text_segments_worker_cuts_witness :
  match extract_dev_text_segments_worker ascii_word_char (fun _ _ b => b) (lit "0.xml") [3; 2]
          two_documents [2; 0] with
  | Ok (segments, puts, _) =>
      2 <= max_allowed_segments ascii_word_char (sentences_of two_documents) 3
      /\ Forall2 (fun segment k => count_words ascii_word_char segment = k) segments [3; 2]
      /\ puts = [1; 1; 0]
  | Raise e =>
      max_allowed_segments ascii_word_char (sentences_of two_documents) 3 < 2
      /\ exists msg, e = ValueError msg
  | OutOfFuel => False
  end.
Proof.
  apply (extract_dev_text_segments_worker_cuts ascii_word_char (fun _ _ b => b)
           (lit "0.xml") [3; 2] two_documents [2; 0] 3).
  - reflexivity.
  - intros; cbv beta; lia.
  - repeat (apply Forall_cons; split; [lia|]); apply Forall_nil_2.
  - reflexivity.
  - intros _. vm_compute. split; [reflexivity|]. split.
    + apply NoDup_ListNoDup. repeat constructor; simpl; intuition discriminate.
    + repeat constructor; discriminate.
Defined.

(** X19. What [extract_dev_text_segments_worker] writes.  With no segment to
    cut it returns at once and writes nothing, so that the shard does not
    reach the directory of the documents after extraction.  Otherwise, for
    documents of distinct ids and a number of segments within the budget,
    every segment is cut from a span of consecutive sentences joined by
    spaces, the spans starting at the drawn sentences; and the documents
    given to the writer are the documents without the sentences of the
    spans: every other line is kept, in order, a document with no line left
    is dropped, and nothing is written when no document is left. *)
Theorem extract_dev_text_segments_worker_documents (WC : N -> bool)
    (randint : nat -> Z -> Z -> Z) (file : str) (segment_lengths : list Z)
    (docs : list (Z * str)) (drawn : list Z) (max_length : Z) :
  extract_dev_text_segments_worker WC randint file [] docs drawn = Ok ([], [], None)
  /\ (WC SPACE = false ->
      (forall j a b, a <= b -> a <= randint j a b <= b) ->
      Forall (fun k => 0 <= k) segment_lengths ->
      py_max segment_lengths = Ok max_length ->
      NoDup (map fst docs) ->
      let sentences := sentences_of docs in
      let budget := max_allowed_segments WC sentences max_length in
      zlen segment_lengths <= budget ->
      drawn_from_range budget (zlen segment_lengths) drawn ->
      exists segments puts spans,
        extract_dev_text_segments_worker WC randint file segment_lengths docs drawn
        = Ok (segments, puts,
              match documents_without (covered_by spans) 0 docs with
              | [] => None
              | remaining => Some remaining
              end)
        /\ map fst spans = merge_sort Z.le drawn
        /\ Forall2 (cut_from WC sentences) segments spans).
Proof.
  split; [reflexivity|].
  intros Hspace Hrand Hlens Hmax Hnodup sentences budget Hle Hdrawn.
  destruct (worker_returns WC randint file segment_lengths docs drawn max_length Hspace Hrand
              Hlens Hmax Hle Hdrawn) as (spans & st & Hrun & Hinv & Hend).
  destruct Hinv as (Hlen & Hfst & _ & _ & Hcut & Hex & Hagree & _).
  exists (dv_segments st), (map (fun _ => 1) segment_lengths ++ [0]), spans.
  split; [|split; [|done]].
  - rewrite Hrun. do 2 f_equal.
    rewrite (filtered_docs_spec (dv_to_exclude st) (covered_by spans) docs []); [done|done|].
    by rewrite <- Hex.
  - rewrite Hfst, Hend. destruct Hdrawn as (Hd & _).
    pose proof (Permutation_length (merge_sort_Permutation Z.le drawn)) as Hp.
    apply firstn_all2. unfold zlen in Hd. lia.
Qed.

Lemma extract_dev_text_segments_worker_documents_witness :
  exists segments puts spans,
    extract_dev_text_segments_worker ascii_word_char (fun _ _ b => b) (lit "0.xml") [3; 2]
      two_documents [2; 0]
    = Ok (segments, puts,
          match documents_without (covered_by spans) 0 two_documents with
          | [] => None
          | remaining => Some remaining
          end)
    /\ map fst spans = merge_sort Z.le [2; 0]
    /\ Forall2 (cut_from ascii_word_char (sentences_of two_documents)) segments spans.
Proof.
  apply (proj2 (extract_dev_text_segments_worker_documents ascii_word_char (fun _ _ b => b)
                  (lit "0.xml") [3; 2] two_documents [2; 0] 3)).
  - reflexivity.
  - intros; cbv beta; lia.
  - repeat (apply Forall_cons; split; [lia|]); apply Forall_nil_2.
  - reflexivity.
  - apply NoDup_ListNoDup. repeat constructor; simpl; intuition discriminate.
  - vm_compute. discriminate.
  - vm_compute. split; [reflexivity|]. split.
    + apply NoDup_ListNoDup. repeat constructor; simpl; intuition discriminate.
    + repeat constructor; discriminate.
Defined.

(** ** The budget of the planner and the budget of the worker *)

Lemma splitlines_from_app_NL (text : str) : forall (after_cr : bool) (cur rest : str),
  (after_cr = true -> cur = []) ->
  splitlines_from after_cr cur (text ++ NL :: rest)
  = splitlines_from after_cr cur text
    ++ match last text with
       | None => if after_cr then [] else match cur with [] => [[]] | _ => [] end
       | Some c => if is_line_boundary c && negb (c =? 13)%N then [[]] else []
       end
    ++ splitlines rest.
Proof.
  induction text as [|c text IH]; intros after_cr cur rest Hcr.
  - cbn [app splitlines_from last]. change (is_line_boundary NL) with true. cbv iota.
    change (NL =? 10)%N with true. rewrite andb_true_r.
    destruct after_cr.
    + rewrite (Hcr eq_refl). reflexivity.
    + destruct cur; reflexivity.
  - rewrite <- app_comm_cons. cbn [splitlines_from].
    destruct text as [|c' text].
    + cbn [last app]. cbn [splitlines_from]. change (is_line_boundary NL) with true.
      change (NL =? 10)%N with true. cbv iota. rewrite andb_true_r.
      destruct (is_line_boundary c) eqn:Hb.
      * destruct (after_cr && (c =? 10)%N) eqn:Hswallow.
        -- apply andb_prop in Hswallow as [-> Hc]. rewrite (Hcr eq_refl).
           apply N.eqb_eq in Hc as ->. reflexivity.
        -- cbn [splitlines_from]. by destruct (c =? 13)%N.
      * reflexivity.
    + rewrite last_cons_cons.
      assert (Hsome : forall (a : bool) (cur' : str),
                 match last (c' :: text) return list str with
                 | None => if a then [] else match cur' with [] => [[]] | _ => [] end
                 | Some c0 => if is_line_boundary c0 && negb (c0 =? 13)%N then [[]] else []
                 end
                 = match last (c' :: text) with
                   | None => if after_cr then [] else match cur with [] => [[]] | _ => [] end
                   | Some c0 => if is_line_boundary c0 && negb (c0 =? 13)%N then [[]] else []
                   end).
      { intros a cur'. destruct (last (c' :: text)) eqn:Hl; [done|].
        by apply last_None in Hl. }
      destruct (is_line_boundary c).
      * destruct (after_cr && (c =? 10)%N).
        -- rewrite IH by done. by rewrite (Hsome false cur).
        -- rewrite IH by done. rewrite <- app_comm_cons. by rewrite (Hsome (c =? 13)%N []).
      * rewrite IH by done. by rewrite (Hsome false (c :: cur)).
Qed.

Lemma splitlines_app_NL (text rest : str) :
  splitlines (text ++ NL :: rest)
  = splitlines text ++ (if ends_line text then [[]] else []) ++ splitlines rest.
Proof.
  unfold splitlines at 1 2. rewrite splitlines_from_app_NL by done. unfold ends_line.
  by destruct (last text).
Qed.

Lemma splitlines_join (texts : list str) : splitlines (join [NL] texts) = joined_lines texts.
Proof.
  induction texts as [|text texts IH]; [done|].
  destruct texts as [|text' texts]; [done|].
  change (join [NL] (text :: text' :: texts)) with (text ++ NL :: join [NL] (text' :: texts)).
  rewrite splitlines_app_NL, IH. reflexivity.
Qed.

Lemma padded_refl (l : list str) : padded l l.
Proof. induction l; by constructor. Qed.

Lemma padded_app (a a' b b' : list str) :
  padded a a' -> padded b b' -> padded (a ++ b) (a' ++ b').
Proof. induction 1; intros Hb; simpl; [done|constructor; auto..]. Qed.

Lemma padded_rev (l l' : list str) : padded l l' -> padded (rev l) (rev l').
Proof.
  induction 1 as [|s l l' _ IH|l l' _ IH]; simpl.
  - constructor.
  - apply padded_app; [done|apply padded_refl].
  - rewrite <- (app_nil_r (rev l)). apply padded_app; [done|]. repeat constructor.
Qed.

Lemma padded_length (l l' : list str) : padded l l' -> (length l <= length l')%nat.
Proof. induction 1; simpl; lia. Qed.

Lemma joined_lines_padded (texts : list str) :
  padded (concat (map splitlines texts)) (joined_lines texts).
Proof.
  induction texts as [|text texts IH]; [constructor|].
  destruct texts as [|text' texts].
  - simpl. rewrite app_nil_r. apply padded_refl.
  - change (joined_lines (text :: text' :: texts))
      with (splitlines text ++ (if ends_line text then [[]] else [])
            ++ joined_lines (text' :: texts)).
    rewrite map_cons, concat_cons. apply padded_app; [apply padded_refl|].
    destruct (ends_line text); [by constructor|done].
Qed.

Lemma joined_lines_plain (texts : list str) :
  Forall (fun text => ends_line text = false) (removelast texts) ->
  joined_lines texts = concat (map splitlines texts).
Proof.
  induction texts as [|text texts IH]; [done|].
  destruct texts as [|text' texts].
  - intros _. simpl. by rewrite app_nil_r.
  - change (removelast (text :: text' :: texts)) with (text :: removelast (text' :: texts)).
    intros [Hends Hrest]%Forall_cons.
    change (joined_lines (text :: text' :: texts))
      with (splitlines text ++ (if ends_line text then [[]] else [])
            ++ joined_lines (text' :: texts)).
    rewrite Hends, IH by done. reflexivity.
Qed.

Section BudgetFacts.

Variable WC : N -> bool.

Lemma count_words_empty : count_words WC [] = 0.
Proof. reflexivity. Qed.

Lemma max_allowed_loop_padded (r r' : list str) (L : Z) :
  padded r r' ->
  forall i i' w,
    i - zlen r = i' - zlen r' ->
    (max_allowed_loop WC r i w L).2 = (max_allowed_loop WC r' i' w L).2
    /\ (max_allowed_loop WC r i w L).1 <= (max_allowed_loop WC r' i' w L).1.
Proof.
  induction 1 as [|s r r' Hp IH|r r' Hp IH]; intros i i' w Hi.
  - unfold zlen in Hi. simpl in *. split; [done|lia].
  - cbn [max_allowed_loop]. destruct (w <? L).
    + apply IH. unfold zlen in *. simpl in Hi. lia.
    + apply padded_length in Hp. unfold zlen in Hi. simpl in *. split; [done|lia].
  - cbn [max_allowed_loop]. apply padded_length in Hp as Hlen.
    destruct (Z.ltb_spec w L) as [Hlt|Hge].
    + rewrite count_words_empty, Z.add_0_r. apply IH.
      unfold zlen in *. simpl in Hi. lia.
    + assert (Hstop : max_allowed_loop WC r i w L = (i, w)).
      { destruct r; [done|]. cbn [max_allowed_loop].
        by destruct (Z.ltb_spec w L); [lia|]. }
      rewrite Hstop. unfold zlen in Hi. simpl in *. split; [done|lia].
Qed.

Lemma max_allowed_segments_padded (l l' : list str) (L : Z) :
  padded l l' -> max_allowed_segments WC l L <= max_allowed_segments WC l' L.
Proof.
  intros Hp. unfold max_allowed_segments.
  destruct (max_allowed_loop_padded (rev l) (rev l') L (padded_rev _ _ Hp)
              (zlen l - 1) (zlen l' - 1) 0) as [Hw Hi].
  { unfold zlen. rewrite !length_rev. lia. }
  destruct (max_allowed_loop WC (rev l) (zlen l - 1) 0 L) as [i w].
  destruct (max_allowed_loop WC (rev l') (zlen l' - 1) 0 L) as [i' w'].
  simpl in *. subst w'.
  destruct (w <? L); [lia|].
  lia.
Qed.

End BudgetFacts.

Lemma sentences_of_texts (docs : list (Z * str)) :
  sentences_of docs = concat (map splitlines (map snd docs)).
Proof. unfold sentences_of. by rewrite map_map. Qed.

(** X20. The planner and the worker do not count the same sentences:
    [GetMaxAllowedSegmentsPerFileWorker] splits the texts of a shard joined by
    line feeds, the worker splits each text.  The budget of the planner is
    never below the one the worker enforces on the same documents, and the
    two are equal when no document but the last is empty or ends with a line
    boundary other than a carriage return.  After a text that ends with a
    line feed the planner counts one more, empty, sentence; so a shard can be
    asked for more segments than its worker accepts. *)
Theorem planner_budget_covers_worker (WC : N -> bool) (docs : list (Z * str))
    (max_segment_length : Z) :
  let text := join [NL] (map snd docs) in
  max_allowed_segments WC (sentences_of docs) max_segment_length
  <= get_max_allowed_segments_for_text WC text max_segment_length
  /\ (Forall (fun text => ends_line text = false) (removelast (map snd docs)) ->
      get_max_allowed_segments_for_text WC text max_segment_length
      = max_allowed_segments WC (sentences_of docs) max_segment_length)
  /\ splitlines text = joined_lines (map snd docs).
Proof.
  intros text.
  assert (Hbudget : get_max_allowed_segments_for_text WC text max_segment_length
                    = max_allowed_segments WC (joined_lines (map snd docs)) max_segment_length).
  { unfold get_max_allowed_segments_for_text, max_allowed_segments, text.
    by rewrite splitlines_join. }
  rewrite Hbudget, sentences_of_texts. split_and!.
  - apply max_allowed_segments_padded, joined_lines_padded.
  - intros Hplain. by rewrite joined_lines_plain.
  - apply splitlines_join.
Qed.

(** Two documents that end with a line feed: the planner allows two segments
    of three words, the worker one, and it raises when asked for two. *)
Lemma planner_budget_covers_worker_witness :
  max_allowed_segments ascii_word_char (sentences_of two_ended_documents) 3
  <= get_max_allowed_segments_for_text ascii_word_char
       (join [NL] (map snd two_ended_documents)) 3
  /\ max_allowed_segments ascii_word_char (sentences_of two_ended_documents) 3 = 1
  /\ get_max_allowed_segments_for_text ascii_word_char
       (join [NL] (map snd two_ended_documents)) 3 = 2
  /\ exists msg,
       extract_dev_text_segments_worker ascii_word_char (fun _ _ b => b) (lit "0.xml") [3; 3]
         two_ended_documents [0; 1]
       = Raise (ValueError msg).
Proof.
  split; [|split; [reflexivity|split; [reflexivity|]]].
  - apply (planner_budget_covers_worker ascii_word_char two_ended_documents 3).
  - eexists. vm_compute. reflexivity.
Defined.

(** * Further properties of the dataset module *)

(** ** Label ids *)

Lemma str_leb_refl (a : str) : str_leb a a = true.
Proof. induction a as [|x a IH]; [done|]. simpl. by rewrite N.eqb_refl, IH, orb_true_r. Qed.

Lemma str_leb_total (a b : str) : str_leb a b = true \/ str_leb b a = true.
Proof.
  revert b. induction a as [|x a IH]; intros [|y b]; simpl; auto.
  destruct (N.ltb_spec x y) as [Hxy|Hxy]; [by left|].
  destruct (N.ltb_spec y x) as [Hyx|Hyx]; [by right|].
  assert (x = y) as -> by lia. rewrite N.eqb_refl. simpl. apply IH.
Qed.

Lemma str_leb_trans (a b c : str) :
  str_leb a b = true -> str_leb b c = true -> str_leb a c = true.
Proof.
  revert b c. induction a as [|x a IH]; intros [|y b] [|z c]; simpl; try done.
  intros Hab Hbc.
  apply orb_true_iff in Hab as [Hxy|[Hxy Hab]%andb_true_iff];
    apply orb_true_iff in Hbc as [Hyz|[Hyz Hbc]%andb_true_iff];
    rewrite ?N.ltb_lt, ?N.eqb_eq in *.
  - apply orb_true_iff. left. apply N.ltb_lt. lia.
  - apply orb_true_iff. left. apply N.ltb_lt. lia.
  - apply orb_true_iff. left. apply N.ltb_lt. lia.
  - subst. rewrite N.eqb_refl. apply orb_true_iff. right. simpl. by eapply IH.
Qed.

Lemma str_leb_antisym (a b : str) : str_leb a b = true -> str_leb b a = true -> a = b.
Proof.
  revert b. induction a as [|x a IH]; intros [|y b]; simpl; try done.
  intros Hab Hba.
  apply orb_true_iff in Hab as [Hxy|[Hxy Hab]%andb_true_iff];
    apply orb_true_iff in Hba as [Hyx|[Hyx Hba]%andb_true_iff];
    rewrite ?N.ltb_lt, ?N.eqb_eq in *; try lia.
  subst. f_equal. by apply IH.
Qed.

#[global] Instance str_le_total : Total str_le.
Proof. intros a b. apply str_leb_total. Qed.

#[global] Instance str_le_trans : Transitive str_le.
Proof. intros a b c. apply str_leb_trans. Qed.

#[global] Instance str_le_antisym : AntiSymm (=) str_le.
Proof. intros a b. apply str_leb_antisym. Qed.

(** Numbering labels that are all new gives each its position. *)
Lemma number_labels (labels : list (list N)) : forall (done : list (list N)) (m : gmap (list N) Z),
  NoDup (done ++ labels) ->
  size m = length done ->
  (forall label i, m !! label = Some i <-> done !! Z.to_nat i = Some label /\ 0 <= i) ->
  forall label i,
    foldl (fun label_ids label => <[label := Z.of_nat (size label_ids)]> label_ids) m labels
    !! label = Some i
    <-> (done ++ labels) !! Z.to_nat i = Some label /\ 0 <= i.
Proof.
  induction labels as [|x labels IH]; intros done m Hnodup Hsize Hm label i.
  - simpl. rewrite app_nil_r. apply Hm.
  - cbn [foldl]. replace (done ++ x :: labels) with ((done ++ [x]) ++ labels)
      by (by rewrite <- app_assoc).
    assert (Hx : x ∉ done).
    { apply NoDup_app in Hnodup as (_ & Hdis & _). intros Hin.
      apply (Hdis x Hin). apply list_elem_of_here. }
    assert (Hfresh : m !! x = None).
    { destruct (m !! x) as [k|] eqn:Hk; [|done]. apply Hm in Hk as [Hk _].
      exfalso. apply Hx. by eapply list_elem_of_lookup_2. }
    apply IH.
    + by rewrite <- app_assoc.
    + rewrite map_size_insert_None by done. rewrite length_app, Hsize. simpl. lia.
    + clear label i. intros label i. rewrite Hsize.
      destruct (decide (label = x)) as [->|Hne].
      * rewrite lookup_insert_eq. split.
        -- intros [= <-]. rewrite Nat2Z.id. split; [|lia].
           by rewrite lookup_app_r, Nat.sub_diag.
        -- intros [Hl Hi]. apply lookup_app_Some in Hl as [Hl|[Hge Hl]].
           ++ exfalso. apply Hx. by eapply list_elem_of_lookup_2.
           ++ apply list_lookup_singleton_Some in Hl as [Hl _]. f_equal. lia.
      * rewrite lookup_insert_ne by done. rewrite Hm. split.
        -- intros [Hl Hi]. split; [|done]. by apply lookup_app_l_Some.
        -- intros [Hl Hi]. split; [|done].
           apply lookup_app_Some in Hl as [Hl|[Hge Hl]]; [done|].
           apply list_lookup_singleton_Some in Hl as [_ Hl]. congruence.
Qed.

Lemma create_label_ids_lookup (unique_labels : gset (list N)) (pad_label label : str) (i : Z) :
  create_label_ids unique_labels pad_label !! label = Some i
  <-> (pad_label :: merge_sort str_le (elements (unique_labels ∖ {[pad_label]})))
      !! Z.to_nat i = Some label /\ 0 <= i.
Proof.
  unfold create_label_ids.
  assert (Hset : (if decide (pad_label ∈ unique_labels)
                  then unique_labels ∖ {[pad_label]} else unique_labels)
                 = unique_labels ∖ {[pad_label]}).
  { destruct (decide (pad_label ∈ unique_labels)) as [|Hnin]; [done|].
    symmetry. apply difference_disjoint_L. by apply disjoint_singleton_r. }
  rewrite Hset.
  pose proof (merge_sort_Permutation str_le (elements (unique_labels ∖ {[pad_label]})))
    as Hperm.
  apply (number_labels _ [pad_label]).
  - simpl. apply NoDup_cons. split.
    + rewrite Hperm, elem_of_elements, elem_of_difference, elem_of_singleton. tauto.
    + rewrite Hperm. apply NoDup_elements.
  - by rewrite map_size_singleton.
  - intros l k. rewrite lookup_singleton_Some. split.
    + intros [<- <-]. done.
    + intros [Hl Hk]. apply list_lookup_singleton_Some in Hl as [Hl <-].
      split; [done|lia].
Qed.

Lemma create_label_ids_lookup_some (unique_labels : gset (list N)) (pad_label label : str) :
  label = pad_label \/ label ∈ unique_labels ->
  is_Some (create_label_ids unique_labels pad_label !! label).
Proof.
  intros Hlabel.
  assert (Hmem : label ∈ pad_label :: merge_sort str_le
                                        (elements (unique_labels ∖ {[pad_label]}))).
  { destruct (decide (label = pad_label)) as [->|Hne]; [apply list_elem_of_here|].
    apply list_elem_of_further.
    rewrite merge_sort_Permutation, elem_of_elements, elem_of_difference, elem_of_singleton.
    tauto. }
  apply list_elem_of_lookup in Hmem as [k Hk]. exists (Z.of_nat k).
  apply create_label_ids_lookup. rewrite Nat2Z.id. split; [done|lia].
Qed.

(** X21. [create_label_ids] gives [pad_label] the id 0 and every other
    label of the set the id that is its rank, from 1, in the order of
    Python on strings.  So the labels with an id are [pad_label] and the
    labels of the set; no two labels share an id; the ids are the numbers
    from 0 to the number of labels less one; and of two labels other than
    [pad_label] the one that sorts first has the smaller id. *)
Theorem create_label_ids_spec (unique_labels : gset (list N)) (pad_label : str) :
  let label_ids := create_label_ids unique_labels pad_label in
  label_ids !! pad_label = Some 0
  /\ (forall label, is_Some (label_ids !! label)
                    <-> label = pad_label \/ label ∈ unique_labels)
  /\ (forall label1 label2 i,
        label_ids !! label1 = Some i -> label_ids !! label2 = Some i -> label1 = label2)
  /\ (forall i, (exists label, label_ids !! label = Some i)
                <-> 0 <= i < Z.of_nat (size label_ids))
  /\ (forall label1 label2 i1 i2,
        label_ids !! label1 = Some i1 -> label_ids !! label2 = Some i2 ->
        label1 <> pad_label -> label2 <> pad_label ->
        (i1 <= i2 <-> str_le label1 label2)).
Proof.
  intros label_ids. subst label_ids.
  set (others := merge_sort str_le (elements (unique_labels ∖ {[pad_label]}))).
  pose proof (create_label_ids_lookup unique_labels pad_label) as Hl. fold others in Hl.
  pose proof (merge_sort_Permutation str_le (elements (unique_labels ∖ {[pad_label]})))
    as Hperm. fold others in Hperm.
  assert (Hin : forall label, label ∈ others <-> label ∈ unique_labels /\ label <> pad_label).
  { intros label. rewrite Hperm, elem_of_elements, elem_of_difference, elem_of_singleton.
    tauto. }
  assert (Hnodup : NoDup (pad_label :: others)).
  { apply NoDup_cons. split; [rewrite Hin; tauto|]. rewrite Hperm. apply NoDup_elements. }
  assert (Hsorted : StronglySorted str_le others)
    by (apply StronglySorted_merge_sort; apply _).
  assert (Hsize : size (create_label_ids unique_labels pad_label) = S (length others)).
  { apply Nat.le_antisymm.
    - destruct (decide (size (create_label_ids unique_labels pad_label)
                        <= S (length others))%nat) as [|Hgt]; [done|].
      exfalso.
      assert (Hsub : dom (create_label_ids unique_labels pad_label)
                     ⊆ list_to_set (pad_label :: others)).
      { intros label [i Hi]%elem_of_dom. apply Hl in Hi as [Hi _].
        apply elem_of_list_to_set. by eapply list_elem_of_lookup_2. }
      apply subseteq_size in Hsub. rewrite size_dom, size_list_to_set in Hsub by done.
      simpl in Hsub. lia.
    - assert (Hsub : list_to_set (pad_label :: others)
                     ⊆ dom (create_label_ids unique_labels pad_label)).
      { intros label [k Hk]%elem_of_list_to_set%list_elem_of_lookup. apply elem_of_dom.
        exists (Z.of_nat k). apply Hl. rewrite Nat2Z.id. split; [done|lia]. }
      apply subseteq_size in Hsub. rewrite size_dom, size_list_to_set in Hsub by done.
      simpl in Hsub. lia. }
  split_and!.
  - apply Hl. done.
  - intros label. split.
    + intros [i Hi]. apply Hl in Hi as [Hi _]. apply list_elem_of_lookup_2 in Hi.
      apply elem_of_cons in Hi as [->|Hi]; [by left|]. right. by apply Hin.
    + intros Hlabel.
      assert (Hmem : label ∈ pad_label :: others).
      { destruct (decide (label = pad_label)) as [->|Hne]; [apply list_elem_of_here|].
        apply list_elem_of_further, Hin. tauto. }
      apply list_elem_of_lookup in Hmem as [k Hk]. exists (Z.of_nat k). apply Hl.
      rewrite Nat2Z.id. split; [done|lia].
  - intros label1 label2 i H1 H2. apply Hl in H1 as [H1 _]. apply Hl in H2 as [H2 _].
    congruence.
  - intros i. rewrite Hsize. split.
    + intros [label Hi]. apply Hl in Hi as [Hi Hpos]. apply lookup_lt_Some in Hi.
      simpl in Hi. lia.
    + intros Hi. destruct (lookup_lt_is_Some_2 (pad_label :: others) (Z.to_nat i))
        as [label Hlabel]; [simpl; lia|].
      exists label. apply Hl. split; [done|lia].
  - intros label1 label2 i1 i2 H1 H2 Hp1 Hp2.
    apply Hl in H1 as [H1 Hi1]. apply Hl in H2 as [H2 Hi2].
    destruct (Z.to_nat i1) as [|k1] eqn:Hk1; [simpl in H1; congruence|].
    destruct (Z.to_nat i2) as [|k2] eqn:Hk2; [simpl in H2; congruence|].
    simpl in H1, H2.
    assert (Hmono : forall a b la lb,
               (a <= b)%nat -> others !! a = Some la -> others !! b = Some lb -> str_le la lb).
    { intros a b la lb Hab Ha Hb. destruct (decide (a = b)) as [->|Hne].
      - assert (la = lb) as -> by congruence. apply str_leb_refl.
      - eapply (StronglySorted_lookup_lt str_le); [exact Hsorted| |exact Ha|exact Hb]. lia. }
    split.
    + intros Hle. apply (Hmono k1 k2); [lia|done|done].
    + intros Hle. destruct (decide (i1 <= i2)) as [|Hgt]; [done|].
      assert (Hrev : str_le label2 label1) by (apply (Hmono k2 k1); [lia|done|done]).
      assert (label1 = label2) as -> by (by apply str_leb_antisym).
      apply NoDup_cons in Hnodup as [_ Hnd].
      pose proof (NoDup_lookup _ _ _ _ Hnd H1 H2). lia.
Qed.

(** ** Tokenization with the label ids of the data set *)

Lemma for_each_total_elem {S A} (body : S -> A -> result S) (l : list A) :
  (forall s x, x ∈ l -> exists s', body s x = Ok s') ->
  forall s0, exists s, for_each body l s0 = Ok s.
Proof.
  induction l as [|x l IH]; intros Hstep s0; simpl; [by eexists|].
  destruct (Hstep s0 x ltac:(apply list_elem_of_here)) as [s1 ->]. simpl.
  apply IH. intros s y Hy. apply Hstep. by apply list_elem_of_further.
Qed.

Lemma label_ids_of_total (d : gmap (list N) Z) (labels : list str) :
  (forall label, label ∈ labels -> is_Some (d !! label)) ->
  exists ids, label_ids_of d labels = Ok ids /\ length ids = length labels.
Proof.
  induction labels as [|label labels IH]; intros Hknown; [by exists []|].
  destruct (Hknown label ltac:(apply list_elem_of_here)) as [v Hv].
  destruct IH as (ids & Hids & Hlen).
  { intros l Hl. apply Hknown. by apply list_elem_of_further. }
  exists (v :: ids). split; [|simpl; lia].
  cbn [label_ids_of]. unfold label_id. rewrite Hv. cbn [mbind result_bind].
  by rewrite Hids.
Qed.

Section TokenizeTotal.

Variable text_to_ids : str -> list Z.
Variable cls_id sep_id : Z.
Variable max_seq_length : Z.
Variable punct_label_ids capit_label_ids : gmap (list N) Z.
Variable pad_label : str.
Variable punctuation_labels_message capitalization_labels_message :
  list str -> str -> Z -> Z -> list str -> list str -> str.
Variable queries : list str.
Variable punct_labels_lines capit_labels_lines : list (list str).
Variable split_i : Z.

Hypothesis pad_label_known : is_Some (punct_label_ids !! pad_label).
Hypothesis punct_labels_known :
  forall line label, line ∈ punct_labels_lines -> label ∈ line ->
                     is_Some (punct_label_ids !! label).
Hypothesis capit_labels_known :
  forall line label, line ∈ capit_labels_lines -> label ∈ line ->
                     is_Some (capit_label_ids !! label).
Hypothesis punct_line_per_query : length punct_labels_lines = length queries.
Hypothesis capit_line_per_query : length capit_labels_lines = length queries.

Local Abbreviation body :=
  (tokenize_query text_to_ids cls_id sep_id max_seq_length punct_label_ids capit_label_ids
     pad_label true punctuation_labels_message capitalization_labels_message split_i
     punct_labels_lines capit_labels_lines).

Lemma tokenize_query_outcome (st : tokenized) (iq : Z * str) :
  iq ∈ enumerate queries ->
  (labels_match punct_labels_lines capit_labels_lines iq /\ exists st', body st iq = Ok st')
  \/ (~ labels_match punct_labels_lines capit_labels_lines iq
      /\ exists msg, body st iq = Raise (ValueError msg)).
Proof.
  intros Hiq. apply elem_of_lookup_imap in Hiq as (i & query & -> & Hq).
  apply lookup_lt_Some in Hq as Hi.
  destruct (lookup_lt_is_Some_2 punct_labels_lines i ltac:(lia)) as [pl Hpl].
  destruct (lookup_lt_is_Some_2 capit_labels_lines i ltac:(lia)) as [cl Hcl].
  unfold tokenize_query, labels_match. cbn [fst snd]. rewrite Nat2Z.id.
  rewrite (getitem_Ok _ _ _ Hpl), (getitem_Ok _ _ _ Hcl). cbn [mbind result_bind].
  set (words := split_ws (strip query)).
  unfold check_number_of_labels, zlen.
  destruct (Z.eqb_spec (Z.of_nat (length words)) (Z.of_nat (length pl))) as [Hp|Hp];
    cbn [negb].
  2:{ right. split; [|by eexists]. intros (pl' & cl' & Hpl' & _ & Hlen & _).
      rewrite Hpl in Hpl'. injection Hpl' as <-. lia. }
  destruct (Z.eqb_spec (Z.of_nat (length words)) (Z.of_nat (length cl))) as [Hc|Hc];
    cbn [negb].
  2:{ right. split; [|by eexists]. intros (pl' & cl' & _ & Hcl' & _ & Hlen).
      rewrite Hcl in Hcl'. injection Hcl' as <-. lia. }
  left. split; [exists pl, cl; split_and!; [done|done|lia|lia]|].
  cbn [mbind result_bind]. destruct pad_label_known as [pad_id Hpad].
  unfold label_id at 1. rewrite Hpad. cbn [mbind result_bind].
  destruct (label_ids_of_total punct_label_ids pl) as (pq & -> & Hpq).
  { intros l Hl. apply (punct_labels_known pl); [by eapply list_elem_of_lookup_2|done]. }
  destruct (label_ids_of_total capit_label_ids cl) as (cq & -> & Hcq).
  { intros l Hl. apply (capit_labels_known cl); [by eapply list_elem_of_lookup_2|done]. }
  cbn [mbind result_bind].
  destruct (for_each_total_elem
              (fun st jw => tokenize_word text_to_ids st jw (Some (pq, cq)))
              (enumerate words)) with (s0 := ([cls_id], [0], [pad_id], [pad_id]))
    as [[[[ids mask] punct] capit] ->].
  { intros [[[ids mask] punct] capit] jw Hjw.
    apply elem_of_lookup_imap in Hjw as (j & word & -> & Hj). apply lookup_lt_Some in Hj.
    unfold tokenize_word. rewrite Nat2Z.id.
    destruct (lookup_lt_is_Some_2 pq j ltac:(lia)) as [p Hp'].
    destruct (lookup_lt_is_Some_2 cq j ltac:(lia)) as [c Hc'].
    rewrite (getitem_Ok _ _ _ Hp'), (getitem_Ok _ _ _ Hc'). cbn [mbind result_bind].
    by eexists. }
  cbn [mbind result_bind]. destruct (_ >=? _); by eexists.
Qed.

Lemma tokenize_queries_outcome (l : list (Z * str)) : forall st0,
  (forall iq, iq ∈ l -> iq ∈ enumerate queries) ->
  match for_each body l st0 with
  | Ok _ => Forall (labels_match punct_labels_lines capit_labels_lines) l
  | Raise e =>
      (exists msg, e = ValueError msg)
      /\ Exists (fun iq => ~ labels_match punct_labels_lines capit_labels_lines iq) l
  | OutOfFuel => False
  end.
Proof.
  induction l as [|iq l IH]; intros st0 Hin; [by constructor|].
  cbn [for_each].
  destruct (tokenize_query_outcome st0 iq (Hin iq ltac:(apply list_elem_of_here)))
    as [[Hok [st1 ->]]|[Hbad [msg ->]]]; cbn [mbind result_bind].
  - specialize (IH st1 ltac:(intros x Hx; apply Hin; by apply list_elem_of_further)).
    destruct (for_each body l st1) as [t|e|].
    + by constructor.
    + destruct IH as [Hmsg Hex]. split; [done|]. by apply Exists_cons_tl.
    + done.
  - split; [by eexists|]. by apply Exists_cons_hd.
Qed.

End TokenizeTotal.

(** X22. Tokenization with the label ids that [create_label_ids] makes from
    sets holding every label of the label lines, one line per query, the ids
    of the tokenizer and the numbers of labels being such that the arrays of
    [np.int32] hold every value as it is:
    [TokenizeCreateMasksClipWorker.__call__] never raises [KeyError] or
    [IndexError].  It returns exactly when every query has as many
    punctuation labels and as many capitalization labels as it has words, and
    it raises the [ValueError] of [check_number_of_labels] when some query has
    not. *)
Theorem tokenize_worker_with_created_ids (text_to_ids : str -> list Z) (cls_id sep_id : Z)
    (max_seq_length : Z) (pad_label : str)
    (punctuation_labels_message capitalization_labels_message :
       list str -> str -> Z -> Z -> list str -> list str -> str)
    (punct_unique_labels capit_unique_labels : gset (list N)) (queries : list str)
    (punct_labels_lines capit_labels_lines : list (list str)) (split_i : Z) :
  length punct_labels_lines = length queries ->
  length capit_labels_lines = length queries ->
  (forall line label, line ∈ punct_labels_lines -> label ∈ line ->
                      label ∈ punct_unique_labels) ->
  (forall line label, line ∈ capit_labels_lines -> label ∈ line ->
                      label ∈ capit_unique_labels) ->
  fits_int32 cls_id -> fits_int32 sep_id ->
  (forall word, Forall fits_int32 (text_to_ids word)) ->
  fits_int32 (Z.of_nat (size punct_unique_labels)) ->
  fits_int32 (Z.of_nat (size capit_unique_labels)) ->
  match TokenizeCreateMasksClipWorker_call text_to_ids cls_id sep_id max_seq_length
          (create_label_ids punct_unique_labels pad_label)
          (create_label_ids capit_unique_labels pad_label) pad_label true
          punctuation_labels_message capitalization_labels_message queries
          punct_labels_lines capit_labels_lines split_i with
  | Ok _ => Forall (labels_match punct_labels_lines capit_labels_lines) (enumerate queries)
  | Raise e =>
      (exists msg, e = ValueError msg)
      /\ Exists (fun iq => ~ labels_match punct_labels_lines capit_labels_lines iq)
           (enumerate queries)
  | OutOfFuel => False
  end.
Proof.
  intros Hpl Hcl Hpunct Hcapit _ _ _ _ _. unfold TokenizeCreateMasksClipWorker_call.
  assert (Hknown : forall unique_labels label,
             label = pad_label \/ label ∈ unique_labels ->
             is_Some (create_label_ids unique_labels pad_label !! label)).
  { intros U label Hl. apply create_label_ids_lookup_some. done. }
  apply tokenize_queries_outcome with (queries := queries); try done.
  - apply Hknown. by left.
  - intros line label Hline Hlabel. apply Hknown. right. by eapply Hpunct.
  - intros line label Hline Hlabel. apply Hknown. right. by eapply Hcapit.
Qed.

Lemma tokenize_worker_with_created_ids_witness :
  match TokenizeCreateMasksClipWorker_call (map (fun c => Z.of_N c mod 1000)) 101 102 8
          (create_label_ids (list_to_set [lit "O"; lit ","]) (lit "O"))
          (create_label_ids (list_to_set [lit "O"; lit "U"]) (lit "O")) (lit "O") true
          (fun _ _ _ _ _ _ => []) (fun _ _ _ _ _ _ => [])
          [lit "hi you"; lit "abcdefghij k"]
          [[lit ","; lit "O"]; [lit "O"; lit ","]] [[lit "U"; lit "O"]; [lit "U"; lit "O"]] 0 with
  | Ok _ =>
      Forall (labels_match [[lit ","; lit "O"]; [lit "O"; lit ","]]
                [[lit "U"; lit "O"]; [lit "U"; lit "O"]])
        (enumerate [lit "hi you"; lit "abcdefghij k"])
  | Raise e =>
      (exists msg, e = ValueError msg)
      /\ Exists (fun iq => ~ labels_match [[lit ","; lit "O"]; [lit "O"; lit ","]]
                             [[lit "U"; lit "O"]; [lit "U"; lit "O"]] iq)
           (enumerate [lit "hi you"; lit "abcdefghij k"])
  | OutOfFuel => False
  end.
Proof.
  apply (tokenize_worker_with_created_ids (map (fun c => Z.of_N c mod 1000)) 101 102 8 (lit "O")
           (fun _ _ _ _ _ _ => []) (fun _ _ _ _ _ _ => [])
           (list_to_set [lit "O"; lit ","]) (list_to_set [lit "O"; lit "U"])).
  - reflexivity.
  - reflexivity.
  - intros line label Hline Hlabel. apply elem_of_list_to_set.
    repeat (apply elem_of_cons in Hline as [->|Hline]);
      [| |by apply elem_of_nil in Hline];
      repeat (apply elem_of_cons in Hlabel as [->|Hlabel]);
      try (by apply elem_of_nil in Hlabel); repeat constructor.
  - intros line label Hline Hlabel. apply elem_of_list_to_set.
    repeat (apply elem_of_cons in Hline as [->|Hline]);
      [| |by apply elem_of_nil in Hline];
      repeat (apply elem_of_cons in Hlabel as [->|Hlabel]);
      try (by apply elem_of_nil in Hlabel); repeat constructor.
  - unfold fits_int32. lia.
  - unfold fits_int32. lia.
  - intros word. apply Forall_forall. intros v Hv.
    apply list_elem_of_In, in_map_iff in Hv as (c & <- & _). unfold fits_int32.
    pose proof (Z.mod_pos_bound (Z.of_N c) 1000 ltac:(lia)). lia.
  - unfold fits_int32. by vm_compute.
  - unfold fits_int32. by vm_compute.
Defined.

(** ** Packing into batches *)

Lemma insert_sorted_Permutation {A} (key : A -> Z) (x : A) (l : list A) :
  insert_sorted key x l ≡ₚ x :: l.
Proof.
  induction l as [|y l IH]; [done|]. simpl. destruct (key y <=? key x); [|done].
  rewrite IH. apply perm_swap.
Qed.

Lemma py_sorted_by_Permutation {A} (key : A -> Z) (l : list A) : py_sorted_by key l ≡ₚ l.
Proof.
  unfold py_sorted_by.
  assert (Hgen : forall acc, foldl (fun sorted x => insert_sorted key x sorted) acc l ≡ₚ acc ++ l).
  { induction l as [|x l IH]; intros acc; simpl; [by rewrite app_nil_r|].
    rewrite IH, insert_sorted_Permutation. simpl. apply Permutation_middle. }
  apply Hgen.
Qed.

Lemma insert_sorted_sorted {A} (key : A -> Z) (x : A) (l : list A) :
  StronglySorted (fun a b => key a <= key b) l ->
  StronglySorted (fun a b => key a <= key b) (insert_sorted key x l).
Proof.
  induction 1 as [|y l Hl IH Hy]; simpl; [repeat constructor|].
  destruct (Z.leb_spec (key y) (key x)) as [Hle|Hgt].
  - constructor; [done|]. rewrite insert_sorted_Permutation. by constructor.
  - constructor; [by constructor|]. constructor; [lia|].
    eapply Forall_impl; [exact Hy|]. simpl. intros z Hz. lia.
Qed.

Lemma py_sorted_by_sorted {A} (key : A -> Z) (l : list A) :
  StronglySorted (fun a b => key a <= key b) (py_sorted_by key l).
Proof.
  unfold py_sorted_by.
  assert (Hgen : forall acc,
             StronglySorted (fun a b => key a <= key b) acc ->
             StronglySorted (fun a b => key a <= key b)
               (foldl (fun sorted x => insert_sorted key x sorted) acc l)).
  { induction l as [|x l IH]; intros acc Hacc; simpl; [done|].
    by apply IH, insert_sorted_sorted. }
  apply Hgen. constructor.
Qed.

Lemma for_each_app {S A} (body : S -> A -> result S) (l1 l2 : list A) (s : S) :
  for_each body (l1 ++ l2) s = (s' ← for_each body l1 s; for_each body l2 s').
Proof.
  revert s. induction l1 as [|x l1 IH]; intros s; simpl; [done|].
  destruct (body s x); simpl; [apply IH|done|done].
Qed.

Lemma pad_fits {A} (vectors : list (list A)) (length : Z) (value : A) :
  vectors <> [] -> Forall (fun v => zlen v <= length) vectors ->
  pad vectors length value = Ok (map (padded_to length value) vectors).
Proof.
  intros Hne Hfit. unfold pad.
  assert (Hgen : forall acc,
             for_each
               (fun result v =>
                  if length - zlen v <? 0
                  then Raise (ValueError (lit "negative dimensions are not allowed"))
                  else Ok (result ++ [v ++ replicate (Z.to_nat (length - zlen v)) value]))
               vectors acc
             = Ok (acc ++ map (padded_to length value) vectors)).
  { clear Hne. induction Hfit as [|v vectors Hv _ IH]; intros acc; simpl.
    - by rewrite app_nil_r.
    - destruct (Z.ltb_spec (length - zlen v) 0) as [|_]; [lia|]. simpl.
      rewrite IH, <- app_assoc. done. }
  rewrite Hgen. simpl. destruct vectors; done.
Qed.

Lemma py_slice_map {A B} (f : A -> B) (l : list A) (a b : Z) :
  py_slice (map f l) a b = map f (py_slice l a b).
Proof.
  unfold py_slice, zlen. rewrite length_map. cbv zeta.
  by rewrite skipn_map, firstn_map.
Qed.

Section PackFacts.

Variable tokens_in_batch : Z.
Variable with_mark_up_queue with_building_queue : bool.
Variable pad_id cls_id sep_id : Z.
Variable punct_label_ids capit_label_ids : gmap (list N) Z.
Variable pad_label : str.
Variable add_masks_and_segment_ids_to_batch ignore_start_end ignore_extra_tokens : bool.
Variable shuffle : list batch -> list batch.
Variable punct_pad capit_pad : Z.
Variable zipped : list features_row.

Hypothesis punct_pad_known : punct_label_ids !! pad_label = Some punct_pad.
Hypothesis capit_pad_known : capit_label_ids !! pad_label = Some capit_pad.
Hypothesis rows_aligned : Forall row_aligned zipped.

Local Abbreviation step :=
  (pack_step with_building_queue pad_id cls_id sep_id punct_label_ids capit_label_ids pad_label
     add_masks_and_segment_ids_to_batch ignore_start_end ignore_extra_tokens
     (map r_input_ids zipped) (map r_subtokens_mask zipped) (map r_punct_labels zipped)
     (map r_capit_labels zipped)).
Local Abbreviation made :=
  (batch_of pad_id cls_id sep_id add_masks_and_segment_ids_to_batch ignore_start_end
     ignore_extra_tokens punct_pad capit_pad).

Lemma pack_step_ok (start size length : Z) (batches : list batch) (progress_made : Z)
    (puts : list Z) :
  let group := py_slice zipped start (start + size) in
  group <> [] -> Forall (fun r => zlen (r_input_ids r) <= length) group ->
  exists progress_made' puts',
    step (batches, progress_made, puts) (start, size, length)
    = Ok (batches ++ [made length group], progress_made', puts')
    /\ (with_building_queue = true ->
        sumZ puts' + progress_made' = sumZ puts + progress_made + size).
Proof.
  intros group Hne Hfit. unfold pack_step.
  assert (Hal : Forall row_aligned group).
  { apply Forall_forall. intros r Hr. apply (proj1 (Forall_forall _ _) rows_aligned).
    unfold group, py_slice in Hr. by apply subseteq_take, subseteq_drop in Hr. }
  assert (Hmap : forall {B} (f : features_row -> list B), map f group <> []).
  { intros B f. by destruct group. }
  rewrite !py_slice_map. fold group.
  rewrite (pad_fits (map r_input_ids group)); [|apply Hmap|].
  2:{ apply Forall_fmap. exact Hfit. }
  cbn [mbind result_bind].
  rewrite (pad_fits (map r_subtokens_mask group)); [|apply Hmap|].
  2:{ apply Forall_fmap, Forall_forall. intros r Hr.
      pose proof (proj1 (Forall_forall _ _) Hfit r Hr) as Hf.
      pose proof (proj1 (Forall_forall _ _) Hal r Hr) as (Hm & _). simpl in *.
      unfold zlen in *. lia. }
  cbn [mbind result_bind]. unfold label_id. rewrite punct_pad_known, capit_pad_known.
  cbn [mbind result_bind].
  rewrite (pad_fits (map r_punct_labels group)); [|apply Hmap|].
  2:{ apply Forall_fmap, Forall_forall. intros r Hr.
      pose proof (proj1 (Forall_forall _ _) Hfit r Hr) as Hf.
      pose proof (proj1 (Forall_forall _ _) Hal r Hr) as (_ & Hp & _). simpl in *.
      unfold zlen in *. lia. }
  cbn [mbind result_bind].
  rewrite (pad_fits (map r_capit_labels group)); [|apply Hmap|].
  2:{ apply Forall_fmap, Forall_forall. intros r Hr.
      pose proof (proj1 (Forall_forall _ _) Hfit r Hr) as Hf.
      pose proof (proj1 (Forall_forall _ _) Hal r Hr) as (_ & _ & Hc). simpl in *.
      unfold zlen in *. lia. }
  cbn [mbind result_bind]. rewrite !map_map.
  destruct with_building_queue.
  - destruct (Z.geb_spec (progress_made + size) BATCH_BUILDING_PROGRESS_REPORT_PERIOD).
    + eexists _, _. split; [reflexivity|]. intros _. rewrite sumZ_app. simpl. lia.
    + eexists _, _. split; [reflexivity|]. intros _. lia.
  - eexists _, _. split; [reflexivity|]. done.
Qed.

Lemma pack_loop (bs szs sls : list Z) (stop : Z) :
  batched (map r_input_ids zipped) bs szs sls stop ->
  exists groups progress_made puts,
    for_each step (zip (zip bs szs) sls) ([], 0, [])
    = Ok (zip_with made sls groups, progress_made, puts)
    /\ concat groups = take (Z.to_nat stop) zipped
    /\ Forall2 group_fits sls groups
    /\ (with_building_queue = true -> sumZ puts + progress_made = stop).
Proof.
  induction 1 as [|bs szs sls start sz m Hb IH Hsz Hend Hm].
  - exists [], 0, []. split_and!; done.
  - destruct IH as (groups & pm & puts & Hrun & Hconcat & Hfits & Hsum).
    destruct (batched_facts _ _ _ _ _ Hb) as (Hl1 & Hl2 & _ & Hstart & _).
    unfold zlen in Hend. rewrite length_map in Hend.
    rewrite !zip_with_app by (rewrite ?length_zip_with; lia).
    rewrite for_each_app, Hrun. cbn [mbind result_bind zip_with for_each].
    set (group := py_slice zipped start (start + sz)).
    assert (Hgroup : group = take (Z.to_nat sz) (drop (Z.to_nat start) zipped)).
    { unfold group. rewrite py_slice_inside by (unfold zlen; lia). f_equal. lia. }
    assert (Hne : group <> []).
    { rewrite Hgroup. intros Hnil. apply (f_equal length) in Hnil.
      rewrite length_take, length_drop in Hnil. simpl in Hnil. lia. }
    destruct (max_len_between_Ok (map r_input_ids zipped) start (start + sz))
      as (m' & Hm' & Hub & Hex); [lia|unfold zlen; rewrite length_map; lia|].
    rewrite Hm in Hm'. injection Hm' as <-.
    rewrite py_slice_map in Hub, Hex. fold group in Hub, Hex.
    assert (Hfit : Forall (fun r => zlen (r_input_ids r) <= ceil8 m) group).
    { apply Forall_forall. intros r Hr. pose proof (ceil8_ge m).
      specialize (Hub (r_input_ids r)). rewrite list_elem_of_fmap in Hub.
      specialize (Hub ltac:(by exists r)). lia. }
    destruct (pack_step_ok start sz (ceil8 m) (zip_with made sls groups) pm puts Hne Hfit)
      as (pm' & puts' & Hstep & Hsum').
    fold group in Hstep. rewrite Hstep. cbn [mbind result_bind].
    exists (groups ++ [group]), pm', puts'.
    apply Forall2_length in Hfits as Hlen.
    split_and!.
    + by rewrite zip_with_app by done.
    + rewrite concat_app, Hconcat. simpl. rewrite app_nil_r, Hgroup.
      replace (Z.to_nat (start + sz)) with (Z.to_nat start + Z.to_nat sz)%nat by lia.
      by rewrite take_take_drop.
    + apply Forall2_app; [done|]. constructor; [|constructor].
      split_and!; [done|apply ceil8_mod|done|].
      destruct Hex as (inp & Hinp & Hz). apply list_elem_of_fmap in Hinp as (r & -> & Hr).
      apply Exists_exists. exists r. split; [done|]. pose proof (ceil8_lt m). lia.
    + intros Hq. specialize (Hsum Hq). specialize (Hsum' Hq). lia.
Qed.

End PackFacts.

(** X23. [pack_into_batches] on the arrays of at least one query, the four
    arrays of each query having the same length, and with a pad label that
    has ids, the pad values being such that an array of [np.int32] holds
    them as they are: it returns, no [pad] being asked for a negative size
    or an empty batch.  The batches are, up to the shuffle, the queries sorted by length
    and cut into consecutive groups: each query is in exactly one batch; no
    batch is empty; every row of a batch is the array of a query followed by
    pad values up to the length of the batch, which is a multiple of 8, at
    least the length of each of its queries and less than 8 more than the
    longest; and the values put on the queue of batch building add up to the
    number of queries.  Without a query the unpacking raises
    [ValueError]. *)
Theorem pack_into_batches_spec (tokens_in_batch : Z)
    (with_mark_up_queue with_building_queue : bool) (pad_id cls_id sep_id : Z)
    (punct_label_ids capit_label_ids : gmap (list N) Z) (pad_label : str)
    (add_masks_and_segment_ids_to_batch ignore_start_end ignore_extra_tokens : bool)
    (shuffle : list batch -> list batch) (input_ids : list (list Z))
    (subtokens_mask : list (list bool)) (punct_labels capit_labels : list (list Z))
    (punct_pad capit_pad : Z) :
  let rows := zip4 input_ids subtokens_mask punct_labels capit_labels in
  punct_label_ids !! pad_label = Some punct_pad ->
  capit_label_ids !! pad_label = Some capit_pad ->
  Forall row_aligned rows ->
  (forall batches, shuffle batches ≡ₚ batches) ->
  fits_int32 pad_id -> fits_int32 punct_pad -> fits_int32 capit_pad ->
  match pack_into_batches tokens_in_batch with_mark_up_queue with_building_queue pad_id cls_id
          sep_id punct_label_ids capit_label_ids pad_label add_masks_and_segment_ids_to_batch
          ignore_start_end ignore_extra_tokens shuffle input_ids subtokens_mask punct_labels
          capit_labels with
  | Ok (batches, _, puts) =>
      rows <> []
      /\ exists lengths groups,
           batches
           ≡ₚ zip_with
                (batch_of pad_id cls_id sep_id add_masks_and_segment_ids_to_batch
                   ignore_start_end ignore_extra_tokens punct_pad capit_pad) lengths groups
           /\ concat groups = py_sorted_by (fun r => zlen (r_input_ids r)) rows
           /\ concat groups ≡ₚ rows
           /\ StronglySorted (fun a b => zlen (r_input_ids a) <= zlen (r_input_ids b))
                (concat groups)
           /\ Forall2 group_fits lengths groups
           /\ (with_building_queue = true -> sumZ puts = zlen rows)
  | Raise e =>
      rows = [] /\ e = ValueError (lit "not enough values to unpack (expected 4, got 0)")
  | OutOfFuel => False
  end.
Proof.
  intros rows Hpp Hcp Hal Hshuffle _ _ _. unfold pack_into_batches. fold rows.
  pose proof (py_sorted_by_Permutation (fun r => zlen (r_input_ids r)) rows) as Hperm.
  pose proof (py_sorted_by_sorted (fun r => zlen (r_input_ids r)) rows) as Hsorted.
  destruct (py_sorted_by (fun r => zlen (r_input_ids r)) rows) as [|r0 rest] eqn:Hz.
  { split; [|done]. by apply Permutation_nil. }
  set (zipped := r0 :: rest) in *.
  assert (Hal' : Forall row_aligned zipped) by (by rewrite Hperm).
  destruct (mark_up_batches_batched tokens_in_batch with_mark_up_queue
              (map r_input_ids zipped)) as (bs & szs & sls & mark_puts & Hmark & Hb).
  fold zipped. rewrite Hmark. cbn [mbind result_bind].
  destruct (pack_loop with_building_queue pad_id cls_id sep_id punct_label_ids capit_label_ids
              pad_label add_masks_and_segment_ids_to_batch ignore_start_end
              ignore_extra_tokens punct_pad capit_pad zipped Hpp Hcp Hal' bs szs sls _ Hb)
    as (groups & pm & puts & Hrun & Hconcat & Hfits & Hsum).
  rewrite Hrun. cbn [mbind result_bind].
  assert (Hall : concat groups = zipped).
  { rewrite Hconcat. apply take_ge. unfold zlen. rewrite length_map. lia. }
  split.
  { intros Hnil. rewrite Hnil in Hperm. by apply Permutation_nil_r in Hperm. }
  exists sls, groups. rewrite Hall. split_and!; try done.
  intros Hq. rewrite Hq. rewrite sumZ_app. simpl. specialize (Hsum Hq).
  unfold zlen in *. rewrite length_map in Hsum.
  rewrite <- (Permutation_length Hperm). lia.
Qed.

Lemma pack_into_batches_spec_witness :
  let input_ids := [[101; 7; 8; 9; 102]; [101; 7; 102]] in
  let subtokens_mask := [[false; true; false; false; false]; [false; true; false]] in
  let punct_labels := [[5; 1; 1; 1; 5]; [5; 2; 5]] in
  let capit_labels := [[6; 1; 1; 1; 6]; [6; 0; 6]] in
  match pack_into_batches 16 true true 0 101 102 {[lit "O" := 5]} {[lit "O" := 6]} (lit "O")
          true false false (@rev batch) input_ids subtokens_mask punct_labels capit_labels with
  | Ok (batches, _, puts) =>
      zip4 input_ids subtokens_mask punct_labels capit_labels <> []
      /\ exists lengths groups,
           batches ≡ₚ zip_with (batch_of 0 101 102 true false false 5 6) lengths groups
           /\ concat groups
              = py_sorted_by (fun r => zlen (r_input_ids r))
                  (zip4 input_ids subtokens_mask punct_labels capit_labels)
           /\ concat groups ≡ₚ zip4 input_ids subtokens_mask punct_labels capit_labels
           /\ StronglySorted (fun a b => zlen (r_input_ids a) <= zlen (r_input_ids b))
                (concat groups)
           /\ Forall2 group_fits lengths groups
           /\ (true = true
               -> sumZ puts = zlen (zip4 input_ids subtokens_mask punct_labels capit_labels))
  | Raise e =>
      zip4 input_ids subtokens_mask punct_labels capit_labels = []
      /\ e = ValueError (lit "not enough values to unpack (expected 4, got 0)")
  | OutOfFuel => False
  end.
Proof.
  intros input_ids subtokens_mask punct_labels capit_labels.
  apply (pack_into_batches_spec 16 true true 0 101 102 {[lit "O" := 5]} {[lit "O" := 6]}
           (lit "O") true false false (@rev batch) input_ids subtokens_mask punct_labels
           capit_labels 5 6).
  - by vm_compute.
  - by vm_compute.
  - repeat constructor.
  - intros batches. symmetry. apply Permutation_rev.
  - unfold fits_int32. lia.
  - unfold fits_int32. lia.
  - unfold fits_int32. lia.
Defined.

(** * Extracted Wikipedia *)

Lemma for_each_enumerate_total {St A} (Inv : nat -> St -> Prop)
    (body : St -> Z * A -> result St) (l : list A) :
  (forall (i : nat) x s,
     l !! i = Some x -> Inv i s -> exists s', body s (Z.of_nat i, x) = Ok s' /\ Inv (S i) s') ->
  forall s0, Inv 0%nat s0 ->
  exists s, for_each body (enumerate l) s0 = Ok s /\ Inv (length l) s.
Proof.
  unfold enumerate. intros Hstep.
  assert (Hgen : forall (rest : list A) (k : nat) s0,
             (forall i x, rest !! i = Some x -> l !! (k + i)%nat = Some x) ->
             Inv k s0 ->
             exists s,
               for_each body (imap (fun i x => (Z.of_nat (k + i), x)) rest) s0 = Ok s
               /\ Inv (k + length rest)%nat s).
  { induction rest as [|x rest IH]; intros k s0 Hrest Hinv.
    - exists s0. split; [done|]. simpl. by rewrite Nat.add_0_r.
    - rewrite imap_cons. cbn [for_each]. rewrite Nat.add_0_r.
      destruct (Hstep k x s0) as (s1 & -> & Hinv1); [|done|].
      { specialize (Hrest 0%nat x eq_refl). by rewrite Nat.add_0_r in Hrest. }
      cbn [mbind result_bind].
      destruct (IH (S k) s1) as (s & Hrun & Hinv'); [|done|].
      { intros i y Hy. specialize (Hrest (S i) y Hy).
        by replace (S k + i)%nat with (k + S i)%nat by lia. }
      exists s. split.
      + rewrite <- Hrun. f_equal. apply imap_ext. intros i y _. simpl. do 2 f_equal. lia.
      + simpl. by replace (k + S (length rest))%nat with (S k + length rest)%nat by lia. }
  intros s0 Hinv. apply (Hgen l 0%nat s0); [by intros|done].
Qed.

Lemma accumulate_from_lookup_take (l : list Z) : forall (acc : Z) (i : nat),
  (i < length l)%nat -> accumulate_from acc l !! i = Some (acc + sumZ (take (S i) l)).
Proof.
  induction l as [|x l IH]; intros acc i Hi; [simpl in Hi; lia|].
  destruct i as [|i]; simpl.
  - f_equal. lia.
  - rewrite IH by (simpl in Hi; lia). f_equal. simpl. lia.
Qed.

Lemma accumulate_from_length (l : list Z) : forall acc,
  length (accumulate_from acc l) = length l.
Proof. induction l as [|x l IH]; intros acc; simpl; [done|]. by rewrite IH. Qed.

Lemma accumulate_initial_lookup (l : list Z) (initial : Z) (i : nat) :
  (i <= length l)%nat -> accumulate_initial l initial !! i = Some (initial + sumZ (take i l)).
Proof.
  intros Hi. unfold accumulate_initial. destruct i as [|i]; simpl.
  - f_equal. lia.
  - apply accumulate_from_lookup_take. lia.
Qed.

Lemma sumZ_take_S (l : list Z) (i : nat) (x : Z) :
  l !! i = Some x -> sumZ (take (S i) l) = sumZ (take i l) + x.
Proof. intros Hx. rewrite (take_S_r _ _ _ Hx), sumZ_app. simpl. lia. Qed.

Lemma sumZ_take_mono (l : list Z) (a b : nat) :
  Forall (fun x => 0 <= x) l -> (a <= b)%nat -> sumZ (take a l) <= sumZ (take b l).
Proof.
  intros Hpos Hab. induction Hab as [|b Hab IH]; [lia|].
  destruct (l !! b) as [x|] eqn:Hx.
  - rewrite (sumZ_take_S _ _ _ Hx).
    pose proof (proj1 (Forall_lookup _ _) Hpos b x Hx) as Hx0. simpl in Hx0. lia.
  - apply lookup_ge_None in Hx. rewrite (take_ge l (S b)) by lia.
    rewrite (take_ge l b) in IH by lia. done.
Qed.

(** The dictionary maps the ids of the range of a file to the file. *)
Lemma wiki_doc_id_to_file_i_spec (counts : list Z) (start_doc_id start_file_id : Z) :
  Forall (fun c => 0 <= c) counts ->
  exists m,
    wiki_doc_id_to_file_i (py_range start_file_id (start_file_id + zlen counts))
      (accumulate_initial counts start_doc_id) = Ok m
    /\ forall d f,
         m !! d = Some f
         <-> exists i : nat,
               (i < length counts)%nat /\ f = start_file_id + Z.of_nat i
               /\ start_doc_id + sumZ (take i counts) <= d
                  < start_doc_id + sumZ (take (S i) counts).
Proof.
  intros Hpos. unfold wiki_doc_id_to_file_i.
  set (file_id_values := py_range start_file_id (start_file_id + zlen counts)).
  assert (Hlen : length file_id_values = length counts).
  { unfold file_id_values, py_range, zlen. rewrite length_seqZ. lia. }
  destruct (for_each_enumerate_total
              (fun (k : nat) (m : gmap Z Z) =>
                 forall d f,
                   m !! d = Some f
                   <-> exists i : nat,
                         (i < k)%nat /\ f = start_file_id + Z.of_nat i
                         /\ start_doc_id + sumZ (take i counts) <= d
                            < start_doc_id + sumZ (take (S i) counts))
              (fun (m : gmap Z Z) (i_file_id : Z * Z) =>
                 let '(i, file_id) := i_file_id in
                 first ← getitem (accumulate_initial counts start_doc_id) (Z.to_nat i);
                 next ← getitem (accumulate_initial counts start_doc_id) (Z.to_nat (i + 1));
                 Ok (foldl (fun m doc_id => <[doc_id := file_id]> m) m (py_range first next)))
              file_id_values) with (s0 := (∅ : gmap Z Z)) as (m & Hrun & Hm).
  - intros k file_id m Hk Hinv.
    apply lookup_lt_Some in Hk as Hlt. rewrite Hlen in Hlt.
    unfold file_id_values, py_range in Hk. apply lookup_seqZ in Hk as [-> _].
    rewrite Nat2Z.id. replace (Z.to_nat (Z.of_nat k + 1)) with (S k) by lia.
    rewrite (getitem_Ok _ _ _ (accumulate_initial_lookup counts start_doc_id k ltac:(lia))).
    rewrite (getitem_Ok _ _ _ (accumulate_initial_lookup counts start_doc_id (S k) ltac:(lia))).
    cbn [mbind result_bind]. eexists. split; [reflexivity|].
    intros d f. rewrite foldl_insert_lookup. unfold py_range.
    destruct (decide (d ∈ seqZ _ _)) as [Hin|Hnin].
    + apply elem_of_seqZ in Hin. split.
      * intros [= <-]. exists k. split_and!; [lia|done|lia|lia].
      * intros (i & Hi & -> & Hd). f_equal.
        destruct (decide (i = k)) as [->|Hne]; [done|].
        pose proof (sumZ_take_mono counts (S i) k Hpos ltac:(lia)). lia.
    + rewrite elem_of_seqZ in Hnin. rewrite Hinv. split.
      * intros (i & Hi & Hf & Hd). exists i. split; [lia|done].
      * intros (i & Hi & Hf & Hd). exists i. split; [|done].
        destruct (decide (i = k)) as [->|Hne]; [lia|lia].
  - intros d f. rewrite lookup_empty. split; [done|]. intros (i & Hi & _). lia.
  - exists m. split; [exact Hrun|]. intros d f. rewrite Hm, Hlen. done.
Qed.

Lemma for_each_collect {A B} (g : A -> result B) (body : list B -> A -> result (list B))
    (l : list A) :
  (forall acc x, body acc x = (w ← g x; Ok (acc ++ [w]))) ->
  forall acc0 r,
    for_each body l acc0 = Ok r ->
    exists ws, r = acc0 ++ ws /\ Forall2 (fun x w => g x = Ok w) l ws.
Proof.
  intros Hbody. induction l as [|x l IH]; intros acc0 r Hrun; simpl in Hrun.
  - injection Hrun as <-. exists []. split; [by rewrite app_nil_r|constructor].
  - rewrite Hbody in Hrun. destruct (g x) as [w| |] eqn:Hg; simpl in Hrun; try done.
    destruct (IH _ _ Hrun) as (ws & -> & Hws). exists (w :: ws).
    split; [by rewrite <- app_assoc|]. by constructor.
Qed.

Section WikiExtractedFacts.

Variable prepare_text : str -> Z -> Z -> str -> result str.

Lemma count_not_empty_docs_in_file_nonneg (text : str) :
  0 <= count_not_empty_docs_in_file text.
Proof. unfold count_not_empty_docs_in_file, zlen. lia. Qed.

(** A document that the worker writes is a piece of the file that counts as
    not empty, and its id is the one of the first piece plus its position
    among all the pieces. *)
Lemma wiki_worker_docs (input_file : str * str) (file_id start_doc_id : Z) (written_id : Z)
    (docs : list (Z * str)) (puts : list Z) :
  WikiExtractedWorker_call prepare_text input_file file_id start_doc_id
  = Ok (written_id, docs, puts) ->
  written_id = file_id
  /\ forall doc_id text,
       (doc_id, text) ∈ docs ->
       exists (p : nat) piece,
         split (lit "</doc>") input_file.2 !! p = Some piece
         /\ WIKI_EXTRACTED_NOT_EMPTY_DOC_match (lstrip piece) = true
         /\ doc_id = start_doc_id + Z.of_nat p.
Proof.
  unfold WikiExtractedWorker_call.
  destruct (for_each _ _ _) as [st| |] eqn:Hrun; cbn [mbind result_bind]; try done.
  intros [= <- <- <-]. split; [done|].
  refine (for_each_inv_elem
            (fun st : wiki_state =>
               forall doc_id text,
                 (doc_id, text) ∈ ws_prepared_docs st ->
                 exists (p : nat) piece,
                   split (lit "</doc>") input_file.2 !! p = Some piece
                   /\ WIKI_EXTRACTED_NOT_EMPTY_DOC_match (lstrip piece) = true
                   /\ doc_id = start_doc_id + Z.of_nat p)
            _ _ _ _ st _ Hrun).
  - intros s x s' Hx Hinv. apply list_elem_of_fmap in Hx as ([i piece] & -> & Hx).
    apply elem_of_lookup_imap in Hx as (p & piece' & [= -> ->] & Hp). cbn [fst snd].
    unfold wiki_doc_step.
    destruct (WIKI_EXTRACTED_NOT_EMPTY_DOC_match (lstrip piece')) eqn:Hmatch.
    + destruct (prepare_text _ _ _ _) as [text| |]; cbn [mbind result_bind]; try done.
      assert (Hnew : forall doc_id t,
                 (doc_id, t) ∈ match text with
                               | [] => ws_prepared_docs s
                               | _ => ws_prepared_docs s ++ [(start_doc_id + Z.of_nat p, text)]
                               end ->
                 exists (p0 : nat) piece,
                   split (lit "</doc>") input_file.2 !! p0 = Some piece
                   /\ WIKI_EXTRACTED_NOT_EMPTY_DOC_match (lstrip piece) = true
                   /\ doc_id = start_doc_id + Z.of_nat p0).
      { intros doc_id t Hin. destruct text as [|c text]; [by apply (Hinv doc_id t)|].
        apply elem_of_app in Hin as [Hin|Hin]; [by apply (Hinv doc_id t)|].
        apply list_elem_of_singleton in Hin as [= -> ->]. by exists p, piece'. }
      destruct (_ =? 0); cbn [mbind result_bind]; intros [= <-]; exact Hnew.
    + cbn [mbind result_bind]. intros [= <-]. exact Hinv.
  - intros doc_id text Hin. by apply elem_of_nil in Hin.
Qed.

End WikiExtractedFacts.

(** X24. The dictionary that [preprocess_wiki_extracted] returns gives file
    [i] the ids from the sum of the numbers of not empty documents of the
    files before it, for as many ids as it has not empty documents.  The
    worker of the file numbers its documents otherwise: by the position of
    the document among all the pieces between [</doc>] marks, empty ones
    included.  So a document that is written is mapped to its file by the
    dictionary exactly when its position is below the number of not empty
    documents of the file, that is when no empty piece comes before it;
    after an empty piece a document has an id that the dictionary gives to
    the next file, or to none. *)
Theorem wiki_extracted_ids (prepare_text : str -> Z -> Z -> str -> result str)
    (files_with_data : list (str * str)) (start_doc_id start_file_id : Z)
    (written : list (Z * list (Z * str) * list Z)) (doc_id_to_file_i : gmap Z Z) :
  preprocess_wiki_extracted prepare_text files_with_data start_doc_id start_file_id
  = Ok (written, doc_id_to_file_i) ->
  let counts := map (fun file : str * str => count_not_empty_docs_in_file file.2)
                  files_with_data in
  let first_id (i : nat) := start_doc_id + sumZ (take i counts) in
  (forall d f,
     doc_id_to_file_i !! d = Some f
     <-> exists i : nat,
           (i < length files_with_data)%nat /\ f = start_file_id + Z.of_nat i
           /\ first_id i <= d < first_id (S i))
  /\ length written = length files_with_data
  /\ forall (i : nat) file file_id docs puts,
       files_with_data !! i = Some file -> written !! i = Some (file_id, docs, puts) ->
       file_id = start_file_id + Z.of_nat i
       /\ forall doc_id text,
            (doc_id, text) ∈ docs ->
            exists (p : nat) piece,
              split (lit "</doc>") file.2 !! p = Some piece
              /\ WIKI_EXTRACTED_NOT_EMPTY_DOC_match (lstrip piece) = true
              /\ doc_id = first_id i + Z.of_nat p
              /\ (doc_id_to_file_i !! doc_id = Some file_id
                  <-> Z.of_nat p < count_not_empty_docs_in_file file.2).
Proof.
  intros Hrun counts first_id. unfold preprocess_wiki_extracted in Hrun.
  fold counts in Hrun.
  destruct (for_each _ (zip _ _) _) as [ws| |] eqn:Hworkers; cbn [mbind result_bind] in Hrun;
    try done.
  assert (Hcounts : length counts = length files_with_data)
    by (unfold counts; by rewrite length_map).
  assert (Hpos : Forall (fun c => 0 <= c) counts).
  { unfold counts. apply Forall_fmap, Forall_forall. intros file _. simpl.
    apply count_not_empty_docs_in_file_nonneg. }
  destruct (wiki_doc_id_to_file_i_spec counts start_doc_id start_file_id Hpos)
    as (m & Hm & Hmap).
  replace (zlen counts) with (zlen files_with_data) in Hm by (unfold zlen; lia).
  rewrite Hm in Hrun. cbn [mbind result_bind] in Hrun. injection Hrun as <- <-.
  rewrite Hcounts in Hmap.
  apply (for_each_collect
           (fun args : str * str * Z * Z =>
              WikiExtractedWorker_call prepare_text args.1.1 args.1.2 args.2)) in Hworkers
    as (ws' & -> & Hall); [|by intros acc [[file fid] st]].
  cbn [app]. apply Forall2_length in Hall as Hlen.
  unfold py_range, accumulate_initial in Hlen.
  rewrite !length_zip, length_seqZ in Hlen. cbn [length] in Hlen.
  rewrite accumulate_from_length in Hlen.
  split; [exact Hmap|]. split.
  { unfold zlen in Hlen. lia. }
  intros i file file_id docs puts Hfile Hw.
  destruct (Forall2_lookup_r _ _ _ _ _ Hall Hw) as ([[file' fid] st] & Hargs & Hcall).
  apply lookup_zip_Some in Hargs as [Hargs Hst]. apply lookup_zip_Some in Hargs as [Hf' Hfid].
  rewrite Hfile in Hf'. injection Hf' as <-.
  unfold py_range in Hfid. apply lookup_seqZ in Hfid as [-> _].
  apply lookup_lt_Some in Hfile as Hi.
  rewrite (accumulate_initial_lookup counts start_doc_id i ltac:(lia)) in Hst.
  injection Hst as <-. cbn [fst snd] in Hcall.
  destruct (wiki_worker_docs _ _ _ _ _ _ _ Hcall) as [-> Hdocs].
  split; [done|]. intros doc_id text Hin.
  destruct (Hdocs doc_id text Hin) as (p & piece & Hp & Hmatch & ->).
  exists p, piece. split_and!; try done.
  assert (Hc : counts !! i = Some (count_not_empty_docs_in_file file.2)).
  { unfold counts. by rewrite list_lookup_fmap, Hfile. }
  rewrite Hmap. fold (first_id i). split.
  - intros (j & Hj & Hfile_id & Hd).
    assert (j = i) as -> by lia. unfold first_id in Hd.
    rewrite (sumZ_take_S _ _ _ Hc) in Hd. lia.
  - intros Hlt. exists i. split_and!; [done|done|unfold first_id; lia|].
    unfold first_id. rewrite (sumZ_take_S _ _ _ Hc). lia.
Qed.

(** Two files that both hold a document without text before a document with
    text.  Each file has one not empty document, so that the dictionary
    gives the id 10 to the first file and the id 11 to the second; the
    worker of the first file writes its document under the id 11, and the
    worker of the second under the id 12, which the dictionary does not
    hold. *)
Lemma wiki_extracted_ids_witness :
  preprocess_wiki_extracted (fun _ _ _ _ => Ok (lit "Text of B."))
    [(lit "wiki_00", wiki_text); (lit "wiki_01", wiki_text)] 10 3
  = Ok ([(3, [(11, lit "Text of B.")], [1]); (4, [(12, lit "Text of B.")], [1])],
        {[10 := 3; 11 := 4]})
  /\ forall doc_id text,
       (doc_id, text) ∈ [(11, lit "Text of B.")] ->
       exists (p : nat) piece,
         split (lit "</doc>") wiki_text !! p = Some piece
         /\ WIKI_EXTRACTED_NOT_EMPTY_DOC_match (lstrip piece) = true
         /\ doc_id = 10 + sumZ (take 0 [count_not_empty_docs_in_file wiki_text;
                                        count_not_empty_docs_in_file wiki_text])
                     + Z.of_nat p
         /\ (({[10 := 3; 11 := 4]} : gmap Z Z) !! doc_id = Some 3
             <-> Z.of_nat p < count_not_empty_docs_in_file wiki_text).
Proof.
  assert (Hrun : preprocess_wiki_extracted (fun _ _ _ _ => Ok (lit "Text of B."))
                   [(lit "wiki_00", wiki_text); (lit "wiki_01", wiki_text)] 10 3
                 = Ok ([(3, [(11, lit "Text of B.")], [1]);
                        (4, [(12, lit "Text of B.")], [1])],
                       {[10 := 3; 11 := 4]})) by (by vm_compute).
  split; [exact Hrun|].
  pose proof (wiki_extracted_ids _ _ _ _ _ _ Hrun) as H. cbv zeta in H.
  destruct H as (_ & _ & Hdocs).
  destruct (Hdocs 0%nat (lit "wiki_00", wiki_text) 3 [(11, lit "Text of B.")] [1]
              eq_refl eq_refl) as [_ Hfile].
  exact Hfile.
Defined.
